(* ===== verification/_CoqProject ===== *)
-Q . S2P
Prelude.v
RustStr.v
Utf8.v
Config.v
Graph.v
Cycle.v
Frontier.v
FrontierLoops.v
FrontierFacts.v
Startup.v
Types.v
Protocol.v
Intensity.v
Tree.v
Strategy.v
World.v
Cgroup.v
Namespace.v
Spawn.v
Monad.v
Manager.v
ManagerFacts.v
StopOrder.v
Shutdown.v
Supervision.v
Control.v
Ctl.v
InitChannel.v
Readiness.v
Svmgr.v
SvmgrFacts.v
Boot.v
MainLoop.v
SvmgrMain.v
BootEnds.v
ProcMonitor.v
LoginConfig.v
LoginState.v
LoginSys.v
LoginPower.v
LoginPaths.v
LoginManager.v
LoginObjects.v
LoginFacts.v
LoginHandover.v
LoginCleanup.v
LoginAcpi.v
AcpiPipe.v
LoginDaemon.v
PowerOff.v
Sd1Bridge.v
LogStore.v
LogRoll.v
LogPipe.v
SdNotify.v
Daemons.v
Hostnamed.v
Pam.v
UnitTests.v
CrateTests.v
