(* ===== verification/Prelude.v ===== *)
(** * dynamod: a verification of an init system

    dynamod is an init system.  PID 1 (in Zig, under src/zig) starts the service
    manager [dynamod-svmgr] (in Rust, under src/rust/dynamod-svmgr) and talks to it
    over a socket pair.  The manager loads service and supervisor definitions, builds
    a supervisor tree and a dependency graph, starts the services as their
    dependencies become ready, and then loops: it reaps exited children and restarts
    them by the strategy of their supervisor, answers the control socket, and sends
    heartbeats to init; on request it stops everything in reverse dependency order.
    Around it are its clients: the command line tool [dynamodctl] and the bridge
    [dynamod-sd1bridge] speak to the control socket; the login manager
    [dynamod-logind] keeps sessions, seats, users and inhibitors and asks the manager
    to shut down; the PAM module [pam_dynamod_logind] opens and closes sessions there;
    [dynamod-sdnotify] is the library with which services report readiness;
    [dynamod-hostnamed] and [dynamod-logd] serve settings and logs.

    The development models the Rust crates.  Definitions keep the names of the source
    and are executable; the source's profile is release, so integer arithmetic wraps.

    ** What models what

    The shared crate and the tools of the models:
    - [Prelude]: results, the [?] operator, machine integers, the iteration order of
      hash containers (the class [HashOrder]: every loop over a [HashMap] or [HashSet]
      takes its order from it, so what is proved holds for every order), lists.
    - [RustStr], [Utf8]: the operations on [str] that the sources use, and UTF-8 as the
      standard library checks and repairs it.
    - [Types], [Protocol]: dynamod-common/src/types.rs and protocol.rs; the
      MessagePack library is the class [Rmp], its round trip the class [RmpRoundTrip].
    - [Monad]: computations that return, exit the process, panic, or run out of the
      rounds a loop was given, with rules of total correctness.

    The service manager, dynamod-svmgr:
    - [Config]: config/service.rs, config/supervisor.rs, config/validate.rs.  The TOML
      parser and the directory are parameters of the loaders.
    - [Graph], [Cycle], [Frontier]: dependency/graph.rs, dependency/cycle.rs,
      dependency/frontier.rs.  [FrontierLoops] and [FrontierFacts] hold the loop and
      invariant lemmas, [Startup] the theorems on every run of the frontier.
    - [Intensity], [Tree], [Strategy]: supervisor/intensity.rs, supervisor/tree.rs with
      supervisor/lifecycle.rs, supervisor/strategy.rs.
    - [World]: the class [OS] of the system operations the manager calls (clock, sleep,
      fork, kill, waitpid, pipes, files, sockets), the class [OsLaws] of the documented
      behaviour the theorems rely on, the class [FiniteExits], which adds the assumption
      that finitely many exits are still to be reported, and [scripted], an instance of
      both in which witnesses run.
    - [Cgroup], [Namespace], [Spawn], [Readiness], [ProcMonitor]: cgroup/,
      namespace/setup.rs, process/spawn.rs, process/readiness.rs, process/monitor.rs.
    - [Manager]: starting, stopping, reaping and handling exits, from main.rs;
      [ManagerFacts] the invariant they keep, [Supervision] what it gives.
    - [StopOrder], [Shutdown]: shutdown.rs.
    - [Control], [InitChannel]: ipc/control.rs, ipc/init_channel.rs.
    - [Svmgr]: the rest of main.rs (the tree from the configuration, the startup loop,
      control actions, reloading, the main loop); [SvmgrFacts], [Boot] and [MainLoop]
      prove its theorems.  [SvmgrMain]: main as a whole, from the environment to the
      return, over the rounds it lives through.  [BootEnds]: the startup loop ends.

    The login manager, dynamod-logind:
    - [LoginConfig]: config.rs.  [LoginState]: state.rs and the record of inhibitor.rs,
      with the consistency of the tables.
    - [LoginSys]: the class [LoginOS] of what the system answers, the effects in order,
      and the files over it: runtime_dir.rs, cgroup.rs, device.rs, vtswitch.rs,
      svmgr_client.rs; [demo_os] is an instance for witnesses.
    - [LoginPower]: power.rs, inhibitor.rs and acpi.rs; [LoginAcpi] the capability bits;
      [AcpiPipe] the device threads, their channel and the dispatching task, interleaved.
    - [LoginPaths]: the object paths of manager.rs; the library zvariant is [ZPath].
    - [LoginManager], [LoginObjects]: manager.rs with auth.rs; session.rs, seat.rs, user.rs.
    - [LoginFacts]: what a call does to the tables, as sections under their lock;
      [LoginDaemon]: the tasks of main.rs interleaved at that lock, and the tasks that emit
      the signals; [LoginHandover]: device handovers, and [LoginCleanup]: the delayed
      clean-up tasks of manager.rs, as step relations over all interleavings.

    The clients:
    - [Ctl]: dynamodctl (main.rs, commands/mod.rs), composed with [Control].
    - [Sd1Bridge]: dynamod-sd1bridge (mapping.rs, main.rs, manager.rs, unit.rs), also
      composed with [Control].
    - [LogStore]: dynamod-logd (storage.rs, collector.rs); [LogRoll] the rolling log it
      implements; [LogPipe]: the threads of its main.rs and the relay threads of
      process/spawn.rs, with the lock and the socket between them, as a step relation.
    - [SdNotify]: dynamod-sdnotify/src/lib.rs and the [notify_ready] of the daemons,
      composed with [Readiness].
    - [Daemons]: the start of the main.rs of the three D-Bus daemons.
    - [PowerOff]: a shutdown from the login manager through the control socket to init.
    - [Hostnamed]: dynamod-hostnamed (hostname.rs, locale.rs, timedate.rs).
    - [Pam]: pam_dynamod_logind/src/lib.rs over the class [LoginBus], which [logind_bus]
      implements by the login manager's model.

    The model is run against the source's own unit tests: [UnitTests] those of
    dynamod-svmgr, [CrateTests] those of the other crates.

    State is passed explicitly: [Mgr] is the tree, the cgroup monitor and the system;
    [Svm] adds the channel to init; [Boot] adds the frontier, the readiness trackers
    and the pending oneshots of the startup loop; [Loop] the heartbeat counters of the
    main loop; [Login] is the login manager's tables, counters, system and effects so
    far; [Logd] the log store and the files of its directory.  What comes from outside
    in a round (connections, reads, whether writes succeed) is an argument of it.

    ** What the theorems show

    - Startup.  The frontier's counters compute exactly the startable services; a
      service is started once, after its dependencies finished and its [requires] are
      ready; the blocked services are exactly the transitive requirers of the failed
      ones; at the end every service is accounted for ([Startup]).  The loop of main
      refines these runs, round by round, whatever the control socket asks meanwhile
      ([Boot]); it ends within a bound on its rounds, those aside that only wait for a
      oneshot service to exit ([BootEnds]).  Cyclic configurations are refused, and only
      these ([Cycle], [Boot]).  Any configuration gives a well-formed tree; that every
      service is in it needs unambiguous names ([config_names_ok] of [SvmgrFacts]: no two
      services or supervisors share a name, no service has a supervisor's, none names a
      service as its supervisor, supervisors come after their parents), since main only
      logs what the tree refuses.  The theorems on the startup loop and on main assume
      these; [Boot] has an example of what happens without.
    - Supervision.  The tree stays well formed ([Tree]); a strategy decides what its
      documentation says ([Strategy]) under an exact sliding window ([Intensity]); the
      reaping loop returns, keeps the invariant and restarts what exited
      ([Supervision]); a round of the main loop keeps the invariant and ends the loop
      only when the last three heartbeats failed ([MainLoop]); so does the manager's whole
      life, which neither panics nor gets stuck as long as nobody asks for a restart or a
      shutdown, names are unambiguous and exits finitely many ([SvmgrMain]).
    - Shutdown.  The order is a topological order of all services ([StopOrder]); every
      service with a process is sent its stop signal and is waited for, and SIGKILL goes to
      a child exactly if it is still there when its timeout has passed ([Shutdown]); a
      shutdown asked of the login manager stops the services and reaches init as the kind
      that was asked for ([PowerOff]).
    - Messages.  Framing round-trips and is self-delimiting ([Protocol]); the channel
      to init and the control socket deliver whole messages however the stream is cut
      ([InitChannel], [Control]); a command of dynamodctl shows what the tree says and
      leaves the action it stands for ([Ctl]); the bridge lists one unit per worker
      ([Sd1Bridge]); a notification that was sent is one the readiness check recognises
      ([SdNotify]).
    - Isolation.  A child executes its program only with its privileges dropped and its
      namespaces set up ([Spawn]), and a mount is only attempted after the unshare of the
      mount namespace and the private remount succeeded ([Namespace]).
    - Sessions.  Every interleaving of the login manager's tasks keeps sessions, seats and
      users consistent ([LoginDaemon]); removing and activating sessions do exactly what they should
      ([LoginState]); sleep waits for delay inhibitors, for a bounded time, and the buttons
      and the lid have the effects configured for them and obey block inhibitors
      ([LoginPower]); a clean-up spares users who are logged in, but for one race, which is
      exhibited, and a user lacks a directory only if it could not be made
      ([LoginCleanup]); handovers that do not
      overlap leave the devices with the last activated user ([LoginHandover]); every key
      of every input device is acted upon once, in order ([AcpiPipe]); a login through PAM
      adds one session, and its end removes it ([Pam]).
    - Daemons.  A bus name is requested only once its object is served, and READY=1 is
      sent only after all of the start succeeded ([Daemons]).
    - Logs.  Under every schedule the lines of a service reach the store in order; when the
      standard input of the daemon ends, all that the socket took is in the store once the
      threads rest, and while it is open nothing of a service is added ([LogPipe]).  The store implements a
      rolling log of five files ([LogRoll]); its memory answers the newest entries first
      ([LogStore]).
    - Parsers and settings: durations, sizes, status texts, validation, logind.conf,
      capability bitmaps, object paths, /etc/machine-info ([Config], [Cgroup], [Types],
      [LoginConfig], [LoginAcpi], [LoginPaths], [Hostnamed]).
    - Some theorems state behaviour that its authors may not want: dependents of blocked
      services never start, a stopped service comes back, escalation does nothing, a
      oneshot that cannot be spawned hangs the startup, a remote login is put on seat0.

    ** Rounds and fuel

    [dfs] and [block_loop] get the number of nodes and of edges, proved enough.
    [reap_and_handle_exits] takes one more round than the system has exits left to
    report ([events] of [FiniteExits]: an assumption, which excludes services that for ever
    crash as fast as they are restarted and so keep the loop busy); [wait_exit], [wait_killed] and [await_exit]
    take the number of 50 ms sleeps their timeout lasts, proved enough since sleeping
    advances the clock; [delay_loop] takes more than ten polls per second of the
    configured delay, for the same reason; [format_tree] takes the number of nodes,
    proved enough on a well-formed tree.  [boot_loop] runs for a given list of rounds:
    it need not end while a oneshot service does not ([Boot]), and otherwise ends within
    [startup_bound] rounds ([BootEnds]).  The counter of session ids is 64 bits wide; the theorems on calls
    take fewer of them than that.

    ** What is not modelled

    The text of the log output and the parsing of command lines; the libraries: TOML and
    MessagePack (parameters), the D-Bus library, of which methods are functions from
    arguments to replies, and the runtime, of which tasks are the interleavings above;
    descriptors closed when their owner goes out of scope; the Zig init, which the manager
    sees through the channel only.  Of the unit tests, those that need a real file system,
    real processes or the serializers.  In [LoginHandover] a change of an owner does not
    fail; in [LogPipe] the writes of the store may. *)

From stdpp Require Export base gmap strings list sets fin_maps.
From Stdlib Require Export ZArith Lia.

#[export] Set Warnings "-clear-no-such-hyp".
#[global] Arguments String.append !_ _ / : simpl nomatch.

(** ** Results *)

(** [Result<A, E>] of the source. *)
Inductive result (A E : Type) : Type :=
| Ok (a : A)
| Err (e : E).
Arguments Ok {A E} a.
Arguments Err {A E} e.

Declare Scope dynamod_scope.
Delimit Scope dynamod_scope with dyn.

(** The [?] operator: propagate the error, go on with the value. *)
Notation "x <-? c ; k" :=
  (match c with Ok x => k | Err e => Err e end)
  (at level 100, c at next level, right associativity) : dynamod_scope.
Open Scope dynamod_scope.

(** ** Machine integers (release profile: arithmetic wraps) *)

Definition U32_MAX : Z := 2 ^ 32 - 1.
Definition U64_MAX : Z := 2 ^ 64 - 1.
Definition wrap_u64 (z : Z) : Z := z mod 2 ^ 64.
Definition wrap_u32 (z : Z) : Z := z mod 2 ^ 32.

(** [as i32] of a 32-bit number. *)
Definition as_i32 (z : Z) : Z := if (z <? 2 ^ 31)%Z then z else (z - 2 ^ 32)%Z.

(** [usize::saturating_sub(1)] on a counter. *)
Definition saturating_sub (n m : nat) : nat := n - m.

(** ** Iteration order of hash containers

    [HashMap] and [HashSet] iterate in an order that depends on the seed of
    each container, so every loop over one takes its order from a [HashOrder].
    The first argument of [set_iter] and [map_iter] identifies the container
    instance: two containers that hold the same elements may iterate in
    different orders. *)
Class HashOrder := {
  set_iter : string → gset string → list string;
  set_iter_perm : ∀ tag X, set_iter tag X ≡ₚ elements X;
  map_iter : ∀ {V : Type}, string → gmap string V → list (string * V);
  map_iter_perm : ∀ V tag (m : gmap string V), map_iter tag m ≡ₚ map_to_list m;
}.

(** The order of [elements], the one the examples are evaluated with. *)
Definition elements_order : HashOrder.
Proof.
  refine {| set_iter := λ _ X, elements X; map_iter := λ V _ m, map_to_list m |}; done.
Defined.
(** A second order, the reverse one. *)
Definition reverse_order : HashOrder.
Proof.
  refine {| set_iter := λ _ X, reverse (elements X);
            map_iter := λ V _ m, reverse (map_to_list m) |};
  intros; apply reverse_Permutation.
Defined.

Section hash_order.
Context `{HO : HashOrder}.

Lemma elem_of_set_iter tag (X : gset string) x : x ∈ set_iter tag X ↔ x ∈ X.
Proof. by rewrite set_iter_perm, elem_of_elements. Qed.

Lemma NoDup_set_iter tag (X : gset string) : NoDup (set_iter tag X).
Proof. rewrite set_iter_perm. apply NoDup_elements. Qed.

Lemma length_set_iter tag (X : gset string) : length (set_iter tag X) = size X.
Proof. by rewrite set_iter_perm. Qed.

Lemma elem_of_map_iter {V} tag (m : gmap string V) k v :
  (k, v) ∈ map_iter tag m ↔ m !! k = Some v.
Proof. by rewrite map_iter_perm, elem_of_map_to_list. Qed.

Lemma NoDup_map_iter {V} tag (m : gmap string V) : NoDup (map_iter tag m).*1.
Proof. rewrite map_iter_perm. apply NoDup_fst_map_to_list. Qed.
End hash_order.

(** ** Tactics and hint databases *)

Create HintDb dynamod.
Create Rewrite HintDb dynamod.
#[export] Hint Resolve NoDup_set_iter NoDup_map_iter : dynamod.
#[export] Hint Rewrite @elem_of_set_iter @elem_of_map_iter @length_set_iter : dynamod.

(** Destruct every existential and conjunction of the context. *)
Ltac deex :=
  repeat match goal with
  | H : ∃ _, _ |- _ => destruct H
  | H : _ ∧ _ |- _ => destruct H
  end.

(** Case on the scrutinee of a match or if in the goal, keeping its equation. *)
Ltac case_goal :=
  match goal with
  | |- context [match ?x with _ => _ end] => destruct x eqn:?
  end.

(** The same in a hypothesis. *)
Ltac case_hyp H :=
  match type of H with
  | context [match ?x with _ => _ end] => destruct x eqn:?
  end.

(** ** Lists *)

(** [iter().position(p)]: the index of the first element that satisfies [p]. *)
Fixpoint position {A} (p : A → bool) (l : list A) : option nat :=
  match l with
  | [] => None
  | x :: l => if p x then Some 0 else S <$> position p l
  end.

Lemma position_Some {A} (p : A → bool) (l : list A) i :
  position p l = Some i →
  ∃ x, l !! i = Some x ∧ p x = true ∧ ∀ j y, j < i → l !! j = Some y → p y = false.
Proof.
  revert i. induction l as [|x l IH]; intros i; simpl; [done|].
  destruct (p x) eqn:Hp.
  - intros [= <-]. exists x. split; [done|]. split; [done|]. intros j y Hj. lia.
  - intros (i' & Hi & ->)%fmap_Some_1. destruct (IH _ Hi) as (y & Hy & Hpy & Hmin).
    exists y. do 2 (split; [done|]). intros [|j] z Hj; simpl.
    + by intros [= <-].
    + apply Hmin. lia.
Qed.

(** Replacing an element changes no other position. *)
Lemma lookup_middle_ne {A} (l1 : list A) r r' l2 i :
  i ≠ length l1 → (l1 ++ r' :: l2) !! i = (l1 ++ r :: l2) !! i.
Proof.
  intros Hi. destruct (decide (i < length l1)%nat).
  - by rewrite !lookup_app_l.
  - rewrite !lookup_app_r by lia. destruct (i - length l1)%nat eqn:E; [lia|done].
Qed.

Lemma position_None {A} (p : A → bool) (l : list A) :
  position p l = None ↔ ∀ x, x ∈ l → p x = false.
Proof.
  induction l as [|x l IH]; simpl.
  - split; [|done]. intros _ y Hy. by apply elem_of_nil in Hy.
  - destruct (p x) eqn:Hp.
    + split; [done|]. intros H. specialize (H x (list_elem_of_here _ _)). congruence.
    + rewrite fmap_None, IH. setoid_rewrite elem_of_cons. naive_solver.
Qed.

Lemma position_is_Some {A} (p : A → bool) (l : list A) x :
  x ∈ l → p x = true → ∃ i, position p l = Some i.
Proof.
  intros Hx Hp. destruct (position p l) as [i|] eqn:E; [by exists i|].
  rewrite position_None in E. specialize (E x Hx). congruence.
Qed.

(** Dropping up to the position of an element keeps that element in front. *)
Lemma drop_position {A} (p : A → bool) (l : list A) i :
  position p l = Some i → ∃ x l', drop i l = x :: l' ∧ p x = true.
Proof.
  intros (x & Hx & Hp & _)%position_Some.
  exists x, (drop (S i) l). split; [|done]. by apply drop_S.
Qed.

(** The number of elements of a filtered set, when one element stops passing. *)
Lemma size_filter_remove (P Q : string → Prop) `{!∀ x, Decision (P x), !∀ x, Decision (Q x)}
    (X : gset string) a :
  a ∈ X → P a → (∀ x, x ∈ X → (Q x ↔ P x ∧ x ≠ a)) →
  size (filter P X) = S (size (filter Q X)).
Proof.
  intros Ha HP HQ.
  assert (filter P X = {[a]} ∪ filter Q X) as ->.
  { apply set_eq. intros x. rewrite elem_of_union, !elem_of_filter, elem_of_singleton.
    destruct (decide (x = a)) as [->|]; naive_solver. }
  rewrite size_union; [by rewrite size_singleton|].
  intros x Hx%elem_of_singleton Hq%elem_of_filter. subst. naive_solver.
Qed.

(** Two predicates that agree on a set filter it alike. *)
Lemma filter_set_ext (P Q : string → Prop) `{!∀ x, Decision (P x), !∀ x, Decision (Q x)}
    (X : gset string) :
  (∀ x, x ∈ X → (P x ↔ Q x)) → filter P X = filter Q X.
Proof. intros Hext. apply set_eq. intros x. rewrite !elem_of_filter. naive_solver. Qed.
