(* ===== verification/RustStr.v ===== *)
(** * Rust strings

    The operations of [str] the sources use ([trim], [strip_prefix],
    [strip_suffix], [split], [lines], [parse], [to_string], ...), on byte
    strings: a Rust [str] is UTF-8, and every operation here searches for
    complete UTF-8 encodings, so working on the bytes is exact.  [parse] is
    [FromStr] of the fixed-width integers, [to_string] their [Display]. *)

From S2P Require Import Prelude.

#[local] Open Scope string_scope.
#[local] Open Scope Z_scope.

(** ** Prefixes, suffixes, searching *)

(** [strip_prefix]. *)
Fixpoint strip_prefix (pre s : string) : option string :=
  match pre, s with
  | EmptyString, _ => Some s
  | String c pre, String d s => if Ascii.eqb c d then strip_prefix pre s else None
  | String _ _, EmptyString => None
  end.

(** [strip_suffix]. *)
Fixpoint strip_suffix (suf s : string) : option string :=
  if String.eqb s suf then Some ""
  else match s with
       | EmptyString => None
       | String c s => String c <$> strip_suffix suf s
       end.

(** [starts_with]. *)
Definition starts_with (pre s : string) : bool :=
  match strip_prefix pre s with Some _ => true | None => false end.

(** [contains] with a string pattern. *)
Fixpoint contains (pat s : string) : bool :=
  starts_with pat s ||
  match s with EmptyString => false | String _ s => contains pat s end.

(** The text before and after the first occurrence of [sep]. *)
Fixpoint find_sub (sep s : string) : option (string * string) :=
  match strip_prefix sep s with
  | Some rest => Some ("", rest)
  | None =>
      match s with
      | EmptyString => None
      | String c s => '(a, b) ← find_sub sep s; Some (String c a, b)
      end
  end.

(** [split_once]. *)
Definition split_once (sep s : string) : option (string * string) := find_sub sep s.

(** [split] with a non-empty separator; each piece consumes at least one byte,
    so [length s] rounds are enough. *)
Fixpoint split_go (fuel : nat) (sep s : string) : list string :=
  match fuel with
  | O => [s]
  | S fuel =>
      match find_sub sep s with
      | Some (a, b) => a :: split_go fuel sep b
      | None => [s]
      end
  end.
Definition split (sep s : string) : list string := split_go (String.length s) sep s.

(** [join]. *)
Fixpoint join (sep : string) (l : list string) : string :=
  match l with
  | [] => ""
  | [x] => x
  | x :: l => x ++ sep ++ join sep l
  end.

(** Split at every occurrence of one byte. *)
Fixpoint split_byte (c : Ascii.ascii) (s : string) : list string :=
  match s with
  | EmptyString => [""]
  | String d s =>
      if Ascii.eqb c d then "" :: split_byte c s
      else match split_byte c s with
           | h :: t => String d h :: t
           | [] => [String d ""]
           end
  end.

Definition newline : Ascii.ascii := Ascii.ascii_of_nat 10.
Definition carriage_return : string := String (Ascii.ascii_of_nat 13) "".

(** [lines]: a line ends at ["\n"] or ["\r\n"]; a final line without a
    terminator is kept as it is, an empty final one is dropped. *)
Definition lines (s : string) : list string :=
  let pieces := split_byte newline s in
  let terminated := removelast pieces in
  let final := List.last pieces "" in
  map (λ l, default l (strip_suffix carriage_return l)) terminated
  ++ (if String.eqb final "" then [] else [final]).

(** [trim_end_matches] with a predicate on bytes. *)
Fixpoint trim_end_matches (p : Ascii.ascii → bool) (s : string) : string :=
  match s with
  | EmptyString => ""
  | String c s =>
      match trim_end_matches p s with
      | EmptyString => if p c then "" else String c ""
      | r => String c r
      end
  end.

(** ** Whitespace *)

(** A string from its byte values. *)
Definition bytes_str (l : list nat) : string :=
  fold_right (λ n s, String (Ascii.ascii_of_nat n) s) "" l.

(** The UTF-8 encodings of the characters with the White_Space property. *)
Definition whitespace : list string :=
  map bytes_str
    ([ [9]; [10]; [11]; [12]; [13]; [32]; [194; 133]; [194; 160]; [225; 154; 128];
      [226; 128; 168]; [226; 128; 169]; [226; 128; 175]; [226; 129; 159];
      [227; 128; 128] ]%nat
     ++ map (λ n, [226; 128; n]%nat) (seq 128 11)).

(** The first pattern that applies. *)
Fixpoint first_strip (strip : string → string → option string)
    (pats : list string) (s : string) : option string :=
  match pats with
  | [] => None
  | p :: pats =>
      match strip p s with Some r => Some r | None => first_strip strip pats s end
  end.

Fixpoint trim_with (fuel : nat) (strip : string → string → option string) (s : string) : string :=
  match fuel with
  | O => s
  | S fuel =>
      match first_strip strip whitespace s with
      | Some r => trim_with fuel strip r
      | None => s
      end
  end.
Definition trim_start (s : string) : string := trim_with (String.length s) strip_prefix s.
Definition trim_end (s : string) : string := trim_with (String.length s) strip_suffix s.
(** [trim]. *)
Definition trim (s : string) : string := trim_end (trim_start s).

(** ** Integers *)

Definition digit_char (d : Z) : Ascii.ascii := Ascii.ascii_of_N (Z.to_N (48 + d)).

Definition digit_val (c : Ascii.ascii) : option Z :=
  let n := Z.of_N (Ascii.N_of_ascii c) in
  if (48 <=? n) && (n <=? 57) then Some (n - 48) else None.

Definition is_ascii_digit (c : Ascii.ascii) : bool :=
  match digit_val c with Some _ => true | None => false end.

(** [checked_mul(10)] then [checked_add(digit)] (or [checked_sub]) per byte. *)
Fixpoint parse_digits (lo hi sign acc : Z) (s : string) : option Z :=
  match s with
  | EmptyString => Some acc
  | String c s =>
      match digit_val c with
      | None => None
      | Some d =>
          let m := acc * 10 in
          if (lo <=? m) && (m <=? hi) then
            let a := m + sign * d in
            if (lo <=? a) && (a <=? hi) then parse_digits lo hi sign a s else None
          else None
      end
  end.

Definition plus : Ascii.ascii := Ascii.ascii_of_nat 43.
Definition minus : Ascii.ascii := Ascii.ascii_of_nat 45.

(** [parse::<uN>()]: an optional [+], then digits. *)
Definition parse_unsigned (hi : Z) (s : string) : option Z :=
  match s with
  | EmptyString => None
  | String c EmptyString => parse_digits 0 hi 1 0 s
  | String c r => if Ascii.eqb c plus then parse_digits 0 hi 1 0 r
                  else parse_digits 0 hi 1 0 s
  end.

(** [parse::<iN>()]: an optional sign, then digits. *)
Definition parse_signed (lo hi : Z) (s : string) : option Z :=
  match s with
  | EmptyString => None
  | String c EmptyString => parse_digits lo hi 1 0 s
  | String c r => if Ascii.eqb c plus then parse_digits lo hi 1 0 r
                  else if Ascii.eqb c minus then parse_digits lo hi (-1) 0 r
                  else parse_digits lo hi 1 0 s
  end.

Definition parse_u64 : string → option Z := parse_unsigned U64_MAX.
Definition parse_u32 : string → option Z := parse_unsigned U32_MAX.
Definition parse_i32 : string → option Z := parse_signed (- 2 ^ 31) (2 ^ 31 - 1).

(** Decimal digits of a non-negative number below [2 ^ fuel]. *)
Fixpoint dec_go (fuel : nat) (n : Z) (acc : string) : string :=
  match fuel with
  | O => acc
  | S fuel =>
      if n <? 10 then String (digit_char n) acc
      else dec_go fuel (n / 10) (String (digit_char (n mod 10)) acc)
  end.
(** [to_string] of an integer. *)
Definition to_string (n : Z) : string :=
  if n <? 0 then String minus (dec_go (S (Z.to_nat (Z.log2 (- n)))) (- n) "")
  else dec_go (S (Z.to_nat (Z.log2 n))) n "".

Example parse_examples :
  (parse_u64 "18446744073709551615", parse_u64 "18446744073709551616", parse_u64 "+7",
   parse_u64 "+", parse_u64 "-1", parse_i32 "-2147483648", parse_i32 "2147483648", parse_i32 "-")
  = (Some 18446744073709551615, None, Some 7, None, None, Some (-2147483648), None, None).
Proof. vm_compute. reflexivity. Qed.
Example string_examples :
  (trim (bytes_str [9; 32]%nat ++ "a b" ++ bytes_str [194; 160; 10]%nat), to_string (-120), to_string 0,
   split "=" "a=b==c", split "ab" "", lines (bytes_str [97; 13; 10; 10; 98; 13]%nat))
  = ("a b", "-120", "0", ["a"; "b"; ""; "c"], [""], ["a"; ""; bytes_str [98; 13]%nat]).
Proof. vm_compute. reflexivity. Qed.

(** A line break, several texts in a row, and the test for a zero byte. *)
Definition nl : string := String newline "".
Definition cat (l : list string) : string := foldr String.append "" l.
Definition has_nul (s : string) : bool := contains (String Ascii.zero "") s.

(** ** Lemmas *)

Lemma app_nil_r_str (s : string) : s ++ "" = s.
Proof. induction s; simpl; congruence. Qed.

Lemma app_assoc_str (a b c : string) : (a ++ b) ++ c = a ++ (b ++ c).
Proof. induction a; simpl; congruence. Qed.

Lemma cat_app l k : cat (l ++ k)%list = cat l ++ cat k.
Proof. unfold cat. induction l as [|x l IH]; [done|]. cbn [app foldr]. by rewrite IH, app_assoc_str. Qed.

Lemma has_nul_cons c s : has_nul (String c s) = Ascii.eqb Ascii.zero c || has_nul s.
Proof.
  unfold has_nul. cbn [contains]. unfold starts_with. cbn [strip_prefix]. by destruct (Ascii.eqb Ascii.zero c).
Qed.

Lemma has_nul_app a b : has_nul (a ++ b) = has_nul a || has_nul b.
Proof.
  induction a as [|c a IH]; [done|]. cbn [String.append]. by rewrite !has_nul_cons, IH, orb_assoc.
Qed.

Lemma length_app_str (a b : string) :
  String.length (a ++ b) = (String.length a + String.length b)%nat.
Proof. induction a; simpl; congruence. Qed.

Lemma strip_prefix_Some pre s r : strip_prefix pre s = Some r ↔ s = pre ++ r.
Proof.
  revert s. induction pre as [|c pre IH]; intros s; simpl; [naive_solver|].
  destruct s as [|d s]; [naive_solver|].
  destruct (Ascii.eqb_spec c d) as [->|Hne]; [rewrite IH|]; naive_solver.
Qed.

Lemma strip_prefix_app pre r : strip_prefix pre (pre ++ r) = Some r.
Proof. by apply strip_prefix_Some. Qed.

Lemma strip_suffix_Some suf s r : strip_suffix suf s = Some r ↔ s = r ++ suf.
Proof.
  revert r. induction s as [|c s IH]; intros r; cbn [strip_suffix].
  - destruct (String.eqb_spec "" suf) as [<-|Hne].
    + rewrite app_nil_r_str. naive_solver.
    + split; [done|]. destruct r; simpl; naive_solver.
  - destruct (String.eqb_spec (String c s) suf) as [<-|Hne].
    + split; [by intros [= <-]|]. intros H.
      assert (r = "") as ->; [|done].
      apply (f_equal String.length) in H. rewrite length_app_str in H.
      destruct r; [done|]. simpl in H. lia.
    + rewrite fmap_Some. setoid_rewrite IH. split.
      * by intros (r' & -> & ->).
      * destruct r as [|d r]; simpl; [naive_solver|].
        intros [= -> ->]. eauto.
Qed.

Lemma strip_suffix_app suf r : strip_suffix suf (r ++ suf) = Some r.
Proof. by apply strip_suffix_Some. Qed.

(** [str_all p s]: every byte of [s] satisfies [p]. *)
Fixpoint str_all (p : Ascii.ascii → bool) (s : string) : bool :=
  match s with EmptyString => true | String c s => p c && str_all p s end.

Lemma str_all_app p a b : str_all p (a ++ b) = str_all p a && str_all p b.
Proof. induction a; simpl; [done|]. by rewrite IHa, andb_assoc. Qed.

Lemma str_all_impl (p q : Ascii.ascii → bool) s :
  (∀ c, p c = true → q c = true) → str_all p s = true → str_all q s = true.
Proof. intros Hpq. induction s; simpl; [done|]. rewrite !andb_true_iff. naive_solver. Qed.

(** A separator is not found in text without its first byte. *)
Lemma find_sub_none c sep s :
  str_all (λ d, negb (Ascii.eqb c d)) s = true → find_sub (String c sep) s = None.
Proof.
  induction s as [|d s IH]; [done|]. cbn [str_all find_sub strip_prefix].
  destruct (Ascii.eqb c d); simpl; [done|]. intros H. by rewrite (IH H).
Qed.

Lemma find_sub_first c sep s rest :
  str_all (λ d, negb (Ascii.eqb c d)) s = true →
  find_sub (String c sep) (s ++ String c sep ++ rest) = Some (s, rest).
Proof.
  induction s as [|d s IH]; cbn [str_all].
  - intros _. destruct (find_sub _ _) as [[]|] eqn:E; revert E; cbn;
      rewrite Ascii.eqb_refl, strip_prefix_app; naive_solver.
  - cbn [String.append find_sub strip_prefix].
    destruct (Ascii.eqb c d); simpl; [done|]. intros H.
    specialize (IH H). cbn [String.append] in IH. by rewrite IH.
Qed.

(** *** Trimming *)

Lemma first_strip_app_None strip pats s :
  first_strip strip pats s = None ↔ Forall (λ p, strip p s = None) pats.
Proof.
  induction pats as [|p pats IH]; simpl; [by rewrite Forall_nil|].
  rewrite Forall_cons. destruct (strip p s); [naive_solver|]. rewrite IH. naive_solver.
Qed.

Lemma first_strip_Some strip pats s r :
  first_strip strip pats s = Some r → ∃ p, p ∈ pats ∧ strip p s = Some r.
Proof.
  induction pats as [|p pats IH]; simpl; [done|].
  destruct (strip p s) eqn:E; [intros [= ->]; exists p; split; [left|done]|].
  intros (q & ? & ?)%IH. exists q. split; [by right|done].
Qed.

(** Every whitespace encoding has at least one byte. *)
Lemma whitespace_nonempty p : p ∈ whitespace → (0 < String.length p)%nat.
Proof.
  intros Hp. assert (Forall (λ p, (0 < String.length p)%nat) whitespace) as H.
  { vm_compute. repeat constructor. }
  by apply (proj1 (Forall_forall _ _) H).
Qed.

(** The rounds of [trim_with] are enough: no whitespace is left at that end. *)
Lemma trim_with_done fuel strip s :
  (∀ p s r, p ∈ whitespace → strip p s = Some r → (String.length r < String.length s)%nat) →
  (∀ p, p ∈ whitespace → strip p "" = None) →
  (String.length s ≤ fuel)%nat →
  first_strip strip whitespace (trim_with fuel strip s) = None.
Proof.
  intros Hdec Hnil. revert s. induction fuel as [|fuel IH]; intros s Hs; cbn [trim_with].
  - destruct s; [|simpl in Hs; lia]. apply first_strip_app_None, Forall_forall. auto.
  - destruct (first_strip strip whitespace s) as [r|] eqn:E; [|done].
    apply IH. destruct (first_strip_Some _ _ _ _ E) as (p & Hp & Hr).
    specialize (Hdec _ _ _ Hp Hr). lia.
Qed.

Lemma trim_end_spec s : first_strip strip_suffix whitespace (trim_end s) = None.
Proof.
  apply trim_with_done; [..|done].
  - intros p q r Hp%whitespace_nonempty ->%strip_suffix_Some. rewrite length_app_str. lia.
  - intros p Hp%whitespace_nonempty. destruct (strip_suffix p "") as [r|] eqn:E; [|done].
    apply strip_suffix_Some in E. apply (f_equal String.length) in E.
    rewrite length_app_str in E. simpl in E. lia.
Qed.

(** Text that begins and ends with a byte no whitespace has is left alone. *)
Definition plain_byte (c : Ascii.ascii) : bool :=
  let n := Z.of_N (Ascii.N_of_ascii c) in (33 <=? n) && (n <=? 126).

Fixpoint last_byte (d : Ascii.ascii) (s : string) : Ascii.ascii :=
  match s with EmptyString => d | String c s => last_byte c s end.

(** No whitespace encoding begins or ends with a printable ASCII byte. *)
Lemma whitespace_check p :
  p ∈ whitespace →
  match p with
  | EmptyString => false
  | String c r => negb (plain_byte c) && negb (plain_byte (last_byte c r))
  end = true.
Proof.
  intros Hp. apply (proj1 (forallb_forall (λ p, match p with
    | EmptyString => false
    | String c r => negb (plain_byte c) && negb (plain_byte (last_byte c r)) end) whitespace)).
  - vm_compute. reflexivity.
  - by apply list_elem_of_In.
Qed.

Lemma whitespace_not_plain p c r :
  p ∈ whitespace → plain_byte c = true → strip_prefix p (String c r) = None.
Proof.
  intros Hp Hc. destruct (strip_prefix p (String c r)) as [q|] eqn:E; [|done].
  apply strip_prefix_Some in E.
  pose proof (whitespace_check _ Hp) as H. destruct p as [|d p]; [done|].
  simpl in E. injection E as -> _. by rewrite Hc in H.
Qed.

Lemma last_byte_app d s t : last_byte d (s ++ t) = last_byte (last_byte d s) t.
Proof. revert d. induction s; simpl; auto. Qed.

Lemma whitespace_not_plain_suffix p s :
  p ∈ whitespace → (∃ d, s ≠ "" ∧ plain_byte (last_byte d s) = true) →
  strip_suffix p s = None.
Proof.
  intros Hp (d & Hs & Hc). destruct (strip_suffix p s) as [q|] eqn:E; [|done].
  apply strip_suffix_Some in E as ->.
  pose proof (whitespace_check _ Hp) as H. destruct p as [|c p]; [done|].
  rewrite last_byte_app in Hc. cbn [last_byte] in Hc. rewrite Hc in H.
  by rewrite andb_false_r in H.
Qed.

(** [trim] on text between two non-blank printable bytes. *)
Lemma trim_plain c s :
  plain_byte c = true → plain_byte (last_byte c s) = true → trim (String c s) = String c s.
Proof.
  intros Hc Hl. unfold trim, trim_start.
  assert (first_strip strip_prefix whitespace (String c s) = None) as Hp.
  { apply first_strip_app_None, Forall_forall. eauto using whitespace_not_plain. }
  cbn [String.length trim_with]. rewrite Hp.
  unfold trim_end.
  assert (first_strip strip_suffix whitespace (String c s) = None) as Hq.
  { apply first_strip_app_None, Forall_forall. intros p Hin.
    apply whitespace_not_plain_suffix; [done|]. exists c. split; [done|]. done. }
  cbn [String.length trim_with]. by rewrite Hq.
Qed.

(** *** Decimal round trips *)

Lemma digit_val_char d : 0 ≤ d < 10 → digit_val (digit_char d) = Some d.
Proof.
  intros Hd. assert (d = 0 ∨ d = 1 ∨ d = 2 ∨ d = 3 ∨ d = 4 ∨ d = 5 ∨ d = 6 ∨ d = 7 ∨ d = 8 ∨ d = 9)
    as H by lia.
  repeat (destruct H as [->|H]; [reflexivity|]). by subst.
Qed.

Lemma parse_digits_dec_go lo hi sign fuel n acc :
  lo ≤ 0 ≤ hi → (sign = 1 ∧ n ≤ hi ∨ sign = -1 ∧ lo ≤ - n) → 0 ≤ n < 2 ^ Z.of_nat fuel →
  parse_digits lo hi sign 0 (dec_go fuel n acc) = parse_digits lo hi sign (sign * n) acc.
Proof.
  intros Hb. revert n acc. induction fuel as [|fuel IH]; intros n acc Hs Hn.
  { simpl in Hn. assert (n = 0) as -> by lia. by rewrite Z.mul_0_r. }
  cbn [dec_go]. destruct (Z.ltb_spec n 10).
  - cbn [parse_digits]. rewrite digit_val_char by lia. rewrite Z.mul_0_l.
    rewrite (proj2 (Z.leb_le lo 0)), (proj2 (Z.leb_le 0 hi)) by lia. cbn [andb].
    rewrite Z.add_0_l.
    rewrite (proj2 (Z.leb_le lo _)), (proj2 (Z.leb_le _ hi)) by (destruct Hs; nia). done.
  - rewrite IH; [|destruct Hs as [[-> ?]|[-> ?]]; [left|right]; split; try done|].
    + cbn [parse_digits]. rewrite digit_val_char by (apply Z.mod_pos_bound; lia).
      pose proof (Z.div_mod n 10 ltac:(lia)) as Hdm.
      pose proof (Z.mod_pos_bound n 10 ltac:(lia)).
      rewrite (proj2 (Z.leb_le lo _)), (proj2 (Z.leb_le _ hi)) by (destruct Hs as [[-> ?]|[-> ?]]; lia).
      cbn [andb].
      replace (sign * (n / 10) * 10 + sign * (n mod 10)) with (sign * n) by lia.
      rewrite (proj2 (Z.leb_le lo _)), (proj2 (Z.leb_le _ hi)) by (destruct Hs as [[-> ?]|[-> ?]]; lia).
      done.
    + pose proof (Z.div_le_upper_bound n 10 n). lia.
    + pose proof (Z.div_le_upper_bound n 10 n). lia.
    + split; [by apply Z.div_pos; lia|].
      rewrite Nat2Z.inj_succ, Z.pow_succ_r in Hn by lia.
      apply Z.div_lt_upper_bound; lia.
Qed.

(** A decimal rendering is a non-empty run of digits. *)
Lemma dec_go_digits fuel n acc :
  0 ≤ n → str_all is_ascii_digit acc = true → (0 < fuel)%nat →
  ∃ c r, dec_go fuel n acc = String c r ∧ str_all is_ascii_digit (String c r) = true.
Proof.
  revert n acc. induction fuel as [|fuel IH]; intros n acc Hn Ha Hf; [lia|].
  cbn [dec_go]. destruct (Z.ltb_spec n 10).
  - eexists _, _. split; [done|]. cbn [str_all]. unfold is_ascii_digit at 1.
    by rewrite digit_val_char by lia.
  - destruct fuel as [|fuel].
    + eexists _, _. split; [done|]. cbn [str_all]. unfold is_ascii_digit at 1.
      by rewrite digit_val_char by (apply Z.mod_pos_bound; lia).
    + apply IH; [by apply Z.div_pos; lia| |lia].
      cbn [str_all]. unfold is_ascii_digit at 1.
      by rewrite digit_val_char by (apply Z.mod_pos_bound; lia).
Qed.

Lemma digit_not_sign c r :
  str_all is_ascii_digit (String c r) = true → Ascii.eqb c plus = false ∧ Ascii.eqb c minus = false.
Proof.
  cbn [str_all]. intros [H _]%andb_true_iff.
  split; (destruct (Ascii.eqb_spec c plus) || idtac); try done; subst; try done;
    destruct (Ascii.eqb_spec c minus); subst; done.
Qed.

Lemma log2_fuel n : 0 ≤ n → 0 ≤ n < 2 ^ Z.of_nat (S (Z.to_nat (Z.log2 n))).
Proof.
  intros Hn. split; [done|]. rewrite Nat2Z.inj_succ, Z2Nat.id by apply Z.log2_nonneg.
  destruct (decide (n = 0)) as [->|]; [done|]. apply Z.log2_spec. lia.
Qed.

Lemma to_string_nonneg n :
  0 ≤ n → ∃ c r, to_string n = String c r ∧ str_all is_ascii_digit (String c r) = true.
Proof.
  intros Hn. unfold to_string. rewrite (proj2 (Z.ltb_ge n 0)) by lia.
  by apply dec_go_digits; [| |lia].
Qed.

(** Printing then parsing an unsigned integer of the width. *)
Lemma parse_unsigned_to_string hi n : 0 ≤ n ≤ hi → parse_unsigned hi (to_string n) = Some n.
Proof.
  intros Hn. destruct (to_string_nonneg n) as (c & r & Heq & Hd); [lia|].
  assert (parse_digits 0 hi 1 0 (to_string n) = Some n) as Hp.
  { unfold to_string. rewrite (proj2 (Z.ltb_ge n 0)) by lia.
    rewrite parse_digits_dec_go; [by rewrite Z.mul_1_l|lia|lia|by apply log2_fuel; lia]. }
  rewrite Heq in *. unfold parse_unsigned.
  destruct (digit_not_sign _ _ Hd) as [-> _]. by destruct r.
Qed.

(** The same for signed integers, negative ones included. *)
Lemma parse_signed_to_string lo hi n :
  lo ≤ 0 ≤ hi → lo ≤ n ≤ hi → parse_signed lo hi (to_string n) = Some n.
Proof.
  intros Hb Hn. unfold to_string. destruct (Z.ltb_spec n 0).
  - destruct (dec_go_digits (S (Z.to_nat (Z.log2 (- n)))) (- n) "") as (c & r & Heq & Hd);
      [lia|done|lia|].
    assert (parse_digits lo hi (-1) 0 (String c r) = Some n) as Hp.
    { rewrite <-Heq, parse_digits_dec_go; [cbn; f_equal; lia|lia|lia|by apply log2_fuel; lia]. }
    rewrite Heq. exact Hp.
  - destruct (dec_go_digits (S (Z.to_nat (Z.log2 n))) n "") as (c & r & Heq & Hd);
      [lia|done|lia|].
    assert (parse_digits lo hi 1 0 (String c r) = Some n) as Hp.
    { rewrite <-Heq, parse_digits_dec_go; [cbn; f_equal; lia|lia|lia|by apply log2_fuel; lia]. }
    rewrite Heq. unfold parse_signed.
    destruct (digit_not_sign _ _ Hd) as [-> ->]. by destruct r.
Qed.

(** Bytes of a rendered integer are digits or the sign. *)
Definition is_int_byte (c : Ascii.ascii) : bool := is_ascii_digit c || Ascii.eqb c minus.

Lemma to_string_int_bytes n :
  ∃ c r, to_string n = String c r ∧ str_all is_int_byte (String c r) = true
         ∧ is_ascii_digit (last_byte c r) = true.
Proof.
  assert (∀ c r, str_all is_ascii_digit (String c r) = true →
    str_all is_int_byte (String c r) = true ∧ is_ascii_digit (last_byte c r) = true) as Hall.
  { intros c r H. split.
    - eapply str_all_impl; [|exact H]. intros d Hd. unfold is_int_byte. by rewrite Hd.
    - revert c H. induction r as [|d r IH]; intros c; cbn [str_all last_byte].
      + by intros [? _]%andb_true_iff.
      + intros [_ H]%andb_true_iff. by apply IH. }
  unfold to_string. destruct (Z.ltb_spec n 0).
  - destruct (dec_go_digits (S (Z.to_nat (Z.log2 (- n)))) (- n) "") as (c & r & -> & Hd);
      [lia|done|lia|].
    destruct (Hall _ _ Hd) as [H1 H2]. exists minus, (String c r). split; [done|].
    split; [|done]. cbn [str_all] in *. by rewrite H1.
  - destruct (dec_go_digits (S (Z.to_nat (Z.log2 n))) n "") as (c & r & -> & Hd); [lia|done|lia|].
    destruct (Hall _ _ Hd). eauto.
Qed.

Lemma int_byte_plain c : is_int_byte c = true → plain_byte c = true.
Proof.
  unfold is_int_byte, plain_byte, is_ascii_digit, digit_val. cbv zeta.
  destruct (Ascii.eqb_spec c minus) as [->|]; [done|]. rewrite orb_false_r.
  destruct (Z.leb_spec 48 (Z.of_N (Ascii.N_of_ascii c))),
    (Z.leb_spec (Z.of_N (Ascii.N_of_ascii c)) 57); simpl; try done.
  intros _. apply andb_true_iff. split; apply Z.leb_le; lia.
Qed.

(** A parsed unsigned integer is in its range. *)
Lemma parse_digits_range lo hi sign acc s n :
  lo ≤ acc ≤ hi → parse_digits lo hi sign acc s = Some n → lo ≤ n ≤ hi.
Proof.
  revert acc. induction s as [|c s IH]; intros acc Ha; cbn [parse_digits]; [naive_solver|].
  destruct (digit_val c) as [d|]; [|done]. destruct (_ && _); [|done].
  destruct ((lo <=? acc * 10 + sign * d) && _) eqn:E; [|done]. apply IH.
  apply andb_true_iff in E as [?%Z.leb_le ?%Z.leb_le]. lia.
Qed.

Lemma parse_unsigned_range hi s n : 0 ≤ hi → parse_unsigned hi s = Some n → 0 ≤ n ≤ hi.
Proof.
  intros Hh. unfold parse_unsigned. destruct s as [|c [|d s]]; [done| |];
    repeat case_goal; apply parse_digits_range; lia.
Qed.
