(* ===== verification/Utf8.v ===== *)
(** * UTF-8, as the standard library checks and repairs it

    [str::from_utf8] accepts well-formed UTF-8 (no overlong forms, no surrogates, nothing
    above U+10FFFF); [String::from_utf8_lossy] replaces every maximal ill-formed part by
    U+FFFD. *)

From S2P Require Import Prelude RustStr.

#[local] Open Scope Z_scope.

Definition byte_of (c : Ascii.ascii) : Z := Z.of_N (Ascii.N_of_ascii c).
Definition in_range (lo hi : Z) (c : Ascii.ascii) : bool := (lo <=? byte_of c) && (byte_of c <=? hi).
Definition cont : Ascii.ascii → bool := in_range 0x80 0xBF.

(** The first [n] bytes, and the others. *)
Fixpoint take_str (n : nat) (s : string) : string :=
  match n, s with S n, String c s => String c (take_str n s) | _, _ => EmptyString end.
(** The same with a binary number, for large buffers. *)
Fixpoint take_bytes (n : Z) (s : string) : string :=
  match s with
  | "" => ""
  | String c s => if n <=? 0 then "" else String c (take_bytes (n - 1) s)
  end.
Fixpoint drop_str (n : nat) (s : string) : string :=
  match n, s with S n, String _ s => drop_str n s | _, _ => s end.

(** How many of the tests the next bytes pass, one test per byte. *)
Fixpoint passing (tests : list (Ascii.ascii → bool)) (s : string) : nat :=
  match tests, s with
  | t :: tests, String c s => if t c then S (passing tests s) else 0
  | _, _ => 0
  end.

(** The tests on the bytes that follow a leading byte; [None] if it leads nothing. *)
Definition following (a : Ascii.ascii) : option (list (Ascii.ascii → bool)) :=
  if in_range 0 0x7F a then Some []
  else if in_range 0xC2 0xDF a then Some [cont]
  else if in_range 0xE0 0xEF a then
    Some [in_range (if byte_of a =? 0xE0 then 0xA0 else 0x80) (if byte_of a =? 0xED then 0x9F else 0xBF); cont]
  else if in_range 0xF0 0xF4 a then
    Some [in_range (if byte_of a =? 0xF0 then 0x90 else 0x80) (if byte_of a =? 0xF4 then 0x8F else 0xBF);
          cont; cont]
  else None.

(** Whether the text [a s] starts with a character, and how many bytes the character, or
    the ill-formed part, has. *)
Definition utf8_step (a : Ascii.ascii) (s : string) : bool * nat :=
  match following a with
  | None => (false, 1%nat)
  | Some tests => let n := passing tests s in (bool_decide (n = length tests), S n)
  end.

Fixpoint valid_utf8_go (fuel : nat) (s : string) : bool :=
  match fuel, s with
  | S fuel, String a r => let '(ok, n) := utf8_step a r in ok && valid_utf8_go fuel (drop_str n s)
  | _, _ => true
  end.
Definition valid_utf8 (s : string) : bool := valid_utf8_go (String.length s) s.

(** U+FFFD *)
Definition replacement : string := bytes_str [239; 191; 189]%nat.

Fixpoint lossy_go (fuel : nat) (s : string) : string :=
  match fuel, s with
  | S fuel, String a r =>
      let '(ok, n) := utf8_step a r in
      String.append (if ok : bool then take_str n s else replacement) (lossy_go fuel (drop_str n s))
  | _, _ => EmptyString
  end.
Definition from_utf8_lossy (s : string) : string := lossy_go (String.length s) s.

(** The examples of the standard library's documentation: an overlong form, a truncated
    sequence, a surrogate. *)
Example utf8_examples :
  map valid_utf8 [bytes_str [240; 159; 146; 150]; bytes_str [192; 175]; bytes_str [237; 160; 128]; "plain"]%nat
  = [true; false; false; true] ∧
  from_utf8_lossy (bytes_str [72; 240; 144; 128; 87]%nat)
  = String.append "H" (String.append replacement "W").
Proof. vm_compute. done. Qed.

Lemma take_drop_str n s : String.append (take_str n s) (drop_str n s) = s.
Proof. revert s. induction n as [|n IH]; intros [|c s]; cbn; [done..|]. by rewrite IH. Qed.

Lemma length_drop_str n s : String.length (drop_str n s) = (String.length s - n)%nat.
Proof. revert s. induction n as [|n IH]; intros [|c s]; cbn; [done..|]. by rewrite IH. Qed.

(** Well-formed text is kept as it is. *)
Lemma lossy_valid s : valid_utf8 s = true → from_utf8_lossy s = s.
Proof.
  unfold valid_utf8, from_utf8_lossy. remember (String.length s) as n eqn:Hn.
  assert (String.length s ≤ n)%nat as Hle by lia. clear Hn. revert s Hle.
  induction n as [|n IH]; intros [|a s] Hle; cbn [valid_utf8_go lossy_go]; try done; [cbn in Hle; lia|].
  destruct (utf8_step a s) as [ok k] eqn:E. intros [Hok Hv]%andb_true_iff. subst ok.
  rewrite IH; [apply take_drop_str| |done].
  assert (1 ≤ k)%nat as Hk.
  { unfold utf8_step in E. destruct (following a); injection E as _ <-; lia. }
  rewrite length_drop_str. cbn in *. lia.
Qed.

Lemma take_str_short n s : (String.length s ≤ n)%nat → take_str n s = s.
Proof.
  revert n. induction s as [|c s IH]; intros [|n] Hl; cbn in *; try done; [lia|]. by rewrite IH by lia.
Qed.

(** ** Well-formed text as a sequence of characters *)

(** The bytes of one character. *)
Definition is_char (c : string) : Prop :=
  ∃ a r tests, c = String a r ∧ following a = Some tests ∧
    String.length r = length tests ∧ passing tests r = length tests.

Inductive well_formed : string → Prop :=
| wf_empty : well_formed ""
| wf_char c s : is_char c → well_formed s → well_formed (String.append c s).

Lemma passing_le tests s : (passing tests s ≤ length tests)%nat.
Proof. revert s. induction tests as [|t tests IH]; intros [|c s]; cbn; try lia. specialize (IH s). destruct (t c); lia. Qed.

Lemma passing_app tests r s :
  passing tests r = length tests → passing tests (String.append r s) = length tests.
Proof.
  revert r. induction tests as [|t tests IH]; intros [|c r]; cbn; try done.
  destruct (t c); [|done]. intros [= H]. by rewrite IH.
Qed.

Lemma passing_take tests s :
  passing tests s = length tests →
  passing tests (take_str (length tests) s) = length tests ∧
  String.length (take_str (length tests) s) = length tests.
Proof.
  revert s. induction tests as [|t tests IH]; intros [|c s]; cbn; try done.
  destruct (t c); [|done]. intros [= H]. by destruct (IH s H) as [-> ->].
Qed.

Lemma drop_str_app c s : drop_str (String.length c) (String.append c s) = s.
Proof. induction c as [|a c IH]; [by destruct s|done]. Qed.

Lemma valid_well_formed_go n s :
  (String.length s ≤ n)%nat → valid_utf8_go n s = true → well_formed s.
Proof.
  revert s. induction n as [|n IH]; intros [|a s] Hn Hv; try constructor; [cbn in Hn; lia|].
  cbn [valid_utf8_go] in Hv. unfold utf8_step in Hv. destruct (following a) as [tests|] eqn:Ef; [|done].
  apply andb_true_iff in Hv as [Hp%bool_decide_eq_true Hv]. rewrite Hp in Hv. cbn [drop_str] in Hv.
  destruct (passing_take tests s Hp) as [H1 H2].
  rewrite <-(take_drop_str (length tests) s).
  apply (wf_char (String a (take_str (length tests) s))); [by eexists _, _, tests|].
  apply IH; [|done]. rewrite length_drop_str. cbn in Hn. lia.
Qed.

Lemma well_formed_valid_go n s : well_formed s → valid_utf8_go n s = true.
Proof.
  intros Hs. revert n. induction Hs as [|c s (a & r & tests & -> & Hf & Hl & Hp) _ IH]; intros [|n]; try done.
  cbn [String.append valid_utf8_go]. unfold utf8_step. rewrite Hf, passing_app by done.
  rewrite bool_decide_true by done. cbn [andb drop_str]. rewrite <-Hl, drop_str_app. apply IH.
Qed.

Lemma valid_iff s : valid_utf8 s = true ↔ well_formed s.
Proof. split; [by apply valid_well_formed_go|apply well_formed_valid_go]. Qed.

Lemma valid_app a b : valid_utf8 a = true → valid_utf8 b = true → valid_utf8 (String.append a b) = true.
Proof.
  rewrite !valid_iff. induction 1 as [|c s Hc _ IH]; intros Hb; [done|].
  rewrite app_assoc_str. constructor; auto.
Qed.

(** A byte that is part of a longer character is at least 128. *)
Lemma following_high a tests :
  following a = Some tests → Forall (λ t, ∀ c : Ascii.ascii, t c = true → 128 ≤ byte_of c) tests.
Proof.
  assert (∀ lo hi c, 128 ≤ lo → in_range lo hi c = true → 128 ≤ byte_of c) as H.
  { intros lo hi c Hlo [H1%Z.leb_le _]%andb_true_iff. lia. }
  unfold following, cont. intros Hf. repeat case_match; simplify_eq; repeat constructor; intros c; apply H; lia.
Qed.

Lemma char_split c s b :
  is_char c → byte_of b < 128 → c ≠ String b "" →
  split_byte b (String.append c s) =
  match split_byte b s with h :: t => String.append c h :: t | [] => [c] end.
Proof.
  intros (a & r & tests & -> & Hf & Hl & Hp) Hb Hne.
  assert (Ascii.eqb b a = false) as Ha.
  { apply Ascii.eqb_neq. intros <-. destruct tests as [|t tests]; [by destruct r|].
    unfold following, in_range in Hf.
    rewrite (proj2 (Z.leb_le 0 (byte_of b))), (proj2 (Z.leb_le (byte_of b) 0x7F)) in Hf
      by (unfold byte_of in *; lia). done. }
  assert (split_byte b (String.append r s) =
    match split_byte b s with h :: t => String.append r h :: t | [] => [r] end) as Hr.
  { apply following_high in Hf. clear Ha Hne. revert r Hl Hp.
    induction Hf as [|t tests Ht _ IH]; intros [|c r] Hl Hp; try done.
    - cbn. destruct (split_byte b s) eqn:E; [|done]. destruct s; cbn in E; [done|]. by repeat case_match.
    - cbn in Hl, Hp |- *. destruct (t c) eqn:Etc; [|done]. injection Hl as Hl. injection Hp as Hp.
      rewrite (proj2 (Ascii.eqb_neq b c)); [|intros <-; specialize (Ht b Etc); lia].
      rewrite IH by done. by destruct (split_byte b s). }
  cbn [String.append split_byte]. rewrite Ha, Hr. by destruct (split_byte b s).
Qed.

(** The pieces between occurrences of an ASCII byte are well formed. *)
Lemma valid_pieces b s :
  byte_of b < 128 → valid_utf8 s = true → Forall (λ p, valid_utf8 p = true) (split_byte b s).
Proof.
  intros Hb. rewrite valid_iff. induction 1 as [|c s Hc _ IH]; [by repeat constructor|].
  destruct (decide (c = String b "")) as [->|Hne].
  - cbn. rewrite Ascii.eqb_refl. by constructor.
  - rewrite char_split by done. destruct (split_byte b s) as [|h t].
    + constructor; [|constructor]. apply valid_iff. rewrite <-(app_nil_r_str c). by constructor; [|constructor].
    + apply Forall_cons in IH as [Hh Ht]. constructor; [|done]. apply valid_iff. constructor; [done|].
      by apply valid_iff.
Qed.

Lemma take_bytes_short n s : Z.of_nat (String.length s) ≤ n → take_bytes n s = s.
Proof.
  revert n. induction s as [|c s IH]; intros n Hn; cbn in *; [done|].
  rewrite (proj2 (Z.leb_gt n 0)) by lia. by rewrite IH by lia.
Qed.

(** Text of ASCII bytes is well formed. *)
Definition is_ascii (c : Ascii.ascii) : bool := byte_of c <? 128.

Lemma ascii_valid s : str_all is_ascii s = true → valid_utf8 s = true.
Proof.
  intros Hs. apply valid_iff. induction s as [|c s IH]; [constructor|]. cbn in Hs.
  apply andb_true_iff in Hs as [Hc%Z.ltb_lt Hs]. apply (wf_char (String c "")); [|by apply IH].
  exists c, "", []. split; [done|]. split; [|done]. unfold following, in_range.
  by rewrite (proj2 (Z.leb_le 0 (byte_of c))), (proj2 (Z.leb_le (byte_of c) 0x7F)) by (unfold byte_of in *; lia).
Qed.
