(* ===== verification/Config.v ===== *)
(** * Service and supervisor configuration (dynamod-svmgr/src/config)

    The data of [config/service.rs] and [config/supervisor.rs] with their
    defaults, [parse_duration_secs], the directory loaders over an abstract file
    system and TOML parser, and [config/validate.rs]. *)

From S2P Require Import Prelude RustStr.

#[local] Open Scope Z_scope.
#[local] Open Scope list_scope.

(** ** config/service.rs *)

Inductive ServiceType := Simple | Oneshot | Forking | NotifyType.
Inductive RestartPolicy := Permanent | Transient | Temporary.
(** [ReadinessType]; [None] is [NoReadiness] here. *)
Inductive ReadinessType := NoReadiness | Notify | TcpPort | Exec | Fd.

#[export] Instance ServiceType_eq_dec : EqDecision ServiceType.
Proof. solve_decision. Defined.
#[export] Instance RestartPolicy_eq_dec : EqDecision RestartPolicy.
Proof. solve_decision. Defined.
#[export] Instance ReadinessType_eq_dec : EqDecision ReadinessType.
Proof. solve_decision. Defined.

Record UserSection := {
  us_user : option string;
  us_group : option string;
  us_supplementary_groups : list string;
}.

Record ServiceSection := {
  ss_name : string;
  ss_supervisor : string;
  ss_exec : list string;
  ss_workdir : option string;
  ss_service_type : ServiceType;
  ss_environment : gmap string string;
  ss_environment_file : option string;
  ss_user : option UserSection;
}.

Record RestartSection := {
  rs_policy : RestartPolicy;
  rs_delay : string;
  rs_max_restarts : Z;
  rs_max_restart_window : string;
}.

Record ReadinessSection := {
  rd_readiness_type : ReadinessType;
  rd_port : option Z;
  rd_check_exec : option (list string);
  rd_timeout : string;
}.

Record DependencySection := {
  ds_requires : list string;
  ds_wants : list string;
  ds_after : list string;
  ds_before : list string;
}.

Record CgroupSection := {
  cg_memory_max : option string;
  cg_memory_high : option string;
  cg_cpu_weight : option Z;
  cg_cpu_max : option string;
  cg_pids_max : option Z;
  cg_io_weight : option Z;
}.

Record BindMount := { bm_source : string; bm_target : string; bm_writable : bool }.

Record NamespaceSection := {
  ns_enable : list string;
  ns_bind_mounts : list BindMount;
  ns_private_tmp : bool;
  ns_protect_system : option string;
}.

Record ShutdownSection := {
  sh_stop_signal : string;
  sh_stop_timeout : string;
  sh_stop_exec : option (list string);
}.

Record ServiceDef := {
  sd_service : ServiceSection;
  sd_restart : RestartSection;
  sd_readiness : ReadinessSection;
  sd_dependencies : DependencySection;
  sd_cgroup : option CgroupSection;
  sd_namespace : option NamespaceSection;
  sd_shutdown : ShutdownSection;
}.

Definition sd_name (d : ServiceDef) : string := ss_name (sd_service d).

Definition default_supervisor : string := "root".
Definition default_service_type : ServiceType := Simple.
Definition default_restart_policy : RestartPolicy := Permanent.
Definition default_delay : string := "1s".
Definition default_max_restarts : Z := 5.
Definition default_max_restart_window : string := "60s".
Definition default_readiness_type : ReadinessType := NoReadiness.
Definition default_readiness_timeout : string := "30s".
Definition default_stop_signal : string := "SIGTERM".
Definition default_stop_timeout : string := "10s".

Definition RestartSection_default : RestartSection :=
  {| rs_policy := default_restart_policy; rs_delay := default_delay;
     rs_max_restarts := default_max_restarts;
     rs_max_restart_window := default_max_restart_window |}.
Definition ReadinessSection_default : ReadinessSection :=
  {| rd_readiness_type := default_readiness_type; rd_port := None;
     rd_check_exec := None; rd_timeout := default_readiness_timeout |}.
Definition DependencySection_default : DependencySection :=
  {| ds_requires := []; ds_wants := []; ds_after := []; ds_before := [] |}.
Definition ShutdownSection_default : ShutdownSection :=
  {| sh_stop_signal := default_stop_signal; sh_stop_timeout := default_stop_timeout;
     sh_stop_exec := None |}.

(** A definition file with only [name] and [exec] set. *)
Definition minimal_service (name : string) (exec : list string) : ServiceDef :=
  {| sd_service := {| ss_name := name; ss_supervisor := default_supervisor; ss_exec := exec;
       ss_workdir := None; ss_service_type := default_service_type; ss_environment := ∅;
       ss_environment_file := None; ss_user := None |};
     sd_restart := RestartSection_default; sd_readiness := ReadinessSection_default;
     sd_dependencies := DependencySection_default; sd_cgroup := None; sd_namespace := None;
     sd_shutdown := ShutdownSection_default |}.

(** [parse_duration_secs]; the products wrap at 64 bits. *)
Definition parse_duration_secs (s : string) : option Z :=
  let s := trim s in
  match strip_suffix "s" s with
  | Some n => parse_u64 n
  | None =>
      match strip_suffix "m" s with
      | Some n => (λ n, wrap_u64 (n * 60)) <$> parse_u64 n
      | None =>
          match strip_suffix "h" s with
          | Some n => (λ n, wrap_u64 (n * 3600)) <$> parse_u64 n
          | None => parse_u64 s
          end
      end
  end.

Example parse_duration_examples :
  map parse_duration_secs ["30s"; "5m"; " 1h "; "60"; "1d"; "s"; "307445734561825861m"; "5 s"]
  = [Some 30; Some 300; Some 3600; Some 60; None; None; Some 44; None].
Proof. vm_compute. reflexivity. Qed.

(** ** config/supervisor.rs *)

Inductive RestartStrategy := OneForOne | OneForAll | RestForOne.
#[export] Instance RestartStrategy_eq_dec : EqDecision RestartStrategy.
Proof. solve_decision. Defined.

Record SupervisorSection := {
  sp_name : string;
  sp_parent : option string;
  sp_strategy : RestartStrategy;
}.
Record SupervisorRestartSection := {
  sr_max_restarts : Z;
  sr_max_restart_window : string;
}.
Record SupervisorDef := {
  sup_supervisor : SupervisorSection;
  sup_restart : SupervisorRestartSection;
}.

Definition default_strategy : RestartStrategy := OneForOne.
Definition sup_default_max_restarts : Z := 10.
Definition sup_default_max_restart_window : string := "300s".
Definition SupervisorRestartSection_default : SupervisorRestartSection :=
  {| sr_max_restarts := sup_default_max_restarts;
     sr_max_restart_window := sup_default_max_restart_window |}.

Lemma parse_duration_range s n : parse_duration_secs s = Some n → 0 ≤ n ≤ U64_MAX.
Proof.
  assert (0 ≤ U64_MAX) as Hm by (unfold U64_MAX; lia).
  assert (∀ z, 0 ≤ wrap_u64 z ≤ U64_MAX) as Hw.
  { intros z. unfold wrap_u64, U64_MAX. pose proof (Z.mod_pos_bound z (2 ^ 64)). lia. }
  unfold parse_duration_secs, parse_u64. repeat case_goal; try by apply parse_unsigned_range.
  all: intros (x & _ & ->)%fmap_Some_1; apply Hw.
Qed.

(** ** Loading *)

Inductive io_error := NotFound | OtherIo.
Inductive ServiceLoadError := LoadIo (path : string) (e : io_error) | LoadParse (path : string).

(** [Path::extension] of a file name: the text after the last dot, unless the
    name has no dot, begins with its only dot, or is [..]. *)
Definition extension (file : string) : option string :=
  if String.eqb file ".." then None
  else match rev (split "." file) with
       | after :: before =>
           match before with
           | [] => None
           | _ => if String.eqb (join "." (rev before)) "" then None else Some after
           end
       | [] => None
       end.
Example extension_examples :
  map extension ["a.toml"; ".toml"; "a"; "a.b.toml"; "a."; ".."; "..toml"]
  = [Some "toml"; None; None; Some "toml"; Some ""; None; Some "toml"].
Proof. vm_compute. reflexivity. Qed.

Section loading.
(** The file system: [read_to_string] on a path, [read_dir] giving the entry
    names of a directory (each entry may fail on its own). *)
Variable read_to_string : string → result string io_error.
Variable read_dir : string → result (list (result string io_error)) io_error.
(** [toml::from_str], of the [toml] crate. *)
Variable toml_service : string → option ServiceDef.
Variable toml_supervisor : string → option SupervisorDef.

Definition path_join (dir file : string) : string := String.append dir (String.append "/" file).

Definition load_service (path : string) : result ServiceDef ServiceLoadError :=
  match read_to_string path with
  | Err e => Err (LoadIo path e)
  | Ok content =>
      match toml_service content with
      | None => Err (LoadParse path)
      | Some def => Ok def
      end
  end.

Fixpoint load_services_entries (dir : string) (entries : list (result string io_error))
    (services : list ServiceDef) : result (list ServiceDef) ServiceLoadError :=
  match entries with
  | [] => Ok services
  | Err e :: _ => Err (LoadIo dir e)
  | Ok file :: entries =>
      if bool_decide (extension file = Some "toml") then
        match load_service (path_join dir file) with
        | Ok def => load_services_entries dir entries (services ++ [def])
        | Err _ => load_services_entries dir entries services
        end
      else load_services_entries dir entries services
  end.

Definition load_services_dir (dir : string) : result (list ServiceDef) ServiceLoadError :=
  match read_dir dir with
  | Err e => Err (LoadIo dir e)
  | Ok entries => load_services_entries dir entries []
  end.

Definition load_supervisor (path : string) : result SupervisorDef ServiceLoadError :=
  match read_to_string path with
  | Err e => Err (LoadIo path e)
  | Ok content =>
      match toml_supervisor content with
      | None => Err (LoadParse path)
      | Some def => Ok def
      end
  end.

Fixpoint load_supervisors_entries (dir : string) (entries : list (result string io_error))
    (supervisors : list SupervisorDef) : result (list SupervisorDef) ServiceLoadError :=
  match entries with
  | [] => Ok supervisors
  | Err e :: _ => Err (LoadIo dir e)
  | Ok file :: entries =>
      if bool_decide (extension file = Some "toml") then
        match load_supervisor (path_join dir file) with
        | Ok def => load_supervisors_entries dir entries (supervisors ++ [def])
        | Err _ => load_supervisors_entries dir entries supervisors
        end
      else load_supervisors_entries dir entries supervisors
  end.

(** A missing directory gives no supervisors; any other error is reported. *)
Definition load_supervisors_dir (dir : string) : result (list SupervisorDef) ServiceLoadError :=
  match read_dir dir with
  | Ok entries => load_supervisors_entries dir entries []
  | Err NotFound => Ok []
  | Err e => Err (LoadIo dir e)
  end.
End loading.

(** ** config/validate.rs *)

Inductive ValidationError :=
| EmptyExec (svc : string)
| MissingPort (svc : string)
| MissingCheckExec (svc : string)
| UnknownSupervisor (svc sup : string)
| UnknownDependency (svc dep : string)
| DuplicateService (svc : string)
| DuplicateSupervisor (sup : string).

Definition validate_service (def : ServiceDef) : list ValidationError :=
  let name := sd_name def in
  (if bool_decide (ss_exec (sd_service def) = []) then [EmptyExec name] else [])
  ++ (if bool_decide (rd_readiness_type (sd_readiness def) = TcpPort)
         && bool_decide (rd_port (sd_readiness def) = None) then [MissingPort name] else [])
  ++ (if bool_decide (rd_readiness_type (sd_readiness def) = Exec)
         && bool_decide (rd_check_exec (sd_readiness def) = None)
      then [MissingCheckExec name] else []).

(** The loop that inserts names into a set and reports each one it already holds. *)
Fixpoint duplicate_names (mk : string → ValidationError) (names : list string)
    (seen : gset string) : gset string * list ValidationError :=
  match names with
  | [] => (seen, [])
  | n :: names =>
      let errs := if bool_decide (n ∈ seen) then [mk n] else [] in
      let '(seen', rest) := duplicate_names mk names ({[n]} ∪ seen) in
      (seen', errs ++ rest)
  end.

Definition validate_refs (service_names supervisor_names : gset string)
    (svc : ServiceDef) : list ValidationError :=
  validate_service svc
  ++ (if String.eqb (ss_supervisor (sd_service svc)) "root"
         || bool_decide (ss_supervisor (sd_service svc) ∈ supervisor_names) then []
      else [UnknownSupervisor (sd_name svc) (ss_supervisor (sd_service svc))])
  ++ omap (λ dep, if bool_decide (dep ∈ service_names) then None
                  else Some (UnknownDependency (sd_name svc) dep))
       (ds_requires (sd_dependencies svc)).

Definition validate_all (services : list ServiceDef) (supervisors : list SupervisorDef)
    : list ValidationError :=
  let '(service_names, errs1) :=
    duplicate_names DuplicateService (map sd_name services) ∅ in
  let '(supervisor_names, errs2) :=
    duplicate_names DuplicateSupervisor
      (map (λ s, sp_name (sup_supervisor s)) supervisors) ∅ in
  errs1 ++ errs2 ++ concat (map (validate_refs service_names supervisor_names) services).

(** ** Durations *)

(** A rendered number followed by printable text is not changed by [trim]. *)
Lemma trim_number_suffix n suf :
  0 ≤ n → str_all plain_byte suf = true →
  trim (String.append (to_string n) suf) = String.append (to_string n) suf.
Proof.
  intros Hn Hs. destruct (to_string_int_bytes n) as (c & r & -> & Hd & Hl).
  cbn [String.append]. apply trim_plain.
  - cbn [str_all] in Hd. apply andb_true_iff in Hd as [Hd _]. by apply int_byte_plain.
  - rewrite last_byte_app. destruct suf as [|d suf].
    + simpl. apply int_byte_plain. unfold is_int_byte. by rewrite Hl.
    + cbn [last_byte]. clear -Hs. revert d Hs. induction suf as [|e suf IH]; intros d; cbn.
      * by rewrite andb_true_r.
      * intros [_ Hs]%andb_true_iff. by apply IH.
Qed.

(** A suffix letter does not occur at the end of a rendered number or of a
    number with another suffix. *)
Lemma strip_suffix_other c s r :
  s ≠ EmptyString → last_byte c s ≠ r → strip_suffix (String r "") s = None.
Proof.
  intros Hs Hl. destruct (strip_suffix _ s) as [q|] eqn:E; [|done].
  apply strip_suffix_Some in E as ->. rewrite last_byte_app in Hl. done.
Qed.

Lemma parse_duration_bare n :
  0 ≤ n ≤ U64_MAX → parse_duration_secs (to_string n) = Some n.
Proof.
  intros Hn. unfold parse_duration_secs.
  rewrite <-(app_nil_r_str (to_string n)), trim_number_suffix by (done || lia).
  rewrite app_nil_r_str. destruct (to_string_int_bytes n) as (c & r & Heq & _ & Hl).
  assert (∀ d, is_ascii_digit d = false → strip_suffix (String d "") (to_string n) = None) as Hd.
  { intros d Hd. rewrite Heq. apply (strip_suffix_other c); [done|]. cbn [last_byte]. congruence. }
  rewrite !Hd by done. by apply parse_unsigned_to_string.
Qed.

Lemma parse_duration_suffixed n :
  0 ≤ n ≤ U64_MAX →
  parse_duration_secs (String.append (to_string n) "s") = Some n ∧
  parse_duration_secs (String.append (to_string n) "m") = Some (wrap_u64 (n * 60)) ∧
  parse_duration_secs (String.append (to_string n) "h") = Some (wrap_u64 (n * 3600)).
Proof.
  intros Hn. unfold parse_duration_secs, parse_u64.
  rewrite !trim_number_suffix by (done || lia).
  destruct (to_string_int_bytes n) as (c & r & Heq & _).
  assert (∀ d e, e ≠ d → strip_suffix (String d "") (String.append (to_string n) (String e "")) = None)
    as Hd.
  { intros d e Hde. rewrite Heq. apply (strip_suffix_other c); [done|].
    cbn [String.append last_byte]. by rewrite last_byte_app. }
  rewrite !strip_suffix_app, !Hd by done.
  by rewrite parse_unsigned_to_string.
Qed.

(** parse_duration_secs reads back every rendered 64-bit number, bare or with the suffix s,
    m or h, scaled to seconds, as long as the product fits 64 bits. *)
Theorem parse_duration_secs_correct n :
  0 ≤ n ≤ U64_MAX →
  parse_duration_secs (to_string n) = Some n ∧
  parse_duration_secs (String.append (to_string n) "s") = Some n ∧
  (n * 3600 ≤ U64_MAX →
   parse_duration_secs (String.append (to_string n) "m") = Some (n * 60) ∧
   parse_duration_secs (String.append (to_string n) "h") = Some (n * 3600)).
Proof.
  intros Hn. destruct (parse_duration_suffixed n Hn) as (H1 & H2 & H3).
  split; [by apply parse_duration_bare|]. split; [done|].
  intros Hb. rewrite H2, H3. unfold wrap_u64.
  rewrite !Z.mod_small by (unfold U64_MAX in *; lia). done.
Qed.
Lemma parse_duration_secs_correct_witness :
  parse_duration_secs (String.append (to_string 90) "h") = Some 324000.
Proof.
  apply (parse_duration_secs_correct 90); unfold U64_MAX; lia.
Defined.

(** ** Loading *)

Lemma load_services_entries_ok rts toml dir files acc :
  load_services_entries rts toml dir (map Ok files) acc =
  Ok (acc ++ omap (λ file, if bool_decide (extension file = Some "toml") then
        match load_service rts toml (path_join dir file) with Ok d => Some d | Err _ => None end
      else None) files).
Proof.
  revert acc. induction files as [|f files IH]; intros acc; cbn [map load_services_entries omap].
  - by rewrite app_nil_r.
  - unfold omap; cbn [list_omap]. rewrite !bool_decide_decide. case_decide.
    + destruct (load_service rts toml (path_join dir f)); rewrite IH; [|done].
      by rewrite <-app_assoc.
    + by rewrite IH.
Qed.

(** On a directory whose entries can be read, load_services_dir returns exactly the
    definitions of the .toml files that load, in directory order; files that do not parse
    are skipped. *)
Theorem load_services_exact read_to_string read_dir toml dir files :
  read_dir dir = Ok (map Ok files) →
  load_services_dir read_to_string read_dir toml dir =
  Ok (omap (λ file, if bool_decide (extension file = Some "toml") then
        match load_service read_to_string toml (path_join dir file) with Ok d => Some d | Err _ => None end
      else None) files).
Proof. intros Hd. unfold load_services_dir. rewrite Hd. apply load_services_entries_ok. Qed.

(** A directory with two definitions, a file that does not parse, and a note. *)
Definition some_files (path : string) : result string io_error :=
  if String.eqb path "/etc/s/README" then Err OtherIo else Ok path.
Definition some_toml (content : string) : option ServiceDef :=
  if String.eqb content "/etc/s/bad.toml" then None else Some (minimal_service content ["/bin/true"]).
Lemma load_services_exact_witness :
  load_services_dir some_files (λ _, Ok (map Ok ["b.toml"; "bad.toml"; "README"; "a.toml"])) some_toml "/etc/s" =
  Ok [minimal_service "/etc/s/b.toml" ["/bin/true"]; minimal_service "/etc/s/a.toml" ["/bin/true"]].
Proof.
  rewrite (load_services_exact some_files (λ _, Ok (map Ok ["b.toml"; "bad.toml"; "README"; "a.toml"])) some_toml
    "/etc/s" ["b.toml"; "bad.toml"; "README"; "a.toml"]); [vm_compute; reflexivity|reflexivity].
Defined.

(** ** Validation *)

Lemma duplicate_names_seen mk names seen :
  (duplicate_names mk names seen).1 = list_to_set names ∪ seen.
Proof.
  revert seen. induction names as [|n names IH]; intros seen; cbn; [set_solver|].
  specialize (IH ({[n]} ∪ seen)). destruct (duplicate_names _ _ _). simpl in *. set_solver.
Qed.

Lemma duplicate_names_nil mk names seen :
  (duplicate_names mk names seen).2 = [] ↔ NoDup names ∧ ∀ n, n ∈ names → n ∉ seen.
Proof.
  revert seen. induction names as [|n names IH]; intros seen; cbn.
  - split; [|done]. intros _. split; [constructor|]. set_solver.
  - specialize (IH ({[n]} ∪ seen)). destruct (duplicate_names mk names ({[n]} ∪ seen)) as [s r].
    cbn in *. rewrite NoDup_cons. case_bool_decide; [set_solver|]. cbn. rewrite IH. set_solver.
Qed.

Lemma app_nil_iff {A} (l k : list A) : l ++ k = [] ↔ l = [] ∧ k = [].
Proof. split; [apply app_nil|]. by intros [-> ->]. Qed.

Lemma omap_nil_iff {A B} (f : A → option B) l : omap f l = [] ↔ ∀ x, x ∈ l → f x = None.
Proof.
  induction l as [|x l IH]; [set_solver|]. unfold omap; cbn [list_omap].
  setoid_rewrite elem_of_cons. destruct (f x) eqn:E.
  - naive_solver.
  - unfold omap in IH. rewrite IH. naive_solver.
Qed.

Lemma concat_nil_iff {A} (l : list (list A)) : concat l = [] ↔ ∀ x, x ∈ l → x = [].
Proof.
  induction l as [|x l IH]; cbn; [set_solver|]. rewrite app_nil_iff, IH. set_solver.
Qed.

(** What a service's own section must satisfy. *)
Definition service_ok (def : ServiceDef) : Prop :=
  ss_exec (sd_service def) ≠ [] ∧
  (rd_readiness_type (sd_readiness def) = TcpPort → is_Some (rd_port (sd_readiness def))) ∧
  (rd_readiness_type (sd_readiness def) = Exec → is_Some (rd_check_exec (sd_readiness def))).

Lemma validate_service_nil def : validate_service def = [] ↔ service_ok def.
Proof.
  unfold validate_service, service_ok. rewrite !app_nil_iff, <-!not_eq_None_Some.
  repeat case_bool_decide; cbn; naive_solver.
Qed.

(** A configuration whose cross references resolve. *)
Definition config_ok (services : list ServiceDef) (supervisors : list SupervisorDef) : Prop :=
  NoDup (map sd_name services) ∧
  NoDup (map (λ s, sp_name (sup_supervisor s)) supervisors) ∧
  ∀ svc, svc ∈ services →
    service_ok svc ∧
    (ss_supervisor (sd_service svc) = "root" ∨
     ss_supervisor (sd_service svc) ∈ map (λ s, sp_name (sup_supervisor s)) supervisors) ∧
    ∀ dep, dep ∈ ds_requires (sd_dependencies svc) → dep ∈ map sd_name services.

Lemma validate_refs_nil (svcs sups : gset string) svc :
  validate_refs svcs sups svc = [] ↔
  service_ok svc ∧
  (ss_supervisor (sd_service svc) = "root" ∨ ss_supervisor (sd_service svc) ∈ sups) ∧
  ∀ dep, dep ∈ ds_requires (sd_dependencies svc) → dep ∈ svcs.
Proof.
  unfold validate_refs. rewrite !app_nil_iff, validate_service_nil, omap_nil_iff.
  do 2 f_equiv.
  - destruct (String.eqb_spec (ss_supervisor (sd_service svc)) "root"); cbn; [naive_solver|].
    case_bool_decide; naive_solver.
  - split; intros H dep Hdep; specialize (H dep Hdep); revert H; case_bool_decide; naive_solver.
Qed.

(** C38: validate_all reports no error exactly on the configurations whose service and
    supervisor names are distinct, whose services have a command and what their readiness
    type needs, and whose supervisor and requires references resolve. *)
Theorem validate_all_iff services supervisors :
  validate_all services supervisors = [] ↔ config_ok services supervisors.
Proof.
  unfold validate_all, config_ok.
  pose proof (duplicate_names_seen DuplicateService (map sd_name services) ∅) as S1.
  pose proof (duplicate_names_nil DuplicateService (map sd_name services) ∅) as N1.
  set (sups := map _ supervisors).
  pose proof (duplicate_names_seen DuplicateSupervisor sups ∅) as S2.
  pose proof (duplicate_names_nil DuplicateSupervisor sups ∅) as N2.
  destruct (duplicate_names DuplicateService _ _) as [svcn e1].
  destruct (duplicate_names DuplicateSupervisor _ _) as [supn e2]. cbn in *. subst svcn supn.
  rewrite !app_nil_iff, N1, N2, concat_nil_iff.
  setoid_rewrite list_elem_of_fmap. split.
  - intros ([? _] & [? _] & Hr). do 2 (split; [done|]). intros svc Hsvc.
    specialize (Hr _ (ex_intro _ svc (conj eq_refl Hsvc))).
    apply validate_refs_nil in Hr as (? & ? & ?). set_solver.
  - intros (? & ? & Hr). split; [set_solver|]. split; [set_solver|].
    intros x (svc & -> & Hsvc). apply validate_refs_nil. specialize (Hr _ Hsvc). set_solver.
Qed.
