(* ===== verification/Graph.v ===== *)
(** * Dependency graph (dynamod-svmgr/src/dependency/graph.rs)

    [DependencyGraph::build] with the [get_mut(..).unwrap()] calls that could
    panic written out, the accessors, and the well-formedness that every graph
    it returns has. *)

From S2P Require Import Prelude Config.

#[local] Open Scope list_scope.

(** A loop whose body may panic ([None]). *)
Fixpoint fold_opt {A B} (f : A → B → option A) (a : A) (l : list B) : option A :=
  match l with
  | [] => Some a
  | b :: l => a' ← f a b; fold_opt f a' l
  end.

(** [DependencyGraph]. *)
Record DependencyGraph := {
  hard_deps : gmap string (gset string);
  requires : gmap string (gset string);
  reverse_deps : gmap string (gset string);
  services : gset string;
}.

(** [m.get_mut(k).unwrap().insert(x)]; [None] is the panic. *)
Definition insert_at (m : gmap string (gset string)) (k x : string)
    : option (gmap string (gset string)) :=
  match m !! k with Some s => Some (<[k := {[x]} ∪ s]> m) | None => None end.

(** The body of the [requires] loop. *)
Definition add_requires (name : string) (g : DependencyGraph) (dep : string)
    : option DependencyGraph :=
  if bool_decide (dep ∈ services g) then
    h ← insert_at (hard_deps g) name dep;
    r ← insert_at (requires g) name dep;
    v ← insert_at (reverse_deps g) dep name;
    Some {| hard_deps := h; requires := r; reverse_deps := v; services := services g |}
  else Some g.

(** The body of the [wants] and [after] loops. *)
Definition add_ordering (name : string) (g : DependencyGraph) (dep : string)
    : option DependencyGraph :=
  if bool_decide (dep ∈ services g) then
    h ← insert_at (hard_deps g) name dep;
    v ← insert_at (reverse_deps g) dep name;
    Some {| hard_deps := h; requires := requires g; reverse_deps := v; services := services g |}
  else Some g.

(** The body of the [before] loop. *)
Definition add_before (name : string) (g : DependencyGraph) (dep : string)
    : option DependencyGraph :=
  if bool_decide (dep ∈ services g) then
    h ← insert_at (hard_deps g) dep name;
    v ← insert_at (reverse_deps g) name dep;
    Some {| hard_deps := h; requires := requires g; reverse_deps := v; services := services g |}
  else Some g.

Definition build_def (g : DependencyGraph) (def : ServiceDef) : option DependencyGraph :=
  let name := sd_name def in
  let deps := sd_dependencies def in
  g ← fold_opt (add_requires name) g (ds_requires deps);
  g ← fold_opt (add_ordering name) g (ds_wants deps);
  g ← fold_opt (add_ordering name) g (ds_after deps);
  fold_opt (add_before name) g (ds_before deps).

Section graph.
Context `{HO : HashOrder}.

(** [DependencyGraph::build]. *)
Definition build (defs : list ServiceDef) : option DependencyGraph :=
  let services : gset string := list_to_set (map sd_name defs) in
  let empty_sets :=
    foldl (λ m name, <[name := ∅]> m) ∅ (set_iter "services" services) in
  fold_opt build_def
    {| hard_deps := empty_sets; requires := empty_sets; reverse_deps := empty_sets;
       services := services |} defs.

Definition dependencies_of (g : DependencyGraph) (service : string) : gset string :=
  default ∅ (hard_deps g !! service).
Definition requires_of (g : DependencyGraph) (service : string) : gset string :=
  default ∅ (requires g !! service).
Definition dependents_of (g : DependencyGraph) (service : string) : gset string :=
  default ∅ (reverse_deps g !! service).
Definition all_services (g : DependencyGraph) : gset string := services g.

(** [unmet_count]. *)
Definition unmet_count (g : DependencyGraph) (service : string) (ready : gset string) : nat :=
  size (filter (λ dep, dep ∉ ready) (dependencies_of g service)).

(** The loops over these sets, each in the order of its own container. *)
Definition iter_services (g : DependencyGraph) : list string :=
  set_iter "services" (all_services g).
Definition iter_deps (g : DependencyGraph) (s : string) : list string :=
  set_iter (String.append "deps " s) (dependencies_of g s).
Definition iter_dependents (g : DependencyGraph) (s : string) : list string :=
  set_iter (String.append "dependents " s) (dependents_of g s).

(** ** Well-formedness *)

Record wf_graph (g : DependencyGraph) : Prop := {
  wf_dom_hard : dom (hard_deps g) = services g;
  wf_dom_requires : dom (requires g) = services g;
  wf_dom_reverse : dom (reverse_deps g) = services g;
  wf_inverse : ∀ s d, d ∈ dependencies_of g s ↔ s ∈ dependents_of g d;
  wf_requires : ∀ s, requires_of g s ⊆ dependencies_of g s;
}.

Lemma lookup_dom_None (m : gmap string (gset string)) X s :
  dom m = X → s ∉ X → m !! s = None.
Proof. intros <-. apply not_elem_of_dom_1. Qed.

Lemma wf_deps_services g s d :
  wf_graph g → d ∈ dependencies_of g s → s ∈ services g ∧ d ∈ services g.
Proof.
  intros Hwf Hd. split.
  - destruct (decide (s ∈ services g)) as [|Hn]; [done|]. unfold dependencies_of in Hd.
    rewrite (lookup_dom_None _ _ _ (wf_dom_hard _ Hwf) Hn) in Hd. set_solver.
  - apply (wf_inverse _ Hwf) in Hd. destruct (decide (d ∈ services g)) as [|Hn]; [done|].
    unfold dependents_of in Hd.
    rewrite (lookup_dom_None _ _ _ (wf_dom_reverse _ Hwf) Hn) in Hd. set_solver.
Qed.

Lemma elem_of_iter_services g s : s ∈ iter_services g ↔ s ∈ services g.
Proof. apply elem_of_set_iter. Qed.
Lemma elem_of_iter_deps g s d : d ∈ iter_deps g s ↔ d ∈ dependencies_of g s.
Proof. apply elem_of_set_iter. Qed.
Lemma elem_of_iter_dependents g s d : d ∈ iter_dependents g s ↔ d ∈ dependents_of g s.
Proof. apply elem_of_set_iter. Qed.
Lemma NoDup_iter_services g : NoDup (iter_services g).
Proof. apply NoDup_set_iter. Qed.
Lemma NoDup_iter_dependents g s : NoDup (iter_dependents g s).
Proof. apply NoDup_set_iter. Qed.

(** ** What [build] computes *)

(** [g] holds exactly the ordering edges [hs] and requirement edges [rs]. *)
Record represents (S : gset string) (hs rs : list (string * string)) (g : DependencyGraph)
    : Prop := {
  rep_services : services g = S;
  rep_dom_hard : dom (hard_deps g) = S;
  rep_dom_requires : dom (requires g) = S;
  rep_dom_reverse : dom (reverse_deps g) = S;
  rep_hard : ∀ s d, d ∈ dependencies_of g s ↔ (s, d) ∈ hs;
  rep_reverse : ∀ s d, s ∈ dependents_of g d ↔ (s, d) ∈ hs;
  rep_requires : ∀ s d, d ∈ requires_of g s ↔ (s, d) ∈ rs;
}.

Lemma insert_at_spec (m : gmap string (gset string)) (S : gset string) k x :
  dom m = S → k ∈ S →
  ∃ m', insert_at m k x = Some m' ∧ dom m' = S ∧
    ∀ k' x', x' ∈ default ∅ (m' !! k') ↔ x' ∈ default ∅ (m !! k') ∨ (k' = k ∧ x' = x).
Proof.
  intros Hdom Hk. unfold insert_at. rewrite <-Hdom in Hk. apply elem_of_dom in Hk as [s Hs].
  rewrite Hs. eexists. split; [done|]. split.
  - rewrite dom_insert_L, <-Hdom. assert (k ∈ dom m) by (apply elem_of_dom; eauto). set_solver.
  - intros k' x'. destruct (decide (k = k')) as [->|Hne].
    + rewrite lookup_insert_eq, Hs. cbn. set_solver.
    + rewrite lookup_insert_ne by done. naive_solver.
Qed.

(** The edges each loop adds. *)
Definition edges_to (S : gset string) (name : string) (l : list string)
    : list (string * string) :=
  (λ d, (name, d)) <$> filter (λ d, d ∈ S) l.
Definition edges_from (S : gset string) (name : string) (l : list string)
    : list (string * string) :=
  (λ d, (d, name)) <$> filter (λ d, d ∈ S) l.
Definition order_edges (S : gset string) (def : ServiceDef) : list (string * string) :=
  let deps := sd_dependencies def in
  edges_to S (sd_name def) (ds_requires deps ++ ds_wants deps ++ ds_after deps)
  ++ edges_from S (sd_name def) (ds_before deps).
Definition require_edges (S : gset string) (def : ServiceDef) : list (string * string) :=
  edges_to S (sd_name def) (ds_requires (sd_dependencies def)).

(** Equivalent edge lists represent the same graph. *)
Lemma represents_equiv S hs hs' rs rs' g :
  (∀ e, e ∈ hs ↔ e ∈ hs') → (∀ e, e ∈ rs ↔ e ∈ rs') →
  represents S hs rs g → represents S hs' rs' g.
Proof.
  intros Hh Hr [? ? ? ? H1 H2 H3].
  split; [done..| | |]; intros s d; rewrite <- ?Hh, <- ?Hr; auto.
Qed.

Ltac insert_edge m k x H :=
  let m' := fresh "m" in let E := fresh "E" in let D := fresh "D" in let I := fresh "I" in
  destruct (insert_at_spec m _ k x H) as (m' & E & D & I); [done|rewrite E; cbn [mbind option_bind]].

Lemma add_requires_spec S hs rs name g dep :
  represents S hs rs g → name ∈ S →
  ∃ g', add_requires name g dep = Some g' ∧
    represents S (hs ++ edges_to S name [dep]) (rs ++ edges_to S name [dep]) g'.
Proof.
  intros [<- D1 D2 D3 H1 H2 H3] Hn. unfold add_requires, edges_to. rewrite filter_cons, filter_nil.
  rewrite bool_decide_decide. case_decide as Hd.
  - insert_edge (hard_deps g) name dep D1. insert_edge (requires g) name dep D2.
    insert_edge (reverse_deps g) dep name D3. eexists. split; [done|].
    split; [done..| | |]; intros s d; cbn; rewrite elem_of_app, list_elem_of_singleton.
    + unfold dependencies_of; cbn. rewrite I. unfold dependencies_of in H1.
      rewrite H1. naive_solver.
    + unfold dependents_of; cbn. rewrite I1. unfold dependents_of in H2. rewrite H2. naive_solver.
    + unfold requires_of; cbn. rewrite I0. unfold requires_of in H3. rewrite H3. naive_solver.
  - eexists. split; [done|]. cbn. rewrite !app_nil_r. done.
Qed.

Lemma add_ordering_spec S hs rs name g dep :
  represents S hs rs g → name ∈ S →
  ∃ g', add_ordering name g dep = Some g' ∧
    represents S (hs ++ edges_to S name [dep]) rs g'.
Proof.
  intros [<- D1 D2 D3 H1 H2 H3] Hn. unfold add_ordering, edges_to. rewrite filter_cons, filter_nil.
  rewrite bool_decide_decide. case_decide as Hd.
  - insert_edge (hard_deps g) name dep D1. insert_edge (reverse_deps g) dep name D3.
    eexists. split; [done|].
    split; [done..| | |done]; intros s d; cbn; rewrite elem_of_app, list_elem_of_singleton.
    + unfold dependencies_of; cbn. rewrite I. unfold dependencies_of in H1.
      rewrite H1. naive_solver.
    + unfold dependents_of; cbn. rewrite I0. unfold dependents_of in H2. rewrite H2. naive_solver.
  - eexists. split; [done|]. cbn. rewrite !app_nil_r. done.
Qed.

Lemma add_before_spec S hs rs name g dep :
  represents S hs rs g → name ∈ S →
  ∃ g', add_before name g dep = Some g' ∧
    represents S (hs ++ edges_from S name [dep]) rs g'.
Proof.
  intros [<- D1 D2 D3 H1 H2 H3] Hn. unfold add_before, edges_from. rewrite filter_cons, filter_nil.
  rewrite bool_decide_decide. case_decide as Hd.
  - insert_edge (hard_deps g) dep name D1. insert_edge (reverse_deps g) name dep D3.
    eexists. split; [done|].
    split; [done..| | |done]; intros s d; cbn; rewrite elem_of_app, list_elem_of_singleton.
    + unfold dependencies_of; cbn. rewrite I. unfold dependencies_of in H1.
      rewrite H1. naive_solver.
    + unfold dependents_of; cbn. rewrite I0. unfold dependents_of in H2. rewrite H2. naive_solver.
  - eexists. split; [done|]. cbn. rewrite !app_nil_r. done.
Qed.

(** A loop that adds the edges [e [dep]] and [e' [dep]] per element. *)
Lemma fold_edges S f (e e' : list string → list (string * string)) l hs rs g :
  e [] = [] → e' [] = [] →
  (∀ x l, e (x :: l) = e [x] ++ e l) → (∀ x l, e' (x :: l) = e' [x] ++ e' l) →
  (∀ hs rs g dep, represents S hs rs g → ∃ g', f g dep = Some g' ∧
    represents S (hs ++ e [dep]) (rs ++ e' [dep]) g') →
  represents S hs rs g →
  ∃ g', fold_opt f g l = Some g' ∧ represents S (hs ++ e l) (rs ++ e' l) g'.
Proof.
  intros He He' Hc Hc' Hf. revert hs rs g. induction l as [|x l IH]; intros hs rs g Hg; cbn.
  - exists g. rewrite He, He', !app_nil_r. done.
  - destruct (Hf _ _ _ x Hg) as (g1 & -> & Hg1). cbn.
    destruct (IH _ _ _ Hg1) as (g2 & -> & Hg2). exists g2. split; [done|].
    by rewrite (Hc x l), (Hc' x l), !app_assoc.
Qed.

Lemma edges_to_cons S name x l : edges_to S name (x :: l) = edges_to S name [x] ++ edges_to S name l.
Proof. unfold edges_to. change (x :: l) with ([x] ++ l). by rewrite filter_app, fmap_app. Qed.
Lemma edges_from_cons S name x l :
  edges_from S name (x :: l) = edges_from S name [x] ++ edges_from S name l.
Proof. unfold edges_from. change (x :: l) with ([x] ++ l). by rewrite filter_app, fmap_app. Qed.

Lemma requires_loop S hs rs name g l :
  represents S hs rs g → name ∈ S →
  ∃ g', fold_opt (add_requires name) g l = Some g' ∧
    represents S (hs ++ edges_to S name l) (rs ++ edges_to S name l) g'.
Proof. intros Hg Hn. apply fold_edges; auto using edges_to_cons, add_requires_spec. Qed.

Lemma ordering_loop S hs rs name g l :
  represents S hs rs g → name ∈ S →
  ∃ g', fold_opt (add_ordering name) g l = Some g' ∧ represents S (hs ++ edges_to S name l) rs g'.
Proof.
  intros Hg Hn. edestruct (fold_edges S (add_ordering name) (edges_to S name) (λ _, []))
    as (g' & ? & H); [auto using edges_to_cons..| |done|].
  - intros. setoid_rewrite app_nil_r. by apply add_ordering_spec.
  - rewrite app_nil_r in H. eauto.
Qed.

Lemma before_loop S hs rs name g l :
  represents S hs rs g → name ∈ S →
  ∃ g', fold_opt (add_before name) g l = Some g' ∧ represents S (hs ++ edges_from S name l) rs g'.
Proof.
  intros Hg Hn. edestruct (fold_edges S (add_before name) (edges_from S name) (λ _, []))
    as (g' & ? & H); [auto using edges_from_cons..| |done|].
  - intros. setoid_rewrite app_nil_r. by apply add_before_spec.
  - rewrite app_nil_r in H. eauto.
Qed.

Lemma build_def_spec S hs rs g def :
  represents S hs rs g → sd_name def ∈ S →
  ∃ g', build_def g def = Some g' ∧
    represents S (hs ++ order_edges S def) (rs ++ require_edges S def) g'.
Proof.
  intros Hg Hn. unfold build_def.
  destruct (requires_loop _ _ _ _ _ (ds_requires (sd_dependencies def)) Hg Hn) as (g1 & -> & H1). cbn.
  destruct (ordering_loop _ _ _ _ _ (ds_wants (sd_dependencies def)) H1 Hn) as (g2 & -> & H2). cbn.
  destruct (ordering_loop _ _ _ _ _ (ds_after (sd_dependencies def)) H2 Hn) as (g3 & -> & H3). cbn.
  destruct (before_loop _ _ _ _ _ (ds_before (sd_dependencies def)) H3 Hn) as (g4 & -> & H4).
  exists g4. split; [done|]. revert H4. apply represents_equiv; [|done].
  intros e. unfold order_edges, edges_to. rewrite !filter_app, !fmap_app, !elem_of_app. tauto.
Qed.

Lemma foldl_insert_empty (l : list string) (m : gmap string (gset string)) :
  dom (foldl (λ m name, <[name := ∅]> m) m l) = list_to_set l ∪ dom m ∧
  ((∀ k, default ∅ (m !! k) = ∅) →
   ∀ k, default ∅ (foldl (λ m name, <[name := ∅]> m) m l !! k) = ∅).
Proof.
  revert m. induction l as [|x l IH]; intros m; cbn; [split; [set_solver|done]|].
  destruct (IH (<[x:=∅]> m)) as [H1 H2]. split.
  - rewrite H1, dom_insert_L. set_solver.
  - intros Hm. apply H2. intros k. rewrite lookup_insert. case_decide; [done|]. apply Hm.
Qed.

(** [build] never panics, and holds exactly the edges the definitions declare. *)
Lemma build_represents defs :
  let S : gset string := list_to_set (map sd_name defs) in
  ∃ g, build defs = Some g ∧
    represents S (concat (map (order_edges S) defs)) (concat (map (require_edges S) defs)) g.
Proof.
  intros S. unfold build. fold S.
  set (g0 := {| hard_deps := _ |}).
  assert (represents S [] [] g0) as H0.
  { destruct (foldl_insert_empty (set_iter "services" S) ∅) as [Hd He].
    rewrite dom_empty_L, union_empty_r_L in Hd.
    assert (list_to_set (set_iter "services" S) = S) as HS.
    { apply set_eq. intros x. by rewrite elem_of_list_to_set, elem_of_set_iter. }
    rewrite HS in Hd. specialize (He ltac:(intros k; by rewrite lookup_empty)).
    split; cbn; try done; intros s d;
      unfold dependencies_of, dependents_of, requires_of; cbn; rewrite He; set_solver. }
  assert (∀ l hs rs g, represents S hs rs g → (∀ d, d ∈ l → sd_name d ∈ S) →
    ∃ g', fold_opt build_def g l = Some g' ∧
    represents S (hs ++ concat (map (order_edges S) l)) (rs ++ concat (map (require_edges S) l)) g')
    as Hfold.
  { induction l as [|d l IH]; intros hs rs g Hg Hl; cbn.
    - exists g. by rewrite !app_nil_r.
    - destruct (build_def_spec _ _ _ _ d Hg) as (g1 & -> & H1); [set_solver|]. cbn.
      destruct (IH _ _ _ H1) as (g2 & -> & H2); [set_solver|].
      exists g2. by rewrite !app_assoc. }
  apply (Hfold defs [] [] g0 H0). intros d Hd. unfold S.
  apply elem_of_list_to_set, list_elem_of_fmap. eauto.
Qed.

Lemma represents_wf S hs rs g :
  represents S hs rs g → (∀ e, e ∈ rs → e ∈ hs) → wf_graph g.
Proof.
  intros [<- ? ? ? H1 H2 H3] Hsub. split; [done..| |].
  - intros s d. by rewrite H1, H2.
  - intros s d. rewrite H1, H3. apply Hsub.
Qed.

Lemma build_wf defs g : build defs = Some g → wf_graph g.
Proof.
  intros Hb. destruct (build_represents defs) as (g' & Hb' & Hrep).
  rewrite Hb in Hb'. injection Hb' as <-. eapply represents_wf; [done|].
  intros e. rewrite !list_elem_of_In, !in_concat. setoid_rewrite in_map_iff.
  intros (l & (d & <- & Hd) & He). eexists. split; [by exists d|].
  unfold order_edges. rewrite <-list_elem_of_In in *. apply elem_of_app. left.
  unfold require_edges in He. unfold edges_to in *. rewrite filter_app, fmap_app. set_solver.
Qed.
End graph.

(** Membership in the declared edges, in terms of the definitions. *)
Lemma elem_of_order_edges S defs s d :
  (s, d) ∈ concat (map (order_edges S) defs) ↔
  ∃ def, def ∈ defs ∧
    ((s = sd_name def ∧ d ∈ S ∧
      (d ∈ ds_requires (sd_dependencies def) ∨ d ∈ ds_wants (sd_dependencies def)
       ∨ d ∈ ds_after (sd_dependencies def))) ∨
     (d = sd_name def ∧ s ∈ S ∧ s ∈ ds_before (sd_dependencies def))).
Proof.
  rewrite list_elem_of_In, in_concat. setoid_rewrite in_map_iff.
  setoid_rewrite <-list_elem_of_In. unfold order_edges, edges_to, edges_from. split.
  - intros (l & (def & <- & Hdef) & He). exists def. split; [done|].
    rewrite elem_of_app, !list_elem_of_fmap in He.
    setoid_rewrite list_elem_of_filter in He. setoid_rewrite elem_of_app in He.
    setoid_rewrite elem_of_app in He. naive_solver.
  - intros (def & Hdef & He). eexists. split; [by exists def|].
    rewrite elem_of_app, !list_elem_of_fmap.
    setoid_rewrite list_elem_of_filter. setoid_rewrite elem_of_app. setoid_rewrite elem_of_app.
    naive_solver.
Qed.

Lemma elem_of_require_edges S defs s d :
  (s, d) ∈ concat (map (require_edges S) defs) ↔
  ∃ def, def ∈ defs ∧ s = sd_name def ∧ d ∈ S ∧ d ∈ ds_requires (sd_dependencies def).
Proof.
  rewrite list_elem_of_In, in_concat. setoid_rewrite in_map_iff.
  setoid_rewrite <-list_elem_of_In. unfold require_edges, edges_to. split.
  - intros (l & (def & <- & Hdef) & He). exists def.
    rewrite list_elem_of_fmap in He. setoid_rewrite list_elem_of_filter in He. naive_solver.
  - intros (def & Hdef & He). eexists. split; [by exists def|].
    rewrite list_elem_of_fmap. setoid_rewrite list_elem_of_filter. naive_solver.
Qed.

(** C14: build never panics on its unwrap calls, and the graph it returns has exactly the
    declared edges (requires, wants, after, and before reversed) between known services,
    with the reverse map inverse to the dependency map. *)
Theorem build_correct `{HO : HashOrder} (defs : list ServiceDef) :
  ∃ g, build defs = Some g ∧ wf_graph g ∧
    services g = list_to_set (map sd_name defs) ∧
    (∀ s d, d ∈ dependencies_of g s ↔
      ∃ def, def ∈ defs ∧
        ((s = sd_name def ∧ d ∈ services g ∧
          (d ∈ ds_requires (sd_dependencies def) ∨ d ∈ ds_wants (sd_dependencies def)
           ∨ d ∈ ds_after (sd_dependencies def))) ∨
         (d = sd_name def ∧ s ∈ services g ∧ s ∈ ds_before (sd_dependencies def)))) ∧
    (∀ s d, d ∈ requires_of g s ↔
      ∃ def, def ∈ defs ∧ s = sd_name def ∧ d ∈ services g ∧
        d ∈ ds_requires (sd_dependencies def)).
Proof.
  destruct (build_represents defs) as (g & Hb & Hr). exists g. split; [done|].
  split; [by eapply build_wf|]. destruct Hr as [-> _ _ _ H1 _ H3]. split; [done|].
  split; intros s d; [by rewrite H1, elem_of_order_edges|by rewrite H3, elem_of_require_edges].
Qed.
