(* ===== verification/Cycle.v ===== *)
(** * Cycle detection (dynamod-svmgr/src/dependency/cycle.rs)

    The three-colour depth-first search, its termination, and that it reports a
    cycle exactly when the dependency graph has one. *)

From S2P Require Import Prelude RustStr Config Graph.

#[local] Open Scope list_scope.

Inductive Color := White | Gray | Black.
#[export] Instance Color_eq_dec : EqDecision Color.
Proof. solve_decision. Defined.

(** The three mutable arguments of [dfs]. *)
Record dfs_state := {
  colors : gmap string Color;
  path : list string;
  cycles : list (list string);
}.

Record CycleError := { err_cycles : list (list string) }.

Section cycle.
Context `{HO : HashOrder}.

(** The body of the loop over the dependencies of a node; [visit] is the
    recursive call. *)
Definition dfs_dep (visit : string → dfs_state → option dfs_state)
    (st : dfs_state) (dep : string) : option dfs_state :=
  match colors st !! dep with
  | Some Gray =>
      match position (λ s, String.eqb s dep) (path st) with
      | Some start =>
          Some {| colors := colors st; path := path st;
                  cycles := cycles st ++ [drop start (path st)] |}
      | None => Some st
      end
  | Some White | None => visit dep st
  | Some Black => Some st
  end.

(** [dfs]; [None] is running out of fuel. *)
Fixpoint dfs (fuel : nat) (g : DependencyGraph) (node : string) (st : dfs_state)
    : option dfs_state :=
  match fuel with
  | O => None
  | S fuel =>
      st1 ← fold_opt (dfs_dep (dfs fuel g))
        {| colors := <[node := Gray]> (colors st); path := path st ++ [node];
           cycles := cycles st |} (iter_deps g node);
      Some {| colors := <[node := Black]> (colors st1); path := removelast (path st1);
              cycles := cycles st1 |}
  end.

Definition visit_root (g : DependencyGraph) (st : dfs_state) (service : string)
    : option dfs_state :=
  if bool_decide (colors st !! service = Some White)
  then dfs (size (all_services g)) g service st else Some st.

(** [detect_cycles]. *)
Definition detect_cycles (g : DependencyGraph) : option (list (list string)) :=
  let init := {| colors := gset_to_gmap White (all_services g); path := []; cycles := [] |} in
  cycles <$> fold_opt (visit_root g) init (iter_services g).

(** [validate_no_cycles]. *)
Definition validate_no_cycles (g : DependencyGraph) : option (result unit CycleError) :=
  cs ← detect_cycles g;
  Some (match cs with [] => Ok () | _ => Err {| err_cycles := cs |} end).

(** [format_cycles]; [None] is the panic of [c[0]] on an empty cycle. *)
Definition format_cycle (c : list string) : option string :=
  match c with
  | [] => None
  | first :: _ => Some (String.append (join " -> " c) (String.append " -> " first))
  end.
Definition format_cycles (cs : list (list string)) : option string :=
  join "; " <$> mapM format_cycle cs.

(** ** Specification *)

(** [edge g s d]: [s] depends on [d]. *)
Definition edge (g : DependencyGraph) (s d : string) : Prop := d ∈ dependencies_of g s.
Definition acyclic (g : DependencyGraph) : Prop := ∀ s, ¬ tc (edge g) s s.

(** Consecutive elements depend on each other. *)
Inductive chain (g : DependencyGraph) : list string → Prop :=
| chain_nil : chain g []
| chain_one x : chain g [x]
| chain_cons x y l : edge g x y → chain g (y :: l) → chain g (x :: y :: l).

(** A simple dependency cycle. *)
Definition is_cycle (g : DependencyGraph) (c : list string) : Prop :=
  NoDup c ∧ chain g c ∧ ∃ x y, head c = Some x ∧ last c = Some y ∧ edge g y x.

(** Every element depends only on elements after it. *)
Inductive topo (g : DependencyGraph) : list string → Prop :=
| topo_nil : topo g []
| topo_cons n l : topo g l → n ∉ l → (∀ d, edge g n d → d ∈ l) → topo g (n :: l).

Lemma topo_closed g l n m : topo g l → n ∈ l → tc (edge g) n m → m ∈ l.
Proof.
  intros Ht Hn Hnm. revert Hn. induction Hnm as [n m He|n k m He _ IH].
  - revert He. induction Ht as [|x l Ht IH Hx Hd]; [set_solver|]. set_solver.
  - intros Hn. apply IH. revert He. clear IH.
    induction Ht as [|x l Ht IH Hx Hd]; [set_solver|]. set_solver.
Qed.

Lemma topo_acyclic g l : topo g l → ∀ n, n ∈ l → ¬ tc (edge g) n n.
Proof.
  induction 1 as [|x l Ht IH Hx Hd]; intros n Hn Hcyc; [set_solver|].
  apply elem_of_cons in Hn as [->|Hn]; [|by eapply IH].
  apply Hx. inversion Hcyc as [? ? He|? k ? He Hk]; subst.
  - by apply Hd.
  - eapply topo_closed; [done| |done]. by apply Hd.
Qed.

Lemma chain_tc g x l y : chain g (x :: l) → last (x :: l) = Some y → x = y ∨ tc (edge g) x y.
Proof.
  revert x. induction l as [|z l IH]; intros x Hc Hl; [left; naive_solver|].
  inversion Hc; subst. destruct (IH z) as [->|?]; [done|done|right..].
  - by apply tc_once.
  - by eapply tc_l.
Qed.

Lemma is_cycle_tc g c : is_cycle g c → ∃ x, tc (edge g) x x.
Proof.
  intros (_ & Hc & x & y & Hx & Hy & He). destruct c as [|x' l]; [done|]. injection Hx as ->.
  exists x. destruct (chain_tc _ _ _ _ Hc Hy) as [->|?]; [by apply tc_once|by eapply tc_r].
Qed.

Lemma chain_drop g l i : chain g l → chain g (drop i l).
Proof.
  revert i. induction l as [|x l IH]; intros [|i] Hc; [done..|]. cbn.
  apply IH. inversion Hc; subst; [constructor|done].
Qed.

Lemma chain_snoc g l y : chain g l → (∀ x, last l = Some x → edge g x y) → chain g (l ++ [y]).
Proof.
  induction 1 as [|x|x z l He Hc IH]; intros Hl; cbn.
  - constructor.
  - constructor; [by apply Hl|constructor].
  - constructor; [done|]. apply IH. intros w Hw. apply Hl. done.
Qed.

(** ** The search invariant *)

Definition visited (st : dfs_state) (x : string) : Prop :=
  colors st !! x = Some Gray ∨ colors st !! x = Some Black.
#[local] Instance visited_dec st x : Decision (visited st x).
Proof. unfold visited. apply _. Defined.

Definition unvisited (g : DependencyGraph) (st : dfs_state) : gset string :=
  filter (λ x, ¬ visited st x) (services g).

Record dfs_inv (g : DependencyGraph) (st : dfs_state) : Prop := {
  inv_gray : ∀ x, colors st !! x = Some Gray ↔ x ∈ path st;
  inv_nodup : NoDup (path st);
  inv_chain : chain g (path st);
  inv_cycles : Forall (is_cycle g) (cycles st);
  inv_topo : cycles st = [] → ∃ l, topo g l ∧ ∀ x, colors st !! x = Some Black ↔ x ∈ l;
}.

(** What one search from [st] to [st'] may change. *)
Record dfs_ext (st st' : dfs_state) : Prop := {
  ext_path : path st' = path st;
  ext_visited : ∀ x, visited st x → visited st' x;
  ext_black : ∀ x, colors st !! x = Some Black → colors st' !! x = Some Black;
  ext_cycles : cycles st `prefix_of` cycles st';
  ext_dom : dom (colors st) ⊆ dom (colors st');
}.

Lemma dfs_ext_refl st : dfs_ext st st.
Proof. by split. Qed.
Lemma dfs_ext_trans st1 st2 st3 : dfs_ext st1 st2 → dfs_ext st2 st3 → dfs_ext st1 st3.
Proof. intros [] []. split; [congruence|auto..| |]; by etrans. Qed.

Lemma prefix_nil_eq {A} (l k : list A) : l `prefix_of` k → k = [] → l = [].
Proof. intros [m ->]. by intros [-> _]%app_nil. Qed.

Lemma unvisited_mono g st st' :
  (∀ x, visited st x → visited st' x) → size (unvisited g st') ≤ size (unvisited g st).
Proof.
  intros H. apply subseteq_size. intros x. unfold unvisited. rewrite !elem_of_filter. naive_solver.
Qed.

(** Colouring an unvisited node of the graph takes it off the count. *)
Lemma unvisited_gray g st node p cs :
  node ∈ services g → ¬ visited st node →
  size (unvisited g st) =
  S (size (unvisited g {| colors := <[node := Gray]> (colors st); path := p; cycles := cs |})).
Proof.
  intros Hn Hv. apply (size_filter_remove _ _ _ node); [done|done|].
  intros x _. unfold visited. cbn. rewrite lookup_insert. case_decide; naive_solver.
Qed.

(** The call of [dfs] that a node at the end of the path may make. *)
Definition dfs_spec (g : DependencyGraph) (fuel : nat) : Prop :=
  ∀ node st, dfs_inv g st → node ∈ services g → ¬ visited st node →
    chain g (path st ++ [node]) → size (unvisited g st) ≤ fuel →
    ∃ st', dfs fuel g node st = Some st' ∧ dfs_inv g st' ∧ dfs_ext st st' ∧
      colors st' !! node = Some Black.

(** A dependency on the path closes a cycle. *)
Lemma cycle_found g st node dep start :
  dfs_inv g st → last (path st) = Some node → edge g node dep →
  position (λ s, String.eqb s dep) (path st) = Some start →
  is_cycle g (drop start (path st)).
Proof.
  intros Hi Hl He Hp. destruct (drop_position _ _ _ Hp) as (x & l' & Hd & Hx).
  apply String.eqb_eq in Hx as ->. split; [|split].
  - eapply sublist_NoDup; [apply (inv_nodup _ _ Hi)|]. apply sublist_drop.
  - apply chain_drop, (inv_chain _ _ Hi).
  - exists dep, node. rewrite Hd. split; [done|]. split; [|done].
    pose proof (take_drop start (path st)) as Htd. rewrite Hd in Htd.
    by rewrite <-Htd, last_app_cons in Hl.
Qed.

Lemma dfs_dep_spec g fuel node st dep :
  wf_graph g → dfs_spec g fuel →
  dfs_inv g st → last (path st) = Some node → edge g node dep →
  size (unvisited g st) ≤ fuel →
  ∃ st', dfs_dep (dfs fuel g) st dep = Some st' ∧ dfs_inv g st' ∧ dfs_ext st st' ∧
    (cycles st' = [] → colors st' !! dep = Some Black).
Proof.
  intros Hwf Hdfs Hi Hl He Hf. unfold dfs_dep.
  assert (colors st !! dep = Some White ∨ colors st !! dep = None →
    ∃ st', dfs fuel g dep st = Some st' ∧ dfs_inv g st' ∧ dfs_ext st st' ∧
      (cycles st' = [] → colors st' !! dep = Some Black)) as Hwhite.
  { intros Hc. destruct (Hdfs dep st) as (st' & ? & ? & ? & ?); try done.
    - by apply (wf_deps_services _ _ _ Hwf He).
    - unfold visited. destruct Hc as [-> | ->]; naive_solver.
    - apply chain_snoc; [apply (inv_chain _ _ Hi)|]. naive_solver.
    - exists st'. auto. }
  destruct (colors st !! dep) as [[]|] eqn:Hc; [by auto| |by eauto using dfs_ext_refl|by auto].
  apply (inv_gray _ _ Hi) in Hc as Hin.
  destruct (position_is_Some (λ s, String.eqb s dep) (path st) dep Hin) as (i & Hpos);
    [by apply String.eqb_refl|]. rewrite Hpos.
  eexists. split; [done|]. split; [|split].
  - destruct Hi as [? ? ? ? ?]. split; cbn; [done..| |].
    + apply Forall_app_2; [done|]. constructor; [|constructor].
      eapply cycle_found; [|done..]. by split.
    + by intros [_ ?]%app_nil.
  - split; cbn; [done..| |done]. by apply prefix_app_r.
  - cbn. by intros [_ ?]%app_nil.
Qed.

Lemma dfs_loop_spec g fuel node st deps :
  wf_graph g → dfs_spec g fuel → (∀ d, d ∈ deps → edge g node d) →
  dfs_inv g st → last (path st) = Some node → size (unvisited g st) ≤ fuel →
  ∃ st', fold_opt (dfs_dep (dfs fuel g)) st deps = Some st' ∧ dfs_inv g st' ∧ dfs_ext st st' ∧
    (cycles st' = [] → ∀ d, d ∈ deps → colors st' !! d = Some Black).
Proof.
  intros Hwf Hdfs. revert st. induction deps as [|d deps IH]; intros st Hd Hi Hl Hf.
  - exists st. split; [done|]. split; [done|]. split; [apply dfs_ext_refl|]. set_solver.
  - cbn. destruct (dfs_dep_spec g fuel node st d) as (st1 & -> & Hi1 & He1 & Hb1); try done.
    { apply Hd. set_solver. }
    cbn. destruct (IH st1) as (st2 & -> & Hi2 & He2 & Hb2).
    + set_solver.
    + done.
    + by rewrite (ext_path _ _ He1).
    + etrans; [|done]. apply unvisited_mono, (ext_visited _ _ He1).
    + exists st2. split; [done|]. split; [done|]. split; [by eapply dfs_ext_trans|].
      intros Hc x [->|Hx]%elem_of_cons; [|by apply Hb2].
      apply (ext_black _ _ He2), Hb1. eapply prefix_nil_eq; [apply (ext_cycles _ _ He2)|done].
Qed.

(** Entering a node keeps the invariant. *)
Lemma dfs_enter g st node :
  dfs_inv g st → ¬ visited st node → chain g (path st ++ [node]) →
  dfs_inv g {| colors := <[node := Gray]> (colors st); path := path st ++ [node];
               cycles := cycles st |}.
Proof.
  intros [Hg Hn Hc Hy Ht] Hv Hch. split; cbn; [| |done|done|].
  - intros x. rewrite lookup_insert, elem_of_app, list_elem_of_singleton.
    case_decide as Hx; [subst; naive_solver|]. rewrite Hg. naive_solver.
  - apply NoDup_app. split; [done|]. split; [|apply NoDup_singleton].
    intros x Hx ->%list_elem_of_singleton. apply Hv. left. by apply Hg.
  - intros Hnil. destruct (Ht Hnil) as (l & Hl & Hb). exists l. split; [done|].
    intros x. rewrite lookup_insert. case_decide as Hx; [|done]. subst x.
    rewrite <-Hb. unfold visited in Hv. naive_solver.
Qed.

(** Leaving a node whose dependencies are all finished keeps it too. *)
Lemma dfs_leave g st node p :
  dfs_inv g st → path st = p ++ [node] →
  (cycles st = [] → ∀ d, edge g node d → colors st !! d = Some Black) →
  dfs_inv g {| colors := <[node := Black]> (colors st); path := removelast (path st);
               cycles := cycles st |}.
Proof.
  intros [Hg Hn Hc Hy Ht] Hp Hd. rewrite Hp in *. rewrite removelast_last.
  apply NoDup_app in Hn as (Hn1 & Hdisj & _). split; cbn; [|done| |done|].
  - intros x. rewrite lookup_insert. case_decide as Hx.
    + subst x. split; [done|]. intros Hin. exfalso. apply (Hdisj _ Hin). set_solver.
    + rewrite Hg. set_solver.
  - assert (∀ l : list string, chain g (l ++ [node]) → chain g l) as Hinit; [|by eapply Hinit].
    clear. induction l as [|x l IH]; [constructor|]. intros Hc. destruct l as [|y l]; [constructor|].
    inversion Hc; subst. constructor; [done|]. by apply IH.
  - intros Hnil. destruct (Ht Hnil) as (l & Hl & Hb). exists (node :: l). split.
    + constructor; [done| |].
      * rewrite <-Hb. rewrite (proj2 (Hg node)); [done|]. set_solver.
      * intros d He. apply Hb. by apply Hd.
    + intros x. rewrite lookup_insert, elem_of_cons. case_decide as Hx; [naive_solver|].
      rewrite Hb. naive_solver.
Qed.

Lemma dfs_correct g : wf_graph g → ∀ fuel, dfs_spec g fuel.
Proof.
  intros Hwf. induction fuel as [|fuel IH]; intros node st Hi Hn Hv Hch Hf.
  { apply Nat.le_0_r, size_empty_inv in Hf. exfalso. specialize (Hf node).
    unfold unvisited in Hf. rewrite elem_of_filter in Hf. set_solver. }
  pose proof (unvisited_gray g st node (path st ++ [node]) (cycles st) Hn Hv) as Hsz.
  cbn [dfs]. set (st0 := {| colors := <[node := Gray]> _ |}) in *.
  destruct (dfs_loop_spec g fuel node st0 (iter_deps g node)) as (st1 & -> & Hi1 & He1 & Hb1).
  { done. } { done. } { intros d. by rewrite elem_of_iter_deps. }
  { by apply dfs_enter. } { cbn. by rewrite last_snoc. } { lia. }
  pose proof (ext_path _ _ He1) as Hp1. cbn [path st0] in Hp1.
  cbn. eexists. split; [done|]. split; [|split].
  - eapply dfs_leave; [done|done|]. intros Hnil d He. apply Hb1; [done|]. by apply elem_of_iter_deps.
  - split; cbn.
    + by rewrite Hp1, removelast_last.
    + intros x Hx. unfold visited; cbn. rewrite lookup_insert. case_decide as Hxn; [by right|].
      apply (ext_visited _ _ He1). unfold visited, st0; cbn. rewrite lookup_insert_ne by done. done.
    + intros x Hx. rewrite lookup_insert. case_decide as Hxn; [done|].
      apply (ext_black _ _ He1). cbn. by rewrite lookup_insert_ne.
    + apply (ext_cycles _ _ He1).
    + pose proof (ext_dom _ _ He1) as Hd. cbn in Hd. rewrite dom_insert_L in *. set_solver.
  - cbn. by rewrite lookup_insert_eq.
Qed.

(** ** The whole search *)

Lemma visit_roots_spec g st l :
  wf_graph g → dfs_inv g st → path st = [] → (∀ s, s ∈ l → s ∈ services g) →
  services g ⊆ dom (colors st) →
  ∃ st', fold_opt (visit_root g) st l = Some st' ∧ dfs_inv g st' ∧ dfs_ext st st' ∧
    ∀ s, s ∈ l → colors st' !! s = Some Black.
Proof.
  intros Hwf. revert st. induction l as [|s l IH]; intros st Hi Hp Hl Hdom.
  - exists st. split; [done|]. split; [done|]. split; [apply dfs_ext_refl|]. set_solver.
  - cbn. assert (∃ st1, visit_root g st s = Some st1 ∧ dfs_inv g st1 ∧ dfs_ext st st1 ∧
      colors st1 !! s = Some Black) as (st1 & -> & Hi1 & He1 & Hb1).
    { unfold visit_root. case_bool_decide as Hw.
      - apply (dfs_correct g Hwf); try done.
        + set_solver.
        + unfold visited. naive_solver.
        + rewrite Hp. constructor.
        + apply subseteq_size. intros x. unfold unvisited. rewrite elem_of_filter. naive_solver.
      - exists st. split; [done|]. split; [done|]. split; [apply dfs_ext_refl|].
        destruct (proj1 (elem_of_dom (colors st) s)) as [[] Hc]; [set_solver|done| |done].
        apply (inv_gray _ _ Hi) in Hc. rewrite Hp in Hc. set_solver. }
    cbn. destruct (IH st1) as (st2 & -> & Hi2 & He2 & Hb2); try done.
    { by rewrite (ext_path _ _ He1). } { set_solver. } { etrans; [done|apply (ext_dom _ _ He1)]. }
    exists st2. split; [done|]. split; [done|]. split; [by eapply dfs_ext_trans|].
    intros x [->|Hx]%elem_of_cons; [by apply (ext_black _ _ He2)|by apply Hb2].
Qed.

(** The final state of the search. *)
Lemma detect_cycles_final g :
  wf_graph g →
  ∃ st, detect_cycles g = Some (cycles st) ∧ dfs_inv g st ∧
    ∀ s, s ∈ services g → colors st !! s = Some Black.
Proof.
  intros Hwf. unfold detect_cycles.
  set (st0 := {| colors := gset_to_gmap White (all_services g) |}).
  assert (∀ x c, colors st0 !! x = Some c → c = White) as Hwhite.
  { intros x c. cbn. rewrite lookup_gset_to_gmap_Some. naive_solver. }
  destruct (visit_roots_spec g st0 (iter_services g)) as (st & -> & Hi & He & Hb).
  - done.
  - split; cbn; [|constructor..|].
    + intros x. split; [by intros ?%Hwhite|set_solver].
    + intros _. exists []. split; [constructor|]. intros x. split; [by intros ?%Hwhite|set_solver].
  - done.
  - intros s. by rewrite elem_of_iter_services.
  - cbn. by rewrite dom_gset_to_gmap.
  - exists st. split; [done|]. split; [done|]. intros s Hs. apply Hb. by apply elem_of_iter_services.
Qed.

(** When nothing is reported, the services can be listed dependencies last. *)
Lemma no_cycles_topo g :
  wf_graph g → detect_cycles g = Some [] → ∃ l, topo g l ∧ ∀ s, s ∈ services g → s ∈ l.
Proof.
  intros Hwf Hd. destruct (detect_cycles_final g Hwf) as (st & Hd' & Hi & Hb).
  rewrite Hd in Hd'. injection Hd' as Hnil.
  destruct (inv_topo _ _ Hi (eq_sym Hnil)) as (l & Hl & Hbl). exists l. split; [done|].
  intros s Hs. by apply Hbl, Hb.
Qed.

Lemma detect_cycles_spec g :
  wf_graph g →
  ∃ cs, detect_cycles g = Some cs ∧ Forall (is_cycle g) cs ∧ (cs = [] ↔ acyclic g).
Proof.
  intros Hwf. destruct (detect_cycles_final g Hwf) as (st & Hd & Hi & Hb).
  exists (cycles st). split; [done|]. split; [apply (inv_cycles _ _ Hi)|]. split.
  - intros Hnil s Hs. rewrite Hnil in Hd. destruct (no_cycles_topo g Hwf Hd) as (l & Hl & Hin).
    eapply topo_acyclic; [done| |done]. apply Hin.
    assert (∃ d, edge g s d) as (d & He) by (inversion Hs; eauto).
    by apply (wf_deps_services _ _ _ Hwf He).
  - intros Hac. destruct (cycles st) as [|c cs] eqn:E; [done|]. exfalso.
    pose proof (inv_cycles _ _ Hi) as Hc. rewrite E in Hc. apply Forall_cons_1 in Hc as [Hc _].
    apply is_cycle_tc in Hc as (x & Hx). by eapply Hac.
Qed.

Lemma is_cycle_format g cs :
  Forall (is_cycle g) cs → is_Some (format_cycles cs).
Proof.
  intros Hcs. unfold format_cycles. apply fmap_is_Some, mapM_is_Some_2.
  eapply Forall_impl; [done|]. intros c (_ & _ & x & y & Hx & _). destruct c; [done|]. by eexists.
Qed.
End cycle.

(** C13: Cycle detection terminates on every built graph, accepts exactly the acyclic
    graphs, reports only genuine simple dependency cycles, and formatting the report never
    indexes an empty cycle. *)
Theorem validate_no_cycles_correct `{HO : HashOrder} defs g :
  build defs = Some g →
  ∃ cs, detect_cycles g = Some cs ∧
    validate_no_cycles g = Some (if decide (cs = []) then Ok () else Err {| err_cycles := cs |}) ∧
    (cs = [] ↔ acyclic g) ∧ Forall (is_cycle g) cs ∧ is_Some (format_cycles cs).
Proof.
  intros Hb%build_wf. destruct (detect_cycles_spec g Hb) as (cs & Hd & Hc & Hac).
  exists cs. split; [done|]. split; [|split; [done|split; [done|by eapply is_cycle_format]]].
  unfold validate_no_cycles. rewrite Hd. cbn. destruct cs; [by rewrite decide_True|].
  by rewrite decide_False.
Qed.
(** Two services that require each other. *)
Definition two_cycle : list ServiceDef :=
  let mk name dep :=
    let d := minimal_service name ["/bin/true"] in
    {| sd_service := sd_service d; sd_restart := sd_restart d; sd_readiness := sd_readiness d;
       sd_dependencies := {| ds_requires := [dep]; ds_wants := []; ds_after := []; ds_before := [] |};
       sd_cgroup := None; sd_namespace := None; sd_shutdown := sd_shutdown d |} in
  [mk "a" "b"; mk "b" "a"].
Lemma validate_no_cycles_correct_witness :
  ∃ g cs, build (HO := elements_order) two_cycle = Some g ∧
    detect_cycles (HO := elements_order) g = Some cs ∧ cs ≠ [] ∧ ¬ acyclic g.
Proof.
  destruct (build (HO := elements_order) two_cycle) as [g|] eqn:E; [|vm_compute in E; discriminate].
  destruct (validate_no_cycles_correct (HO := elements_order) two_cycle g E)
    as (cs & Hd & _ & Hac & _).
  assert (cs ≠ []) as Hne.
  { vm_compute in E. injection E as <-. vm_compute in Hd. by injection Hd as <-. }
  exists g, cs. split; [done|]. split; [done|]. split; [done|]. by rewrite <-Hac.
Defined.
