(* ===== verification/Frontier.v ===== *)
(** * Startup frontier (dynamod-svmgr/src/dependency/frontier.rs)

    [StartupFrontier] with its counters and sets, the breadth-first blocking of
    [mark_failed], the runs of the startup loop as sequences of labelled steps,
    and the invariant that ties the counters to the dependency graph. *)

From S2P Require Import Prelude Config Graph Cycle.

#[local] Open Scope list_scope.

Record StartupFrontier := {
  unmet : gmap string nat;
  ready_to_start : list string;
  ready : gset string;
  pending : gset string;
  blocked : gset string;
  completed : gset string;
}.

Section frontier.
Context `{HO : HashOrder}.

(** [StartupFrontier::new]. *)
Definition frontier_new (g : DependencyGraph) : StartupFrontier :=
  let '(unmet, q) :=
    foldl (λ '(unmet, q) service,
      let count := size (dependencies_of g service) in
      (<[service := count]> unmet, if decide (count = 0) then q ++ [service] else q))
      (∅, []) (iter_services g) in
  {| unmet := unmet; ready_to_start := q; ready := ∅; pending := ∅; blocked := ∅;
     completed := ∅ |}.

(** [take_ready]. *)
Definition take_ready (st : StartupFrontier) : list string * StartupFrontier :=
  let batch := ready_to_start st in
  (batch,
   {| unmet := unmet st; ready_to_start := []; ready := ready st;
      pending := foldl (λ p s, {[s]} ∪ p) (pending st) batch;
      blocked := blocked st; completed := completed st |}).

(** The body of the loop of [mark_ready] over the dependents. *)
Definition ready_dependent (st : StartupFrontier) (dependent : string) : StartupFrontier :=
  if decide (dependent ∈ blocked st) then st
  else match unmet st !! dependent with
       | Some count =>
           let count := saturating_sub count 1 in
           {| unmet := <[dependent := count]> (unmet st);
              ready_to_start :=
                if decide (count = 0 ∧ (dependent ∉ completed st) ∧ (dependent ∉ pending st))
                then ready_to_start st ++ [dependent] else ready_to_start st;
              ready := ready st; pending := pending st; blocked := blocked st;
              completed := completed st |}
       | None => st
       end.

(** [mark_ready]. *)
Definition mark_ready (service : string) (g : DependencyGraph) (st : StartupFrontier)
    : StartupFrontier :=
  foldl ready_dependent
    {| unmet := unmet st; ready_to_start := ready_to_start st;
       ready := {[service]} ∪ ready st; pending := pending st ∖ {[service]};
       blocked := blocked st; completed := {[service]} ∪ completed st |}
    (iter_dependents g service).

(** The body of the first loop of [mark_failed]: a requirer is queued for
    blocking, any other dependent is counted down. *)
Definition failed_dependent (service : string) (g : DependencyGraph)
    (acc : StartupFrontier * list string) (dependent : string)
    : StartupFrontier * list string :=
  let '(st, to_block) := acc in
  if decide (service ∈ requires_of g dependent) then (st, to_block ++ [dependent])
  else match unmet st !! dependent with
       | Some count =>
           let count := saturating_sub count 1 in
           ({| unmet := <[dependent := count]> (unmet st);
               ready_to_start :=
                 if decide (count = 0 ∧ (dependent ∉ completed st) ∧ (dependent ∉ pending st)
                            ∧ (dependent ∉ blocked st))
                 then ready_to_start st ++ [dependent] else ready_to_start st;
               ready := ready st; pending := pending st; blocked := blocked st;
               completed := completed st |}, to_block)
       | None => (st, to_block)
       end.

(** The breadth-first loop of [mark_failed]; [None] is running out of fuel. *)
Fixpoint block_loop (fuel : nat) (g : DependencyGraph) (st : StartupFrontier)
    (to_block : list string) : option StartupFrontier :=
  match to_block with
  | [] => Some st
  | svc :: to_block =>
      match fuel with
      | O => None
      | S fuel =>
          if decide (svc ∈ blocked st) then block_loop fuel g st to_block
          else
            let st := {| unmet := unmet st; ready_to_start := ready_to_start st;
                         ready := ready st; pending := pending st;
                         blocked := {[svc]} ∪ blocked st;
                         completed := {[svc]} ∪ completed st |} in
            block_loop fuel g st
              (to_block ++ filter (λ dep, svc ∈ requires_of g dep ∧ dep ∉ blocked st)
                             (iter_dependents g svc))
      end
  end.

(** Every service enters the queue at most once per dependency edge. *)
Definition edge_count (g : DependencyGraph) : nat :=
  sum_list_with (λ s, size (dependents_of g s)) (elements (services g)).
Definition block_fuel (g : DependencyGraph) (to_block : list string) : nat :=
  length to_block + edge_count g.

(** [mark_failed]. *)
Definition mark_failed (service : string) (g : DependencyGraph) (st : StartupFrontier)
    : option StartupFrontier :=
  let st := {| unmet := unmet st; ready_to_start := ready_to_start st; ready := ready st;
               pending := pending st ∖ {[service]}; blocked := blocked st;
               completed := {[service]} ∪ completed st |} in
  let '(st, to_block) := foldl (failed_dependent service g) (st, []) (iter_dependents g service) in
  block_loop (block_fuel g to_block) g st to_block.

Definition is_complete (st : StartupFrontier) : bool :=
  bool_decide (size (unmet st) ≤ size (completed st) + size (blocked st)).
Definition has_ready (st : StartupFrontier) : bool :=
  negb (bool_decide (ready_to_start st = [])).
Definition has_pending (st : StartupFrontier) : bool := negb (bool_decide (pending st = ∅)).
Definition blocked_services (st : StartupFrontier) : gset string := blocked st.
Definition ready_services (st : StartupFrontier) : gset string := ready st.
Definition pending_count (st : StartupFrontier) : nat := size (pending st).

(** ** Runs

    The startup loop takes batches, and reports each started service once, as
    ready or as failed. *)
Inductive label := LTake (batch : list string) | LReady (s : string) | LFailed (s : string).

Inductive fstep (g : DependencyGraph) : StartupFrontier → label → StartupFrontier → Prop :=
| step_take st batch st' :
    take_ready st = (batch, st') → fstep g st (LTake batch) st'
| step_ready st s :
    s ∈ pending st → fstep g st (LReady s) (mark_ready s g st)
| step_failed st s st' :
    s ∈ pending st → mark_failed s g st = Some st' → fstep g st (LFailed s) st'.

(** [frun g tr st]: from the initial frontier, the labels [tr] (oldest first)
    lead to [st]. *)
Inductive frun (g : DependencyGraph) : list label → StartupFrontier → Prop :=
| run_nil : frun g [] (frontier_new g)
| run_snoc tr st l st' : frun g tr st → fstep g st l st' → frun g (tr ++ [l]) st'.

(** ** The invariant *)

(** Services reported as failed (a blocked one was never started). *)
Definition failed (st : StartupFrontier) : gset string := completed st ∖ ready st ∖ blocked st.

(** Direct requirement. *)
Definition req (g : DependencyGraph) (s d : string) : Prop := d ∈ requires_of g s.

Record frontier_inv (g : DependencyGraph) (st : StartupFrontier) : Prop := {
  fi_dom : dom (unmet st) = services g;
  fi_unmet : ∀ s n, unmet st !! s = Some n → s ∉ blocked st →
    n = size (filter (λ d, d ∉ ready st ∪ failed st) (dependencies_of g s));
  fi_queue : ∀ s, s ∈ ready_to_start st ↔
    unmet st !! s = Some 0 ∧ (s ∉ pending st) ∧ (s ∉ completed st);
  fi_queue_nodup : NoDup (ready_to_start st);
  fi_started : ∀ s, s ∈ pending st ∪ ready st ∪ failed st →
    s ∈ services g ∧ dependencies_of g s ⊆ ready st ∪ failed st;
  fi_pending : pending st ## completed st;
  fi_ready : ready st ⊆ completed st;
  fi_ready_blocked : ready st ## blocked st;
  fi_blocked : blocked st ⊆ completed st;
  fi_blocked_iff : ∀ s, s ∈ blocked st ↔ ∃ f, f ∈ failed st ∧ tc (req g) s f;
}.
End frontier.
