(* ===== verification/FrontierLoops.v ===== *)
(** * The loops of the startup frontier

    What the two loops over the dependents of a service and the breadth-first
    blocking loop of [Frontier] compute, and that the latter terminates. *)

From S2P Require Import Prelude Config Graph Cycle Frontier.

#[local] Open Scope list_scope.

Section loops.
Context `{HO : HashOrder}.

(** ** The two loops over the dependents, pointwise *)

Lemma foldl_fixed {A B C} (f : A → B → A) (proj : A → C) l a :
  (∀ a b, proj (f a b) = proj a) → proj (foldl f a l) = proj a.
Proof. intros H. revert a. induction l as [|b l IH]; intros a; cbn; [done|]. by rewrite IH, H. Qed.

Lemma ready_dependent_frame st x :
  ready (ready_dependent st x) = ready st ∧ pending (ready_dependent st x) = pending st ∧
  blocked (ready_dependent st x) = blocked st ∧ completed (ready_dependent st x) = completed st.
Proof. unfold ready_dependent. repeat case_decide; try case_goal; done. Qed.

Lemma ready_loop_frame st l :
  ready (foldl ready_dependent st l) = ready st ∧ pending (foldl ready_dependent st l) = pending st ∧
  blocked (foldl ready_dependent st l) = blocked st ∧
  completed (foldl ready_dependent st l) = completed st.
Proof. split_and!; apply foldl_fixed; intros; apply ready_dependent_frame. Qed.

Lemma push_filter {A} (P Q : Prop) `{Decision P, Decision Q} (q l : list A) x :
  (P ↔ Q) →
  (if decide P then q ++ [x] else q) ++ l = q ++ (if decide Q then x :: l else l).
Proof. intros HPQ. repeat case_decide; try tauto. by rewrite <-app_assoc. Qed.

Definition counted (blk : gset string) (l : list string) (m : gmap string nat) (s : string)
    : option nat :=
  if decide (s ∈ l ∧ (s ∉ blk)) then (λ n, saturating_sub n 1) <$> m !! s else m !! s.

Lemma ready_loop st l :
  NoDup l → (∀ s, s ∈ l → is_Some (unmet st !! s)) →
  (∀ s, unmet (foldl ready_dependent st l) !! s = counted (blocked st) l (unmet st) s) ∧
  ready_to_start (foldl ready_dependent st l) = ready_to_start st ++
    filter (λ s, (s ∉ blocked st) ∧ counted (blocked st) l (unmet st) s = Some 0
                 ∧ (s ∉ completed st) ∧ (s ∉ pending st)) l.
Proof.
  revert st. induction l as [|x l IH]; intros st Hnd Hdom; cbn [foldl].
  { rewrite filter_nil. split; [|by rewrite app_nil_r]. intros s. unfold counted. rewrite decide_False; [done|set_solver]. }
  apply NoDup_cons in Hnd as [Hx Hnd].
  destruct (IH (ready_dependent st x) Hnd) as [H1 H2].
  { intros s Hs. unfold ready_dependent. case_decide; [apply Hdom; set_solver|].
    destruct (unmet st !! x); cbn; [|apply Hdom; set_solver].
    rewrite lookup_insert_ne by set_solver. apply Hdom. set_solver. }
  destruct (ready_dependent_frame st x) as (Hr & Hp & Hb & Hc). rewrite Hb, ?Hc, ?Hp in *.
  assert (∀ s, counted (blocked st) l (unmet (ready_dependent st x)) s =
    counted (blocked st) (x :: l) (unmet st) s) as Hcnt.
  { intros s. unfold counted, ready_dependent. destruct (Hdom x) as [n Hn]; [set_solver|].
    rewrite Hn. destruct (decide (x ∈ blocked st)) as [Hxb|Hxb]; cbn.
    - apply decide_ext. rewrite elem_of_cons. naive_solver.
    - destruct (decide (s = x)) as [->|Hsx].
      + rewrite lookup_insert_eq, Hn, decide_False, decide_True by (rewrite ?elem_of_cons; tauto). done.
      + rewrite lookup_insert_ne by done. apply decide_ext. rewrite elem_of_cons. naive_solver. }
  split; [intros s; by rewrite H1, Hcnt|]. rewrite H2, filter_cons.
  rewrite (list_filter_iff _ (λ s, (s ∉ blocked st) ∧
    counted (blocked st) (x :: l) (unmet st) s = Some 0 ∧ (s ∉ completed st) ∧ (s ∉ pending st)) l)
    by (intros s; by rewrite Hcnt).
  destruct (Hdom x) as [n Hn]; [set_solver|].
  unfold ready_dependent. destruct (decide (x ∈ blocked st)) as [Hxb|Hxb].
  - rewrite decide_False by naive_solver. done.
  - rewrite Hn. cbn.
    assert (counted (blocked st) (x :: l) (unmet st) x = Some (saturating_sub n 1)) as ->.
    { unfold counted. rewrite decide_True by (rewrite elem_of_cons; tauto). by rewrite Hn. }
    apply push_filter. clear - Hxb. naive_solver.
Qed.

(** The same for the first loop of [mark_failed]; [hard] are the requirers. *)
Lemma failed_dependent_frame s g acc x :
  ready (failed_dependent s g acc x).1 = ready acc.1 ∧
  pending (failed_dependent s g acc x).1 = pending acc.1 ∧
  blocked (failed_dependent s g acc x).1 = blocked acc.1 ∧
  completed (failed_dependent s g acc x).1 = completed acc.1.
Proof. destruct acc. unfold failed_dependent. case_decide; [done|]. by case_goal. Qed.

Lemma failed_loop_frame s g acc l :
  ready (foldl (failed_dependent s g) acc l).1 = ready acc.1 ∧
  pending (foldl (failed_dependent s g) acc l).1 = pending acc.1 ∧
  blocked (foldl (failed_dependent s g) acc l).1 = blocked acc.1 ∧
  completed (foldl (failed_dependent s g) acc l).1 = completed acc.1.
Proof.
  split_and!.
  - apply (foldl_fixed _ (λ a, ready a.1)). intros. apply failed_dependent_frame.
  - apply (foldl_fixed _ (λ a, pending a.1)). intros. apply failed_dependent_frame.
  - apply (foldl_fixed _ (λ a, blocked a.1)). intros. apply failed_dependent_frame.
  - apply (foldl_fixed _ (λ a, completed a.1)). intros. apply failed_dependent_frame.
Qed.

Definition counted_soft (g : DependencyGraph) (f : string) (l : list string)
    (m : gmap string nat) (s : string) : option nat :=
  if decide (s ∈ l ∧ (f ∉ requires_of g s)) then (λ n, saturating_sub n 1) <$> m !! s else m !! s.

Lemma failed_loop f g st q l r :
  NoDup l → (∀ s, s ∈ l → is_Some (unmet st !! s)) →
  foldl (failed_dependent f g) (st, q) l = r →
  (∀ s, unmet r.1 !! s = counted_soft g f l (unmet st) s) ∧
  ready_to_start r.1 = ready_to_start st ++
    filter (λ s, (f ∉ requires_of g s) ∧ counted_soft g f l (unmet st) s = Some 0
                 ∧ (s ∉ completed st) ∧ (s ∉ pending st) ∧ (s ∉ blocked st)) l ∧
  r.2 = q ++ filter (λ s, f ∈ requires_of g s) l.
Proof.
  revert st q. induction l as [|x l IH]; intros st q Hnd Hdom.
  { intros <-. cbn. rewrite !app_nil_r. split; [|done]. intros s. unfold counted_soft.
    rewrite decide_False; [done|set_solver]. }
  apply NoDup_cons in Hnd as [Hx Hnd]. cbn [foldl].
  destruct (failed_dependent f g (st, q) x) as [st1 q1] eqn:E.
  destruct (failed_dependent_frame f g (st, q) x) as (Hr & Hp & Hb & Hc).
  rewrite E in Hr, Hp, Hb, Hc. cbn [fst] in *.
  destruct (Hdom x) as [n Hn]; [set_solver|].
  intros Hr'. destruct (λ H, IH st1 q1 Hnd H Hr') as (H1 & H2 & H3).
  { intros s Hs. revert E. unfold failed_dependent. rewrite Hn. case_decide; intros [= <- _].
    - apply Hdom. set_solver.
    - cbn. rewrite lookup_insert_ne by set_solver. apply Hdom. set_solver. }
  assert (∀ s, counted_soft g f l (unmet st1) s = counted_soft g f (x :: l) (unmet st) s) as Hcnt.
  { intros s. revert E. unfold counted_soft, failed_dependent. rewrite Hn.
    destruct (decide (f ∈ requires_of g x)) as [Hxb|Hxb]; intros [= <- _].
    - apply decide_ext. rewrite elem_of_cons. naive_solver.
    - cbn. destruct (decide (s = x)) as [->|Hsx].
      + rewrite lookup_insert_eq, Hn, decide_False, decide_True by (rewrite ?elem_of_cons; tauto). done.
      + rewrite lookup_insert_ne by done. apply decide_ext. rewrite elem_of_cons. naive_solver. }
  split; [intros s; by rewrite H1, Hcnt|]. rewrite H2, H3, Hc, Hp, Hb, !filter_cons.
  rewrite (list_filter_iff _ (λ s, (f ∉ requires_of g s) ∧
    counted_soft g f (x :: l) (unmet st) s = Some 0 ∧ (s ∉ completed st) ∧ (s ∉ pending st)
    ∧ (s ∉ blocked st)) l) by (intros s; by rewrite Hcnt).
  revert E. unfold failed_dependent. rewrite Hn.
  destruct (decide (f ∈ requires_of g x)) as [Hxb|Hxb]; intros [= <- <-].
  - rewrite decide_False by naive_solver. by rewrite <-app_assoc.
  - cbn. assert (counted_soft g f (x :: l) (unmet st) x = Some (saturating_sub n 1)) as ->.
    { unfold counted_soft. rewrite decide_True by (rewrite elem_of_cons; tauto). by rewrite Hn. }
    split; [|done].
    apply push_filter. clear - Hxb. naive_solver.
Qed.

(** ** The blocking loop *)

(** Dependency edges out of services that are not blocked yet. *)
Definition open_edges (g : DependencyGraph) (B : gset string) (l : list string) : nat :=
  sum_list_with (λ s, if decide (s ∈ B) then 0 else size (dependents_of g s)) l.

Lemma open_edges_le g B l : open_edges g B l ≤ sum_list_with (λ s, size (dependents_of g s)) l.
Proof. unfold open_edges. induction l as [|x l IH]; cbn; [done|]. case_decide; lia. Qed.

Lemma open_edges_fresh g B l svc :
  svc ∉ l → open_edges g ({[svc]} ∪ B) l = open_edges g B l.
Proof.
  unfold open_edges. induction l as [|x l IH]; cbn; [done|].
  intros [Hx Hl]%not_elem_of_cons. rewrite IH by done. f_equal. apply decide_ext. set_solver.
Qed.

Lemma open_edges_block g B l svc :
  NoDup l → svc ∈ l → svc ∉ B →
  open_edges g B l = size (dependents_of g svc) + open_edges g ({[svc]} ∪ B) l.
Proof.
  intros Hnd. induction Hnd as [|x l Hx Hnd IH]; intros Hin HB; [set_solver|].
  unfold open_edges in *. cbn [sum_list_with].
  apply elem_of_cons in Hin as [->|Hin].
  - rewrite (decide_False (P := x ∈ B)) by done. rewrite (decide_True (P := x ∈ _ ∪ _)) by set_solver.
    f_equal. symmetry. by apply open_edges_fresh.
  - rewrite IH by done. assert (x ≠ svc) by (intros ->; done).
    rewrite (decide_ext (x ∈ {[svc]} ∪ B) (x ∈ B)) by set_solver. lia.
Qed.

Record block_post (g : DependencyGraph) (st : StartupFrontier) (q : list string)
    (st' : StartupFrontier) : Prop := {
  bp_unmet : unmet st' = unmet st;
  bp_queue : ready_to_start st' = ready_to_start st;
  bp_ready : ready st' = ready st;
  bp_pending : pending st' = pending st;
  bp_mono : blocked st ⊆ blocked st';
  bp_seeds : ∀ x, x ∈ q → x ∈ blocked st';
  bp_closed : ∀ x y, x ∈ blocked st' → req g y x → y ∈ blocked st';
  bp_reason : ∀ y, y ∈ blocked st' → y ∈ blocked st ∨ ∃ x, x ∈ q ∧ rtc (req g) y x;
  bp_completed : completed st' = completed st ∪ (blocked st' ∖ blocked st);
}.

Lemma req_dependents g s d : wf_graph g → req g s d → s ∈ dependents_of g d.
Proof. intros Hwf Hr. apply (wf_inverse _ Hwf). by apply (wf_requires _ Hwf). Qed.

Lemma req_services g s d : wf_graph g → req g s d → s ∈ services g ∧ d ∈ services g.
Proof. intros Hwf Hr. apply (wf_deps_services _ _ _ Hwf). by apply (wf_requires _ Hwf). Qed.

(** Nothing is left to block. *)
Lemma block_post_done g st :
  (∀ x y, x ∈ blocked st → req g y x → y ∈ blocked st ∨ y ∈ []) → block_post g st [] st.
Proof.
  intros Hcl. split; try done.
  - set_solver.
  - intros x y Hx Hr. destruct (Hcl x y Hx Hr); [done|set_solver].
  - auto.
  - set_solver.
Qed.

(** Blocking a service uses up its edges, which pays for the requirers it queues. *)
Lemma block_fuel_step g (B : gset string) svc fuel n (P : string → Prop) `{∀ x, Decision (P x)} :
  svc ∈ services g → svc ∉ B →
  S n + open_edges g B (elements (services g)) ≤ S fuel →
  n + length (filter P (iter_dependents g svc)) + open_edges g ({[svc]} ∪ B) (elements (services g)) ≤ fuel.
Proof.
  intros Hs HB Hf. rewrite (open_edges_block g B _ svc) in Hf;
    [|apply NoDup_elements|by apply elem_of_elements|done].
  assert (length (filter P (iter_dependents g svc)) ≤ size (dependents_of g svc)); [|lia].
  etrans; [apply length_filter|]. unfold iter_dependents. by rewrite length_set_iter.
Qed.

Lemma block_loop_spec g fuel st q :
  wf_graph g → (∀ x, x ∈ q → x ∈ services g) →
  length q + open_edges g (blocked st) (elements (services g)) ≤ fuel →
  (∀ x y, x ∈ blocked st → req g y x → y ∈ blocked st ∨ y ∈ q) →
  ∃ st', block_loop fuel g st q = Some st' ∧ block_post g st q st'.
Proof.
  intros Hwf. revert st q. induction fuel as [|fuel IH]; intros st q Hq Hf Hcl.
  { destruct q as [|x q]; [|cbn in Hf; lia]. exists st. split; [done|]. by apply block_post_done. }
  destruct q as [|svc q]; [exists st; split; [done|]; by apply block_post_done|].
  cbn [block_loop]. destruct (decide (svc ∈ blocked st)) as [Hb|Hb].
  - destruct (IH st q) as (st' & ? & [? ? ? ? ? Hs ? Hr ?]).
    + set_solver.
    + cbn in Hf. lia.
    + intros x y Hx Hxy. destruct (Hcl x y Hx Hxy) as [|Hy]; [by left|].
      apply elem_of_cons in Hy as [->|]; auto.
    + exists st'. split; [done|]. split; try done.
      * intros x [->|Hx]%elem_of_cons; [set_solver|auto].
      * intros y Hy. destruct (Hr y Hy) as [|(x & Hx & ?)]; [by left|]. right. exists x. set_solver.
  - set (new := filter _ (iter_dependents g svc)).
    set (st1 := {| unmet := unmet st |}).
    assert (∀ y, y ∈ new ↔ req g y svc ∧ y ∉ {[svc]} ∪ blocked st) as Hnew.
    { intros y. unfold new. rewrite list_elem_of_filter, elem_of_iter_dependents. cbn.
      split; [naive_solver|]. intros [Hy HnB]. split; [done|]. by apply req_dependents. }
    destruct (IH st1 (q ++ new)) as (st' & Heq & [? ? ? ? Hm Hs Hc Hr Hcomp]).
    + intros x [Hx|Hx]%elem_of_app; [set_solver|]. apply Hnew in Hx as [Hx _].
      by apply (req_services _ _ _ Hwf Hx).
    + rewrite length_app. cbn in Hf |- *. apply block_fuel_step; [set_solver|done|done].
    + intros x y Hx Hxy. cbn in Hx |- *.
      destruct (decide (y ∈ {[svc]} ∪ blocked st)) as [|Hy]; [by left|]. right.
      apply elem_of_app. apply elem_of_union in Hx as [->%elem_of_singleton|Hx].
      * right. by apply Hnew.
      * left. destruct (Hcl x y Hx Hxy) as [|Hyq]; set_solver.
    + exists st'. split; [done|]. cbn in *. split; try done.
      * set_solver.
      * intros x [->|Hx]%elem_of_cons; set_solver.
      * intros y Hy. destruct (Hr y Hy) as [Hy'|(x & Hx & Hyx)].
        -- apply elem_of_union in Hy' as [->%elem_of_singleton|]; [|by left].
           right. exists svc. split; [set_solver|done].
        -- apply elem_of_app in Hx as [Hx|[Hx _]%Hnew].
           ++ right. exists x. split; [set_solver|done].
           ++ right. exists svc. split; [set_solver|]. by eapply rtc_r.
      * rewrite Hcomp. apply set_eq. intros x. destruct (decide (x = svc)); set_solver.
Qed.
End loops.
