(* ===== verification/FrontierFacts.v ===== *)
(** * Correctness of the startup frontier

    The invariant of [Frontier] holds initially and is kept by every operation;
    the trace theorems of the startup loop follow from it. *)

From S2P Require Import Prelude Config Graph Cycle Frontier FrontierLoops.

#[local] Open Scope list_scope.

Section facts.
Context `{HO : HashOrder}.

(** ** Preservation of the invariant *)

Lemma new_loop g l (u : gmap string nat) q :
  NoDup l → (∀ s, s ∈ l → u !! s = None) →
  foldl (λ '(unmet, q) service,
      let count := size (dependencies_of g service) in
      (<[service := count]> unmet, if decide (count = 0) then q ++ [service] else q))
      (u, q) l =
  (foldl (λ u s, <[s := size (dependencies_of g s)]> u) u l,
   q ++ filter (λ s, size (dependencies_of g s) = 0) l).
Proof.
  revert u q. induction l as [|x l IH]; intros u q Hnd Hu; cbn [foldl].
  - by rewrite filter_nil, app_nil_r.
  - apply NoDup_cons in Hnd as [Hx Hnd]. rewrite IH; [|done|].
    + rewrite filter_cons. f_equal. by apply push_filter.
    + intros s Hs. rewrite lookup_insert_ne by set_solver. apply Hu. set_solver.
Qed.

Lemma foldl_insert_lookup {V} (f : string → V) l (u : gmap string V) s :
  foldl (λ u s, <[s := f s]> u) u l !! s = if decide (s ∈ l) then Some (f s) else u !! s.
Proof.
  revert u. induction l as [|x l IH]; intros u; cbn [foldl].
  - by rewrite decide_False by set_solver.
  - rewrite IH, lookup_insert. repeat case_decide; subst; set_solver.
Qed.

Lemma frontier_new_unmet g s :
  unmet (frontier_new g) !! s =
  if decide (s ∈ services g) then Some (size (dependencies_of g s)) else None.
Proof.
  unfold frontier_new. rewrite new_loop; [|apply NoDup_iter_services|intros; apply lookup_empty].
  cbn. rewrite foldl_insert_lookup, lookup_empty. apply decide_ext, elem_of_iter_services.
Qed.

Lemma frontier_new_queue g :
  ready_to_start (frontier_new g) =
  filter (λ s, size (dependencies_of g s) = 0) (iter_services g).
Proof.
  unfold frontier_new. by rewrite new_loop; [|apply NoDup_iter_services|intros; apply lookup_empty].
Qed.

Lemma frontier_new_sets g :
  ready (frontier_new g) = ∅ ∧ pending (frontier_new g) = ∅ ∧ blocked (frontier_new g) = ∅ ∧
  completed (frontier_new g) = ∅.
Proof. unfold frontier_new. by destruct (foldl _ _ _). Qed.

Lemma frontier_new_inv g : frontier_inv g (frontier_new g).
Proof.
  destruct (frontier_new_sets g) as (Hr & Hp & Hb & Hc).
  assert (failed (frontier_new g) = ∅) as Hfl by (unfold failed; rewrite Hc; set_solver).
  split; rewrite ?Hfl, ?Hr, ?Hp, ?Hb, ?Hc.
  - apply set_eq. intros s. rewrite elem_of_dom, frontier_new_unmet. case_decide.
    + split; eauto.
    + split; [by intros []|done].
  - intros s n. rewrite frontier_new_unmet. case_decide; [|done]. intros [= <-] _.
    f_equal. apply set_eq. intros x. rewrite elem_of_filter. set_solver.
  - intros s. rewrite frontier_new_queue, list_elem_of_filter, elem_of_iter_services,
      frontier_new_unmet. case_decide; split; try naive_solver; set_solver.
  - rewrite frontier_new_queue. apply NoDup_filter, NoDup_iter_services.
  - set_solver.
  - set_solver.
  - set_solver.
  - set_solver.
  - set_solver.
  - set_solver.
Qed.

(** A service whose counter is zero has only finished dependencies. *)
Lemma unmet_zero_deps g st s :
  frontier_inv g st → unmet st !! s = Some 0 → s ∉ blocked st →
  s ∈ services g ∧ dependencies_of g s ⊆ ready st ∪ failed st.
Proof.
  intros Hi Hu Hb. split.
  - rewrite <-(fi_dom _ _ Hi). apply elem_of_dom. eauto.
  - pose proof (fi_unmet _ _ Hi _ _ Hu Hb) as Hz. symmetry in Hz. apply size_empty_inv in Hz.
    intros d Hd. destruct (decide (d ∈ ready st ∪ failed st)) as [|Hn]; [done|].
    exfalso. specialize (Hz d). rewrite elem_of_filter in Hz. set_solver.
Qed.

(** Dependencies of finished or started services are finished. *)
Lemma started_closed g st s d :
  frontier_inv g st → dependencies_of g s ⊆ ready st ∪ failed st →
  tc (edge g) s d → d ∈ ready st ∪ failed st.
Proof.
  intros Hi Hs Ht. revert Hs. induction Ht as [s d He|s k d He _ IH]; intros Hs.
  - by apply Hs.
  - apply IH. apply (fi_started _ _ Hi). apply Hs in He. set_solver.
Qed.

Lemma req_edge g s d : wf_graph g → req g s d → edge g s d.
Proof. intros Hwf. apply (wf_requires _ Hwf). Qed.

Lemma tc_req_edge g s d : wf_graph g → tc (req g) s d → tc (edge g) s d.
Proof.
  intros Hwf. induction 1; [apply tc_once; by apply req_edge|].
  eapply tc_l; [by apply req_edge|done].
Qed.

Lemma pending_not_done g st s :
  frontier_inv g st → s ∈ pending st → s ∉ ready st ∪ failed st.
Proof.
  intros Hi Hs Hd. pose proof (fi_pending _ _ Hi). pose proof (fi_ready _ _ Hi).
  unfold failed in Hd. set_solver.
Qed.

Lemma take_ready_pending (st : StartupFrontier) :
  pending (take_ready st).2 = pending st ∪ list_to_set (ready_to_start st).
Proof.
  cbn. generalize (pending st). induction (ready_to_start st) as [|x l IH]; intros P; cbn;
    [set_solver|]. rewrite IH. set_solver.
Qed.

Lemma take_ready_inv g st :
  frontier_inv g st → frontier_inv g (take_ready st).2.
Proof.
  intros Hi. pose proof (take_ready_pending st) as Hp.
  assert (∀ s, s ∈ ready_to_start st → s ∈ services g ∧
    dependencies_of g s ⊆ ready st ∪ failed st ∧ s ∉ completed st) as Hq.
  { intros s Hs. apply (fi_queue _ _ Hi) in Hs as (Hu & _ & Hc).
    assert (s ∉ blocked st) as Hb by (pose proof (fi_blocked _ _ Hi); set_solver).
    destruct (unmet_zero_deps _ _ _ Hi Hu Hb). done. }
  assert (failed (take_ready st).2 = failed st) as Hfl by done.
  split; rewrite ?Hfl, ?Hp; cbn [unmet ready_to_start ready blocked completed take_ready snd].
  - apply (fi_dom _ _ Hi).
  - apply (fi_unmet _ _ Hi).
  - intros s. split; [set_solver|]. intros (Hu & Hpn & Hc).
    assert (s ∈ ready_to_start st); [|set_solver]. apply (fi_queue _ _ Hi). set_solver.
  - constructor.
  - intros s Hs. destruct (decide (s ∈ ready_to_start st)) as [Hin|Hin].
    + by destruct (Hq s Hin) as (? & ? & ?).
    + apply (fi_started _ _ Hi). set_solver.
  - intros s [Hs|Hs%elem_of_list_to_set]%elem_of_union Hc.
    + by apply (fi_pending _ _ Hi s).
    + by apply Hq in Hs as (_ & _ & ?).
  - apply (fi_ready _ _ Hi).
  - apply (fi_ready_blocked _ _ Hi).
  - apply (fi_blocked _ _ Hi).
  - apply (fi_blocked_iff _ _ Hi).
Qed.

(** The services that wait for [s] have a counter. *)
Lemma dependents_counted g st s x :
  wf_graph g → frontier_inv g st → x ∈ iter_dependents g s → is_Some (unmet st !! x).
Proof.
  intros Hwf Hi Hx%elem_of_iter_dependents%(wf_inverse _ Hwf).
  apply elem_of_dom. rewrite (fi_dom _ _ Hi). by apply (wf_deps_services _ _ _ Hwf Hx).
Qed.

(** Counting down by one when [s] leaves the unfinished dependencies. *)
Lemma unmet_finish (D done : gset string) s :
  s ∈ D → s ∉ done →
  size (filter (λ d, d ∉ {[s]} ∪ done) D) =
  saturating_sub (size (filter (λ d, d ∉ done) D)) 1.
Proof.
  intros Hs Hd. rewrite (size_filter_remove (λ d, d ∉ done) (λ d, d ∉ {[s]} ∪ done) D s).
  - unfold saturating_sub. lia.
  - done.
  - done.
  - intros x _. set_solver.
Qed.

Lemma unmet_same (D done : gset string) s :
  s ∉ D → filter (λ d, d ∉ {[s]} ∪ done) D = filter (λ d, d ∉ done) D.
Proof. intros Hs. apply filter_set_ext. intros x Hx. set_solver. Qed.

Section mark_ready.
Context (g : DependencyGraph) (st : StartupFrontier) (s : string).
Context (Hwf : wf_graph g) (Hi : frontier_inv g st) (Hs : s ∈ pending st).

Let st' := mark_ready s g st.

Lemma mark_ready_sets :
  ready st' = {[s]} ∪ ready st ∧ pending st' = pending st ∖ {[s]} ∧
  blocked st' = blocked st ∧ completed st' = {[s]} ∪ completed st.
Proof. apply ready_loop_frame. Qed.

Lemma mark_ready_failed : failed st' = failed st.
Proof.
  destruct mark_ready_sets as (Hr & _ & Hb & Hc). unfold failed. rewrite Hr, Hb, Hc.
  assert (s ∉ completed st) by (pose proof (fi_pending _ _ Hi); set_solver).
  apply set_eq. intros x. destruct (decide (x = s)) as [->|]; set_solver.
Qed.

Lemma mark_ready_loop :
  (∀ x, unmet st' !! x = counted (blocked st) (iter_dependents g s) (unmet st) x) ∧
  ready_to_start st' = ready_to_start st ++
    filter (λ x, (x ∉ blocked st) ∧ counted (blocked st) (iter_dependents g s) (unmet st) x = Some 0
                 ∧ (x ∉ {[s]} ∪ completed st) ∧ (x ∉ pending st ∖ {[s]})) (iter_dependents g s).
Proof.
  unfold st', mark_ready. set (st0 := {| unmet := unmet st |}).
  apply (ready_loop st0); [apply NoDup_iter_dependents|].
  intros y Hy. exact (dependents_counted g st s y Hwf Hi Hy).
Qed.

Lemma mark_ready_unmet x :
  unmet st' !! x = counted (blocked st) (iter_dependents g s) (unmet st) x.
Proof. apply mark_ready_loop. Qed.

Lemma mark_ready_queue_iff x :
  x ∈ ready_to_start st' ↔
  unmet st' !! x = Some 0 ∧ (x ∉ pending st') ∧ (x ∉ completed st').
Proof.
  destruct mark_ready_sets as (_ & Hp & _ & Hc). rewrite Hp, Hc, (proj2 mark_ready_loop), elem_of_app,
    list_elem_of_filter, (fi_queue _ _ Hi), mark_ready_unmet.
  pose proof (fi_pending _ _ Hi) as Hpc. pose proof (fi_blocked _ _ Hi) as Hbc.
  unfold counted. split.
  - intros [(Hu & Hxp & Hxc)|((Hxb & Hcn & ? & ?) & Hx)].
    + split; [rewrite Hu; by case_decide|]. set_solver.
    + by rewrite decide_True in Hcn |- *.
  - case_decide as Hd; intros (Hu & Hxp & Hxc).
    + right. destruct Hd. done.
    + left. set_solver.
Qed.

Lemma mark_ready_inv_aux : frontier_inv g st'.
Proof.
  destruct mark_ready_sets as (Hr & Hp & Hb & Hc). pose proof mark_ready_failed as Hfl.
  pose proof (pending_not_done _ _ _ Hi Hs) as Hnd.
  split; [| |apply mark_ready_queue_iff|..]; rewrite ?Hfl, ?Hr, ?Hp, ?Hb, ?Hc.
  - rewrite <-(fi_dom _ _ Hi). apply set_eq. intros x. rewrite !elem_of_dom, mark_ready_unmet.
    unfold counted. case_decide; [by rewrite fmap_is_Some|done].
  - intros x n. rewrite mark_ready_unmet. intros Hu Hxb. unfold counted in Hu.
    rewrite <-union_assoc_L. case_decide as Hd.
    + destruct Hd as [Hd _]. apply elem_of_iter_dependents, (wf_inverse _ Hwf) in Hd.
      apply fmap_Some in Hu as (m & Hm & ->). rewrite unmet_finish by done.
      by rewrite <-(fi_unmet _ _ Hi _ _ Hm Hxb).
    + rewrite unmet_same; [by apply (fi_unmet _ _ Hi)|].
      intros Hsd. apply Hd. split; [|done]. by apply elem_of_iter_dependents, (wf_inverse _ Hwf).
  - rewrite (proj2 mark_ready_loop). apply NoDup_app. split; [apply (fi_queue_nodup _ _ Hi)|].
    split; [|apply NoDup_filter, NoDup_iter_dependents].
    intros x Hq Hx. apply list_elem_of_filter in Hx as [(Hxb & _) Hx].
    apply (fi_queue _ _ Hi) in Hq as (Hu & _ & _).
    apply elem_of_iter_dependents, (wf_inverse _ Hwf) in Hx.
    destruct (unmet_zero_deps _ _ _ Hi Hu Hxb) as [_ Hdeps]. by apply Hnd, Hdeps.
  - intros x Hx. destruct (fi_started _ _ Hi x) as [? Hdeps]; [clear -Hx Hs; set_solver|].
    split; [done|]. etrans; [exact Hdeps|clear; set_solver].
  - pose proof (fi_pending _ _ Hi). set_solver.
  - pose proof (fi_ready _ _ Hi). set_solver.
  - pose proof (fi_ready_blocked _ _ Hi). pose proof (fi_blocked _ _ Hi).
    pose proof (fi_pending _ _ Hi). set_solver.
  - pose proof (fi_blocked _ _ Hi). set_solver.
  - apply (fi_blocked_iff _ _ Hi).
Qed.
End mark_ready.

Section mark_failed.
Context (g : DependencyGraph) (st : StartupFrontier) (s : string).
Context (Hwf : wf_graph g) (Hi : frontier_inv g st) (Hs : s ∈ pending st).

(** The state before, and the state and queue after, the loop over the dependents. *)
Let st0 := {| unmet := unmet st; ready_to_start := ready_to_start st; ready := ready st;
              pending := pending st ∖ {[s]}; blocked := blocked st;
              completed := {[s]} ∪ completed st |}.
Let r := foldl (failed_dependent s g) (st0, []) (iter_dependents g s).

Lemma mark_failed_loop :
  (∀ x, unmet r.1 !! x = counted_soft g s (iter_dependents g s) (unmet st) x) ∧
  ready_to_start r.1 = ready_to_start st ++
    filter (λ x, (s ∉ requires_of g x) ∧
        counted_soft g s (iter_dependents g s) (unmet st) x = Some 0
        ∧ (x ∉ {[s]} ∪ completed st) ∧ (x ∉ pending st ∖ {[s]}) ∧ (x ∉ blocked st))
      (iter_dependents g s) ∧
  r.2 = filter (λ x, s ∈ requires_of g x) (iter_dependents g s).
Proof.
  exact (failed_loop s g st0 [] (iter_dependents g s) r (NoDup_iter_dependents g s)
    (λ y Hy, dependents_counted g st s y Hwf Hi Hy) eq_refl).
Qed.

Lemma mark_failed_sets :
  ready r.1 = ready st ∧ pending r.1 = pending st ∖ {[s]} ∧ blocked r.1 = blocked st ∧
  completed r.1 = {[s]} ∪ completed st.
Proof. apply (failed_loop_frame s g (st0, [])). Qed.

(** Nothing started, finished or queued requires [s]. *)
Lemma not_blocked_by_s x :
  dependencies_of g x ⊆ ready st ∪ failed st → ¬ tc (req g) x s.
Proof.
  intros Hx Ht%(tc_req_edge _ _ _ Hwf). apply (pending_not_done _ _ _ Hi Hs).
  by eapply started_closed.
Qed.

Lemma mark_failed_total : ∃ st', mark_failed s g st = Some st' ∧ block_post g r.1 r.2 st'.
Proof.
  unfold mark_failed. fold st0 r. destruct mark_failed_loop as (_ & _ & Hq).
  destruct mark_failed_sets as (_ & _ & Hb & _).
  destruct r as [st1 q] eqn:Er. cbn [fst snd] in *. apply block_loop_spec.
  - done.
  - intros x. rewrite Hq, list_elem_of_filter. intros [Hx _]. by apply (req_services _ _ _ Hwf Hx).
  - unfold block_fuel, edge_count. pose proof (open_edges_le g (blocked st1) (elements (services g))). lia.
  - rewrite Hb. intros x y Hx Hxy. left. apply (fi_blocked_iff _ _ Hi) in Hx as (f & Hf & Hxf).
    apply (fi_blocked_iff _ _ Hi). exists f. split; [done|]. by eapply tc_l.
Qed.

Context (st' : StartupFrontier) (Hst' : mark_failed s g st = Some st').

Lemma mark_failed_post : block_post g r.1 r.2 st'.
Proof. destruct mark_failed_total as (st2 & H & Hp). rewrite Hst' in H. by injection H as <-. Qed.

Lemma mark_failed_blocked x : x ∈ blocked st' ↔ x ∈ blocked st ∨ tc (req g) x s.
Proof.
  destruct mark_failed_post as [_ _ _ _ Hm Hseed Hcl Hre _].
  destruct mark_failed_loop as (_ & _ & Hq). destruct mark_failed_sets as (_ & _ & Hb & _).
  rewrite Hb in *. rewrite Hq in *. split.
  - intros Hx. destruct (Hre x Hx) as [|(y & [Hy _]%list_elem_of_filter & Hxy)]; [by left|right].
    by eapply tc_rtc_l; [done|apply tc_once].
  - intros [Hx|Hx]; [by apply Hm|]. induction Hx as [x y Hxy|x y z Hxy _ IH].
    + apply Hseed, list_elem_of_filter. split; [done|].
      by apply elem_of_iter_dependents, req_dependents.
    + eapply Hcl; [by apply IH|done].
Qed.

Lemma mark_failed_frame :
  ready st' = ready st ∧ pending st' = pending st ∖ {[s]} ∧
  (∀ x, x ∈ completed st' ↔ x = s ∨ x ∈ completed st ∨ x ∈ blocked st') ∧
  (∀ x, unmet st' !! x = counted_soft g s (iter_dependents g s) (unmet st) x).
Proof.
  destruct mark_failed_post as [Hu _ Hr Hp _ _ _ _ Hc].
  destruct mark_failed_sets as (Hr1 & Hp1 & Hb1 & Hc1). destruct mark_failed_loop as (Hu1 & _ & _).
  rewrite Hr, Hp, Hr1, Hp1. split; [done|]. split; [done|]. split.
  - intros x. pose proof (fi_blocked _ _ Hi x) as Hbc.
    rewrite Hc, Hc1, Hb1, !elem_of_union, elem_of_singleton, elem_of_difference.
    clear -Hbc. destruct (decide (x ∈ blocked st)); tauto.
  - intros x. by rewrite Hu.
Qed.

Lemma mark_failed_failed : failed st' = {[s]} ∪ failed st.
Proof.
  destruct mark_failed_frame as (Hr & Hp & Hc & _). pose proof mark_failed_blocked as Hb.
  pose proof (fi_pending _ _ Hi) as Hpc. pose proof (fi_ready _ _ Hi) as Hrc.
  pose proof (fi_blocked _ _ Hi) as Hbc.
  assert (∀ x, x ∈ {[s]} ∪ failed st → x ∉ blocked st') as Hnb.
  { intros x Hx. rewrite Hb. intros [Hxb|Hxs].
    - apply elem_of_union in Hx as [->%elem_of_singleton|Hx].
      + by apply (Hpc s), Hbc.
      + unfold failed in Hx. clear -Hx Hxb. set_solver.
    - revert Hxs. apply not_blocked_by_s. apply (fi_started _ _ Hi). clear -Hx Hs. set_solver. }
  assert (s ∉ ready st) as Hsr by (intros ?%Hrc; by apply (Hpc s)).
  apply set_eq. intros x. specialize (Hnb x). unfold failed in *.
  rewrite elem_of_union, elem_of_singleton, !elem_of_difference in *. rewrite Hc, Hr.
  split; [|intros Hx; specialize (Hnb Hx); naive_solver].
  intros [[Hx Hxr] Hxb]. destruct Hx as [?|[?|?]]; [by left| |done].
  right. split; [done|]. intros ?. apply Hxb, Hb. by left.
Qed.

Lemma mark_failed_queue_iff x :
  x ∈ ready_to_start st' ↔
  unmet st' !! x = Some 0 ∧ (x ∉ pending st') ∧ (x ∉ completed st').
Proof.
  destruct mark_failed_frame as (_ & Hp & Hc & Hu). pose proof mark_failed_blocked as Hb.
  destruct mark_failed_post as [_ Hq _ _ _ _ _ _ _]. destruct mark_failed_loop as (_ & Hq1 & _).
  rewrite Hq, Hq1, Hp, Hu, Hc, Hb, elem_of_app, list_elem_of_filter, (fi_queue _ _ Hi).
  pose proof (fi_blocked _ _ Hi) as Hbc. unfold counted_soft. split.
  - intros [(Hux & Hxp & Hxc)|((Hsx & Hcn & Hxc & Hxp & Hxb) & Hx)].
    + assert (x ∉ blocked st) as Hxb by (intros ?%Hbc; done).
      split; [rewrite Hux; by case_decide|]. split; [clear -Hxp; set_solver|].
      destruct (unmet_zero_deps _ _ _ Hi Hux Hxb) as [_ Hd].
      intros [->|[?|[?|Ht]]]; [done..|]. by apply (not_blocked_by_s x).
    + split; [done|]. split; [done|]. rewrite decide_True in Hcn by done.
      apply fmap_Some in Hcn as (n & Hn & Hn0).
      intros [->|[?|[?|Ht]]]; [clear -Hxc; set_solver|clear -Hxc H; set_solver|done|].
      assert (∃ y, req g x y ∧ y ≠ s ∧ (y = s ∨ tc (req g) y s)) as (y & Hxy & Hys & Hyt).
      { inversion Ht as [? ? H1|? y ? H1 H2]; subst; [done|].
        exists y. split; [done|]. split; [by intros ->|by right]. }
      destruct Hyt as [|Hyt]; [done|].
      assert (y ∈ ready st ∪ failed st) as Hyd.
      { pose proof (fi_unmet _ _ Hi _ _ Hn Hxb) as Hsz.
        apply elem_of_iter_dependents, (wf_inverse _ Hwf) in Hx.
        pose proof (unmet_finish _ _ _ Hx (pending_not_done _ _ _ Hi Hs)) as Hfin.
        rewrite <-Hsz, <-Hn0 in Hfin. apply size_empty_inv in Hfin.
        destruct (decide (y ∈ ready st ∪ failed st)) as [|Hyn]; [done|]. exfalso.
        apply (not_elem_of_empty (C := gset string) y), Hfin, elem_of_filter. split; [clear -Hys Hyn; set_solver|]. by apply req_edge. }
      apply (not_blocked_by_s y); [|done]. apply (fi_started _ _ Hi). clear -Hyd. set_solver.
  - intros (Hux & Hxp & Hxc). case_decide as Hd.
    + right. destruct Hd as [Hx Hsx]. split; [|done]. split; [done|]. split; [done|].
      split; [|split; [done|]]; intros Hxx; apply Hxc; [clear -Hxx; set_solver|tauto].
    + left. split; [done|]. assert (x ≠ s) as Hxs by (intros ->; apply Hxc; by left).
      split; [clear -Hxp Hxs; set_solver|tauto].
Qed.

Lemma mark_failed_inv_aux : frontier_inv g st'.
Proof.
  destruct mark_failed_frame as (Hr & Hp & Hc & Hu). pose proof mark_failed_failed as Hfl.
  pose proof mark_failed_blocked as Hb. pose proof (pending_not_done _ _ _ Hi Hs) as Hnd.
  assert (∀ x, x ∈ pending st ∪ ready st ∪ failed st → ¬ tc (req g) x s) as Hstart.
  { intros x Hx. apply not_blocked_by_s. by apply (fi_started _ _ Hi). }
  split; [| |apply mark_failed_queue_iff|..]; rewrite ?Hfl, ?Hr, ?Hp.
  - rewrite <-(fi_dom _ _ Hi). apply set_eq. intros x. rewrite !elem_of_dom, Hu.
    unfold counted_soft. case_decide; [by rewrite fmap_is_Some|done].
  - intros x n. rewrite Hu, Hb. intros Hx Hxb. unfold counted_soft in Hx.
    replace (ready st ∪ ({[s]} ∪ failed st)) with ({[s]} ∪ (ready st ∪ failed st))
      by (clear; set_solver).
    case_decide as Hd.
    + destruct Hd as [Hd _]. apply elem_of_iter_dependents, (wf_inverse _ Hwf) in Hd.
      apply fmap_Some in Hx as (m & Hm & ->). rewrite unmet_finish by done.
      by rewrite <-(fi_unmet _ _ Hi _ _ Hm) by tauto.
    + rewrite unmet_same; [apply (fi_unmet _ _ Hi); tauto|].
      intros Hsd. apply Hd. split; [by apply elem_of_iter_dependents, (wf_inverse _ Hwf)|].
      intros Hreq. apply Hxb. right. by apply tc_once.
  - destruct mark_failed_post as [_ Hq _ _ _ _ _ _ _]. destruct mark_failed_loop as (_ & Hq1 & _).
    rewrite Hq, Hq1. apply NoDup_app. split; [apply (fi_queue_nodup _ _ Hi)|].
    split; [|apply NoDup_filter, NoDup_iter_dependents].
    intros x Hxq Hx. apply list_elem_of_filter in Hx as [(_ & _ & _ & _ & Hxb) Hx].
    apply (fi_queue _ _ Hi) in Hxq as (Hux & _ & _).
    apply elem_of_iter_dependents, (wf_inverse _ Hwf) in Hx.
    destruct (unmet_zero_deps _ _ _ Hi Hux Hxb) as [_ Hdeps]. by apply Hnd, Hdeps.
  - intros x Hx. destruct (fi_started _ _ Hi x) as [? Hdeps]; [clear -Hx Hs; set_solver|].
    split; [done|]. etrans; [exact Hdeps|clear; set_solver].
  - intros x Hx Hxc. rewrite Hc, Hb in Hxc. pose proof (fi_pending _ _ Hi) as Hpc.
    pose proof (fi_blocked _ _ Hi) as Hbc. apply elem_of_difference in Hx as [Hx Hxs].
    destruct Hxc as [->|[Hxc|[Hxc%Hbc|Hxc]]]; [clear -Hxs; set_solver|by apply (Hpc x)..|].
    revert Hxc. apply Hstart. clear -Hx. set_solver.
  - intros x Hx. apply Hc. right. left. by apply (fi_ready _ _ Hi).
  - intros x Hx. rewrite Hb. intros [Hxb|Hxs]; [by apply (fi_ready_blocked _ _ Hi x)|].
    revert Hxs. apply Hstart. clear -Hx. set_solver.
  - intros x Hx. apply Hc. by right; right.
  - intros x. rewrite Hb, (fi_blocked_iff _ _ Hi). clear. set_solver.
Qed.
End mark_failed.
End facts.
