(* ===== verification/Startup.v ===== *)
(** * The startup sequence

    Theorems about every run of the startup loop over the frontier: what is
    started when, what is blocked, and what is left when the loop ends. *)

From S2P Require Import Prelude Config Graph Cycle Frontier FrontierLoops FrontierFacts.

#[local] Open Scope list_scope.

(** The services handed out by the [take_ready] calls of a run. *)
Definition started (tr : list label) : list string :=
  concat (map (λ l, match l with LTake batch => batch | _ => [] end) tr).

(** A service that was started and whose outcome was reported. *)
Definition reported (tr : list label) (s : string) : Prop := LReady s ∈ tr ∨ LFailed s ∈ tr.

Section startup.
Context `{HO : HashOrder}.

Lemma fstep_inv g st l st' :
  wf_graph g → frontier_inv g st → fstep g st l st' → frontier_inv g st'.
Proof.
  intros Hwf Hi Hs. destruct Hs as [st batch st' Ht|st s Hs|st s st' Hs Hm].
  - pose proof (take_ready_inv g st Hi) as H. by rewrite Ht in H.
  - by apply mark_ready_inv_aux.
  - by eapply mark_failed_inv_aux.
Qed.

Lemma frun_inv g tr st : wf_graph g → frun g tr st → frontier_inv g st.
Proof. intros Hwf. induction 1; [apply frontier_new_inv|by eapply fstep_inv]. Qed.

(** No report can get stuck: [mark_failed] returns on every started service. *)
Lemma mark_failed_returns g st s :
  wf_graph g → frontier_inv g st → s ∈ pending st → ∃ st', mark_failed s g st = Some st'.
Proof. intros Hwf Hi Hs. destruct (mark_failed_total g st s Hwf Hi) as (st' & ? & _). eauto. Qed.

Lemma frun_prefix g tr1 tr2 st : frun g (tr1 ++ tr2) st → ∃ st1, frun g tr1 st1.
Proof.
  revert st. induction tr2 as [|l tr2 IH] using rev_ind; intros st Hr.
  - rewrite app_nil_r in Hr. eauto.
  - rewrite app_assoc in Hr. inversion Hr as [H|tr st1 l' st2 Hr1 Hs H]; subst.
    + symmetry in H. apply app_nil in H as [_ ?]. done.
    + apply app_inj_tail in H as [-> ->]. eauto.
Qed.

Lemma frun_snoc g tr l st : frun g (tr ++ [l]) st → ∃ st1, frun g tr st1 ∧ fstep g st1 l st.
Proof.
  intros Hr. inversion Hr as [H|tr' st1 l' st2 Hr1 Hs H]; subst.
  - symmetry in H. apply app_nil in H as [_ ?]. done.
  - apply app_inj_tail in H as [-> ->]. eauto.
Qed.

(** What the sets of the frontier say about the labels of the run. *)
Record trace_inv (tr : list label) (st : StartupFrontier) : Prop := {
  ti_ready : ∀ s, s ∈ ready st ↔ LReady s ∈ tr;
  ti_failed : ∀ s, s ∈ failed st ↔ LFailed s ∈ tr;
  ti_started : ∀ s, s ∈ started tr ↔ s ∈ pending st ∪ ready st ∪ failed st;
  ti_nodup : NoDup (started tr);
}.

Lemma started_snoc tr l :
  started (tr ++ [l]) = started tr ++ match l with LTake batch => batch | _ => [] end.
Proof. unfold started. rewrite map_app, concat_app. cbn. by rewrite app_nil_r. Qed.

Lemma frun_trace g tr st : wf_graph g → frun g tr st → trace_inv tr st.
Proof.
  intros Hwf. induction 1 as [|tr st l st' Hr IH Hs].
  - destruct (frontier_new_sets g) as (Hr & Hp & Hb & Hc).
    split; unfold failed; rewrite ?Hr, ?Hp, ?Hc; [set_solver..|constructor].
  - pose proof (frun_inv _ _ _ Hwf Hr) as Hi. destruct IH as [T1 T2 T3 T4].
    assert (∀ l', l' ∈ tr ++ [l] ↔ l' ∈ tr ∨ l' = l) as Hin
      by (intros l'; rewrite elem_of_app, list_elem_of_singleton; done).
    split; setoid_rewrite Hin || rewrite ?started_snoc;
      destruct Hs as [st batch st' Ht|st s Hs|st s st' Hs Hm].
    + injection Ht as <- <-. cbn [ready]. intros x. rewrite T1. naive_solver.
    + destruct (mark_ready_sets g st s) as (-> & _). intros x.
      rewrite elem_of_union, elem_of_singleton, T1. naive_solver.
    + destruct (mark_failed_frame g st s Hwf Hi st' Hm) as (-> & _). intros x. rewrite T1. naive_solver.
    + injection Ht as <- <-. intros x. rewrite <-T2. naive_solver.
    + rewrite (mark_ready_failed g st s Hwf Hi Hs). intros x. rewrite T2. naive_solver.
    + rewrite (mark_failed_failed g st s Hwf Hi Hs st' Hm). intros x.
      rewrite elem_of_union, elem_of_singleton, T2. naive_solver.
    + pose proof (take_ready_pending st) as Hp. rewrite Ht in Hp. cbn [snd] in Hp.
      injection Ht as <- <-. rewrite Hp. intros x. rewrite elem_of_app, T3.
      unfold failed; cbn. rewrite elem_of_union. clear. set_solver.
    + rewrite app_nil_r, (mark_ready_failed g st s Hwf Hi Hs).
      destruct (mark_ready_sets g st s) as (-> & -> & _). intros x. rewrite T3.
      clear -Hs. destruct (decide (x = s)); set_solver.
    + rewrite app_nil_r, (mark_failed_failed g st s Hwf Hi Hs st' Hm).
      destruct (mark_failed_frame g st s Hwf Hi st' Hm) as (-> & -> & _). intros x. rewrite T3.
      clear -Hs. destruct (decide (x = s)); set_solver.
    + injection Ht as <- <-. apply NoDup_app. split; [done|]. split; [|apply (fi_queue_nodup _ _ Hi)].
      intros x Hx Hq. apply (fi_queue _ _ Hi) in Hq as (_ & Hxp & Hxc). apply T3 in Hx.
      pose proof (fi_ready _ _ Hi) as Hrc. unfold failed in Hx. clear -Hx Hxp Hxc Hrc. set_solver.
    + by rewrite app_nil_r.
    + by rewrite app_nil_r.
Qed.

(** The requirements of an unblocked service are ready once its dependencies finished. *)
Lemma requires_ready g st s :
  wf_graph g → frontier_inv g st → s ∉ blocked st →
  dependencies_of g s ⊆ ready st ∪ failed st → requires_of g s ⊆ ready st.
Proof.
  intros Hwf Hi Hb Hd d Hr. assert (d ∈ ready st ∪ failed st) as [|Hf]%elem_of_union; [|done|].
  { apply Hd. by apply (wf_requires _ Hwf). }
  exfalso. apply Hb, (fi_blocked_iff _ _ Hi). exists d. split; [done|]. by apply tc_once.
Qed.

Lemma queue_exact g st s :
  wf_graph g → frontier_inv g st →
  s ∈ ready_to_start st ↔
    s ∈ services g ∧ (s ∉ pending st ∪ ready st ∪ failed st) ∧
    dependencies_of g s ⊆ ready st ∪ failed st ∧ requires_of g s ⊆ ready st.
Proof.
  intros Hwf Hi. rewrite (fi_queue _ _ Hi). pose proof (fi_blocked _ _ Hi) as Hbc. split.
  - intros (Hu & Hp & Hc). assert (s ∉ blocked st) as Hb by (by intros ?%Hbc).
    destruct (unmet_zero_deps _ _ _ Hi Hu Hb) as [Hs Hd]. split; [done|]. split.
    + pose proof (fi_ready _ _ Hi). unfold failed. clear -Hp Hc H. set_solver.
    + split; [done|]. by apply (requires_ready g st s).
  - intros (Hs & Hn & Hd & Hr). assert (s ∉ blocked st) as Hb.
    { rewrite (fi_blocked_iff _ _ Hi). intros (f & Hf & Ht).
      assert (∃ y, y ∈ ready st ∧ (y = f ∨ tc (req g) y f)) as (y & Hy & Hyf).
      { inversion Ht as [? ? H|? y ? H H']; subst; eexists; (split; [by apply Hr|]); auto. }
      destruct Hyf as [->|Hyf].
      - unfold failed in Hf. clear -Hf Hy. set_solver.
      - apply (fi_ready_blocked _ _ Hi y Hy), (fi_blocked_iff _ _ Hi). eauto. }
    rewrite <-(fi_dom _ _ Hi) in Hs. apply elem_of_dom in Hs as [n Hu].
    pose proof (fi_unmet _ _ Hi _ _ Hu Hb) as Hsz.
    assert (filter (λ d, d ∉ ready st ∪ failed st) (dependencies_of g s) = ∅) as Hemp.
    { apply set_eq. intros x. rewrite elem_of_filter. clear -Hd. set_solver. }
    rewrite Hemp, size_empty in Hsz. subst n. split; [done|]. split; [clear -Hn; set_solver|].
    intros Hc. apply Hn. unfold failed. clear -Hc Hb. destruct (decide (s ∈ ready st)); set_solver.
Qed.
(** A service that has a dependency neither ready nor failed. *)
Lemma unfinished_dep g st s :
  ¬ (dependencies_of g s ⊆ ready st ∪ failed st) →
  ∃ d, d ∈ dependencies_of g s ∧ d ∉ ready st ∪ failed st.
Proof.
  intros Hnd. destruct (decide (set_Exists (λ d, d ∉ ready st ∪ failed st) (dependencies_of g s)))
    as [(d & ? & ?)|Hno]; [eauto|]. exfalso. apply Hnd. intros d Hdn.
  destruct (decide (d ∈ ready st ∪ failed st)); [done|]. exfalso. apply Hno. by exists d.
Qed.

(** With nothing queued and nothing pending, a service that is not completed
    waits, directly or not, for a blocked one. *)
Lemma waits_for_blocked g st l s :
  wf_graph g → frontier_inv g st → pending st = ∅ → ready_to_start st = [] →
  topo g l → s ∈ l → s ∈ services g → s ∉ completed st →
  ∃ d, tc (edge g) s d ∧ d ∈ blocked_services st.
Proof.
  intros Hwf Hi Hp Hq Hl. revert s.
  induction Hl as [|n l Hl IH Hn Hdep]; intros s Hs Hsv Hc; [set_solver|].
  apply elem_of_cons in Hs as [->|Hs]; [|by apply IH].
  assert (¬ (dependencies_of g n ⊆ ready st ∪ failed st)) as Hnd.
  { intros Hsub. destruct (decide (n ∈ blocked st)) as [Hb|Hb].
    - by apply (fi_blocked _ _ Hi) in Hb.
    - assert (n ∈ ready_to_start st) as Hnq; [|rewrite Hq in Hnq; set_solver].
      apply (queue_exact g st n Hwf Hi). split; [done|]. split.
      + rewrite Hp. pose proof (fi_ready _ _ Hi). unfold failed. clear -Hc H. set_solver.
      + split; [done|]. by apply (requires_ready g st n). }
  apply unfinished_dep in Hnd as (d & Hdn & Hdd).
  destruct (decide (d ∈ completed st)) as [Hdc|Hdc].
  - exists d. split; [by apply tc_once|]. unfold blocked_services, failed in *.
    destruct (decide (d ∈ blocked st)); [done|].
    exfalso. apply Hdd. clear -Hdc n0. destruct (decide (d ∈ ready st)); set_solver.
  - destruct (IH d) as (e & He & ?); [by apply Hdep|by apply (wf_deps_services _ _ _ Hwf Hdn)|done|].
    exists e. split; [|done]. by eapply tc_l.
Qed.

Lemma accounted_for g tr st :
  wf_graph g → validate_no_cycles g = Some (Ok ()) → frun g tr st →
  has_ready st = false → has_pending st = false →
  ∀ s, s ∈ services g →
    reported tr s ∨ s ∈ blocked_services st ∨ ∃ d, tc (edge g) s d ∧ d ∈ blocked_services st.
Proof.
  intros Hwf Hv Hr Hready Hpend s Hs.
  pose proof (frun_inv _ _ _ Hwf Hr) as Hi. pose proof (frun_trace _ _ _ Hwf Hr) as [T1 T2 T3 _].
  assert (detect_cycles g = Some []) as Hd.
  { unfold validate_no_cycles in Hv. destruct (detect_cycles g) as [[]|]; naive_solver. }
  destruct (no_cycles_topo g Hwf Hd) as (l & Hl & Hin).
  assert (pending st = ∅) as Hp by (unfold has_pending in Hpend; by case_bool_decide).
  assert (ready_to_start st = []) as Hq by (unfold has_ready in Hready; by case_bool_decide).
  destruct (decide (s ∈ completed st)) as [Hc|Hc]; [|right; right; apply (waits_for_blocked g st l s); auto].
  unfold reported. rewrite <-T1, <-T2. unfold blocked_services, failed.
  destruct (decide (s ∈ ready st)), (decide (s ∈ blocked st)); set_solver.
Qed.
End startup.

(** ** Executable runs *)

Inductive op := OTake | OReady (s : string) | OFailed (s : string).

(** Perform the operations in order, recording the labels; [None] when a report
    is about a service that is not pending. *)
Fixpoint exec `{HO : HashOrder} (g : DependencyGraph) (ops : list op) (tr : list label)
    (st : StartupFrontier) : option (list label * StartupFrontier) :=
  match ops with
  | [] => Some (tr, st)
  | OTake :: ops =>
      let '(batch, st') := take_ready st in exec g ops (tr ++ [LTake batch]) st'
  | OReady s :: ops =>
      if decide (s ∈ pending st) then exec g ops (tr ++ [LReady s]) (mark_ready s g st) else None
  | OFailed s :: ops =>
      if decide (s ∈ pending st) then
        st' ← mark_failed s g st; exec g ops (tr ++ [LFailed s]) st'
      else None
  end.

Lemma exec_sound `{HO : HashOrder} g ops tr st tr' st' :
  frun g tr st → exec g ops tr st = Some (tr', st') → frun g tr' st'.
Proof.
  revert tr st. induction ops as [|o ops IH]; intros tr st Hr; cbn; [by intros [= <- <-]|].
  destruct o as [|s|s].
  - intros He. eapply IH; [|done]. eapply run_snoc; [done|]. by constructor.
  - case_decide; [|done]. intros He. eapply IH; [|done]. eapply run_snoc; [done|]. by constructor.
  - case_decide; [|done]. destruct (mark_failed s g st) eqn:E; [|done]. cbn.
    intros He. eapply IH; [|done]. eapply run_snoc; [done|]. by constructor.
Qed.

(** A service with the given [requires] and [after] lists. *)
Definition dep_service (name : string) (reqs aft : list string) : ServiceDef :=
  let d := minimal_service name ["/bin/true"] in
  {| sd_service := sd_service d; sd_restart := sd_restart d; sd_readiness := sd_readiness d;
     sd_dependencies := {| ds_requires := reqs; ds_wants := []; ds_after := aft; ds_before := [] |};
     sd_cgroup := sd_cgroup d; sd_namespace := sd_namespace d; sd_shutdown := sd_shutdown d |}.

Definition the_graph (defs : list ServiceDef) : DependencyGraph :=
  default {| hard_deps := ∅; requires := ∅; reverse_deps := ∅; services := ∅ |}
    (build (HO := elements_order) defs).
Definition the_run (defs : list ServiceDef) (ops : list op) : option (list label * StartupFrontier) :=
  exec (HO := elements_order) (the_graph defs) ops [] (frontier_new (HO := elements_order) (the_graph defs)).

(** d requires b and c, b and c require a. *)
Definition diamond : list ServiceDef :=
  [dep_service "a" [] []; dep_service "b" ["a"] []; dep_service "c" ["a"] [];
   dep_service "d" ["b"] ["c"]].

(** c is ordered after b, which requires a. *)
Definition soft_chain : list ServiceDef :=
  [dep_service "a" [] []; dep_service "b" ["a"] []; dep_service "c" [] ["b"]].

Definition labels (r : option (list label * StartupFrontier)) : list label :=
  match r with Some (tr, _) => tr | None => [] end.
Definition final (r : option (list label * StartupFrontier)) : option StartupFrontier :=
  match r with Some (_, st) => Some st | None => None end.

Lemma the_run_frun defs ops tr st :
  build (HO := elements_order) defs = Some (the_graph defs) →
  the_run defs ops = Some (tr, st) → frun (HO := elements_order) (the_graph defs) tr st.
Proof. intros _. apply exec_sound. constructor. Qed.

Definition diamond_ops : list op := [OTake; OReady "a"; OTake; OFailed "c"; OReady "b"; OTake].
Example diamond_labels :
  labels (the_run diamond diamond_ops) =
  [LTake ["a"]; LReady "a"; LTake ["c"; "b"]; LFailed "c"; LReady "b"; LTake ["d"]].
Proof. vm_compute. reflexivity. Qed.

(** ** Theorems *)

(** C1: In every run of the startup loop, a service is handed out at most once, and only
    after each of its dependencies was reported ready or failed and each of its `requires`
    was reported ready. *)
Theorem startup_order `{HO : HashOrder} defs g tr st :
  build defs = Some g → frun g tr st →
  NoDup (started tr) ∧
  ∀ tr1 batch tr2 s, tr = tr1 ++ LTake batch :: tr2 → s ∈ batch →
    s ∈ services g ∧
    (∀ d, d ∈ dependencies_of g s → LReady d ∈ tr1 ∨ LFailed d ∈ tr1) ∧
    (∀ d, d ∈ requires_of g s → LReady d ∈ tr1).
Proof.
  intros Hwf%build_wf Hr. split; [apply (ti_nodup _ _ (frun_trace _ _ _ Hwf Hr))|].
  intros tr1 batch tr2 s -> Hs. change (LTake batch :: tr2) with ([LTake batch] ++ tr2) in Hr.
  rewrite app_assoc in Hr. apply frun_prefix in Hr as (st2 & Hr).
  apply frun_snoc in Hr as (st1 & Hr & Hst). inversion Hst as [? ? ? Ht| |]; subst.
  injection Ht as <- _. pose proof (frun_trace _ _ _ Hwf Hr) as [T1 T2 _ _].
  apply (queue_exact g st1 s Hwf) in Hs as (? & _ & Hd & Hq); [|by eapply frun_inv].
  split; [done|]. split.
  - intros d [?%T1|?%T2]%Hd%elem_of_union; auto.
  - intros d ?%Hq. by apply T1.
Qed.
Lemma startup_order_witness :
  ∃ tr, labels (the_run diamond diamond_ops) = tr ∧ length tr = 6 ∧ NoDup (started tr).
Proof.
  destruct (the_run diamond diamond_ops) as [[tr st]|] eqn:E; [|vm_compute in E; discriminate].
  exists tr. split; [done|]. split.
  - vm_compute in E. injection E as <- _. reflexivity.
  - apply (startup_order (HO := elements_order) diamond (the_graph diamond) tr st).
    + vm_compute. reflexivity.
    + eapply the_run_frun; [vm_compute; reflexivity|exact E].
Defined.

(** C10: At every point of every run, the queue kept by the incremental counters is exactly
    the set of services not yet started whose dependencies are all finished and whose
    `requires` are all ready. *)
Theorem frontier_exact `{HO : HashOrder} defs g tr st s :
  build defs = Some g → frun g tr st →
  s ∈ ready_to_start st ↔
    s ∈ services g ∧ (s ∉ started tr) ∧
    (∀ d, d ∈ dependencies_of g s → LReady d ∈ tr ∨ LFailed d ∈ tr) ∧
    (∀ d, d ∈ requires_of g s → LReady d ∈ tr).
Proof.
  intros Hwf%build_wf Hr. pose proof (frun_trace _ _ _ Hwf Hr) as [T1 T2 T3 _].
  rewrite (queue_exact g st s Hwf) by (by eapply frun_inv). rewrite <-T3.
  split; intros (? & ? & Hd & Hq); (split; [done|]; split; [done|]; split; intros d).
  - rewrite <-T1, <-T2. by intros ?%Hd%elem_of_union.
  - intros ?%Hq. by apply T1.
  - intros ?%Hd. by rewrite elem_of_union, T1, T2.
  - intros ?%Hq. by apply T1.
Qed.
Lemma frontier_exact_witness :
  ∃ tr st, the_run diamond [OTake; OReady "a"] = Some (tr, st) ∧
    ("b" ∈ ready_to_start st ↔
      "b" ∈ services (the_graph diamond) ∧ ("b" ∉ started tr) ∧
      (∀ d, d ∈ dependencies_of (the_graph diamond) "b" → LReady d ∈ tr ∨ LFailed d ∈ tr) ∧
      (∀ d, d ∈ requires_of (the_graph diamond) "b" → LReady d ∈ tr)).
Proof.
  destruct (the_run diamond [OTake; OReady "a"]) as [[tr st]|] eqn:E; [|vm_compute in E; discriminate].
  exists tr, st. split; [done|].
  apply (frontier_exact (HO := elements_order) diamond (the_graph diamond) tr st "b").
  - vm_compute. reflexivity.
  - eapply the_run_frun; [vm_compute; reflexivity|exact E].
Defined.

(** C11: The blocked services are exactly the transitive requirers of the services reported
    failed, none of them was ever started, and mark_failed returns (its breadth-first loop
    terminates) on every pending service. *)
Theorem blocked_exact `{HO : HashOrder} defs g tr st :
  build defs = Some g → frun g tr st →
  (∀ s, s ∈ blocked_services st ↔ ∃ f, LFailed f ∈ tr ∧ tc (req g) s f) ∧
  (∀ s, s ∈ blocked_services st → s ∉ started tr) ∧
  (∀ s, s ∈ pending st → ∃ st', mark_failed s g st = Some st').
Proof.
  intros Hwf%build_wf Hr. pose proof (frun_inv _ _ _ Hwf Hr) as Hi.
  pose proof (frun_trace _ _ _ Hwf Hr) as [T1 T2 T3 _]. split; [|split].
  - intros s. setoid_rewrite <-T2. apply (fi_blocked_iff _ _ Hi).
  - intros s Hb Hs. apply T3 in Hs. pose proof (fi_blocked _ _ Hi s Hb).
    pose proof (fi_pending _ _ Hi s). pose proof (fi_ready_blocked _ _ Hi s).
    unfold failed, blocked_services in *. clear -Hs Hb H H0 H1. set_solver.
  - intros s Hs. by apply mark_failed_returns.
Qed.
Lemma blocked_exact_witness :
  ∃ tr st, the_run soft_chain [OTake; OFailed "a"] = Some (tr, st) ∧
    ("b" ∈ blocked_services st ↔ ∃ f, LFailed f ∈ tr ∧ tc (req (the_graph soft_chain)) "b" f).
Proof.
  destruct (the_run soft_chain [OTake; OFailed "a"]) as [[tr st]|] eqn:E; [|vm_compute in E; discriminate].
  exists tr, st. split; [done|].
  apply (blocked_exact (HO := elements_order) soft_chain (the_graph soft_chain) tr st).
  - vm_compute. reflexivity.
  - eapply the_run_frun; [vm_compute; reflexivity|exact E].
Defined.

(** When the loop ends on an acyclic graph (nothing ready to start, nothing pending), every
    service was reported ready or failed, or is blocked, or depends transitively on a
    blocked service. *)
Theorem startup_complete `{HO : HashOrder} defs g tr st :
  build defs = Some g → validate_no_cycles g = Some (Ok ()) → frun g tr st →
  has_ready st = false → has_pending st = false →
  ∀ s, s ∈ services g →
    reported tr s ∨ s ∈ blocked_services st ∨ ∃ d, tc (edge g) s d ∧ d ∈ blocked_services st.
Proof. intros Hwf%build_wf. by apply accounted_for. Qed.
Lemma startup_complete_witness :
  ∃ tr st, the_run soft_chain [OTake; OReady "a"; OTake; OReady "b"; OTake; OReady "c"] = Some (tr, st) ∧
    (reported tr "c" ∨ "c" ∈ blocked_services st ∨
     ∃ d, tc (edge (the_graph soft_chain)) "c" d ∧ d ∈ blocked_services st).
Proof.
  destruct (the_run soft_chain _) as [[tr st]|] eqn:E; [|vm_compute in E; discriminate].
  exists tr, st. split; [done|].
  apply (startup_complete (HO := elements_order) soft_chain (the_graph soft_chain) tr st).
  - vm_compute. reflexivity.
  - vm_compute. reflexivity.
  - eapply the_run_frun; [vm_compute; reflexivity|exact E].
  - vm_compute in E. injection E as _ <-. reflexivity.
  - vm_compute in E. injection E as _ <-. reflexivity.
  - apply elem_of_elements, list_elem_of_In. vm_compute. tauto.
Defined.

(** A service with any dependency, even an `after` or `wants` one, on a blocked service is
    never started (and is not itself reported as blocked), unlike the dependents of a failed
    service. *)
Theorem dependents_of_blocked_never_start `{HO : HashOrder} defs g tr st s d :
  build defs = Some g → frun g tr st →
  d ∈ blocked_services st → d ∈ dependencies_of g s → s ∉ started tr.
Proof.
  intros Hwf%build_wf Hr Hb Hd Hs. pose proof (frun_inv _ _ _ Hwf Hr) as Hi.
  apply (ti_started _ _ (frun_trace _ _ _ Hwf Hr)), (fi_started _ _ Hi) in Hs as [_ Hs].
  apply Hs in Hd. pose proof (fi_ready_blocked _ _ Hi d).
  unfold failed, blocked_services in *. clear -Hd Hb H. set_solver.
Qed.
Lemma dependents_of_blocked_never_start_witness :
  ∃ tr st, the_run soft_chain [OTake; OFailed "a"; OTake] = Some (tr, st) ∧
    requires_of (the_graph soft_chain) "c" = ∅ ∧ has_ready st = false ∧ has_pending st = false ∧
    ("c" ∉ blocked_services st) ∧ ("c" ∉ completed st) ∧ "c" ∉ started tr.
Proof.
  destruct (the_run soft_chain _) as [[tr st]|] eqn:E; [|vm_compute in E; discriminate].
  exists tr, st. split; [done|]. split; [vm_compute; reflexivity|].
  pose proof E as E'. vm_compute in E'. injection E' as Etr Est.
  split; [subst st; reflexivity|]. split; [subst st; reflexivity|].
  split; [subst st; vm_compute; discriminate|]. split; [subst st; vm_compute; discriminate|].
  apply (dependents_of_blocked_never_start (HO := elements_order) soft_chain (the_graph soft_chain)
    tr st "c" "b").
  - vm_compute. reflexivity.
  - eapply the_run_frun; [vm_compute; reflexivity|exact E].
  - subst st. vm_compute. reflexivity.
  - apply elem_of_elements, list_elem_of_In. vm_compute. tauto.
Defined.
