(* ===== verification/Types.v ===== *)
(** * Shared types (dynamod-common/src/types.rs)

    The service status, its textual form on the control socket and the parser
    the clients read it with, and the proof that the two are inverse. *)

From S2P Require Import Prelude RustStr.

#[local] Open Scope string_scope.
#[local] Open Scope Z_scope.

(** A service name; both conversions wrap the text. *)
Record ServiceName := { service_name_0 : string }.
Definition service_name_from (s : string) : ServiceName := {| service_name_0 := s |}.
Definition service_name_to_string (n : ServiceName) : string := service_name_0 n.

#[export] Instance ServiceName_eq_dec : EqDecision ServiceName.
Proof. solve_decision. Defined.

Inductive ServiceStatus :=
| Stopped
| Starting
| WaitingReady
| Running
| Stopping
| Failed (exit_code signal : option Z)
| Abandoned.

#[export] Instance ServiceStatus_eq_dec : EqDecision ServiceStatus.
Proof. solve_decision. Defined.

(** [Display for ServiceStatus]. *)
Definition status_to_string (st : ServiceStatus) : string :=
  match st with
  | Stopped => "stopped"
  | Starting => "starting"
  | WaitingReady => "waiting-ready"
  | Running => "running"
  | Stopping => "stopping"
  | Failed exit_code signal =>
      "failed("
      ++ (match exit_code with Some code => "exit=" ++ to_string code | None => "" end)
      ++ (match signal with Some sig => "signal=" ++ to_string sig | None => "" end)
      ++ ")"
  | Abandoned => "abandoned"
  end.

(** The number a part of the failure text ends in. *)
Definition status_number (part : string) : option Z :=
  parse_i32 (trim_end_matches (λ c, negb (is_ascii_digit c)) part).

(** One round of the loop over the parts between the ["signal="] separators. *)
Definition status_part (acc : option Z * option Z) (part : string) : option Z * option Z :=
  let '(exit_code, signal) := acc in
  match strip_prefix "exit=" part with
  | Some rest => (status_number rest, signal)
  | None =>
      if negb (String.eqb part "") then (exit_code, status_number part)
      else (exit_code, signal)
  end.

(** [FromStr for ServiceStatus]. *)
Definition status_from_str (s : string) : result ServiceStatus string :=
  if String.eqb s "stopped" then Ok Stopped
  else if String.eqb s "starting" then Ok Starting
  else if String.eqb s "waiting-ready" then Ok WaitingReady
  else if String.eqb s "running" then Ok Running
  else if String.eqb s "stopping" then Ok Stopping
  else if String.eqb s "abandoned" then Ok Abandoned
  else if starts_with "failed(" s then
    let inner := default "" (s ← strip_prefix "failed(" s; strip_suffix ")" s) in
    let '(exit_code, signal) := foldl status_part (None, None) (split "signal=" inner) in
    Ok (Failed exit_code signal)
  else Err ("unknown service status: " ++ s).

(** The values of the two fields of [Failed]: [Option<i32>]. *)
Definition opt_i32 (o : option Z) : Prop :=
  match o with Some z => - 2 ^ 31 ≤ z ≤ 2 ^ 31 - 1 | None => True end.

Definition wf_status (st : ServiceStatus) : Prop :=
  match st with Failed e s => opt_i32 e ∧ opt_i32 s | _ => True end.

(** ** Round trip *)

(** The first bytes of ["exit="] and ["signal="]. *)
#[local] Abbreviation ch_e := (Ascii.Ascii true false true false false true true false).
#[local] Abbreviation ch_s := (Ascii.Ascii true true false false true true true false).

Lemma trim_end_matches_last p c s :
  p (last_byte c s) = false → trim_end_matches p (String c s) = String c s.
Proof.
  revert c. induction s as [|d s IH]; intros c; cbn [last_byte].
  - intros H. cbn. by rewrite H.
  - intros H. specialize (IH d H).
    change (trim_end_matches p (String c (String d s))) with
      (match trim_end_matches p (String d s) with
       | EmptyString => if p c then "" else String c "" | r => String c r end).
    by rewrite IH.
Qed.

Lemma status_number_to_string z : opt_i32 (Some z) → status_number (to_string z) = Some z.
Proof.
  intros Hz. destruct (to_string_int_bytes z) as (c & r & Heq & _ & Hl).
  unfold status_number. rewrite Heq, trim_end_matches_last by (by rewrite Hl).
  rewrite <-Heq. apply parse_signed_to_string; cbn in Hz; lia.
Qed.

Lemma to_string_no_byte b z :
  is_int_byte b = false → str_all (λ d, negb (Ascii.eqb b d)) (to_string z) = true.
Proof.
  intros Hb. destruct (to_string_int_bytes z) as (c & r & -> & Hall & _).
  eapply str_all_impl; [|exact Hall]. intros d Hd.
  destruct (Ascii.eqb_spec b d) as [->|]; [congruence|done].
Qed.

(** Splitting the inner text of a failure gives back its two fields. *)
Definition failed_inner (e s : option Z) : string :=
  (match e with Some code => "exit=" ++ to_string code | None => "" end)
  ++ (match s with Some sig => "signal=" ++ to_string sig | None => "" end).

Lemma split_none sep s : find_sub sep s = None → split sep s = [s].
Proof. unfold split. intros H. destruct (String.length s); cbn; [done|]. by rewrite H. Qed.

Lemma split_first sep s a b :
  (0 < String.length s)%nat → find_sub sep s = Some (a, b) → find_sub sep b = None → split sep s = [a; b].
Proof.
  unfold split. intros Hl H Hb. destruct (String.length s) as [|n]; [lia|]. cbn. rewrite H.
  f_equal. destruct n; cbn; [done|]. by rewrite Hb.
Qed.

Lemma status_part_number acc z :
  opt_i32 (Some z) →
  status_part acc ("exit=" ++ to_string z) = (Some z, snd acc) ∧
  status_part acc (to_string z) = (fst acc, Some z).
Proof.
  intros Hz. destruct acc as [e s]. unfold status_part. split.
  - by rewrite strip_prefix_app, status_number_to_string.
  - assert (strip_prefix "exit=" (to_string z) = None) as ->.
    { pose proof (to_string_no_byte ch_e z eq_refl) as H.
      destruct (to_string z) as [|c r]; [done|]. cbn [strip_prefix].
      cbn [str_all] in H. by destruct (Ascii.eqb ch_e c). }
    rewrite status_number_to_string by done.
    destruct (to_string_int_bytes z) as (c & r & -> & _). done.
Qed.

Lemma failed_inner_parts e s :
  opt_i32 e → opt_i32 s →
  foldl status_part (None, None) (split "signal=" (failed_inner e s)) = (e, s).
Proof.
  intros He Hs. pose proof (λ z, to_string_no_byte ch_s z eq_refl) as Hno.
  assert (∀ z, str_all (λ d, negb (Ascii.eqb ch_s d)) ("exit=" ++ to_string z) = true) as Hno'
    by (intros z; rewrite str_all_app, Hno; done).
  destruct s as [z|].
  - destruct (status_part_number (e, None) z Hs) as [_ Hsig]. destruct e as [y|].
    + unfold failed_inner. rewrite (split_first "signal=" _ ("exit=" ++ to_string y) (to_string z)).
      * cbn [foldl]. destruct (status_part_number (None, None) y He) as [-> _].
        destruct (status_part_number (Some y, None) z Hs) as [_ Hz]. exact Hz.
      * cbn. lia.
      * by apply find_sub_first.
      * by apply find_sub_none.
    + unfold failed_inner. rewrite (split_first "signal=" _ "" (to_string z)).
      * cbn [foldl]. exact Hsig.
      * cbn. lia.
      * exact (find_sub_first ch_s "ignal=" "" (to_string z) eq_refl).
      * by apply find_sub_none.
  - destruct e as [y|]; [|done]. unfold failed_inner. rewrite app_nil_r_str.
    rewrite split_none by (by apply find_sub_none). cbn [foldl].
    destruct (status_part_number (None, None) y He) as [-> _]. done.
Qed.

(** Parsing a rendered service status gives it back, for every status whose exit code and
    signal are 32-bit integers. *)
Theorem status_roundtrip st :
  wf_status st → status_from_str (status_to_string st) = Ok st.
Proof.
  destruct st as [| | | | |e s|]; try done. intros [He Hs].
  assert (status_to_string (Failed e s) = "failed(" ++ (failed_inner e s ++ ")")) as ->
    by (unfold failed_inner; cbn [status_to_string]; by rewrite app_assoc_str).
  pose proof (failed_inner_parts e s He Hs) as Hp. unfold status_from_str, starts_with.
  rewrite strip_prefix_app. cbn [mbind option_bind]. rewrite strip_suffix_app. cbn [default].
  cbn -[foldl split status_part failed_inner]. unfold id. by rewrite Hp.
Qed.
Lemma status_roundtrip_witness :
  status_to_string (Failed (Some (-7)) (Some 9)) = "failed(exit=-7signal=9)" ∧
  status_from_str "failed(exit=-7signal=9)" = Ok (Failed (Some (-7)) (Some 9)).
Proof.
  split; [vm_compute; reflexivity|].
  apply (status_roundtrip (Failed (Some (-7)) (Some 9))). cbn. lia.
Defined.

(** A failure text with no parsable number is read as a failure without a cause:
    the parser is lenient, only the leading ["failed("] is required. *)
Example status_lenient :
  status_from_str "failed(" = Ok (Failed None None) ∧
  status_from_str "failed(exit=x)" = Ok (Failed None None).
Proof. split; vm_compute; reflexivity. Qed.
