(* ===== verification/Protocol.v ===== *)
(** * The IPC protocol (dynamod-common/src/protocol.rs)

    Messages, and their framing on a byte stream: two magic bytes, a 32-bit
    little-endian length, a MessagePack payload.  MessagePack itself is the
    library rmp_serde, a parameter: the class [Rmp] gives its two operations,
    the class [RmpRoundTrip] what the protocol relies on.  [fixmap_rmp] is an
    instance on a fragment of the messages, with the bytes of the real format. *)

From S2P Require Import Prelude RustStr.

#[local] Open Scope Z_scope.
#[local] Open Scope list_scope.

(** ** Messages *)

Inductive ShutdownKind := Poweroff | Reboot | Halt.

Record ServiceEntry := {
  se_name : string;
  se_status : string;
  se_pid : option Z;
}.

Inductive MessageKind :=
| Request
| Response (in_reply_to : Z)
| Event.

Inductive MessageBody :=
| RequestShutdown (kind : ShutdownKind)
| Heartbeat
| HeartbeatAck
| ShutdownSignal (signal : string)
| LogToKmsg (level : Z) (message : string)
| MStartService (name : string)
| MStopService (name : string)
| MRestartService (name : string)
| MServiceStatus (name : string)
| ListServices
| TreeStatus
| MReload
| MShutdown (kind : ShutdownKind)
| GetServiceByPid (pid : Z)
| Ack
| Error (message : string)
| ServiceInfo (name status : string) (pid : option Z) (supervisor : string)
| ServiceList (services : list ServiceEntry)
| Tree (text : string)
| ServiceByPid (name : option string) (pid : Z).

Record Message := {
  m_id : Z;
  m_kind : MessageKind;
  m_body : MessageBody;
}.

#[export] Instance ShutdownKind_eq_dec : EqDecision ShutdownKind.
Proof. solve_decision. Defined.
#[export] Instance ServiceEntry_eq_dec : EqDecision ServiceEntry.
Proof. solve_decision. Defined.
#[export] Instance MessageKind_eq_dec : EqDecision MessageKind.
Proof. solve_decision. Defined.
#[export] Instance MessageBody_eq_dec : EqDecision MessageBody.
Proof. solve_decision. Defined.
#[export] Instance Message_eq_dec : EqDecision Message.
Proof. solve_decision. Defined.

(** ** The MessagePack library *)

Class Rmp := {
  rmp_serialize : Message → result (list Z) string;
  rmp_from_slice : list Z → result Message string;
}.

(** Deserializing a serialized message gives the message back. *)
Class RmpRoundTrip (R : Rmp) :=
  rmp_roundtrip : ∀ m p, rmp_serialize m = Ok p → rmp_from_slice p = Ok m.

(** ** Framing *)

Definition MAGIC : list Z := [0x44; 0x4D].
Definition MAX_MESSAGE_SIZE : Z := 64 * 1024.
Definition HEADER_SIZE : Z := 6.

Inductive EncodeError := ESerialize (e : string) | ETooLarge (len : Z).
Inductive DecodeError := Incomplete | BadMagic | TooLarge (len : Z) | Deserialize (e : string).

(** [Display] of the errors. *)
Definition encode_error_text (e : EncodeError) : string := (
  match e with
  | ESerialize e => "serialization failed: " ++ e
  | ETooLarge n => "message too large: " ++ to_string n ++ " bytes"
  end)%string.
Definition decode_error_text (e : DecodeError) : string := (
  match e with
  | Incomplete => "incomplete message"
  | BadMagic => "bad magic bytes"
  | TooLarge n => "message too large: " ++ to_string n ++ " bytes"
  | Deserialize e => "deserialization failed: " ++ e
  end)%string.

(** [u32::to_le_bytes] and [u32::from_le_bytes]. *)
Definition to_le_bytes (n : Z) : list Z :=
  [Z.land n 255; Z.land (Z.shiftr n 8) 255; Z.land (Z.shiftr n 16) 255; Z.land (Z.shiftr n 24) 255].
Definition from_le_bytes (b0 b1 b2 b3 : Z) : Z :=
  Z.lor b0 (Z.lor (Z.shiftl b1 8) (Z.lor (Z.shiftl b2 16) (Z.shiftl b3 24))).

(** The slice index [buf[i]]; every index used is below the length checked before. *)
Definition byte_at (buf : list Z) (i : nat) : Z := default 0 (buf !! i).

Definition len {A} (l : list A) : Z := Z.of_nat (length l).

Definition encode `{Rmp} (msg : Message) : result (list Z) EncodeError :=
  match rmp_serialize msg with
  | Err e => Err (ESerialize e)
  | Ok payload =>
      if MAX_MESSAGE_SIZE <? len payload then Err (ETooLarge (len payload))
      else Ok (MAGIC ++ to_le_bytes (wrap_u32 (len payload)) ++ payload)
  end.

Definition decode `{Rmp} (buf : list Z) : result (Message * nat) DecodeError :=
  if len buf <? HEADER_SIZE then Err Incomplete
  else if negb (bool_decide (take 2 buf = MAGIC)) then Err BadMagic
  else
    let n := from_le_bytes (byte_at buf 2) (byte_at buf 3) (byte_at buf 4) (byte_at buf 5) in
    if MAX_MESSAGE_SIZE <? n then Err (TooLarge n)
    else
      let total := HEADER_SIZE + n in
      if len buf <? total then Err Incomplete
      else
        match rmp_from_slice (take (Z.to_nat n) (drop (Z.to_nat HEADER_SIZE) buf)) with
        | Err e => Err (Deserialize e)
        | Ok msg => Ok (msg, Z.to_nat total)
        end.

(** Bytes. *)
Definition is_byte (b : Z) : Prop := 0 ≤ b < 256.

(** ** Little-endian lengths *)

Lemma lor_shiftl a b k :
  0 ≤ k → 0 ≤ a < 2 ^ k → Z.lor a (Z.shiftl b k) = a + 2 ^ k * b.
Proof.
  intros Hk Ha. assert (Z.land a (Z.shiftl b k) = 0) as Hland.
  { apply Z.bits_inj'. intros i Hi. rewrite Z.land_spec, Z.bits_0, Z.shiftl_spec by done.
    destruct (Z.lt_ge_cases i k); [rewrite (Z.testbit_neg_r b) by lia; apply andb_false_r|].
    rewrite <-(Z.mod_small a (2 ^ k)), Z.mod_pow2_bits_high by lia. done. }
  rewrite <-Z.lxor_lor, <-Z.add_nocarry_lxor by done. rewrite Z.shiftl_mul_pow2 by done. lia.
Qed.

Lemma from_le_bytes_sum b0 b1 b2 b3 :
  is_byte b0 → is_byte b1 → is_byte b2 → is_byte b3 →
  from_le_bytes b0 b1 b2 b3 = b0 + 256 * b1 + 65536 * b2 + 16777216 * b3.
Proof.
  unfold is_byte, from_le_bytes. intros H0 H1 H2 H3.
  assert (Z.lor (Z.shiftl b2 16) (Z.shiftl b3 24) = Z.shiftl (Z.lor b2 (Z.shiftl b3 8)) 16) as ->
    by (by rewrite Z.shiftl_lor, Z.shiftl_shiftl).
  rewrite (lor_shiftl b2 b3 8) by lia.
  assert (∀ y, Z.lor (Z.shiftl b1 8) (Z.shiftl y 16) = Z.shiftl (Z.lor b1 (Z.shiftl y 8)) 8) as ->
    by (intros y; by rewrite Z.shiftl_lor, Z.shiftl_shiftl).
  rewrite (lor_shiftl b1 _ 8) by lia. rewrite lor_shiftl by lia. lia.
Qed.

Lemma to_le_bytes_bytes n : Forall is_byte (to_le_bytes n).
Proof.
  unfold to_le_bytes, is_byte. change 255 with (Z.ones 8).
  repeat constructor; rewrite Z.land_ones by lia; apply Z.mod_pos_bound; lia.
Qed.

Lemma from_to_le_bytes n :
  0 ≤ n < 2 ^ 32 →
  from_le_bytes (Z.land n 255) (Z.land (Z.shiftr n 8) 255) (Z.land (Z.shiftr n 16) 255)
    (Z.land (Z.shiftr n 24) 255) = n.
Proof.
  intros Hn. pose proof (to_le_bytes_bytes n) as Hb. unfold to_le_bytes in Hb.
  rewrite !Forall_cons in Hb. destruct Hb as (? & ? & ? & ? & _).
  rewrite from_le_bytes_sum by done. change 255 with (Z.ones 8).
  rewrite !Z.land_ones, !Z.shiftr_div_pow2 by lia.
  change (2 ^ 8) with 256. change (2 ^ 16) with 65536. change (2 ^ 24) with 16777216.
  clear -Hn. Z.to_euclidean_division_equations. lia.
Qed.

(** ** Decoding frames *)

Lemma len_nonneg {A} (l : list A) : 0 ≤ len l.
Proof. unfold len. lia. Qed.
Lemma len_app {A} (l k : list A) : len (l ++ k) = len l + len k.
Proof. unfold len. rewrite length_app. lia. Qed.
(** The frame of a payload. *)
Definition frame (payload : list Z) : list Z :=
  MAGIC ++ to_le_bytes (wrap_u32 (len payload)) ++ payload.

Lemma len_frame p : len (frame p) = HEADER_SIZE + len p.
Proof. unfold frame. rewrite !len_app. unfold HEADER_SIZE. by rewrite Z.add_assoc. Qed.

Section decoding.
Context `{R : Rmp}.

Lemma encode_Ok m bytes :
  encode m = Ok bytes ↔
  ∃ p, rmp_serialize m = Ok p ∧ len p ≤ MAX_MESSAGE_SIZE ∧ bytes = frame p.
Proof.
  unfold encode. destruct (rmp_serialize m) as [p|e]; [|naive_solver].
  destruct (Z.ltb_spec MAX_MESSAGE_SIZE (len p)); naive_solver lia.
Qed.

Lemma decode_prefix p rest k :
  len p ≤ MAX_MESSAGE_SIZE → (k < length (frame p))%nat →
  decode (take k (frame p ++ rest)) = Err Incomplete.
Proof.
  intros Hp Hk. assert (Z.of_nat k < HEADER_SIZE + len p) as Hk'.
  { rewrite <-len_frame. unfold len. lia. }
  rewrite take_app_le by lia. unfold decode.
  assert (len (take k (frame p)) = Z.of_nat k) as Hlen
    by (unfold len; rewrite length_take; lia).
  rewrite Hlen. destruct (Z.ltb_spec (Z.of_nat k) HEADER_SIZE); [done|].
  destruct k as [|[|[|[|[|[|k]]]]]]; try (unfold HEADER_SIZE in *; lia).
  cbn [frame MAGIC to_le_bytes app take]. rewrite ?take_0.
  rewrite bool_decide_true by done. cbn [negb byte_at lookup list_lookup default from_option id].
  unfold byte_at. cbn [lookup list_lookup default from_option id].
  rewrite from_to_le_bytes by (apply Z.mod_pos_bound; lia).
  unfold wrap_u32. rewrite Z.mod_small by (pose proof (len_nonneg p); unfold MAX_MESSAGE_SIZE in *; lia).
  destruct (Z.ltb_spec MAX_MESSAGE_SIZE (len p)); [lia|].
  by rewrite (proj2 (Z.ltb_lt _ _)) by lia.
Qed.

Lemma decode_frame p rest :
  len p ≤ MAX_MESSAGE_SIZE →
  decode (frame p ++ rest) =
  match rmp_from_slice p with Err e => Err (Deserialize e) | Ok m => Ok (m, length (frame p)) end.
Proof.
  intros Hp. unfold decode. rewrite len_app, len_frame.
  pose proof (len_nonneg p). pose proof (len_nonneg rest).
  rewrite (proj2 (Z.ltb_ge _ _)) by (unfold HEADER_SIZE; lia).
  cbn [frame MAGIC to_le_bytes app take]. rewrite ?take_0.
  rewrite bool_decide_true by done. cbn [negb].
  unfold byte_at. cbn [lookup list_lookup default from_option id].
  rewrite from_to_le_bytes by (apply Z.mod_pos_bound; lia).
  unfold wrap_u32. rewrite Z.mod_small by (unfold MAX_MESSAGE_SIZE in *; lia).
  rewrite (proj2 (Z.ltb_ge _ _)) by lia. rewrite (proj2 (Z.ltb_ge _ _)) by lia.
  change (Z.to_nat HEADER_SIZE) with 6%nat. cbn [drop].
  replace (Z.to_nat (len p)) with (length p) by (unfold len; lia). rewrite drop_0, take_app_length.
  destruct (rmp_from_slice p); [|done]. do 2 f_equal.
  unfold HEADER_SIZE, len. cbn [length]. lia.
Qed.

(** More input never changes the outcome once it is not [Incomplete]. *)
Lemma decode_app buf more :
  decode buf ≠ Err Incomplete → decode (buf ++ more) = decode buf.
Proof.
  unfold decode. rewrite len_app. pose proof (len_nonneg more).
  destruct (Z.ltb_spec (len buf) HEADER_SIZE) as [|Hh]; [done|].
  rewrite (proj2 (Z.ltb_ge (len buf + len more) HEADER_SIZE)) by lia. unfold len, HEADER_SIZE in Hh.
  rewrite take_app_le by lia. destruct (bool_decide _); cbn [negb]; [|done].
  unfold byte_at. rewrite !lookup_app_l by lia.
  set (n := from_le_bytes _ _ _ _). destruct (Z.ltb_spec MAX_MESSAGE_SIZE n); [done|].
  destruct (Z.ltb_spec (len buf) (HEADER_SIZE + n)) as [|Hl]; [done|]. intros _.
  rewrite (proj2 (Z.ltb_ge (len buf + len more) (HEADER_SIZE + n))) by lia. unfold len, HEADER_SIZE in Hl.
  change (Z.to_nat HEADER_SIZE) with 6%nat.
  rewrite drop_app_le by lia. rewrite take_app_le by (rewrite length_drop; lia). done.
Qed.

(** A buffer of the maximal frame size always decodes to something. *)
Lemma decode_full buf :
  HEADER_SIZE + MAX_MESSAGE_SIZE ≤ len buf → decode buf ≠ Err Incomplete.
Proof.
  unfold decode. intros Hf. rewrite (proj2 (Z.ltb_ge _ _)) by (unfold MAX_MESSAGE_SIZE in *; lia).
  destruct (bool_decide _); cbn [negb]; [|done].
  set (n := from_le_bytes _ _ _ _). destruct (Z.ltb_spec MAX_MESSAGE_SIZE n); [done|].
  rewrite (proj2 (Z.ltb_ge _ _)) by lia. by destruct (rmp_from_slice _).
Qed.

Lemma byte_at_byte buf i : Forall is_byte buf → is_byte (byte_at buf i).
Proof.
  intros Hb. unfold byte_at. destruct (buf !! i) as [b|] eqn:E; cbn; [|unfold is_byte; lia].
  by eapply Forall_lookup_1.
Qed.

Lemma decode_consumed buf m n :
  Forall is_byte buf → decode buf = Ok (m, n) →
  HEADER_SIZE ≤ Z.of_nat n ≤ HEADER_SIZE + MAX_MESSAGE_SIZE ∧ (n ≤ length buf)%nat.
Proof.
  intros Hb. unfold decode. destruct (Z.ltb_spec (len buf) HEADER_SIZE); [done|].
  destruct (bool_decide _); cbn [negb]; [|done].
  rewrite from_le_bytes_sum by (by apply byte_at_byte).
  pose proof (λ i, byte_at_byte buf i Hb) as Hat.
  pose proof (Hat 2%nat). pose proof (Hat 3%nat). pose proof (Hat 4%nat). pose proof (Hat 5%nat).
  set (k := _ + _ + _ + _) in *. assert (0 ≤ k) by (unfold k, is_byte in *; lia). clearbody k.
  destruct (Z.ltb_spec MAX_MESSAGE_SIZE k); [done|].
  destruct (Z.ltb_spec (len buf) (HEADER_SIZE + k)); [done|].
  destruct (rmp_from_slice _); [|done]. intros [= _ <-].
  unfold HEADER_SIZE, MAX_MESSAGE_SIZE, len in *. lia.
Qed.
End decoding.

(** ** An instance of the library

    The MessagePack bytes of the requests without arguments and with a small
    id: a map of three entries with string keys, as [with_struct_map] writes it. *)

Definition str_bytes (s : string) : list Z :=
  map (λ c, Z.of_N (Ascii.N_of_ascii c)) (String.list_ascii_of_string s).
Definition fixstr (s : string) : list Z := (0xa0 + len (str_bytes s)) :: str_bytes s.

Definition unit_bodies : list (MessageBody * list Z) :=
  [(Heartbeat, fixstr "Heartbeat"); (HeartbeatAck, fixstr "HeartbeatAck");
   (ListServices, fixstr "ListServices"); (TreeStatus, fixstr "TreeStatus");
   (MReload, fixstr "Reload"); (Ack, fixstr "Ack")].

Definition fixmap_head : list Z := 0x83 :: fixstr "id".
Definition fixmap_mid : list Z := fixstr "kind" ++ fixstr "Request" ++ fixstr "body".

Definition fixmap_serialize (m : Message) : result (list Z) string :=
  match m_kind m, list_find (λ e, fst e = m_body m) unit_bodies with
  | Request, Some (_, (_, bytes)) =>
      if (0 <=? m_id m) && (m_id m <? 128)
      then Ok (fixmap_head ++ [m_id m] ++ fixmap_mid ++ bytes)
      else Err "unsupported"%string
  | _, _ => Err "unsupported"%string
  end.

Definition fixmap_from_slice (p : list Z) : result Message string :=
  if bool_decide (take 4 p = fixmap_head) && bool_decide (take 18 (drop 5 p) = fixmap_mid) then
    match list_find (λ e, snd e = drop 23 p) unit_bodies with
    | Some (_, (body, _)) => Ok {| m_id := byte_at p 4; m_kind := Request; m_body := body |}
    | None => Err "unsupported"%string
    end
  else Err "unsupported"%string.

#[export] Instance fixmap_rmp : Rmp := {|
  rmp_serialize := fixmap_serialize; rmp_from_slice := fixmap_from_slice |}.

#[export] Instance fixmap_roundtrip : RmpRoundTrip fixmap_rmp.
Proof.
  intros [id k b] p. cbn [rmp_serialize fixmap_rmp]. unfold fixmap_serialize.
  cbn [m_kind m_body m_id]. destruct k; try done.
  destruct (list_find _ unit_bodies) as [[i [b' bytes]]|] eqn:E; [|done].
  apply list_find_Some in E as (Hi & Hb & _). cbn in Hb. subst b'.
  destruct (_ && _); [|done]. intros [= <-].
  repeat (destruct i as [|i]; [injection Hi as <- <-; reflexivity|]). done.
Qed.

(** Decoding what [encode] produced, whatever follows it. *)
Lemma decode_encode `{RmpRoundTrip} m bytes rest :
  encode m = Ok bytes → decode (bytes ++ rest) = Ok (m, length bytes).
Proof.
  intros (p & Hs & Hp & ->)%encode_Ok. rewrite decode_frame by done.
  by rewrite (rmp_roundtrip m p Hs).
Qed.

(** A proper prefix of an encoded message is incomplete. *)
Lemma decode_encode_prefix `{Rmp} m bytes buf more :
  encode m = Ok bytes → buf ++ more = bytes → more ≠ [] → decode buf = Err Incomplete.
Proof.
  intros (p & _ & Hp & ->)%encode_Ok Hcat Hne.
  assert (buf = take (length buf) (frame p ++ [])) as ->.
  { by rewrite app_nil_r, <-Hcat, take_app_length. }
  apply decode_prefix; [done|]. rewrite <-Hcat, length_app. destruct more; [done|]. cbn [length]. lia.
Qed.

(** An encoded message fits the readers' buffers. *)
Lemma encode_fits `{Rmp} m bytes :
  encode m = Ok bytes → 0 < len bytes ≤ HEADER_SIZE + MAX_MESSAGE_SIZE.
Proof.
  intros (p & _ & Hp & ->)%encode_Ok. rewrite len_frame. pose proof (len_nonneg p).
  unfold HEADER_SIZE in *. lia.
Qed.

(** ** Theorems *)

(** C26: Decoding an encoded message, whatever follows it, gives the message back and
    consumes exactly its bytes; every proper prefix is reported as incomplete (the
    serializer round-trips, as documented). *)
Theorem frame_roundtrip `{RmpRoundTrip} m bytes rest :
  encode m = Ok bytes →
  decode (bytes ++ rest) = Ok (m, length bytes) ∧
  ∀ k, (k < length bytes)%nat → decode (take k bytes) = Err Incomplete.
Proof.
  intros Henc. split; [by apply decode_encode|]. intros k Hk.
  apply (decode_encode_prefix m bytes _ (drop k bytes)); [done|apply take_drop|].
  intros Hd%(f_equal length). rewrite length_drop in Hd. cbn in Hd. lia.
Qed.
Lemma frame_roundtrip_witness :
  ∃ bytes, encode {| m_id := 42; m_kind := Request; m_body := Heartbeat |} = Ok bytes ∧
    length bytes = 39%nat ∧
    decode (bytes ++ [0x44; 0x4D]) =
      Ok ({| m_id := 42; m_kind := Request; m_body := Heartbeat |}, 39%nat).
Proof.
  eexists. split; [vm_compute; reflexivity|]. split; [reflexivity|].
  apply (frame_roundtrip (R := fixmap_rmp) {| m_id := 42; m_kind := Request; m_body := Heartbeat |}).
  vm_compute. reflexivity.
Defined.

(** C27: Once decode answers anything but incomplete, more bytes do not change the answer;
    it answers by header plus maximum size at the latest; what it consumes lies within the
    buffer and within those bounds. *)
Theorem decode_bounded `{Rmp} buf more :
  Forall is_byte buf →
  (decode buf ≠ Err Incomplete → decode (buf ++ more) = decode buf) ∧
  (HEADER_SIZE + MAX_MESSAGE_SIZE ≤ len buf → decode buf ≠ Err Incomplete) ∧
  (∀ m n, decode buf = Ok (m, n) →
     (n ≤ length buf)%nat ∧ HEADER_SIZE ≤ Z.of_nat n ≤ HEADER_SIZE + MAX_MESSAGE_SIZE).
Proof.
  intros Hb. split; [apply decode_app|]. split; [apply decode_full|].
  intros m n Hd. destruct (decode_consumed buf m n Hb Hd). done.
Qed.
Lemma decode_bounded_witness :
  Forall is_byte [0x44; 0x4D; 0xFF; 0xFF; 0xFF; 0x7F] ∧
  decode [0x44; 0x4D; 0xFF; 0xFF; 0xFF; 0x7F; 1; 2; 3] = Err (TooLarge 2147483647).
Proof.
  assert (Forall is_byte [0x44; 0x4D; 0xFF; 0xFF; 0xFF; 0x7F]) as Hb
    by (unfold is_byte; repeat constructor; lia).
  split; [exact Hb|].
  change [0x44; 0x4D; 0xFF; 0xFF; 0xFF; 0x7F; 1; 2; 3] with
    ([0x44; 0x4D; 0xFF; 0xFF; 0xFF; 0x7F] ++ [1; 2; 3]).
  rewrite (proj1 (decode_bounded [0x44; 0x4D; 0xFF; 0xFF; 0xFF; 0x7F] [1; 2; 3] Hb)).
  - vm_compute. reflexivity.
  - vm_compute. discriminate.
Defined.
