(* ===== verification/Intensity.v ===== *)
(** * Restart intensity (supervisor/intensity.rs)

    The ring of restart timestamps of a supervisor, and the proof that after any
    history of restarts it decides "more than [max_restarts] restarts within the
    last [window]" exactly. *)

From stdpp Require Import sorting.
From S2P Require Import Prelude.

#[local] Open Scope Z_scope.
#[local] Open Scope list_scope.

(** [Instant] and [Duration], in nanoseconds.  An [Instant] is a 64-bit signed
    number of seconds with nanoseconds. *)
Definition NANOS : Z := 1000000000.
Definition from_secs (secs : Z) : Z := secs * NANOS.

(** [Instant::checked_sub]: [None] when the seconds leave the signed range. *)
Definition checked_sub (now window : Z) : option Z :=
  if (now - window) / NANOS <? - 2 ^ 63 then None else Some (now - window).

Record RestartIntensity := {
  max_restarts : Z;
  window : Z;
  timestamps : list Z;
}.

Definition intensity_new (max win : Z) : RestartIntensity :=
  {| max_restarts := max; window := win; timestamps := [] |}.

(** The eviction loop at the front of the ring. *)
Fixpoint evict (cutoff : Z) (ts : list Z) : list Z :=
  match ts with
  | t :: ts' => if t <? cutoff then evict cutoff ts' else ts
  | [] => []
  end.

(** [record_restart_at]: the ring after the restart, and whether the intensity
    is exceeded.  [record_restart] calls it with the clock. *)
Definition record_restart_at (now : Z) (i : RestartIntensity) : bool * RestartIntensity :=
  let ts := timestamps i ++ [now] in
  let cutoff := default now (checked_sub now (window i)) in
  let ts := evict cutoff ts in
  (max_restarts i <? Z.of_nat (length ts),
   {| max_restarts := max_restarts i; window := window i; timestamps := ts |}).

Definition reset (i : RestartIntensity) : RestartIntensity :=
  {| max_restarts := max_restarts i; window := window i; timestamps := [] |}.

Definition current_count (i : RestartIntensity) : nat := length (timestamps i).

(** The ring after a history of restarts. *)
Definition record_all (i : RestartIntensity) (history : list Z) : RestartIntensity :=
  foldl (λ i t, snd (record_restart_at t i)) i history.

(** The restarts of a history that lie in the window that ends at [now]. *)
Definition in_window (win now : Z) (history : list Z) : list Z :=
  filter (λ t, now - win ≤ t) history.

(** ** The ring is the window *)

Lemma evict_sorted cutoff ts :
  Sorted Z.le ts → evict cutoff ts = filter (λ t, cutoff ≤ t) ts.
Proof.
  intros Hs%Sorted_StronglySorted; [|intros a b c; lia].
  induction Hs as [|t ts Hs IH Hall]; cbn [evict]; [done|]. rewrite filter_cons.
  destruct (Z.ltb_spec t cutoff); case_decide; try lia; [done|].
  f_equal. symmetry. clear IH. induction Hall as [|u ts Hu Hall IH]; [done|].
  rewrite filter_cons, decide_True by lia. f_equal. apply IH. by inversion Hs.
Qed.

Lemma checked_sub_in_range now win :
  0 ≤ now → 0 ≤ win ≤ from_secs (2 ^ 63) → checked_sub now win = Some (now - win).
Proof.
  unfold checked_sub, from_secs, NANOS. intros Hn Hw.
  destruct (Z.ltb_spec ((now - win) / 1000000000) (- 2 ^ 63)) as [H|]; [|done].
  exfalso. revert H. apply Z.le_ngt. apply Z.div_le_lower_bound; lia.
Qed.

Lemma Sorted_snoc ts t :
  Sorted Z.le ts → Forall (λ u, u ≤ t) ts → Sorted Z.le (ts ++ [t]).
Proof.
  induction 1 as [|u ts Hs IH Hh]; intros Hall; [repeat constructor|].
  apply Forall_cons in Hall as [Hu Hall]. cbn. constructor; [by apply IH|].
  destruct Hh; cbn; constructor; lia.
Qed.

Lemma Sorted_filter_le c ts : Sorted Z.le ts → Sorted Z.le (filter (λ t, c ≤ t) ts).
Proof.
  intros Hs%Sorted_StronglySorted; [|intros x y z; lia]. apply StronglySorted_Sorted.
  induction Hs as [|u ts Hs IH Hall]; [constructor|]. rewrite filter_cons.
  case_decide; [|done]. constructor; [done|]. apply Forall_forall. intros x Hx.
  apply list_elem_of_filter in Hx as [_ Hx]. rewrite Forall_forall in Hall. by apply Hall.
Qed.

Lemma record_step i now :
  0 ≤ now → 0 ≤ window i ≤ from_secs (2 ^ 63) →
  Sorted Z.le (timestamps i ++ [now]) →
  record_restart_at now i =
    let ts := in_window (window i) now (timestamps i ++ [now]) in
    (max_restarts i <? Z.of_nat (length ts),
     {| max_restarts := max_restarts i; window := window i; timestamps := ts |}).
Proof.
  intros Hn Hw Hs. unfold record_restart_at. rewrite checked_sub_in_range by done.
  cbn [default from_option id]. by rewrite evict_sorted.
Qed.

(** After a history, the ring holds the part of it in the last window. *)
Lemma record_all_window max win history :
  0 ≤ win ≤ from_secs (2 ^ 63) → Forall (λ t, 0 ≤ t) history → Sorted Z.le history →
  record_all (intensity_new max win) history =
  {| max_restarts := max; window := win;
     timestamps := match last history with
                   | Some now => in_window win now history | None => [] end |}.
Proof.
  intros Hw Hpos Hs. induction history as [|now history IH] using rev_ind; [done|].
  apply Forall_app in Hpos as [Hpos Hnow]. rewrite Forall_singleton in Hnow.
  assert (Sorted Z.le history ∧ Forall (λ u, u ≤ now) history) as [Hs' Hle].
  { apply Sorted_StronglySorted in Hs; [|intros x y z; lia].
    apply StronglySorted_app in Hs as (Hle & Hs & _). split; [by apply StronglySorted_Sorted|].
    apply Forall_forall. intros x Hx. by apply Hle; [|apply list_elem_of_singleton]. }
  unfold record_all in *. rewrite foldl_snoc, IH by done. rewrite last_snoc.
  set (ts := match last history with Some _ => _ | None => _ end).
  assert (Sorted Z.le ts ∧ (∀ x, x ∈ ts ↔ x ∈ history ∧
            match last history with Some n => n - win ≤ x | None => False end)) as [Hst Hin].
  { unfold ts, in_window. destruct (last history) as [n|] eqn:El.
    - split; [by apply Sorted_filter_le|]. intros x. rewrite list_elem_of_filter. tauto.
    - split; [constructor|]. intros x. rewrite elem_of_nil. tauto. }
  rewrite record_step; cbn [window timestamps max_restarts]; [|exact Hnow|exact Hw|].
  - cbn. f_equal. unfold in_window. rewrite !filter_app. f_equal. subst ts.
    destruct (last history) as [n|] eqn:El; [|by apply last_None in El as ->].
    assert (n ≤ now) as Hn.
    { rewrite Forall_forall in Hle. apply Hle. by apply last_Some_elem_of in El. }
    unfold in_window. apply list_filter_filter_l. intros x. lia.
  - apply Sorted_snoc; [done|]. apply Forall_forall. intros x [Hx _]%Hin.
    rewrite Forall_forall in Hle. by apply Hle.
Qed.

(** C15: Recording restarts at non-decreasing times, the sliding window reports the
    intensity exceeded exactly when more than max restarts, the new one included, lie within
    the window, and the number it holds is exactly the number of those (for windows up to
    2^63 seconds). *)
Theorem intensity_exact max win history now :
  0 ≤ win ≤ from_secs (2 ^ 63) → Forall (λ t, 0 ≤ t) (history ++ [now]) →
  Sorted Z.le (history ++ [now]) →
  let '(exceeded, i) := record_restart_at now (record_all (intensity_new max win) history) in
  (exceeded = true ↔ max < Z.of_nat (length (in_window win now (history ++ [now])))) ∧
  current_count i = length (in_window win now (history ++ [now])).
Proof.
  intros Hw Hpos Hs. pose proof (record_all_window max win (history ++ [now]) Hw Hpos Hs) as H.
  unfold record_all in *. rewrite foldl_snoc in H.
  set (i := foldl _ _ history) in *. assert (max_restarts i = max) as Hm.
  { unfold i. clear. change max with (max_restarts (intensity_new max win)) at 2.
    generalize (intensity_new max win). induction history as [|t h IH]; intros j; [done|].
    cbn. by rewrite IH. }
  destruct (record_restart_at now i) as [ex i'] eqn:E. cbn [snd] in H. rewrite H.
  unfold record_restart_at in E. injection E as <- E. rewrite Hm.
  rewrite last_snoc in *. assert (timestamps i' = in_window win now (history ++ [now])) as Ht
    by (by rewrite H).
  rewrite <-E in Ht. cbn [timestamps] in Ht. rewrite Ht.
  split; [|done]. by rewrite Z.ltb_lt.
Qed.
Lemma intensity_exact_witness :
  fst (record_restart_at 25 (record_all (intensity_new 2 10) [1; 16; 20])) = true ∧
  in_window 10 25 [1; 16; 20; 25] = [16; 20; 25].
Proof.
  split; [|reflexivity].
  pose proof (intensity_exact 2 10 [1; 16; 20] 25) as H.
  destruct (record_restart_at 25 _) as [ex i]. apply H.
  - unfold from_secs, NANOS. lia.
  - repeat constructor; lia.
  - repeat constructor; lia.
  - vm_compute. reflexivity.
Defined.

(** A window longer than the clock's range makes [checked_sub] fail, and the
    ring then forgets every earlier restart instead of keeping them all. *)
Example huge_window_forgets :
  let i := intensity_new 1 (from_secs U64_MAX) in
  current_count (record_all i [1; 2; 3]) = 1%nat.
Proof. vm_compute. reflexivity. Qed.
