(* ===== verification/Tree.v ===== *)
(** * The supervisor tree (supervisor/lifecycle.rs, supervisor/tree.rs)

    Service states, the nodes of the tree, its operations, and the invariant
    [wf_tree] that every operation preserves: names are keys, children lists
    and parent links agree, every node hangs below the root, a worker sits at
    its start index, and the process ids of the workers are registered. *)

From S2P Require Import Prelude Config Intensity.

#[local] Open Scope list_scope.

(** ** Lifecycle *)

Inductive ServiceState :=
| Stopped
| Starting
| Running
| Stopping (deadline : option Z)
| Failed (exit_code signal : option Z)
| Abandoned.

#[export] Instance ServiceState_eq_dec : EqDecision ServiceState.
Proof. solve_decision. Defined.

Definition is_running (s : ServiceState) : bool :=
  match s with Running | Starting => true | _ => false end.

Definition is_stopped (s : ServiceState) : bool :=
  match s with Stopped | Failed _ _ | Abandoned => true | _ => false end.

Definition display_name (s : ServiceState) : string :=
  match s with
  | Stopped => "stopped"
  | Starting => "starting"
  | Running => "running"
  | Stopping _ => "stopping"
  | Failed _ _ => "failed"
  | Abandoned => "abandoned"
  end.

Record ExitInfo := { exit_code : option Z; signal : option Z }.

Definition is_normal (e : ExitInfo) : bool := bool_decide (exit_code e = Some 0%Z).

(** ** Nodes *)

Record SupervisorNode := {
  sn_name : string;
  sn_strategy : RestartStrategy;
  sn_intensity : RestartIntensity;
  sn_children : list string;
  sn_parent : option string;
}.

Record WorkerNode := {
  wn_name : string;
  wn_def : ServiceDef;
  wn_state : ServiceState;
  wn_restart_policy : RestartPolicy;
  wn_start_index : nat;
  wn_parent : string;
  wn_pid : option Z;
}.

Inductive TreeNode :=
| Supervisor (s : SupervisorNode)
| Worker (w : WorkerNode).

Record SupervisorTree := {
  nodes : gmap string TreeNode;
  root_id : string;
  pid_map : gmap Z string;
}.

Inductive TreeError :=
| DuplicateNode (id : string)
| ParentNotFound (id : string)
| ParentIsWorker (id : string).

(** Field updates, as the code assigns them. *)
Definition set_children (cs : list string) (s : SupervisorNode) : SupervisorNode :=
  {| sn_name := sn_name s; sn_strategy := sn_strategy s; sn_intensity := sn_intensity s;
     sn_children := cs; sn_parent := sn_parent s |}.
Definition set_strategy (st : RestartStrategy) (i : RestartIntensity) (s : SupervisorNode)
    : SupervisorNode :=
  {| sn_name := sn_name s; sn_strategy := st; sn_intensity := i;
     sn_children := sn_children s; sn_parent := sn_parent s |}.
Definition set_state (st : ServiceState) (w : WorkerNode) : WorkerNode :=
  {| wn_name := wn_name w; wn_def := wn_def w; wn_state := st;
     wn_restart_policy := wn_restart_policy w; wn_start_index := wn_start_index w;
     wn_parent := wn_parent w; wn_pid := wn_pid w |}.
Definition set_pid (p : option Z) (w : WorkerNode) : WorkerNode :=
  {| wn_name := wn_name w; wn_def := wn_def w; wn_state := wn_state w;
     wn_restart_policy := wn_restart_policy w; wn_start_index := wn_start_index w;
     wn_parent := wn_parent w; wn_pid := p |}.

Definition with_nodes (ns : gmap string TreeNode) (t : SupervisorTree) : SupervisorTree :=
  {| nodes := ns; root_id := root_id t; pid_map := pid_map t |}.
Definition with_pids (ps : gmap Z string) (t : SupervisorTree) : SupervisorTree :=
  {| nodes := nodes t; root_id := root_id t; pid_map := ps |}.

(** ** Operations *)

Definition tree_new (root_name : string) (strategy : RestartStrategy)
    (intensity : RestartIntensity) : SupervisorTree :=
  let root := {| sn_name := root_name; sn_strategy := strategy; sn_intensity := intensity;
                 sn_children := []; sn_parent := None |} in
  {| nodes := {[root_name := Supervisor root]}; root_id := root_name; pid_map := ∅ |}.

Definition add_supervisor (name parent_id : string) (strategy : RestartStrategy)
    (intensity : RestartIntensity) (t : SupervisorTree) : result SupervisorTree TreeError :=
  if decide (is_Some (nodes t !! name)) then Err (DuplicateNode name)
  else
    let node := {| sn_name := name; sn_strategy := strategy; sn_intensity := intensity;
                   sn_children := []; sn_parent := Some parent_id |} in
    match nodes t !! parent_id with
    | Some (Supervisor parent) =>
        let parent := set_children (sn_children parent ++ [name]) parent in
        Ok (with_nodes (<[name := Supervisor node]> (<[parent_id := Supervisor parent]> (nodes t))) t)
    | Some (Worker _) => Err (ParentIsWorker parent_id)
    | None => Err (ParentNotFound parent_id)
    end.

Definition add_worker (def : ServiceDef) (parent_id : string) (t : SupervisorTree)
    : result SupervisorTree TreeError :=
  let name := sd_name def in
  if decide (is_Some (nodes t !! name)) then Err (DuplicateNode name)
  else
    match nodes t !! parent_id with
    | Some (Supervisor parent) =>
        let idx := length (sn_children parent) in
        let parent := set_children (sn_children parent ++ [name]) parent in
        let worker := {| wn_name := name; wn_def := def; wn_state := Stopped;
                         wn_restart_policy := rs_policy (sd_restart def);
                         wn_start_index := idx; wn_parent := parent_id; wn_pid := None |} in
        Ok (with_nodes (<[name := Worker worker]> (<[parent_id := Supervisor parent]> (nodes t))) t)
    | Some (Worker _) => Err (ParentIsWorker parent_id)
    | None => Err (ParentNotFound parent_id)
    end.

(** [if let Some(TreeNode::Worker(w)) = self.get_mut(id) { ... }]. *)
Definition update_worker (f : WorkerNode → WorkerNode) (id : string) (t : SupervisorTree)
    : SupervisorTree :=
  match nodes t !! id with
  | Some (Worker w) => with_nodes (<[id := Worker (f w)]> (nodes t)) t
  | _ => t
  end.

(** [if let Some(TreeNode::Supervisor(s)) = self.get_mut(id) { ... }]. *)
Definition update_supervisor (f : SupervisorNode → SupervisorNode) (id : string)
    (t : SupervisorTree) : SupervisorTree :=
  match nodes t !! id with
  | Some (Supervisor s) => with_nodes (<[id := Supervisor (f s)]> (nodes t)) t
  | _ => t
  end.

Definition register_pid (worker_id : string) (pid : Z) (t : SupervisorTree) : SupervisorTree :=
  let t := update_worker (λ w, set_state Running (set_pid (Some pid) w)) worker_id t in
  with_pids (<[pid := worker_id]> (pid_map t)) t.

Definition unregister_pid (pid : Z) (t : SupervisorTree) : option string * SupervisorTree :=
  (pid_map t !! pid, with_pids (delete pid (pid_map t)) t).

Definition worker_for_pid (t : SupervisorTree) (pid : Z) : option string := pid_map t !! pid.

Definition get (t : SupervisorTree) (id : string) : option TreeNode := nodes t !! id.

Definition get_worker (t : SupervisorTree) (id : string) : option WorkerNode :=
  match nodes t !! id with Some (Worker w) => Some w | _ => None end.

Definition get_supervisor (t : SupervisorTree) (id : string) : option SupervisorNode :=
  match nodes t !! id with Some (Supervisor s) => Some s | _ => None end.

Definition children_of (t : SupervisorTree) (id : string) : list string :=
  match nodes t !! id with Some (Supervisor s) => sn_children s | _ => [] end.

Definition is_worker (t : SupervisorTree) (id : string) : bool :=
  match nodes t !! id with Some (Worker _) => true | _ => false end.

Definition workers_under (t : SupervisorTree) (id : string) : list string :=
  match nodes t !! id with
  | Some (Supervisor sup) => filter (λ c, is_worker t c = true) (sn_children sup)
  | _ => []
  end.

Definition parent_of (t : SupervisorTree) (id : string) : option string :=
  match nodes t !! id with
  | Some (Worker w) => Some (wn_parent w)
  | Some (Supervisor s) => sn_parent s
  | None => None
  end.

Definition all_workers `{HashOrder} (t : SupervisorTree) : list string :=
  omap (λ kv, match snd kv with Worker _ => Some (fst kv) | Supervisor _ => None end)
    (map_iter "tree" (nodes t)).

(** ** The invariant *)

Definition node_name (n : TreeNode) : string :=
  match n with Supervisor s => sn_name s | Worker w => wn_name w end.

(** [child t c p]: the node [c] has parent [p]. *)
Definition child (t : SupervisorTree) (c p : string) : Prop := parent_of t c = Some p.

Record wf_tree (t : SupervisorTree) : Prop := {
  wt_root : ∃ s, nodes t !! root_id t = Some (Supervisor s) ∧ sn_parent s = None;
  wt_names : ∀ id n, nodes t !! id = Some n → node_name n = id;
  wt_children : ∀ id s, nodes t !! id = Some (Supervisor s) → NoDup (sn_children s);
  wt_links : ∀ c p, c ∈ children_of t p ↔ child t c p;
  wt_attached : ∀ id, is_Some (nodes t !! id) → rtc (child t) id (root_id t);
  wt_index : ∀ id w, nodes t !! id = Some (Worker w) →
    children_of t (wn_parent w) !! wn_start_index w = Some id;
  wt_policy : ∀ id w, nodes t !! id = Some (Worker w) →
    wn_restart_policy w = rs_policy (sd_restart (wn_def w)) ∧ sd_name (wn_def w) = id;
}.

(** The registration of process ids. *)
Record wf_pids (t : SupervisorTree) : Prop := {
  wp_worker : ∀ p id, pid_map t !! p = Some id → is_worker t id = true;
  wp_pid : ∀ id w p, nodes t !! id = Some (Worker w) → wn_pid w = Some p → pid_map t !! p = Some id;
}.

(** ** Updates that keep the shape of the tree *)

(** The part of a node the invariant speaks of. *)
Definition shape (n : TreeNode) : TreeNode :=
  match n with
  | Supervisor s => Supervisor (set_strategy OneForOne (intensity_new 0 0) s)
  | Worker w => Worker (set_state Stopped (set_pid None w))
  end.

Definition same_shape (t t' : SupervisorTree) : Prop :=
  root_id t = root_id t' ∧ ∀ id, shape <$> nodes t !! id = shape <$> nodes t' !! id.

#[export] Instance same_shape_equiv : Equivalence same_shape.
Proof.
  split.
  - by intros t.
  - intros t t' [Hr Hn]. by split.
  - intros t1 t2 t3 [Hr Hn] [Hr' Hn']. split; [congruence|]. intros id. by rewrite Hn.
Qed.

#[export] Instance children_of_proper : Proper (same_shape ==> eq ==> eq) children_of.
Proof.
  intros t t' [_ Hn] id ? <-. unfold children_of. specialize (Hn id).
  destruct (nodes t !! id) as [[]|], (nodes t' !! id) as [[]|]; try done.
  injection Hn. congruence.
Qed.
#[export] Instance parent_of_proper : Proper (same_shape ==> eq ==> eq) parent_of.
Proof.
  intros t t' [_ Hn] id ? <-. unfold parent_of. specialize (Hn id).
  destruct (nodes t !! id) as [[]|], (nodes t' !! id) as [[]|]; try done;
    injection Hn; congruence.
Qed.
#[export] Instance is_worker_proper : Proper (same_shape ==> eq ==> eq) is_worker.
Proof.
  intros t t' [_ Hn] id ? <-. unfold is_worker. specialize (Hn id).
  by destruct (nodes t !! id) as [[]|], (nodes t' !! id) as [[]|].
Qed.

Lemma same_shape_lookup t t' id n :
  same_shape t t' → nodes t' !! id = Some n → ∃ m, nodes t !! id = Some m ∧ shape m = shape n.
Proof.
  intros [_ Hn] H. specialize (Hn id). rewrite H in Hn. cbn in Hn.
  by apply fmap_Some_1 in Hn as (m & ? & ?); eauto.
Qed.

Lemma wf_tree_shape t t' : same_shape t t' → wf_tree t → wf_tree t'.
Proof.
  intros Hs [Hroot Hname Hch Hlink Hatt Hidx Hpol].
  assert (∀ c p, child t c p ↔ child t' c p) as Hc by (intros; unfold child; by rewrite Hs).
  split.
  - destruct Hroot as (s & Hr & Hp). destruct (symmetry Hs) as [Hrt _].
    rewrite <-(proj1 Hs). destruct (same_shape_lookup _ _ _ _ (symmetry Hs) Hr) as ([s'|] & ? & Hsh);
      [|done]. exists s'. split; [done|]. injection Hsh. congruence.
  - intros id n Hn. destruct (same_shape_lookup _ _ _ _ Hs Hn) as (m & Hm & Hsh).
    rewrite <-(Hname _ _ Hm). destruct m, n; try done; cbn; injection Hsh; congruence.
  - intros id s Hn. destruct (same_shape_lookup _ _ _ _ Hs Hn) as ([s'|] & Hm & Hsh); [|done].
    injection Hsh as _ <- _. by eapply Hch.
  - intros c p. rewrite <-Hc, <-Hlink. by rewrite Hs.
  - intros id Hid. rewrite <-(proj1 Hs). destruct Hid as [n Hn].
    destruct (same_shape_lookup _ _ _ _ Hs Hn) as (m & Hm & _).
    eapply rtc_subrel; [|apply Hatt; eauto]. intros c p. apply Hc.
  - intros id w Hn. destruct (same_shape_lookup _ _ _ _ Hs Hn) as ([|w'] & Hm & Hsh); [done|].
    injection Hsh as _ _ _ Hi Hp. rewrite <-Hs, <-Hi, <-Hp. by apply Hidx.
  - intros id w Hn. destruct (same_shape_lookup _ _ _ _ Hs Hn) as ([|w'] & Hm & Hsh); [done|].
    injection Hsh as _ Hd Hp _ _. rewrite <-Hd, <-Hp. by apply Hpol.
Qed.

#[export] Instance wf_tree_proper : Proper (same_shape ==> iff) wf_tree.
Proof. intros t t' Hs. split; apply wf_tree_shape; [done|by symmetry]. Qed.

(** The state and the process id of a worker are not part of the shape. *)
Lemma update_worker_shape f id t :
  (∀ w, shape (Worker (f w)) = shape (Worker w)) → same_shape (update_worker f id t) t.
Proof.
  intros Hf. unfold update_worker. destruct (nodes t !! id) as [[|w]|] eqn:E; [done| |done].
  split; [done|]. intros i. cbn. destruct (decide (i = id)) as [->|].
  - rewrite lookup_insert, E, decide_True by done. cbn [fmap option_fmap option_map]. by rewrite Hf.
  - by rewrite lookup_insert_ne.
Qed.

Lemma update_supervisor_shape f id t :
  (∀ s, shape (Supervisor (f s)) = shape (Supervisor s)) → same_shape (update_supervisor f id t) t.
Proof.
  intros Hf. unfold update_supervisor. destruct (nodes t !! id) as [[s|]|] eqn:E; [|done|done].
  split; [done|]. intros i. cbn. destruct (decide (i = id)) as [->|].
  - rewrite lookup_insert, E, decide_True by done. cbn [fmap option_fmap option_map]. by rewrite Hf.
  - by rewrite lookup_insert_ne.
Qed.

Lemma with_pids_shape ps t : same_shape (with_pids ps t) t.
Proof. by split. Qed.

Lemma register_pid_shape id p t : same_shape (register_pid id p t) t.
Proof. unfold register_pid. rewrite with_pids_shape. by apply update_worker_shape. Qed.

Lemma unregister_pid_shape p t : same_shape (unregister_pid p t).2 t.
Proof. by split. Qed.

(** ** Adding a node *)

Definition node_parent (n : TreeNode) : option string :=
  match n with Supervisor s => sn_parent s | Worker w => Some (wn_parent w) end.

(** The tree in which the fresh node [n] is the last child of [p]. *)
Definition add_node (name : string) (n : TreeNode) (p : string) (s : SupervisorNode)
    (t : SupervisorTree) : SupervisorTree :=
  with_nodes (<[name := n]>
    (<[p := Supervisor (set_children (sn_children s ++ [name]) s)]> (nodes t))) t.

Section add_node.
Variables (t : SupervisorTree) (name p : string) (s : SupervisorNode) (n : TreeNode).
Hypothesis Hwf : wf_tree t.
Hypothesis Hfresh : nodes t !! name = None.
Hypothesis Hp : nodes t !! p = Some (Supervisor s).
Hypothesis Hname : node_name n = name.
Hypothesis Hparent : node_parent n = Some p.
Hypothesis Hkind :
  match n with
  | Supervisor s' => sn_children s' = []
  | Worker w => wn_start_index w = length (sn_children s) ∧
                wn_restart_policy w = rs_policy (sd_restart (wn_def w)) ∧ sd_name (wn_def w) = name
  end.

Lemma add_node_ne : name ≠ p.
Proof. congruence. Qed.

Lemma add_node_lookup id :
  nodes (add_node name n p s t) !! id =
  if decide (id = name) then Some n
  else if decide (id = p) then Some (Supervisor (set_children (sn_children s ++ [name]) s))
  else nodes t !! id.
Proof.
  clear. cbn. rewrite !lookup_insert. repeat case_decide; congruence.
Qed.

Lemma add_node_parent id :
  parent_of (add_node name n p s t) id = if decide (id = name) then Some p else parent_of t id.
Proof.
  clear -Hparent Hp. unfold parent_of. rewrite add_node_lookup. repeat case_decide; subst.
  - destruct n; cbn in Hparent; congruence.
  - by rewrite Hp.
  - done.
Qed.

Lemma add_node_children id :
  children_of (add_node name n p s t) id =
  if decide (id = p) then children_of t p ++ [name] else children_of t id.
Proof.
  pose proof add_node_ne. clear -Hfresh Hp Hkind H. unfold children_of. rewrite add_node_lookup. rewrite Hp.
  repeat case_decide; subst; try done. rewrite Hfresh. destruct n as [s'|w]; [|done]. done.
Qed.

Lemma fresh_not_child : name ∉ children_of t p.
Proof.
  intros Hin%(wt_links _ Hwf). unfold child, parent_of in Hin. by rewrite Hfresh in Hin.
Qed.

End add_node.

Lemma add_node_wf t name p s n :
  wf_tree t → nodes t !! name = None → nodes t !! p = Some (Supervisor s) →
  node_name n = name → node_parent n = Some p →
  match n with
  | Supervisor s' => sn_children s' = []
  | Worker w => wn_start_index w = length (sn_children s) ∧
                wn_restart_policy w = rs_policy (sd_restart (wn_def w)) ∧ sd_name (wn_def w) = name
  end →
  wf_tree (add_node name n p s t).
Proof.
  intros Hwf Hfresh Hp Hname Hparent Hkind. pose proof (add_node_ne t name p s Hfresh Hp) as Hne.
  pose proof (fresh_not_child t name p Hwf Hfresh) as Hnc.
  pose proof (add_node_parent t name p s n Hp Hparent) as Hpar.
  pose proof (add_node_children t name p s n Hfresh Hp Hkind) as Hchild.
  assert (children_of t p = sn_children s) as Hcs by (unfold children_of; by rewrite Hp).
  destruct Hwf as [Hroot Hnm Hch Hlink Hatt Hidx Hpol].
  assert (∀ c q, child t c q → child (add_node name n p s t) c q) as Hmono.
  { intros c q Hc. unfold child in *. rewrite Hpar. case_decide; [|done]. subst c.
    unfold parent_of in Hc. by rewrite Hfresh in Hc. }
  assert (∀ id, is_Some (nodes t !! id) → rtc (child (add_node name n p s t)) id (root_id t)) as Hatt'.
  { intros id Hid. eapply rtc_subrel; [|by apply Hatt]. intros c q. apply Hmono. }
  split.
  - destruct Hroot as (r & Hr & Hrp). change (root_id (add_node name n p s t)) with (root_id t).
    rewrite add_node_lookup. repeat case_decide; subst; [congruence| |eauto].
    eexists. split; [done|]. cbn. congruence.
  - intros id m. rewrite add_node_lookup. repeat case_decide; subst; [congruence| |eauto].
    intros [= <-]. exact (Hnm _ _ Hp).
  - intros id r. rewrite add_node_lookup. repeat case_decide; subst; [|intros [= <-]; cbn|eauto].
    + intros [= ->]. rewrite Hkind. constructor.
    + apply NoDup_app. split; [by eapply Hch|]. rewrite <-Hcs.
      split; [set_solver|apply NoDup_singleton].
  - intros c q. unfold child. rewrite Hchild, Hpar.
    destruct (decide (q = p)) as [->|Hq].
    + rewrite elem_of_app, list_elem_of_singleton, Hlink. unfold child.
      case_decide; [subst; naive_solver|]. naive_solver.
    + rewrite Hlink. unfold child. case_decide; [|done]. subst c. unfold parent_of.
      rewrite Hfresh. naive_solver.
  - intros id [m Hm]. rewrite add_node_lookup in Hm. change (root_id (add_node name n p s t)) with (root_id t).
    case_decide; subst.
    + eapply rtc_l; [|apply Hatt'; eauto]. unfold child. rewrite Hpar.
      by rewrite decide_True.
    + apply Hatt'. case_decide; subst; eauto.
  - intros id w. rewrite add_node_lookup, Hchild. destruct (decide (id = name)) as [->|Hid].
    + intros [= ->]. injection Hparent as Hparent. destruct Hkind as (-> & _).
      rewrite decide_True, Hcs by done. by apply list_lookup_middle.
    + destruct (decide (id = p)); [done|]. intros Hw%Hidx. case_decide as Hwp; [|done].
      rewrite Hwp in Hw. by apply lookup_app_l_Some.
  - intros id w. rewrite add_node_lookup. repeat case_decide; subst; intros Hw; try congruence.
    + injection Hw as ->. tauto.
    + by apply Hpol.
Qed.

Lemma wf_tree_new root st i : wf_tree (tree_new root st i).
Proof.
  unfold tree_new. split; cbn.
  - eexists. by rewrite lookup_singleton, decide_True.
  - intros id n. rewrite lookup_singleton. case_decide; [|done]. by intros [= <-].
  - intros id s. rewrite lookup_singleton. case_decide; [|done]. intros [= <-]. constructor.
  - intros c p. unfold child, children_of, parent_of. cbn. rewrite !lookup_singleton.
    repeat case_decide; set_solver.
  - intros id [n Hn]. rewrite lookup_singleton in Hn. case_decide; [|done]. by subst.
  - intros id w. rewrite lookup_singleton. by case_decide.
  - intros id w. rewrite lookup_singleton. by case_decide.
Qed.

Lemma add_supervisor_Ok name p st i t t' :
  add_supervisor name p st i t = Ok t' ↔
  nodes t !! name = None ∧ ∃ s, nodes t !! p = Some (Supervisor s) ∧
  t' = add_node name (Supervisor {| sn_name := name; sn_strategy := st; sn_intensity := i;
                                    sn_children := []; sn_parent := Some p |}) p s t.
Proof.
  unfold add_supervisor. case_decide as Hd.
  - split; [done|]. intros [Hn _]. rewrite Hn in Hd. by destruct Hd.
  - apply eq_None_not_Some in Hd. destruct (nodes t !! p) as [[s|w]|]; naive_solver.
Qed.

Lemma add_worker_Ok def p t t' :
  add_worker def p t = Ok t' ↔
  nodes t !! sd_name def = None ∧ ∃ s, nodes t !! p = Some (Supervisor s) ∧
  t' = add_node (sd_name def)
         (Worker {| wn_name := sd_name def; wn_def := def; wn_state := Stopped;
                    wn_restart_policy := rs_policy (sd_restart def);
                    wn_start_index := length (sn_children s); wn_parent := p; wn_pid := None |}) p s t.
Proof.
  unfold add_worker. case_decide as Hd.
  - split; [done|]. intros [Hn _]. rewrite Hn in Hd. by destruct Hd.
  - apply eq_None_not_Some in Hd. destruct (nodes t !! p) as [[s|w]|]; naive_solver.
Qed.

Lemma add_supervisor_wf name p st i t t' :
  wf_tree t → add_supervisor name p st i t = Ok t' → wf_tree t'.
Proof. intros Hwf (Hn & s & Hp & ->)%add_supervisor_Ok. by apply add_node_wf. Qed.

Lemma add_worker_wf def p t t' : wf_tree t → add_worker def p t = Ok t' → wf_tree t'.
Proof. intros Hwf (Hn & s & Hp & ->)%add_worker_Ok. by apply add_node_wf. Qed.

(** ** Process ids *)

Lemma update_worker_lookup f id t i :
  nodes (update_worker f id t) !! i =
  match nodes t !! i with
  | Some (Worker w) => Some (Worker (if decide (i = id) then f w else w))
  | o => o
  end.
Proof.
  unfold update_worker. destruct (decide (i = id)) as [->|Hne].
  - destruct (nodes t !! id) as [[s|w]|] eqn:E; cbn; rewrite ?lookup_insert, ?E; try done.
    by rewrite decide_True.
  - destruct (nodes t !! id) as [[s|w]|] eqn:E; cbn; rewrite ?lookup_insert_ne by done;
      by destruct (nodes t !! i) as [[]|].
Qed.

Lemma update_worker_pid_map f id t : pid_map (update_worker f id t) = pid_map t.
Proof. unfold update_worker. by destruct (nodes t !! id) as [[]|]. Qed.

Lemma update_worker_is_worker f id t i : is_worker (update_worker f id t) i = is_worker t i.
Proof. unfold is_worker. rewrite update_worker_lookup. by destruct (nodes t !! i) as [[]|]. Qed.

Lemma wf_pids_update_worker f id t :
  (∀ w, wn_pid (f w) = wn_pid w ∨ wn_pid (f w) = None) → wf_pids t → wf_pids (update_worker f id t).
Proof.
  intros Hf [Hw Hp]. split.
  - intros p i. rewrite update_worker_pid_map, update_worker_is_worker. apply Hw.
  - intros i w p. rewrite update_worker_pid_map, update_worker_lookup.
    destruct (nodes t !! i) as [[s|w']|] eqn:E; [done| |done]. intros [= <-].
    case_decide; [|by eapply Hp]. intros Hpid. eapply Hp; [done|]. destruct (Hf w'); congruence.
Qed.

Lemma wf_pids_update_supervisor f id t : wf_pids t → wf_pids (update_supervisor f id t).
Proof.
  intros [Hw Hp]. unfold update_supervisor. destruct (nodes t !! id) as [[s|]|] eqn:E; [|done|done].
  split; cbn.
  - intros p i Hi. apply Hw in Hi. unfold is_worker in *. cbn. rewrite lookup_insert.
    case_decide; [|done]. subst. by rewrite E in Hi.
  - intros i w p. rewrite lookup_insert. case_decide; [done|]. eauto.
Qed.

Lemma wf_pids_register id p t :
  is_worker t id = true → pid_map t !! p = None → wf_pids t → wf_pids (register_pid id p t).
Proof.
  intros Hid Hfresh [Hw Hp]. unfold register_pid. split; cbn; rewrite update_worker_pid_map.
  - intros q i. unfold is_worker. cbn. fold (is_worker (update_worker
      (λ w, set_state Running (set_pid (Some p) w)) id t) i). rewrite update_worker_is_worker.
    rewrite lookup_insert. case_decide; [intros [= <-]; done|apply Hw].
  - intros i w q. rewrite update_worker_lookup. rewrite lookup_insert.
    destruct (nodes t !! i) as [[s|w']|] eqn:E; [done| |done]. intros [= <-].
    destruct (decide (i = id)) as [->|].
    + cbn. intros [= <-]. by rewrite decide_True.
    + intros Hq. pose proof (Hp _ _ _ E Hq) as Hr. case_decide; [congruence|done].
Qed.

(** A process exit: the id is unregistered and cleared in its worker. *)
Lemma wf_pids_exit f p id t :
  pid_map t !! p = Some id → (∀ w, wn_pid (f w) = None) → wf_pids t →
  wf_pids (update_worker f id (unregister_pid p t).2).
Proof.
  intros Hid Hf [Hw Hp]. split; cbn.
  - intros q i. rewrite update_worker_pid_map, update_worker_is_worker. cbn.
    intros [_ Hq]%lookup_delete_Some. by apply Hw in Hq.
  - intros i w q. rewrite update_worker_pid_map, update_worker_lookup. cbn.
    destruct (nodes t !! i) as [[s|w']|] eqn:E; [done| |done]. intros [= <-].
    case_decide as Hi.
    + intros Hq. by rewrite Hf in Hq.
    + intros Hq. pose proof (Hp _ _ _ E Hq) as Hr. rewrite lookup_delete_ne; [done|congruence].
Qed.

Lemma wf_pids_add_node name n p s t :
  nodes t !! name = None → nodes t !! p = Some (Supervisor s) →
  (∀ w, n = Worker w → wn_pid w = None) → wf_pids t → wf_pids (add_node name n p s t).
Proof.
  intros Hfresh Hs Hn [Hw Hp]. split.
  - intros q i Hi. apply Hw in Hi. unfold is_worker in *. rewrite add_node_lookup.
    repeat case_decide; subst; [by rewrite Hfresh in Hi|by rewrite Hs in Hi|done].
  - intros i w q. rewrite add_node_lookup. repeat case_decide; intros Hi Hq; subst; try done.
    + injection Hi as Hi. by rewrite (Hn w Hi) in Hq.
    + by eapply Hp.
Qed.

(** The two together: the tree's whole invariant. *)
Definition tree_ok (t : SupervisorTree) : Prop := wf_tree t ∧ wf_pids t.

Lemma tree_ok_new root st i : tree_ok (tree_new root st i).
Proof.
  split; [apply wf_tree_new|]. split; cbn.
  - intros p id. by rewrite lookup_empty.
  - intros id w p. rewrite lookup_singleton. by case_decide.
Qed.

Lemma tree_ok_add_supervisor name p st i t t' :
  tree_ok t → add_supervisor name p st i t = Ok t' → tree_ok t'.
Proof.
  intros [Hwf Hp] H. split; [by eapply add_supervisor_wf|].
  apply add_supervisor_Ok in H as (Hn & s & Hs & ->). by apply wf_pids_add_node.
Qed.

Lemma tree_ok_add_worker def p t t' : tree_ok t → add_worker def p t = Ok t' → tree_ok t'.
Proof.
  intros [Hwf Hp] H. split; [by eapply add_worker_wf|].
  apply add_worker_Ok in H as (Hn & s & Hs & ->). apply wf_pids_add_node; try done.
  by intros w [= <-].
Qed.

(** A refused addition is logged and the tree kept. *)
Definition or_keep (r : result SupervisorTree TreeError) (t : SupervisorTree) : SupervisorTree :=
  match r with Ok t' => t' | Err _ => t end.

Lemma tree_ok_keep_supervisor name p st i t :
  tree_ok t → tree_ok (or_keep (add_supervisor name p st i t) t).
Proof.
  intros Hok. destruct (add_supervisor name p st i t) eqn:E; cbn; [|done].
  by eapply tree_ok_add_supervisor.
Qed.

Lemma tree_ok_keep_worker def p t : tree_ok t → tree_ok (or_keep (add_worker def p t) t).
Proof.
  intros Hok. destruct (add_worker def p t) eqn:E; cbn; [|done]. by eapply tree_ok_add_worker.
Qed.

Lemma tree_ok_state f id t :
  (∀ w, shape (Worker (f w)) = shape (Worker w)) →
  (∀ w, wn_pid (f w) = wn_pid w ∨ wn_pid (f w) = None) →
  tree_ok t → tree_ok (update_worker f id t).
Proof.
  intros Hf Hg [Hwf Hp]. split; [|by apply wf_pids_update_worker].
  by rewrite (update_worker_shape f id t Hf).
Qed.

Lemma tree_ok_supervisor f id t :
  (∀ s, shape (Supervisor (f s)) = shape (Supervisor s)) →
  tree_ok t → tree_ok (update_supervisor f id t).
Proof.
  intros Hf [Hwf Hp]. split; [|by apply wf_pids_update_supervisor].
  by rewrite (update_supervisor_shape f id t Hf).
Qed.

Lemma tree_ok_register id p t :
  is_worker t id = true → pid_map t !! p = None → tree_ok t → tree_ok (register_pid id p t).
Proof.
  intros Hid Hf [Hwf Hp]. split; [|by apply wf_pids_register].
  by rewrite (register_pid_shape id p t).
Qed.

Lemma tree_ok_exit f p id t :
  pid_map t !! p = Some id → (∀ w, shape (Worker (f w)) = shape (Worker w)) →
  (∀ w, wn_pid (f w) = None) → tree_ok t →
  tree_ok (update_worker f id (unregister_pid p t).2).
Proof.
  intros Hid Hf Hg [Hwf Hp]. split; [|by apply wf_pids_exit].
  by rewrite (update_worker_shape f id _ Hf), (unregister_pid_shape p t).
Qed.

Lemma get_worker_lookup t id w : get_worker t id = Some w ↔ nodes t !! id = Some (Worker w).
Proof. unfold get_worker. destruct (nodes t !! id) as [[]|]; naive_solver. Qed.

Lemma is_worker_iff t id : is_worker t id = true ↔ ∃ w, nodes t !! id = Some (Worker w).
Proof. unfold is_worker. destruct (nodes t !! id) as [[]|]; naive_solver. Qed.

#[export] Hint Resolve tree_ok_new tree_ok_keep_supervisor tree_ok_keep_worker : dynamod.
