(* ===== verification/Strategy.v ===== *)
(** * Restart strategies (supervisor/strategy.rs)

    What a supervisor does when a child exits.  [apply_strategy] takes the time
    at which [record_restart] reads the clock as its argument [now]. *)

From S2P Require Import Prelude Config Intensity Tree.

#[local] Open Scope list_scope.

Record StrategyAction := {
  to_stop : list string;
  to_start : list string;
  supervisor_failed : bool;
}.

Definition no_action : StrategyAction :=
  {| to_stop := []; to_start := []; supervisor_failed := false |}.

Definition should_restart (policy : RestartPolicy) (exit : ExitInfo) : bool :=
  match policy with
  | Permanent => true
  | Transient => negb (is_normal exit)
  | Temporary => false
  end.

Definition apply_one_for_one (failed_child_id : string) : StrategyAction :=
  {| to_stop := []; to_start := [failed_child_id]; supervisor_failed := false |}.

Definition apply_one_for_all (children : list string) : StrategyAction :=
  {| to_stop := reverse children; to_start := children; supervisor_failed := false |}.

Definition apply_rest_for_one (children : list string) (failed_child_id : string)
    : StrategyAction :=
  let failed_idx := default 0 (position (λ id, bool_decide (id = failed_child_id)) children) in
  let affected := drop failed_idx children in
  {| to_stop := reverse affected; to_start := affected; supervisor_failed := false |}.

(** The state an exit leaves a worker in. *)
Definition exit_state (e : ExitInfo) : ServiceState :=
  if is_normal e then Stopped else Failed (exit_code e) (signal e).

(** The restart recorded in the intensity of a supervisor, and whether it exceeds. *)
Definition record_in (now : Z) (id : string) (t : SupervisorTree) : bool * SupervisorTree :=
  match nodes t !! id with
  | Some (Supervisor s) =>
      let '(exceeded, i) := record_restart_at now (sn_intensity s) in
      (exceeded, update_supervisor (set_strategy (sn_strategy s) i) id t)
  | _ => (false, t)
  end.

(** The loop that marks every worker child as abandoned. *)
Definition abandon (children : list string) (t : SupervisorTree) : SupervisorTree :=
  foldl (λ t c, update_worker (set_state Abandoned) c t) t children.

Definition apply_strategy (now : Z) (t : SupervisorTree) (supervisor_id failed_child_id : string)
    (exit_info : ExitInfo) : StrategyAction * SupervisorTree :=
  match get t supervisor_id with
  | Some (Supervisor s) =>
      let should := match get_worker t failed_child_id with
                    | Some w => should_restart (wn_restart_policy w) exit_info
                    | None => false
                    end in
      if negb should then
        (no_action, update_worker (set_state (exit_state exit_info)) failed_child_id t)
      else
        let '(exceeded, t) := record_in now supervisor_id t in
        if exceeded then
          ({| to_stop := sn_children s; to_start := []; supervisor_failed := true |},
           abandon (sn_children s) t)
        else
          (match sn_strategy s with
           | OneForOne => apply_one_for_one failed_child_id
           | OneForAll => apply_one_for_all (sn_children s)
           | RestForOne => apply_rest_for_one (sn_children s) failed_child_id
           end, t)
  | _ => (no_action, t)
  end.

Definition escalate_failure (now : Z) (t : SupervisorTree) (failed_supervisor_id : string)
    : option (string * StrategyAction) * SupervisorTree :=
  match parent_of t failed_supervisor_id with
  | None => (None, t)
  | Some parent_id =>
      let '(action, t) := apply_strategy now t parent_id failed_supervisor_id
                            {| exit_code := None; signal := None |} in
      (Some (parent_id, action), t)
  end.

(** ** The tree is kept *)

Lemma record_in_shape now id t : same_shape (record_in now id t).2 t.
Proof.
  unfold record_in. destruct (nodes t !! id) as [[s|]|] eqn:E; [|done|done].
  destruct (record_restart_at now (sn_intensity s)). by apply update_supervisor_shape.
Qed.

Lemma record_in_ok now id t : tree_ok t → tree_ok (record_in now id t).2.
Proof.
  intros Hok. unfold record_in. destruct (nodes t !! id) as [[s|]|] eqn:E; [|done|done].
  destruct (record_restart_at now (sn_intensity s)). by apply tree_ok_supervisor.
Qed.

Lemma abandon_shape cs t : same_shape (abandon cs t) t.
Proof.
  unfold abandon. revert t. induction cs as [|c cs IH]; intros t; [done|]. cbn [foldl].
  rewrite IH. by apply update_worker_shape.
Qed.

Lemma abandon_ok cs t : tree_ok t → tree_ok (abandon cs t).
Proof.
  unfold abandon. revert t. induction cs as [|c cs IH]; intros t Hok; [done|]. cbn [foldl].
  apply IH, tree_ok_state; auto.
Qed.

Lemma abandon_lookup cs t i :
  nodes (abandon cs t) !! i =
  match nodes t !! i with
  | Some (Worker w) => Some (Worker (if decide (i ∈ cs) then set_state Abandoned w else w))
  | o => o
  end.
Proof.
  unfold abandon. revert t. induction cs as [|c cs IH]; intros t; cbn [foldl].
  - destruct (nodes t !! i) as [[]|]; [done| |done]. case_decide; set_solver.
  - rewrite IH, update_worker_lookup. destruct (nodes t !! i) as [[s|w]|]; [done| |done].
    do 2 f_equal. repeat case_decide; try done; set_solver.
Qed.

Lemma apply_strategy_shape now t sup c e : same_shape (apply_strategy now t sup c e).2 t.
Proof.
  unfold apply_strategy. destruct (get t sup) as [[s|]|]; [|done|done].
  destruct (match get_worker t c with Some _ => _ | None => _ end); cbn [negb].
  - pose proof (record_in_shape now sup t). destruct (record_in now sup t) as [[] t']; cbn [snd] in *.
    + by rewrite abandon_shape.
    + done.
  - by apply update_worker_shape.
Qed.

Lemma apply_strategy_ok now t sup c e : tree_ok t → tree_ok (apply_strategy now t sup c e).2.
Proof.
  intros Hok. unfold apply_strategy. destruct (get t sup) as [[s|]|]; [|done|done].
  destruct (match get_worker t c with Some _ => _ | None => _ end); cbn [negb].
  - pose proof (record_in_ok now sup t Hok). destruct (record_in now sup t) as [[] t']; cbn [snd] in *.
    + by apply abandon_ok.
    + done.
  - apply tree_ok_state; auto.
Qed.

(** Restart policies, strategies and intensity never touch the process ids. *)
Lemma apply_strategy_pid_map now t sup c e : pid_map (apply_strategy now t sup c e).2 = pid_map t.
Proof.
  unfold apply_strategy. destruct (get t sup) as [[s|]|]; [|done|done].
  destruct (match get_worker t c with Some _ => _ | None => _ end); cbn [negb snd];
    [|apply update_worker_pid_map].
  assert (pid_map (record_in now sup t).2 = pid_map t) as Hr.
  { unfold record_in. destruct (nodes t !! sup) as [[s'|]|]; [|done|done].
    destruct (record_restart_at now (sn_intensity s')). unfold update_supervisor.
    by destruct (nodes t !! sup) as [[]|]. }
  destruct (record_in now sup t) as [[] t']; cbn [snd] in *; [|done]. rewrite <-Hr.
  clear. unfold abandon. generalize (sn_children s). intros cs. revert t'.
  induction cs as [|d cs IH]; intros t'; [done|]. cbn [foldl].
  by rewrite IH, update_worker_pid_map.
Qed.

(** ** The children a strategy restarts *)

(** [restart_set st children c]: the children that strategy [st] restarts when [c] exits. *)
Definition restart_set (st : RestartStrategy) (children : list string) (c : string) : list string :=
  match st with
  | OneForOne => [c]
  | OneForAll => children
  | RestForOne => drop (default 0 (position (λ id, bool_decide (id = c)) children)) children
  end.

(** In a well-formed tree a worker is found in its supervisor's list, at its
    start index, so RestForOne restarts it and the children started after it. *)
Lemma position_index t c w :
  wf_tree t → nodes t !! c = Some (Worker w) →
  position (λ id, bool_decide (id = c)) (children_of t (wn_parent w)) = Some (wn_start_index w).
Proof.
  intros Hwf Hc. pose proof (wt_index _ Hwf _ _ Hc) as Hi.
  destruct (position_is_Some (λ id, bool_decide (id = c)) (children_of t (wn_parent w)) c) as [i Hp].
  - by eapply list_elem_of_lookup_2.
  - by apply bool_decide_eq_true.
  - rewrite Hp. f_equal. apply position_Some in Hp as (x & Hx & Heq%bool_decide_eq_true & _). subst x.
    unfold children_of in *. destruct (nodes t !! wn_parent w) as [[s|]|] eqn:E; try done.
    eapply NoDup_lookup; [by eapply wt_children|done|done].
Qed.

Lemma restart_set_spec t sup s c w :
  wf_tree t → nodes t !! sup = Some (Supervisor s) → nodes t !! c = Some (Worker w) →
  wn_parent w = sup →
  c ∈ restart_set (sn_strategy s) (sn_children s) c ∧
  restart_set (sn_strategy s) (sn_children s) c `sublist_of` sn_children s ∧
  (sn_strategy s = RestForOne →
   restart_set (sn_strategy s) (sn_children s) c = drop (wn_start_index w) (sn_children s)).
Proof.
  intros Hwf Hs Hc <-. pose proof (wt_index _ Hwf _ _ Hc) as Hi.
  pose proof (position_index t c w Hwf Hc) as Hp. unfold children_of in *. rewrite Hs in Hi, Hp.
  unfold restart_set. destruct (sn_strategy s).
  - split; [set_solver|]. split; [|done]. apply singleton_sublist_l. by eapply list_elem_of_lookup_2.
  - split; [by eapply list_elem_of_lookup_2|]. done.
  - rewrite Hp. cbn. split; [|split; [apply sublist_drop|done]].
    apply list_elem_of_lookup. exists 0. rewrite lookup_drop, Nat.add_0_r. done.
Qed.

(** ** Theorems *)

(** What [apply_strategy] decides, from the policy of the worker and the
    intensity of its supervisor. *)
Definition decides (now : Z) (s : SupervisorNode) (w : WorkerNode) (e : ExitInfo)
    (a : StrategyAction) : Prop :=
  if negb (should_restart (wn_restart_policy w) e) then a = no_action
  else if fst (record_restart_at now (sn_intensity s)) then
    to_start a = [] ∧ supervisor_failed a = true ∧ to_stop a = sn_children s
  else
    supervisor_failed a = false ∧
    wn_name w ∈ to_start a ∧ to_start a `sublist_of` sn_children s ∧
    match sn_strategy s with
    | OneForOne => to_start a = [wn_name w] ∧ to_stop a = []
    | OneForAll => to_start a = sn_children s ∧ to_stop a = reverse (sn_children s)
    | RestForOne => to_start a = drop (wn_start_index w) (sn_children s) ∧
                    to_stop a = reverse (drop (wn_start_index w) (sn_children s))
    end.

Lemma apply_strategy_eq now t sup s c w e :
  nodes t !! sup = Some (Supervisor s) → nodes t !! c = Some (Worker w) →
  (apply_strategy now t sup c e).1 =
  if negb (should_restart (wn_restart_policy w) e) then no_action
  else if fst (record_restart_at now (sn_intensity s)) then
    {| to_stop := sn_children s; to_start := []; supervisor_failed := true |}
  else
    {| to_stop := match sn_strategy s with
                  | OneForOne => [] | st => reverse (restart_set st (sn_children s) c) end;
       to_start := restart_set (sn_strategy s) (sn_children s) c; supervisor_failed := false |}.
Proof.
  intros Hs Hc. unfold apply_strategy, get, get_worker. rewrite Hs, Hc.
  destruct (negb _); [done|]. unfold record_in. rewrite Hs.
  destruct (record_restart_at now (sn_intensity s)) as [[] i]; cbn [fst]; [done|].
  by destruct (sn_strategy s).
Qed.

(** C5: What apply_strategy decides for a worker's exit: nothing when its policy does not
    restart it; all children to stop and the supervisor failed when the restart intensity is
    exceeded; else exactly the worker (one-for-one), all children (one-for-all) or the
    worker and its later siblings (rest-for-one), stopped in reverse and started in order;
    the tree stays well formed. *)
Theorem strategy_decision now t sup s c w e :
  tree_ok t → nodes t !! sup = Some (Supervisor s) → nodes t !! c = Some (Worker w) →
  wn_parent w = sup →
  let '(a, t') := apply_strategy now t sup c e in decides now s w e a ∧ tree_ok t'.
Proof.
  intros Hok Hs Hc Hp. pose proof (apply_strategy_eq now t sup s c w e Hs Hc) as Ha.
  pose proof (apply_strategy_ok now t sup c e Hok) as Hok'.
  destruct (restart_set_spec t sup s c w (proj1 Hok) Hs Hc Hp) as (Hin & Hsub & Hrest).
  pose proof (wt_names _ (proj1 Hok) _ _ Hc) as Hn. cbn in Hn.
  destruct (apply_strategy now t sup c e) as [a t']. cbn [fst snd] in *. split; [|done].
  unfold decides. rewrite Ha, Hn. destruct (negb _); [done|]. destruct (fst _); [done|].
  cbn [supervisor_failed to_start to_stop]. split; [done|]. split; [done|]. split; [done|].
  destruct (sn_strategy s); [done|done|]. by rewrite Hrest.
Qed.

(** The tree the witnesses are evaluated on: a RestForOne group of three. *)
Definition svc (name : string) : ServiceDef := minimal_service name ["/bin/true"].
Definition group_tree : SupervisorTree :=
  let i := intensity_new 2 (from_secs 60) in
  let t := tree_new "root" OneForOne i in
  let t := or_keep (add_supervisor "group" "root" RestForOne i t) t in
  let t := or_keep (add_worker (svc "a") "group" t) t in
  let t := or_keep (add_worker (svc "b") "group" t) t in
  or_keep (add_worker (svc "c") "group" t) t.

Lemma group_tree_ok : tree_ok group_tree.
Proof. unfold group_tree. eauto 10 with dynamod. Qed.

Lemma strategy_decision_witness :
  (apply_strategy 0%Z group_tree "group" "b" {| exit_code := Some 1%Z; signal := None |}).1 =
    {| to_stop := ["c"; "b"]; to_start := ["b"; "c"]; supervisor_failed := false |} ∧
  tree_ok (apply_strategy 0%Z group_tree "group" "b" {| exit_code := Some 1%Z; signal := None |}).2.
Proof.
  split; [vm_compute; reflexivity|].
  destruct (get_supervisor group_tree "group") as [s|] eqn:Es; [|vm_compute in Es; discriminate].
  destruct (get_worker group_tree "b") as [w|] eqn:Ew; [|vm_compute in Ew; discriminate].
  assert (nodes group_tree !! "group" = Some (Supervisor s)) as Hs.
  { unfold get_supervisor in Es. destruct (nodes group_tree !! "group") as [[]|]; congruence. }
  pose proof (proj1 (get_worker_lookup _ _ _) Ew) as Hw.
  pose proof (strategy_decision 0 group_tree "group" s "b" w {| exit_code := Some 1%Z; signal := None |}
    group_tree_ok Hs Hw) as H.
  destruct (apply_strategy 0%Z group_tree "group" "b" _) as [a t']. apply H.
  vm_compute in Ew. injection Ew as <-. reflexivity.
Defined.

(** When the restart intensity is exceeded, apply_strategy reports the supervisor failed and
    marks exactly its own workers abandoned. *)
Theorem intensity_exceeded_abandons now t sup s c w e :
  tree_ok t → nodes t !! sup = Some (Supervisor s) → nodes t !! c = Some (Worker w) →
  should_restart (wn_restart_policy w) e = true →
  fst (record_restart_at now (sn_intensity s)) = true →
  let '(a, t') := apply_strategy now t sup c e in
  supervisor_failed a = true ∧
  ∀ d v, nodes t !! d = Some (Worker v) →
    nodes t' !! d = Some (Worker (if decide (wn_parent v = sup) then set_state Abandoned v else v)).
Proof.
  intros Hok Hs Hc Hr Hx. unfold apply_strategy, get, get_worker. rewrite Hs, Hc, Hr. cbn [negb].
  unfold record_in. rewrite Hs. destruct (record_restart_at now (sn_intensity s)) as [ex i].
  cbn in Hx. subst ex. split; [done|]. intros d v Hd. rewrite abandon_lookup.
  assert (nodes (update_supervisor (set_strategy (sn_strategy s) i) sup t) !! d = Some (Worker v)) as ->.
  { unfold update_supervisor. rewrite Hs. cbn. rewrite lookup_insert_ne; [done|congruence]. }
  do 2 f_equal. assert (d ∈ sn_children s ↔ wn_parent v = sup) as Hiff.
  { pose proof (wt_links _ (proj1 Hok) d sup) as Hl. unfold children_of, child, parent_of in Hl.
    rewrite Hs, Hd in Hl. rewrite Hl. naive_solver. }
  repeat case_decide; try done; tauto.
Qed.
Lemma intensity_exceeded_abandons_witness :
  let t := update_supervisor (set_strategy RestForOne (intensity_new 0 (from_secs 60))) "group" group_tree in
  wn_state <$> get_worker (apply_strategy 7 t "group" "b" {| exit_code := Some 1%Z; signal := None |}).2 "c"
    = Some Abandoned.
Proof.
  intros t. assert (tree_ok t) as Hok by (apply tree_ok_supervisor; [done|apply group_tree_ok]).
  destruct (get_supervisor t "group") as [s|] eqn:Es; [|vm_compute in Es; discriminate].
  destruct (get_worker t "b") as [w|] eqn:Ew; [|vm_compute in Ew; discriminate].
  destruct (get_worker t "c") as [v|] eqn:Ev; [|vm_compute in Ev; discriminate].
  assert (nodes t !! "group" = Some (Supervisor s)) as Hs.
  { unfold get_supervisor in Es. destruct (nodes t !! "group") as [[]|]; congruence. }
  apply get_worker_lookup in Ew as Hw. apply get_worker_lookup in Ev as Hv.
  pose proof (intensity_exceeded_abandons 7 t "group" s "b" w {| exit_code := Some 1%Z; signal := None |}
    Hok Hs Hw) as H.
  destruct (apply_strategy 7 t "group" "b" _) as [a t'].
  destruct H as [_ H].
  - vm_compute in Ew. injection Ew as <-. reflexivity.
  - vm_compute in Es. injection Es as <-. reflexivity.
  - cbn [snd]. unfold get_worker at 1. rewrite (H "c" v Hv).
    vm_compute in Ev. injection Ev as <-. reflexivity.
Defined.

(** Escalating a failed supervisor to its parent decides nothing: the action is empty and
    the tree unchanged, for every supervisor. *)
Theorem escalation_inert now t sup s :
  nodes t !! sup = Some (Supervisor s) →
  escalate_failure now t sup =
    (match sn_parent s with Some p => Some (p, no_action) | None => None end, t).
Proof.
  intros Hs. unfold escalate_failure, parent_of. rewrite Hs.
  destruct (sn_parent s) as [p|]; [|done]. unfold apply_strategy, get_worker. rewrite Hs.
  destruct (get t p) as [[]|]; try done. cbn [negb]. unfold update_worker. by rewrite Hs.
Qed.
Lemma escalation_inert_witness :
  escalate_failure 0 group_tree "group" = (Some ("root", no_action), group_tree).
Proof.
  destruct (get_supervisor group_tree "group") as [s|] eqn:Es; [|vm_compute in Es; discriminate].
  assert (nodes group_tree !! "group" = Some (Supervisor s)) as Hs.
  { unfold get_supervisor in Es. destruct (nodes group_tree !! "group") as [[]|]; congruence. }
  rewrite (escalation_inert 0 group_tree "group" s Hs).
  vm_compute in Es. injection Es as <-. reflexivity.
Defined.
