(* ===== verification/World.v ===== *)
(** * The operating system

    What the service manager asks of the kernel and the file system, as a class
    of operations on an abstract system state: [OS].  The manager's definitions
    are functions of an instance of it.  [OsLaws] states what POSIX documents and
    the theorems rely on: a fork returns the id of no child not yet waited for, a
    successful wait returns such a child and releases its id, and only [kill]
    sends signals; the monotonic clock never goes back and advances by at least
    the time slept.  [history] is a ghost: what was signalled and forked, in order.

    [FiniteExits] is an assumption of its own: the waits that can still report something
    are bounded by [events].  The termination of the reaping loops depends on it.
    [scripted] is an instance of both that replays a list of outcomes. *)

From S2P Require Import Prelude Config.

#[local] Open Scope Z_scope.
#[local] Open Scope list_scope.

Inductive Signal := SIGHUP | SIGINT | SIGQUIT | SIGUSR1 | SIGUSR2 | SIGTERM | SIGKILL.

#[export] Instance Signal_eq_dec : EqDecision Signal.
Proof. solve_decision. Defined.

(** The results of [nix::sys::wait::waitpid] that the code distinguishes. *)
Inductive wait_status :=
| Exited (pid code : Z)
| Signaled (pid sig : Z)
| StillAlive
| ECHILD
| EINTR
| OtherWait.

(** The result of [Command::status]. *)
Inductive command_status := ExitSuccess | ExitFailure | CommandError (e : string).

(** The result of a non-blocking read of a descriptor or socket. *)
Inductive read_status := ReadBytes (data : string) | ReadEof | ReadWouldBlock | ReadError (e : string).

(** What the child of a fork is going to run. *)
Record child_plan := {
  cp_program : string;
  cp_args : list string;
  cp_env : list string;
  cp_def : ServiceDef;
  cp_log_pipe : option (Z * Z);
  cp_ready_pipe : option (Z * Z);
}.

Class OS := {
  os : Type;
  os_now : os → Z * os;
  os_sleep : Z → os → os;
  os_waitpid : option Z → os → wait_status * os;
  os_kill : Z → Signal → os → bool * os;
  os_fork : child_plan → os → result Z string * os;
  os_pipe : os → option (Z * Z) * os;
  os_pidfd_open : Z → os → option Z * os;
  os_close : Z → os → os;
  os_command : list string → os → command_status * os;
  os_env : os → gmap string string;
  os_tcp_connect : Z → os → bool * os;
  os_read_fd : Z → os → read_status * os;
  os_bind_datagram : string → os → bool * os;
  os_recv_datagram : string → os → read_status * os;
  os_read_file : string → os → option string;
  os_exists : string → os → bool;
  os_create_dir_all : string → os → bool * os;
  os_write : string → string → os → bool * os;
  os_remove_dir : string → os → bool * os;
  os_remove_dir_all : string → os → bool * os;
  os_remove_file : string → os → os;
}.

(** The calls that leave the children and their signals alone. *)
Inductive plain_call `{OS} : os → os → Prop :=
| call_now o : plain_call o (os_now o).2
| call_sleep d o : plain_call o (os_sleep d o)
| call_pipe o : plain_call o (os_pipe o).2
| call_pidfd p o : plain_call o (os_pidfd_open p o).2
| call_close fd o : plain_call o (os_close fd o)
| call_command c o : plain_call o (os_command c o).2
| call_tcp p o : plain_call o (os_tcp_connect p o).2
| call_read_fd fd o : plain_call o (os_read_fd fd o).2
| call_bind p o : plain_call o (os_bind_datagram p o).2
| call_recv p o : plain_call o (os_recv_datagram p o).2
| call_create_dir p o : plain_call o (os_create_dir_all p o).2
| call_write p c o : plain_call o (os_write p c o).2
| call_remove_dir p o : plain_call o (os_remove_dir p o).2
| call_remove_dir_all p o : plain_call o (os_remove_dir_all p o).2
| call_remove_file p o : plain_call o (os_remove_file p o).

(** The history of the processes: the signals sent, each with the time and whether its
    target was then a child not yet waited for, and the forks with their results. *)
Inductive proc_event :=
| Sent (pid : Z) (sg : Signal) (at_time : Z) (was_live : bool)
| Forked (plan : child_plan) (r : result Z string).

Class OsLaws (O : OS) := {
  live : os → gset Z;
  history : os → list proc_event;
  clock : os → Z;
  plain_law : ∀ o o', plain_call o o' → live o' = live o ∧ history o' = history o ∧ clock o ≤ clock o';
  now_law : ∀ o, clock o ≤ (os_now o).1 ≤ clock (os_now o).2;
  sleep_law : ∀ d o, clock o + d ≤ clock (os_sleep d o);
  os_kill_law : ∀ p s o, live (os_kill p s o).2 = live o ∧
    history (os_kill p s o).2 = history o ++ [Sent p s (clock o) (bool_decide (p ∈ live o))] ∧
    clock o ≤ clock (os_kill p s o).2;
  os_fork_law : ∀ c o,
    history (os_fork c o).2 = history o ++ [Forked c (os_fork c o).1] ∧ clock o ≤ clock (os_fork c o).2 ∧
    match (os_fork c o).1 with
    | Ok p => (p ∉ live o) ∧ live (os_fork c o).2 = {[p]} ∪ live o
    | Err _ => live (os_fork c o).2 = live o
    end;
  os_wait_law : ∀ which o,
    history (os_waitpid which o).2 = history o ∧ clock o ≤ clock (os_waitpid which o).2 ∧
    match (os_waitpid which o).1 with
    | Exited p _ | Signaled p _ =>
        p ∈ live o ∧ default p which = p ∧ live (os_waitpid which o).2 = live o ∖ {[p]}
    | EINTR | OtherWait | StillAlive => live (os_waitpid which o).2 = live o
    | ECHILD => live (os_waitpid which o).2 = live o ∧
        match which with Some q => q ∉ live o | None => live o = ∅ end
    end;
}.

(** Finitely many exits are still to be reported, also of the children yet to be forked.  This
    is no law of the system: services that keep exiting as fast as they are restarted
    violate it, and keep a reaping loop busy. *)
Class FiniteExits (O : OS) := {
  finite_laws :: OsLaws O;
  events : os → nat;
  plain_events : ∀ o o', plain_call o o' → (events o' ≤ events o)%nat;
  kill_events : ∀ p s o, (events (os_kill p s o).2 ≤ events o)%nat;
  fork_events : ∀ c o, (events (os_fork c o).2 ≤ events o)%nat;
  wait_events : ∀ which o,
    match (os_waitpid which o).1 with
    | StillAlive | ECHILD => (events (os_waitpid which o).2 ≤ events o)%nat
    | _ => (events (os_waitpid which o).2 < events o)%nat
    end;
}.

(** The laws and the bound together, as the proofs use them. *)
Section frames.
Context `{L : FiniteExits}.

Definition frame (o o' : os) : Prop :=
  live o' = live o ∧ (events o' ≤ events o)%nat ∧ history o' = history o ∧ clock o ≤ clock o'.

Lemma plain_frame o o' : plain_call o o' → frame o o'.
Proof. intros H. destruct (plain_law o o' H) as (? & ? & ?). pose proof (plain_events o o' H). done. Qed.

Lemma now_frame o : frame o (os_now o).2.
Proof. apply plain_frame. constructor. Qed.
Lemma sleep_frame d o : frame o (os_sleep d o).
Proof. apply plain_frame. constructor. Qed.
Lemma pipe_frame o : frame o (os_pipe o).2.
Proof. apply plain_frame. constructor. Qed.
Lemma pidfd_frame p o : frame o (os_pidfd_open p o).2.
Proof. apply plain_frame. constructor. Qed.
Lemma close_frame fd o : frame o (os_close fd o).
Proof. apply plain_frame. constructor. Qed.
Lemma command_frame c o : frame o (os_command c o).2.
Proof. apply plain_frame. constructor. Qed.
Lemma tcp_frame p o : frame o (os_tcp_connect p o).2.
Proof. apply plain_frame. constructor. Qed.
Lemma read_fd_frame fd o : frame o (os_read_fd fd o).2.
Proof. apply plain_frame. constructor. Qed.
Lemma bind_frame p o : frame o (os_bind_datagram p o).2.
Proof. apply plain_frame. constructor. Qed.
Lemma recv_frame p o : frame o (os_recv_datagram p o).2.
Proof. apply plain_frame. constructor. Qed.
Lemma create_dir_frame p o : frame o (os_create_dir_all p o).2.
Proof. apply plain_frame. constructor. Qed.
Lemma write_frame p c o : frame o (os_write p c o).2.
Proof. apply plain_frame. constructor. Qed.
Lemma remove_dir_frame p o : frame o (os_remove_dir p o).2.
Proof. apply plain_frame. constructor. Qed.
Lemma remove_dir_all_frame p o : frame o (os_remove_dir_all p o).2.
Proof. apply plain_frame. constructor. Qed.
Lemma remove_file_frame p o : frame o (os_remove_file p o).
Proof. apply plain_frame. constructor. Qed.

Lemma kill_law p s o : live (os_kill p s o).2 = live o ∧
  (events (os_kill p s o).2 ≤ events o)%nat ∧
  history (os_kill p s o).2 = history o ++ [Sent p s (clock o) (bool_decide (p ∈ live o))] ∧
  clock o ≤ clock (os_kill p s o).2.
Proof. destruct (os_kill_law p s o) as (? & ? & ?). pose proof (kill_events p s o). done. Qed.

Lemma fork_law c o :
  (events (os_fork c o).2 ≤ events o)%nat ∧
  history (os_fork c o).2 = history o ++ [Forked c (os_fork c o).1] ∧ clock o ≤ clock (os_fork c o).2 ∧
  match (os_fork c o).1 with
  | Ok p => (p ∉ live o) ∧ live (os_fork c o).2 = {[p]} ∪ live o
  | Err _ => live (os_fork c o).2 = live o
  end.
Proof. split; [apply fork_events|apply os_fork_law]. Qed.

Lemma wait_law which o :
  history (os_waitpid which o).2 = history o ∧ clock o ≤ clock (os_waitpid which o).2 ∧
  match (os_waitpid which o).1 with
  | Exited p _ | Signaled p _ =>
      p ∈ live o ∧ default p which = p ∧ live (os_waitpid which o).2 = live o ∖ {[p]} ∧
      (events (os_waitpid which o).2 < events o)%nat
  | EINTR | OtherWait => live (os_waitpid which o).2 = live o ∧
      (events (os_waitpid which o).2 < events o)%nat
  | StillAlive => live (os_waitpid which o).2 = live o ∧
      (events (os_waitpid which o).2 ≤ events o)%nat
  | ECHILD => live (os_waitpid which o).2 = live o ∧
      (events (os_waitpid which o).2 ≤ events o)%nat ∧
      match which with Some q => q ∉ live o | None => live o = ∅ end
  end.
Proof.
  destruct (os_wait_law which o) as (? & ? & H). pose proof (wait_events which o).
  split; [done|]. split; [done|]. destruct (os_waitpid which o) as [[] o']; cbn in *; intuition.
Qed.
End frames.

#[export] Instance frame_refl `{FiniteExits} : Reflexive frame.
Proof. intros o. unfold frame. split_and!; [done|lia|done|lia]. Qed.
#[export] Instance frame_trans `{FiniteExits} : Transitive frame.
Proof.
  intros o1 o2 o3 (? & ? & ? & ?) (? & ? & ? & ?). unfold frame.
  split_and!; [congruence|lia|congruence|lia].
Qed.

#[export] Hint Resolve now_frame sleep_frame pipe_frame pidfd_frame close_frame command_frame
  tcp_frame read_fd_frame bind_frame recv_frame create_dir_frame write_frame remove_dir_frame
  remove_dir_all_frame remove_file_frame : dynamod.

(** ** A scripted system *)

Record script := {
  sc_clock : Z;
  sc_wait : list wait_status;
  sc_pids : list Z;
  sc_live : gset Z;
  sc_history : list proc_event;
  sc_files : gmap string string;
}.

Definition sc_with_wait (w : list wait_status) (lv : gset Z) (s : script) : script :=
  {| sc_clock := sc_clock s; sc_wait := w; sc_pids := sc_pids s; sc_live := lv;
     sc_history := sc_history s; sc_files := sc_files s |}.

(** The next scripted outcome, when it concerns a live child and the one asked for. *)
Definition sc_waitpid (which : option Z) (s : script) : wait_status * script :=
  match sc_wait s with
  | (Exited p _ | Signaled p _) as e :: rest =>
      if decide (p ∈ sc_live s ∧ default p which = p)
      then (e, sc_with_wait rest (sc_live s ∖ {[p]}) s) else (StillAlive, s)
  | StillAlive :: rest => (StillAlive, sc_with_wait rest (sc_live s) s)
  | EINTR :: rest => (EINTR, sc_with_wait rest (sc_live s) s)
  | OtherWait :: rest => (OtherWait, sc_with_wait rest (sc_live s) s)
  | ECHILD :: _ | [] => (StillAlive, s)
  end.

Definition sc_fork (c : child_plan) (s : script) : result Z string * script :=
  let r := match sc_pids s with
           | p :: _ => if decide (p ∈ sc_live s) then Err "EAGAIN"%string else Ok p
           | [] => Err "EAGAIN"%string
           end in
  (r, {| sc_clock := sc_clock s; sc_wait := sc_wait s;
         sc_pids := match r with Ok _ => tail (sc_pids s) | Err _ => sc_pids s end;
         sc_live := match r with Ok p => {[p]} ∪ sc_live s | Err _ => sc_live s end;
         sc_history := sc_history s ++ [Forked c r]; sc_files := sc_files s |}).

Definition sc_kill (p : Z) (sg : Signal) (s : script) : bool * script :=
  (true, {| sc_clock := sc_clock s; sc_wait := sc_wait s; sc_pids := sc_pids s;
            sc_live := sc_live s; sc_history := sc_history s ++ [Sent p sg (sc_clock s) (bool_decide (p ∈ sc_live s))]; sc_files := sc_files s |}).

(** Time passes when sleeping. *)
Definition sc_sleep (d : Z) (s : script) : script :=
  {| sc_clock := sc_clock s + Z.max 0 d; sc_wait := sc_wait s; sc_pids := sc_pids s;
     sc_live := sc_live s; sc_history := sc_history s; sc_files := sc_files s |}.

#[export] Instance scripted : OS := {|
  os := script;
  os_now s := (sc_clock s, s);
  os_sleep := sc_sleep;
  os_waitpid := sc_waitpid;
  os_kill := sc_kill;
  os_fork := sc_fork;
  os_pipe s := (None, s);
  os_pidfd_open _ s := (None, s);
  os_close _ s := s;
  os_command _ s := (ExitSuccess, s);
  os_env _ := ∅;
  os_tcp_connect _ s := (true, s);
  os_read_fd _ s := (ReadWouldBlock, s);
  os_bind_datagram _ s := (true, s);
  os_recv_datagram _ s := (ReadWouldBlock, s);
  os_read_file p s := sc_files s !! p;
  os_exists p s := bool_decide (is_Some (sc_files s !! p));
  os_create_dir_all _ s := (true, s);
  os_write _ _ s := (true, s);
  os_remove_dir _ s := (true, s);
  os_remove_dir_all _ s := (true, s);
  os_remove_file _ s := s;
|}.

#[export] Instance scripted_laws : FiniteExits scripted.
Proof.
  unshelve refine {| events := (λ s, length (sc_wait s)) : @os scripted → nat |}.
  { refine {| live := sc_live; history := sc_history; clock := sc_clock |}.
    - intros o o' H. destruct H; cbn; split_and!; (done || lia).
    - intros o. cbn. lia.
    - intros d o. cbn. lia.
    - intros p sg o. cbn. done.
    - intros c o. cbn. split; [done|]. split; [lia|].
      destruct (sc_pids o) as [|p rest]; [done|]. by case_decide.
    - intros which o. cbn. unfold sc_waitpid.
      destruct (sc_wait o) as [|[p c|p c| | | |] rest]; cbn; try (split_and!; (done || lia));
        (case_decide as Hd; cbn; [destruct Hd|]; split_and!; (done || lia)). }
  - intros o o' H. destruct H; cbn; lia.
  - intros p sg o. cbn. lia.
  - intros c o. cbn. lia.
  - intros which o. cbn. unfold sc_waitpid.
    destruct (sc_wait o) as [|[p c|p c| | | |] rest] eqn:E; cbn; rewrite ?E; cbn; try lia;
      (case_decide; cbn; rewrite ?E; cbn; lia).
Defined.
