(* ===== verification/Cgroup.v ===== *)
(** * Control groups (cgroup/hierarchy.rs, cgroup/limits.rs, cgroup/monitor.rs)

    The per-service cgroup directories, the limits written to them, and the
    polling monitor of OOM kills and memory pressure. *)

From stdpp Require Import sorting.
From S2P Require Import Prelude RustStr Config World.

#[local] Open Scope Z_scope.
#[local] Open Scope list_scope.

Definition CGROUP_ROOT : string := "/sys/fs/cgroup/dynamod".
Definition CONTROLLERS : list string := ["cpu"; "memory"; "io"; "pids"].

Inductive CgroupError :=
| CreateDir (path : string)
| RemoveDir (path : string)
| WriteFile (path : string).

(** The hierarchy is its root path. *)
Record CgroupHierarchy := { root : string }.

Definition join_path (dir file : string) : string := path_join dir file.

Section cgroup.
Context `{O : OS}.

(** ** hierarchy.rs *)

(** Enable every controller; the errors are ignored. *)
Definition enable_controllers (path : string) (o : os) : os :=
  foldl (λ o c, (os_write path (String.append "+" c) o).2) o CONTROLLERS.

Definition init_at (path : string) (parent : option string) (o : os)
    : result CgroupHierarchy CgroupError * os :=
  let '(ok, o) := os_create_dir_all path o in
  if negb ok then (Err (CreateDir path), o)
  else
    let o := match parent with
             | Some p =>
                 let subtree_control := join_path p "cgroup.subtree_control" in
                 if os_exists subtree_control o then enable_controllers subtree_control o else o
             | None => o
             end in
    (Ok {| root := path |}, enable_controllers (join_path path "cgroup.subtree_control") o).

Definition hierarchy_init (o : os) : result CgroupHierarchy CgroupError * os :=
  init_at CGROUP_ROOT (Some "/sys/fs/cgroup") o.
Definition is_available (o : os) : bool := os_exists "/sys/fs/cgroup/cgroup.controllers" o.
Definition hierarchy_root (h : CgroupHierarchy) : string := root h.

(** [Drop]: the root is removed if it is empty. *)
Definition hierarchy_drop (h : CgroupHierarchy) (o : os) : os := (os_remove_dir (root h) o).2.

Definition service_path (h : CgroupHierarchy) (service_name : string) : string :=
  join_path (root h) service_name.

Definition create_service_cgroup (h : CgroupHierarchy) (service_name : string) (o : os)
    : result string CgroupError * os :=
  let path := service_path h service_name in
  let '(ok, o) := os_create_dir_all path o in
  if negb ok then (Err (CreateDir path), o)
  else (Ok path, enable_controllers (join_path path "cgroup.subtree_control") o).

Definition remove_service_cgroup (h : CgroupHierarchy) (service_name : string) (o : os)
    : result unit CgroupError * os :=
  let path := service_path h service_name in
  if os_exists path o then
    let '(ok, o) := os_remove_dir path o in
    if ok then (Ok (), o)
    else
      let '(ok, o) := os_remove_dir_all path o in
      if ok then (Ok (), o) else (Err (RemoveDir path), o)
  else (Ok (), o).

Definition add_process (h : CgroupHierarchy) (service_name : string) (pid : Z) (o : os)
    : result unit CgroupError * os :=
  let procs := join_path (service_path h service_name) "cgroup.procs" in
  let '(ok, o) := os_write procs (to_string pid) o in
  (if ok then Ok () else Err (WriteFile procs), o).

(** ** limits.rs *)

(** A number with a one-letter suffix, in either case, scaled; the product wraps. *)
Definition suffixed (upper lower : string) (scale : Z) (s : string) : option string :=
  n ← match strip_suffix upper s with Some n => Some n | None => strip_suffix lower s end;
  v ← parse_u64 (trim n);
  Some (to_string (wrap_u64 (v * scale))).

Definition parse_bytes (s : string) : string :=
  let s := trim s in
  match suffixed "K" "k" 1024 s with
  | Some r => r
  | None =>
      match suffixed "M" "m" (1024 * 1024) s with
      | Some r => r
      | None =>
          match suffixed "G" "g" (1024 * 1024 * 1024) s with
          | Some r => r
          | None => s
          end
      end
  end.

Definition write_limit (path file value : string) (o : os) : result unit CgroupError * os :=
  let p := join_path path file in
  let '(ok, o) := os_write p value o in
  (if ok then Ok () else Err (WriteFile p), o).

(** The writes [apply_limits] attempts, in order. *)
Definition limit_writes (config : CgroupSection) : list (string * string) :=
  match cg_memory_max config with Some l => [("memory.max", parse_bytes l)] | None => [] end
  ++ match cg_memory_high config with Some l => [("memory.high", parse_bytes l)] | None => [] end
  ++ match cg_cpu_weight config with Some w => [("cpu.weight", to_string w)] | None => [] end
  ++ match cg_cpu_max config with Some m => [("cpu.max", m)] | None => [] end
  ++ match cg_pids_max config with Some m => [("pids.max", to_string m)] | None => [] end
  ++ match cg_io_weight config with
     | Some w => [("io.weight", String.append "default " (to_string w))] | None => [] end.

(** Each write is followed by [?]: the first failure ends the sequence. *)
Fixpoint write_limits (path : string) (ws : list (string * string)) (o : os)
    : result unit CgroupError * os :=
  match ws with
  | [] => (Ok (), o)
  | (file, value) :: ws =>
      match write_limit path file value o with
      | (Ok _, o) => write_limits path ws o
      | (Err e, o) => (Err e, o)
      end
  end.

Definition apply_limits (path : string) (config : CgroupSection) (o : os)
    : result unit CgroupError * os :=
  write_limits path (limit_writes config) o.

Definition read_u64 (path file : string) (o : os) : option Z :=
  c ← os_read_file (join_path path file) o; parse_u64 (trim c).

Definition read_string (path file : string) (o : os) : option string :=
  c ← os_read_file (join_path path file) o; Some (trim c).

(** The number on the first line that starts with [field]; [None] when it does
    not parse. *)
Fixpoint stat_field (field : string) (ls : list string) : option Z :=
  match ls with
  | [] => None
  | line :: ls =>
      match strip_prefix field line with
      | Some rest => parse_u64 (trim rest)
      | None => stat_field field ls
      end
  end.

Definition read_stat_field (path file field : string) (o : os) : option Z :=
  c ← os_read_file (join_path path file) o; stat_field field (lines c).

Record CgroupUsage := {
  cu_memory_current : option Z;
  cu_memory_max : option string;
  cu_pids_current : option Z;
  cu_cpu_usage_usec : option Z;
}.

Definition read_usage (path : string) (o : os) : CgroupUsage :=
  {| cu_memory_current := read_u64 path "memory.current" o;
     cu_memory_max := read_string path "memory.max" o;
     cu_pids_current := read_u64 path "pids.current" o;
     cu_cpu_usage_usec := read_stat_field path "cpu.stat" "usage_usec" o |}.

(** ** monitor.rs *)

Inductive CgroupEvent :=
| OomKill (service_name : string) (count : Z)
| MemoryHigh (service_name : string) (current_bytes : Z).

Record CgroupMonitor := {
  watched : gmap string string;
  last_oom_count : gmap string Z;
}.

Definition monitor_new : CgroupMonitor := {| watched := ∅; last_oom_count := ∅ |}.

Fixpoint oom_kill_line (ls : list string) : Z :=
  match ls with
  | [] => 0
  | line :: ls =>
      match strip_prefix "oom_kill " line with
      | Some rest => default 0 (parse_u64 (trim rest))
      | None => oom_kill_line ls
      end
  end.

Definition read_oom_kill_count (path : string) (o : os) : Z :=
  match os_read_file (join_path path "memory.events") o with
  | None => 0
  | Some content => oom_kill_line (lines content)
  end.

Definition read_memory_current (path : string) (o : os) : option Z := read_u64 path "memory.current" o.

Definition read_memory_high (path : string) (o : os) : option Z :=
  c ← os_read_file (join_path path "memory.high") o;
  let s := trim c in if String.eqb s "max" then None else parse_u64 s.

Definition watch (name path : string) (o : os) (m : CgroupMonitor) : CgroupMonitor :=
  {| watched := <[name := path]> (watched m);
     last_oom_count := <[name := read_oom_kill_count path o]> (last_oom_count m) |}.

Definition unwatch (name : string) (m : CgroupMonitor) : CgroupMonitor :=
  {| watched := delete name (watched m); last_oom_count := delete name (last_oom_count m) |}.

(** One round of the loop of [poll]. *)
Definition poll_one (o : os) (acc : list CgroupEvent * gmap string Z) (kv : string * string)
    : list CgroupEvent * gmap string Z :=
  let '(events, last) := acc in
  let '(name, path) := kv in
  let current_oom := read_oom_kill_count path o in
  let last_oom := default 0 (last !! name) in
  let events := if last_oom <? current_oom
                then events ++ [OomKill name (current_oom - last_oom)] else events in
  let last := <[name := current_oom]> last in
  match read_memory_current path o, read_memory_high path o with
  | Some current, Some high =>
      (if high <? current then events ++ [MemoryHigh name current] else events, last)
  | _, _ => (events, last)
  end.

Definition poll `{HashOrder} (o : os) (m : CgroupMonitor) : list CgroupEvent * CgroupMonitor :=
  let '(events, last) := foldl (poll_one o) ([], last_oom_count m) (map_iter "watched" (watched m)) in
  (events, {| watched := watched m; last_oom_count := last |}).

Definition monitor_count (m : CgroupMonitor) : nat := size (watched m).
End cgroup.

(** ** Byte sizes *)

Lemma trim_number n : 0 ≤ n → trim (to_string n) = to_string n.
Proof. intros Hn. rewrite <-(app_nil_r_str (to_string n)). by apply trim_number_suffix. Qed.

Lemma strip_letter_none n d e :
  e ≠ d → strip_suffix (String d "") (String.append (to_string n) (String e "")) = None.
Proof.
  intros Hde. destruct (to_string_int_bytes n) as (c & r & -> & _).
  apply (strip_suffix_other c); [done|]. cbn [String.append last_byte]. by rewrite last_byte_app.
Qed.

Lemma suffixed_number n u l scale :
  0 ≤ n ≤ U64_MAX →
  suffixed (String u "") (String l "") scale (String.append (to_string n) (String u ""))
  = Some (to_string (wrap_u64 (n * scale))).
Proof.
  intros Hn. unfold suffixed, parse_u64. rewrite strip_suffix_app. cbn [mbind option_bind].
  rewrite trim_number by lia. by rewrite (parse_unsigned_to_string U64_MAX n Hn).
Qed.

Lemma suffixed_number_lower n u l scale :
  0 ≤ n ≤ U64_MAX → l ≠ u →
  suffixed (String u "") (String l "") scale (String.append (to_string n) (String l ""))
  = Some (to_string (wrap_u64 (n * scale))).
Proof.
  intros Hn Hne. unfold suffixed, parse_u64. rewrite (strip_letter_none n u l Hne), strip_suffix_app.
  cbn [mbind option_bind]. rewrite trim_number by lia.
  by rewrite (parse_unsigned_to_string U64_MAX n Hn).
Qed.

Lemma suffixed_other n u l e scale :
  e ≠ u → e ≠ l →
  suffixed (String u "") (String l "") scale (String.append (to_string n) (String e "")) = None.
Proof. intros Hu Hl. unfold suffixed. by rewrite !strip_letter_none. Qed.

(** The scale of each suffix letter. *)
Definition suffix_scale : list (string * Z) :=
  [("K", 1024); ("k", 1024); ("M", 1024 * 1024); ("m", 1024 * 1024);
   ("G", 1024 * 1024 * 1024); ("g", 1024 * 1024 * 1024)].

Lemma parse_bytes_suffixed n suf scale :
  0 ≤ n ≤ U64_MAX → (suf, scale) ∈ suffix_scale →
  parse_bytes (String.append (to_string n) suf) = to_string (wrap_u64 (n * scale)).
Proof.
  intros Hn Hin. unfold suffix_scale in Hin.
  repeat (apply elem_of_cons in Hin as [[= -> ->]|Hin];
    [unfold parse_bytes; rewrite trim_number_suffix by (done || lia);
     repeat (rewrite suffixed_other by done);
     first [rewrite suffixed_number by done|rewrite suffixed_number_lower by done]; done|]).
  by apply elem_of_nil in Hin.
Qed.

(** parse_bytes scales a rendered number with a size suffix (K, M or G, in either case) to
    bytes, as long as the product fits 64 bits. *)
Theorem parse_bytes_correct n suf scale :
  0 ≤ n → n * scale ≤ U64_MAX → (suf, scale) ∈ suffix_scale →
  parse_bytes (String.append (to_string n) suf) = to_string (n * scale).
Proof.
  intros Hn Hfit Hin. assert (1 ≤ scale) as Hs.
  { unfold suffix_scale in Hin.
    repeat (apply elem_of_cons in Hin as [[= -> ->]|Hin]; [lia|]). by apply elem_of_nil in Hin. }
  rewrite (parse_bytes_suffixed n suf scale); [|nia|done].
  unfold wrap_u64. rewrite Z.mod_small by (unfold U64_MAX in *; nia). done.
Qed.
Lemma parse_bytes_correct_witness : parse_bytes "512M" = "536870912"%string.
Proof.
  apply (parse_bytes_correct 512 "M" (1024 * 1024)); [lia|unfold U64_MAX; lia|].
  unfold suffix_scale. set_solver.
Defined.

(** A size over 64 bits wraps: 17179869184G is written as a limit of 0 bytes. *)
Example parse_bytes_wraps : parse_bytes "17179869184G" = "0"%string.
Proof. vm_compute. reflexivity. Qed.

(** ** OOM kills are reported once *)

(** The kills reported for a service in a list of events. *)
Fixpoint oom_total (name : string) (events : list CgroupEvent) : Z :=
  match events with
  | [] => 0
  | OomKill n c :: events => (if decide (n = name) then c else 0) + oom_total name events
  | MemoryHigh _ _ :: events => oom_total name events
  end.

Lemma oom_total_app name e1 e2 : oom_total name (e1 ++ e2) = oom_total name e1 + oom_total name e2.
Proof. induction e1 as [|[]]; cbn [app oom_total]; lia. Qed.

Lemma last_cons_default {A} (x : A) l d : List.last (x :: l) d = List.last l x.
Proof.
  revert x d. induction l as [|y l IH]; intros x d; [done|].
  change (List.last (x :: y :: l) d) with (List.last (y :: l) d). by rewrite !IH.
Qed.

Section monitoring.
Context `{O : OS}.

Lemma poll_one_spec (o : os) evs (last : gmap string Z) n path name :
  let '(evs', last') := poll_one o (evs, last) (n, path) in
  oom_total name evs' = oom_total name evs
    + (if decide (n = name) then Z.max 0 (read_oom_kill_count path o - default 0 (last !! n)) else 0)
  ∧ last' = <[n := read_oom_kill_count path o]> last.
Proof.
  unfold poll_one. set (cur := read_oom_kill_count path o). set (l := default 0 (last !! n)).
  assert (∀ evs1, oom_total name evs1 = oom_total name evs + (if decide (n = name) then Z.max 0 (cur - l) else 0) →
    let '(evs', last') := match read_memory_current path o with
      | Some current => match read_memory_high path o with
         | Some high => (if high <? current then evs1 ++ [MemoryHigh n current] else evs1, <[n:=cur]> last)
         | None => (evs1, <[n:=cur]> last) end
      | None => (evs1, <[n:=cur]> last) end in
    oom_total name evs' = oom_total name evs + (if decide (n = name) then Z.max 0 (cur - l) else 0)
    ∧ last' = <[n:=cur]> last) as Hk.
  { intros evs1 H. destruct (read_memory_current path o), (read_memory_high path o); try done.
    destruct (_ <? _); [|done]. rewrite oom_total_app. cbn. split; [lia|done]. }
  apply Hk. destruct (Z.ltb_spec l cur).
  - rewrite oom_total_app. cbn. case_decide; lia.
  - case_decide; lia.
Qed.

Lemma poll_fold (o : os) l evs (last : gmap string Z) name :
  NoDup l.*1 →
  let '(evs', last') := foldl (poll_one o) (evs, last) l in
  match list_to_map (M := gmap string string) l !! name with
  | Some path =>
      oom_total name evs' = oom_total name evs
        + Z.max 0 (read_oom_kill_count path o - default 0 (last !! name)) ∧
      last' !! name = Some (read_oom_kill_count path o)
  | None => oom_total name evs' = oom_total name evs ∧ last' !! name = last !! name
  end.
Proof.
  revert evs last. induction l as [|[n path] l IH]; intros evs last Hnd; [done|].
  apply NoDup_cons in Hnd as [Hn Hnd]. cbn [foldl list_to_map].
  pose proof (poll_one_spec o evs last n path name) as H1.
  destruct (poll_one o (evs, last) (n, path)) as [evs1 last1]. destruct H1 as [H1 ->].
  specialize (IH evs1 (<[n:=read_oom_kill_count path o]> last) Hnd).
  destruct (foldl (poll_one o) (evs1, _) l) as [evs' last'].
  destruct (decide (n = name)) as [->|Hne].
  - cbn [fst] in Hn. rewrite (not_elem_of_list_to_map_1 l name Hn) in IH.
    cbn. rewrite lookup_insert, decide_True by done. rewrite lookup_insert, decide_True in IH by done.
    destruct IH as [-> ->]. done.
  - cbn. rewrite lookup_insert_ne by done. rewrite lookup_insert_ne in IH by done.
    destruct (list_to_map l !! name); destruct IH as [-> ->]; (split; [lia|done]).
Qed.

Lemma poll_spec `{HashOrder} (o : os) m name path :
  watched m !! name = Some path →
  let '(evs, m') := poll o m in
  oom_total name evs = Z.max 0 (read_oom_kill_count path o - default 0 (last_oom_count m !! name)) ∧
  watched m' = watched m ∧ last_oom_count m' !! name = Some (read_oom_kill_count path o).
Proof.
  intros Hw. unfold poll. pose proof (poll_fold o (map_iter "watched" (watched m)) []
    (last_oom_count m) name (NoDup_map_iter _ _)) as Hf.
  assert (list_to_map (M := gmap string string) (map_iter "watched" (watched m)) !! name = Some path) as Hl.
  { apply elem_of_list_to_map; [apply NoDup_map_iter|]. by apply elem_of_map_iter. }
  rewrite Hl in Hf. destruct (foldl _ _ _) as [evs last]. cbn in *. tauto.
Qed.

(** The polls of a monitor at a sequence of system states. *)
Fixpoint polls `{HashOrder} (states : list os) (m : CgroupMonitor) : list CgroupEvent :=
  match states with
  | [] => []
  | o :: states => let '(evs, m) := poll o m in evs ++ polls states m
  end.
End monitoring.

(** Over any sequence of polls of a watched service whose kernel counter does not decrease,
    the OOM events reported add up to exactly the kills since it was watched. *)
Theorem oom_reports_exact `{O : OS, HashOrder} (o0 : os) states m name path :
  StronglySorted Z.le (map (read_oom_kill_count path) (o0 :: states)) →
  oom_total name (polls states (watch name path o0 m)) =
    read_oom_kill_count path (List.last states o0) - read_oom_kill_count path o0.
Proof.
  intros Hs.
  assert (watched (watch name path o0 m) !! name = Some path ∧
    last_oom_count (watch name path o0 m) !! name = Some (read_oom_kill_count path o0)) as [Hw Hl]
    by (cbn; by rewrite !lookup_insert, !decide_True).
  revert Hw Hl. generalize (watch name path o0 m). clear m.
  revert o0 Hs. induction states as [|o states IH]; intros o0 Hs m Hw Hl; [cbn; lia|].
  cbn [polls]. pose proof (poll_spec o m name path Hw) as Hp. destruct (poll o m) as [evs m'].
  destruct Hp as (He & Hw' & Hl'). rewrite Hl in He. cbn [default from_option id] in He.
  cbn [map] in Hs. apply StronglySorted_inv in Hs as [Hs Hall]. apply Forall_cons in Hall as [Hle _].
  rewrite oom_total_app, (IH o Hs m'), He; [|congruence|done].
  rewrite last_cons_default. lia.
Qed.
Lemma oom_reports_exact_witness :
  let st n := {| sc_clock := 0; sc_wait := []; sc_pids := []; sc_live := ∅; sc_history := [];
                 sc_files := {[ "/c/memory.events" := String.append "oom_kill " n ]} |} in
  oom_total "db" (polls (H := elements_order) [st "2"; st "5"; st "5"]%string
    (watch "db" "/c" (st "1"%string) monitor_new)) = 4.
Proof.
  intros st. rewrite (oom_reports_exact (O := scripted) (H := elements_order)
    (st "1"%string) [st "2"; st "5"; st "5"]%string monitor_new "db" "/c").
  - vm_compute. reflexivity.
  - vm_compute. repeat constructor; discriminate.
Defined.

(** ** The processes are left alone *)

Section frames.
Context `{L : FiniteExits}.

Lemma enable_controllers_frame path o : frame o (enable_controllers path o).
Proof.
  unfold enable_controllers. generalize CONTROLLERS. intros cs. revert o.
  induction cs as [|c cs IH]; intros o; cbn [foldl]; [done|].
  etrans; [apply write_frame|apply IH].
Qed.

Lemma hierarchy_init_frame o : frame o (hierarchy_init o).2.
Proof.
  unfold hierarchy_init, init_at. pose proof (create_dir_frame CGROUP_ROOT o) as H1.
  destruct (os_create_dir_all CGROUP_ROOT o) as [[] o1]; cbn [negb snd] in *; [|done].
  destruct (os_exists _ o1); repeat (etrans; [|apply enable_controllers_frame]); done.
Qed.

Lemma create_service_cgroup_frame h n o : frame o (create_service_cgroup h n o).2.
Proof.
  unfold create_service_cgroup. pose proof (create_dir_frame (service_path h n) o).
  destruct (os_create_dir_all _ o) as [[] o']; cbn [negb snd] in *; [|done].
  etrans; [done|]. apply enable_controllers_frame.
Qed.

Lemma remove_service_cgroup_frame h n o : frame o (remove_service_cgroup h n o).2.
Proof.
  unfold remove_service_cgroup. destruct (os_exists _ o); [|done].
  pose proof (remove_dir_frame (service_path h n) o).
  destruct (os_remove_dir _ o) as [[] o']; cbn [snd] in *; [done|].
  pose proof (remove_dir_all_frame (service_path h n) o').
  destruct (os_remove_dir_all _ o') as [[] o'']; cbn [snd] in *; by etrans.
Qed.

Lemma write_limit_frame p f v o : frame o (write_limit p f v o).2.
Proof.
  unfold write_limit. pose proof (write_frame (join_path p f) v o).
  by destruct (os_write _ _ o) as [[] o'].
Qed.

Lemma apply_limits_frame p c o : frame o (apply_limits p c o).2.
Proof.
  unfold apply_limits. generalize (limit_writes c). intros ws. revert o.
  induction ws as [|[f v] ws IH]; intros o; cbn [write_limits]; [done|].
  pose proof (write_limit_frame p f v o). destruct (write_limit p f v o) as [[] o']; cbn [snd] in *.
  - etrans; [done|]. apply IH.
  - done.
Qed.

Lemma add_process_frame h n pid o : frame o (add_process h n pid o).2.
Proof.
  unfold add_process. pose proof (write_frame (join_path (service_path h n) "cgroup.procs") (to_string pid) o).
  by destruct (os_write _ _ o) as [[] o'].
Qed.
End frames.

#[export] Hint Resolve create_service_cgroup_frame remove_service_cgroup_frame
  apply_limits_frame add_process_frame : dynamod.
