(* ===== verification/Namespace.v ===== *)
(** * Namespace isolation (namespace/setup.rs)

    What the child of a fork does before it executes the service: [unshare], then
    the mounts of a private mount namespace.  The kernel's answers are the argument
    [call], which may depend on the calls before; [exists_path] says whether a path
    exists.  The trace holds every call made with its outcome. *)

From S2P Require Import Prelude RustStr Config.

#[local] Open Scope list_scope.

(** The flags of [unshare]: the bits of [CloneFlags]. *)
Definition CLONE_NEWNS : Z := 0x00020000.
Definition CLONE_NEWCGROUP : Z := 0x02000000.
Definition CLONE_NEWUTS : Z := 0x04000000.
Definition CLONE_NEWIPC : Z := 0x08000000.
Definition CLONE_NEWUSER : Z := 0x10000000.
Definition CLONE_NEWPID : Z := 0x20000000.
Definition CLONE_NEWNET : Z := 0x40000000.

(** The mount flags the code combines. *)
Inductive ms_flag := MS_RDONLY | MS_NOSUID | MS_NODEV | MS_NOEXEC | MS_REMOUNT | MS_BIND | MS_REC | MS_PRIVATE.

#[export] Instance ms_flag_eq_dec : EqDecision ms_flag.
Proof. solve_decision. Defined.

Inductive ns_call :=
| Unshare (flags : Z)
| Mount (source : option string) (target : string) (fstype : option string)
    (flags : list ms_flag) (data : option string)
| Umount (target : string)
| Mkdir (path : string).

#[export] Instance ns_call_eq_dec : EqDecision ns_call.
Proof. solve_decision. Defined.

Inductive NamespaceError := UnshareFailed | MountFailed (what : string) | MkdirFailed (path : string).

Definition namespace_flag (ns : string) : Z :=
  if String.eqb ns "pid" then CLONE_NEWPID
  else if String.eqb ns "mnt" || String.eqb ns "mount" then CLONE_NEWNS
  else if String.eqb ns "net" || String.eqb ns "network" then CLONE_NEWNET
  else if String.eqb ns "uts" then CLONE_NEWUTS
  else if String.eqb ns "ipc" then CLONE_NEWIPC
  else if String.eqb ns "user" then CLONE_NEWUSER
  else if String.eqb ns "cgroup" then CLONE_NEWCGROUP
  else 0%Z.

Definition parse_namespace_flags (namespaces : list string) : Z :=
  foldl (λ flags ns, Z.lor flags (namespace_flag ns)) 0%Z namespaces.

Definition contains_flag (flags f : Z) : bool := Z.eqb (Z.land flags f) f.

(** The calls made, each with whether it succeeded. *)
Definition ns_trace : Type := list (ns_call * bool).

Section setup.
Variable call : ns_trace → ns_call → bool.
Variable exists_path : string → bool.

(** The calls made so far, with [?] on a failing one. *)
Definition calls : Type := result ns_trace (NamespaceError * ns_trace).

(** [let _ = ...]: the failure is ignored. *)
Definition try_call (c : ns_call) (tr : ns_trace) : ns_trace := tr ++ [(c, call tr c)].
Definition must (c : ns_call) (e : NamespaceError) (tr : ns_trace) : calls :=
  if call tr c then Ok (try_call c tr) else Err (e, try_call c tr).

Definition protect (config : NamespaceSection) (tr : ns_trace) : calls :=
  match ns_protect_system config with
  | None => Ok tr
  | Some p =>
      if String.eqb p "strict" then
        must (Mount None "/" None [MS_REMOUNT; MS_RDONLY; MS_BIND] None) (MountFailed "/ (read-only)") tr
      else if String.eqb p "full" then
        Ok (foldl (λ tr target,
              if exists_path target then
                try_call (Mount None target None [MS_REMOUNT; MS_RDONLY; MS_BIND; MS_REC] None)
                  (try_call (Mount (Some target) target None [MS_BIND; MS_REC] None) tr)
              else tr) tr ["/usr"; "/boot"])
      else Ok tr
  end.

Definition private_tmp (config : NamespaceSection) (tr : ns_trace) : calls :=
  if ns_private_tmp config then
    must (Mount (Some "tmpfs") "/tmp" (Some "tmpfs") [MS_NOSUID; MS_NODEV] (Some "mode=1777,size=128M"))
      (MountFailed "/tmp") tr
  else Ok tr.

Definition bind_mount (bm : BindMount) (tr : ns_trace) : calls :=
  tr <-? (if exists_path (bm_target bm) then Ok tr
          else must (Mkdir (bm_target bm)) (MkdirFailed (bm_target bm)) tr);
  tr <-? must (Mount (Some (bm_source bm)) (bm_target bm) None [MS_BIND; MS_REC] None)
           (MountFailed (bm_target bm)) tr;
  if bm_writable bm then Ok tr
  else must (Mount None (bm_target bm) None [MS_REMOUNT; MS_RDONLY; MS_BIND; MS_REC] None)
         (MountFailed (String.append (bm_target bm) " (readonly)")) tr.

Fixpoint bind_mounts (bms : list BindMount) (tr : ns_trace) : calls :=
  match bms with
  | [] => Ok tr
  | bm :: bms => tr <-? bind_mount bm tr; bind_mounts bms tr
  end.

Definition make_private : ns_call := Mount None "/" None [MS_REC; MS_PRIVATE] None.

Definition setup_mount_namespace (config : NamespaceSection) (tr : ns_trace) : calls :=
  tr <-? must make_private (MountFailed "/") tr;
  tr <-? protect config tr;
  tr <-? private_tmp config tr;
  bind_mounts (ns_bind_mounts config) tr.

Definition remount_proc (tr : ns_trace) : calls :=
  must (Mount (Some "proc") "/proc" (Some "proc") [MS_NOSUID; MS_NODEV; MS_NOEXEC] None)
    (MountFailed "/proc") (try_call (Umount "/proc") tr).

Definition apply_namespaces (config : NamespaceSection) : calls :=
  let flags := parse_namespace_flags (ns_enable config) in
  if Z.eqb flags 0 then Ok []
  else
    tr <-? must (Unshare flags) UnshareFailed [];
    tr <-? (if contains_flag flags CLONE_NEWNS then setup_mount_namespace config tr else Ok tr);
    if contains_flag flags CLONE_NEWPID then
      if contains_flag flags CLONE_NEWNS then remount_proc tr else Ok tr
    else Ok tr.
End setup.

Definition describe_namespaces (config : NamespaceSection) : string :=
  match ns_enable config with [] => "none" | l => join ", " l end.

(** ** Mounts only happen in a private namespace *)

Definition is_mount (c : ns_call) : bool :=
  match c with Mount _ _ _ _ _ | Umount _ => true | _ => false end.

(** [guarded tr]: a mount is only attempted after an [unshare] of the mount namespace that
    succeeded, and, but for the one that makes all mounts private, after that one
    succeeded. *)
Definition guarded (tr : ns_trace) : Prop :=
  ∀ i c ok, tr !! i = Some (c, ok) → is_mount c = true →
    ∃ j f, j < i ∧ tr !! j = Some (Unshare f, true) ∧ contains_flag f CLONE_NEWNS = true ∧
      (c = make_private ∨ ∃ k, j < k < i ∧ tr !! k = Some (make_private, true)).

(** The calls made, on success or failure. *)
Definition made (r : calls) : ns_trace := match r with Ok tr => tr | Err (_, tr) => tr end.

Section traces.
Context (call : ns_trace → ns_call → bool) (exists_path : string → bool).

(** [extends tr r]: the calls of [r] start with those of [tr]. *)
Definition extends (tr : ns_trace) (r : calls) : Prop := tr `prefix_of` made r.

Lemma try_extends c tr : tr `prefix_of` try_call call c tr.
Proof. by apply prefix_app_r. Qed.

Lemma must_extends c e tr : extends tr (must call c e tr).
Proof. unfold extends, must. destruct (call tr c); apply try_extends. Qed.

Lemma extends_refl tr : extends tr (Ok tr).
Proof. unfold extends. done. Qed.

Lemma extends_bind (r : calls) (k : ns_trace → calls) tr :
  extends tr r → (∀ tr', r = Ok tr' → extends tr' (k tr')) →
  extends tr (tr' <-? r; k tr').
Proof.
  intros Hr Hk. destruct r as [tr'|[e tr']]; [|exact Hr]. unfold extends in *. cbn in Hr.
  etrans; [exact Hr|]. by apply Hk.
Qed.

Lemma protect_extends config tr : extends tr (protect call exists_path config tr).
Proof.
  unfold protect. destruct (ns_protect_system config) as [p|]; [|apply extends_refl].
  destruct (String.eqb p "strict"); [apply must_extends|].
  destruct (String.eqb p "full"); [|apply extends_refl]. unfold extends. cbn [made foldl].
  assert (∀ (b : bool) c1 c2 tr, tr `prefix_of` (if b then try_call call c1 (try_call call c2 tr) else tr)) as H.
  { intros b c1 c2 tr'. destruct b; [|done]. etrans; apply try_extends. }
  etrans; apply H.
Qed.

Lemma bind_mounts_extends bms tr : extends tr (bind_mounts call exists_path bms tr).
Proof.
  revert tr. induction bms as [|bm bms IH]; intros tr; cbn [bind_mounts]; [apply extends_refl|].
  apply extends_bind; [|intros; apply IH]. unfold bind_mount.
  apply extends_bind; [destruct (exists_path _); [apply extends_refl|apply must_extends]|].
  intros tr' _. apply extends_bind; [apply must_extends|].
  intros tr'' _. destruct (bm_writable bm); [apply extends_refl|apply must_extends].
Qed.

(** What follows the first two calls. *)
Lemma guarded_prefix f ok rest :
  contains_flag f CLONE_NEWNS = true → (ok = false → rest = []) →
  guarded ((Unshare f, true) :: (make_private, ok) :: rest).
Proof.
  intros Hf Hok i c ok' Hi Hm. destruct i as [|[|i]]; cbn in Hi.
  - injection Hi as <- _. done.
  - injection Hi as <- _. exists 0, f. split_and!; [lia|done|done|by left].
  - exists 0, f. split_and!; [lia|done|done|]. right. exists 1. split; [lia|].
    destruct ok; [done|]. by rewrite Hok in Hi.
Qed.

(** Before the mount namespace there are no mounts. *)
Lemma guarded_unshare f ok : guarded [(Unshare f, ok)].
Proof. intros [|i] c ok' Hi; [injection Hi as <- _; done|done]. Qed.
End traces.

(** C30: Whichever system calls fail, every mount attempted while setting up namespaces
    comes after an unshare of the mount namespace that succeeded and after the remount that
    makes all mounts private succeeded, or is that private remount itself. *)
Theorem mounts_are_private call exists_path config :
  guarded (made (apply_namespaces call exists_path config)).
Proof.
  unfold apply_namespaces. set (flags := parse_namespace_flags (ns_enable config)).
  destruct (Z.eqb flags 0); [intros i c ok Hi; done|].
  unfold must at 1, try_call. destruct (call [] (Unshare flags)); cbn [app]; [|apply guarded_unshare].
  destruct (contains_flag flags CLONE_NEWNS) eqn:Ens.
  2: { destruct (contains_flag flags CLONE_NEWPID); apply guarded_unshare. }
  unfold setup_mount_namespace, must at 1, try_call. cbn [app].
  destruct (call [(Unshare flags, true)] make_private); [|by apply guarded_prefix].
  set (tr := [(Unshare flags, true); (make_private, true)]).
  assert (extends tr (tr0 <-? (tr0 <-? protect call exists_path config tr;
     tr1 <-? private_tmp call config tr0; bind_mounts call exists_path (ns_bind_mounts config) tr1);
     if contains_flag flags CLONE_NEWPID then remount_proc call tr0 else Ok tr0)) as [rest He].
  { apply extends_bind.
    - apply extends_bind; [apply protect_extends|]. intros tr1 _.
      apply extends_bind; [|intros; apply bind_mounts_extends].
      unfold private_tmp. destruct (ns_private_tmp config); [apply must_extends|apply extends_refl].
    - intros tr1 _. destruct (contains_flag flags CLONE_NEWPID); [|apply extends_refl].
      unfold extends, remount_proc. etrans; [apply (try_extends call)|apply must_extends]. }
  rewrite He. by apply guarded_prefix.
Qed.
