(* ===== verification/Spawn.v ===== *)
(** * Starting processes (process/spawn.rs)

    The parent's side of [spawn_service]: checks, environment, pipes, fork; and
    the child's: redirections, namespaces, working directory, privileges, exec. *)

From S2P Require Import Prelude RustStr Config World Namespace.

#[local] Open Scope Z_scope.
#[local] Open Scope list_scope.

Inductive SpawnError :=
| EmptyExec
| Fork (e : string)
| InvalidPath (path : string).

Record SpawnedProcess := {
  sp_pid : Z;
  sp_pidfd : option Z;
  sp_ready_fd : option Z;
}.

(** [CString::new]: an error when the text holds a zero byte. *)
Definition c_string (s : string) : option string :=
  if str_all (λ c, negb (Ascii.eqb Ascii.zero c)) s then Some s else None.

(** The lines of an environment file. *)
Definition env_line (env : gmap string string) (line : string) : gmap string string :=
  let line := trim line in
  if String.eqb line "" || starts_with "#" line then env
  else match split_once "=" line with
       | Some (key, value) => <[trim key := trim value]> env
       | None => env
       end.

Section spawn.
Context `{K : OS, HO : HashOrder}.

(** The environment of the child; [ready] is the readiness pipe. *)
Definition build_env (def : ServiceDef) (ready : option (Z * Z)) (o : os) : gmap string string :=
  let env := os_env o in
  let env := match ss_environment_file (sd_service def) with
             | Some file => match os_read_file file o with
                            | Some contents => foldl env_line env (lines contents)
                            | None => env
                            end
             | None => env
             end in
  let env := ss_environment (sd_service def) ∪ env in
  let env := match ready with
             | Some (_, write_end) => <["DYNAMOD_READY_FD" := to_string write_end]> env
             | None => env
             end in
  if decide (rd_readiness_type (sd_readiness def) = Notify)
  then <["NOTIFY_SOCKET" := String.append "/run/dynamod/notify-" (String.append (sd_name def) ".sock")]> env
  else env.

(** The environment block: entries with a zero byte are dropped. *)
Definition env_block (env : gmap string string) : list string :=
  omap (λ kv, c_string (String.append (fst kv) (String.append "=" (snd kv)))) (map_iter "env" env).

(** The first argument that is not a C string, or all of them. *)
Fixpoint c_args (args : list string) : result (list string) SpawnError :=
  match args with
  | [] => Ok []
  | a :: args =>
      match c_string a with
      | None => Err (InvalidPath a)
      | Some c => match c_args args with Ok cs => Ok (c :: cs) | Err e => Err e end
      end
  end.

(** The parent after the fork: close the write ends, keep the readiness read end. *)
Definition parent_after_fork (log_pipe ready_pipe : option (Z * Z)) (child : Z) (o : os)
    : SpawnedProcess * os :=
  let o := match log_pipe with Some (_, w) => os_close w o | None => o end in
  let '(ready_fd, o) := match ready_pipe with
                        | Some (r, w) => (Some r, os_close w o)
                        | None => (None, o)
                        end in
  let '(pidfd, o) := os_pidfd_open child o in
  ({| sp_pid := child; sp_pidfd := pidfd; sp_ready_fd := ready_fd |}, o).

Definition spawn_service (def : ServiceDef) (o : os) : result SpawnedProcess SpawnError * os :=
  match ss_exec (sd_service def) with
  | [] => (Err EmptyExec, o)
  | prog :: _ =>
      match c_string prog with
      | None => (Err (InvalidPath prog), o)
      | Some program =>
          match c_args (ss_exec (sd_service def)) with
          | Err e => (Err e, o)
          | Ok args =>
              let o0 := o in
              let '(ready_pipe, o) := if decide (rd_readiness_type (sd_readiness def) = Fd)
                                      then os_pipe o else (None, o) in
              let env := env_block (build_env def ready_pipe o0) in
              let '(log_pipe, o) := os_pipe o in
              match os_fork {| cp_program := program; cp_args := args; cp_env := env; cp_def := def;
                               cp_log_pipe := log_pipe; cp_ready_pipe := ready_pipe |} o with
              | (Err e, o) => (Err (Fork e), o)
              | (Ok child, o) => let '(sp, o) := parent_after_fork log_pipe ready_pipe child o in (Ok sp, o)
              end
          end
      end
  end.
End spawn.

(** ** Dropping privileges *)

(** The account database and the three calls; [false] is a failing call. *)
Inductive priv_call := Setgroups (gids : list Z) | Setgid (gid : Z) | Setuid (uid : Z).

Section privileges.
(** [User::from_name]: uid and primary gid; [Group::from_name]: gid.  [Err] is a
    failing lookup, [Ok None] an unknown name. *)
Variable user_from_name : string → result (option (Z * Z)) string.
Variable group_from_name : string → result (option Z) string.

(** A group given by number or by name. *)
Definition resolve_group (what name : string) : result Z string :=
  match parse_u32 name with
  | Some gid => Ok gid
  | None =>
      match group_from_name name with
      | Ok (Some gid) => Ok gid
      | Ok None => Err (String.append "unknown " (String.append what name))
      | Err e => Err e
      end
  end.

Fixpoint resolve_groups (names : list string) : result (list Z) string :=
  match names with
  | [] => Ok []
  | n :: names =>
      gid <-? resolve_group "supplementary group: " n;
      gids <-? resolve_groups names;
      Ok (gid :: gids)
  end.

(** The target user: uid, and its primary group when it was looked up by name. *)
Definition resolve_user (u : UserSection) : result (option (Z * option Z)) string :=
  match us_user u with
  | None => Ok None
  | Some name =>
      match parse_u32 name with
      | Some uid => Ok (Some (uid, None))
      | None =>
          match user_from_name name with
          | Ok (Some (uid, gid)) => Ok (Some (uid, Some gid))
          | Ok None => Err (String.append "unknown user: " name)
          | Err e => Err e
          end
      end
  end.

Definition resolve_target (u : UserSection) (user : option (Z * option Z))
    : result (option Z) string :=
  match us_group u with
  | Some group => gid <-? resolve_group "group: " group; Ok (Some gid)
  | None => Ok (match user with Some (_, gid) => gid | None => None end)
  end.

(** The calls made so far, and the outcome: the error ends the child.  [call]
    performs one call and says whether it succeeded. *)
Variable call : priv_call → bool.

Definition do_call (c : priv_call) (trace : list priv_call) : result (list priv_call) (list priv_call) :=
  if call c then Ok (trace ++ [c]) else Err (trace ++ [c]).

(** [drop_privileges]: the calls made, and whether it succeeded. *)
Definition drop_privileges (u : UserSection) : list priv_call * bool :=
  match resolve_user u with
  | Err _ => ([], false)
  | Ok user =>
      match resolve_groups (us_supplementary_groups u) with
      | Err _ => ([], false)
      | Ok gids =>
          match (if decide (gids = []) then Ok [] else do_call (Setgroups gids) []) with
          | Err tr => (tr, false)
          | Ok tr =>
              match resolve_target u user with
              | Err _ => (tr, false)
              | Ok target =>
                  match (match target with Some gid => do_call (Setgid gid) tr | None => Ok tr end) with
                  | Err tr => (tr, false)
                  | Ok tr =>
                      match (match user with Some (uid, _) => do_call (Setuid uid) tr | None => Ok tr end) with
                      | Err tr => (tr, false)
                      | Ok tr => (tr, true)
                      end
                  end
              end
          end
      end
  end.
End privileges.

(** ** The child *)

Inductive child_outcome :=
| ChildExit (code : Z)   (** it exited before the service was executed *)
| ChildExec.             (** it reached [execve] *)

Section child.
Variable user_from_name : string → result (option (Z * Z)) string.
Variable group_from_name : string → result (option Z) string.
Variable priv_ok : priv_call → bool.
Variable ns_ok : ns_trace → ns_call → bool.
Variable exists_path : string → bool.
(** Whether [dup2] of the log pipe succeeds on the two descriptors. *)
Variable dup_ok : bool.

Definition child_main (log_pipe : option (Z * Z)) (def : ServiceDef) : child_outcome :=
  match log_pipe, dup_ok with
  | Some _, false => ChildExit 126
  | _, _ =>
      match match sd_namespace def with
            | Some ns => apply_namespaces ns_ok exists_path ns
            | None => Ok []
            end with
      | Err _ => ChildExit 126
      | Ok _ =>
          match ss_user (sd_service def) with
          | Some u =>
              if snd (drop_privileges user_from_name group_from_name priv_ok u)
              then ChildExec else ChildExit 126
          | None => ChildExec
          end
      end
  end.

(** ** Privileges *)

(** The calls a user section asks for, once its names are resolved. *)
Definition wanted_calls (gids : list Z) (target : option Z) (user : option (Z * option Z))
    : list priv_call :=
  (if decide (gids = []) then [] else [Setgroups gids])
  ++ match target with Some gid => [Setgid gid] | None => [] end
  ++ match user with Some (uid, _) => [Setuid uid] | None => [] end.

Lemma drop_privileges_ok u tr :
  drop_privileges user_from_name group_from_name priv_ok u = (tr, true) →
  ∃ user gids target,
    resolve_user user_from_name u = Ok user ∧
    resolve_groups group_from_name (us_supplementary_groups u) = Ok gids ∧
    resolve_target group_from_name u user = Ok target ∧
    tr = wanted_calls gids target user ∧ Forall (λ c, priv_ok c = true) tr.
Proof.
  unfold drop_privileges, do_call, wanted_calls.
  destruct (resolve_user _ u) as [user|]; [|done].
  destruct (resolve_groups _ _) as [gids|]; [|done].
  destruct (decide (gids = [])); [|destruct (priv_ok (Setgroups gids)) eqn:E1; [|done]];
    (destruct (resolve_target _ u user) as [target|] eqn:Et; [|done]);
    (destruct target as [gid|]; [destruct (priv_ok (Setgid gid)) eqn:E2; [|done]|]);
    (destruct user as [[uid pg]|]; [destruct (priv_ok (Setuid uid)) eqn:E3; [|done]|]);
    intros [= <-]; eexists _, _, _; do 3 (split; [done|]);
    (split; [by repeat case_decide|]); repeat constructor; done.
Qed.

End child.

(** C29: A child with a user section reaches exec only if every privilege call (setgroups,
    setgid, setuid, in this order, with the resolved ids) succeeded and the namespaces of
    its configuration were set up; any failure exits before exec. *)
Theorem child_fails_closed user_from_name group_from_name priv_ok ns_ok exists_path dup_ok log_pipe def u :
  ss_user (sd_service def) = Some u →
  child_main user_from_name group_from_name priv_ok ns_ok exists_path dup_ok log_pipe def = ChildExec →
  (∃ tr user gids target,
     drop_privileges user_from_name group_from_name priv_ok u = (tr, true) ∧
     resolve_user user_from_name u = Ok user ∧
     resolve_groups group_from_name (us_supplementary_groups u) = Ok gids ∧
     resolve_target group_from_name u user = Ok target ∧
     tr = wanted_calls gids target user ∧ Forall (λ c, priv_ok c = true) tr) ∧
  (∀ ns, sd_namespace def = Some ns → ∃ calls, apply_namespaces ns_ok exists_path ns = Ok calls).
Proof.
  intros Hu Hc. unfold child_main in Hc. rewrite Hu in Hc. split.
  - destruct (drop_privileges user_from_name group_from_name priv_ok u) as [tr ok] eqn:E.
    cbn [snd] in Hc. assert (ok = true) as ->.
    { destruct log_pipe, dup_ok; try done;
        (destruct (match sd_namespace def with Some _ => _ | None => _ end); [|done]); by destruct ok. }
    destruct (drop_privileges_ok _ _ _ _ _ E) as (user & gids & target & H). eauto 10.
  - intros ns Hns. rewrite Hns in Hc. destruct (apply_namespaces ns_ok exists_path ns) as [cs|]; [eauto|].
    destruct log_pipe, dup_ok; done.
Qed.

Definition web_user : UserSection :=
  {| us_user := Some "www"%string; us_group := None; us_supplementary_groups := ["7"%string] |}.
Definition web_def : ServiceDef :=
  let d := minimal_service "web" ["/bin/web"%string] in
  {| sd_service := {| ss_name := "web"; ss_supervisor := "root"; ss_exec := ["/bin/web"%string];
       ss_workdir := None; ss_service_type := Simple; ss_environment := ∅;
       ss_environment_file := None; ss_user := Some web_user |};
     sd_restart := sd_restart d; sd_readiness := sd_readiness d;
     sd_dependencies := sd_dependencies d; sd_cgroup := None; sd_namespace := None;
     sd_shutdown := sd_shutdown d |}.
Definition web_accounts (name : string) : result (option (Z * Z)) string :=
  Ok (if String.eqb name "www" then Some (33, 34) else None).

Lemma child_fails_closed_witness :
  ∃ tr, drop_privileges web_accounts (λ _, Ok None) (λ _, true) web_user = (tr, true) ∧
    tr = [Setgroups [7]; Setgid 34; Setuid 33].
Proof.
  destruct (child_fails_closed web_accounts (λ _, Ok None) (λ _, true) (λ _ _, true) (λ _, true) true
    None web_def web_user eq_refl eq_refl) as [(tr & user & gids & target & Htr & _) _].
  exists tr. split; [exact Htr|]. vm_compute in Htr. injection Htr as <-. reflexivity.
Defined.

(** A user given by number has no primary group: without an explicit group and
    without supplementary groups, the child keeps the group ids it was born with. *)
Example numeric_user_keeps_group :
  drop_privileges web_accounts (λ _, Ok None) (λ _, true)
    {| us_user := Some "1000"%string; us_group := None; us_supplementary_groups := [] |}
  = ([Setuid 1000], true).
Proof. vm_compute. reflexivity. Qed.

(** ** The environment *)

(** The variable a line sets, if it sets one. *)
Definition env_assignment (line : string) : option (string * string) :=
  let line := trim line in
  if String.eqb line "" || starts_with "#" line then None
  else match split_once "=" line with Some (k, v) => Some (trim k, trim v) | None => None end.

(** The last assignment to [k] in a list of lines. *)
Definition last_assignment (k : string) (ls : list string) : option string :=
  last (omap (λ l, match env_assignment l with
                   | Some (k', v) => if decide (k' = k) then Some v else None
                   | None => None end) ls).

Lemma env_lines_lookup ls env k :
  foldl env_line env ls !! k =
  match last_assignment k ls with Some v => Some v | None => env !! k end.
Proof.
  revert env. induction ls as [|l ls IH] using rev_ind; intros env; [done|].
  rewrite foldl_snoc. unfold last_assignment. rewrite omap_app. cbn [omap list_omap].
  unfold env_line, env_assignment. destruct (_ || _); [by rewrite app_nil_r; apply IH|].
  destruct (split_once "=" (trim l)) as [[k' v]|]; [|by rewrite app_nil_r; apply IH].
  rewrite lookup_insert. destruct (decide (trim k' = k)).
  - by rewrite last_snoc.
  - rewrite app_nil_r. apply IH.
Qed.

(** The environment of a service without the reserved variables: its own table wins over the
    last assignment in its environment file, which wins over the manager's environment. *)
Theorem env_precedence `{K : OS} def o k :
  k ≠ "DYNAMOD_READY_FD"%string → k ≠ "NOTIFY_SOCKET"%string →
  build_env def None o !! k =
  match ss_environment (sd_service def) !! k with
  | Some v => Some v
  | None =>
      match (f ← ss_environment_file (sd_service def); c ← os_read_file f o;
             last_assignment k (lines c)) with
      | Some v => Some v
      | None => os_env o !! k
      end
  end.
Proof.
  intros H1 H2. unfold build_env.
  assert (∀ m : gmap string string, (if decide (rd_readiness_type (sd_readiness def) = Notify)
    then <["NOTIFY_SOCKET" := String.append "/run/dynamod/notify-" (String.append (sd_name def) ".sock")]> m
    else m) !! k = m !! k) as -> by (intros m; case_decide; [by rewrite lookup_insert_ne|done]).
  rewrite lookup_union. destruct (ss_environment (sd_service def) !! k) as [v|].
  - destruct (_ !! k); done.
  - rewrite (left_id_L None _). destruct (ss_environment_file _) as [f|]; [|done]. cbn [mbind option_bind].
    destruct (os_read_file f o) as [c|]; [|done]. cbn [mbind option_bind]. apply env_lines_lookup.
Qed.
Lemma env_precedence_witness :
  let o := {| sc_clock := 0; sc_wait := []; sc_pids := []; sc_live := ∅; sc_history := [];
              sc_files := {[ "/env" := "A=1
# comment
A = 2"%string ]} |} in
  let d := minimal_service "x" ["/bin/x"%string] in
  let d := {| sd_service := {| ss_name := "x"; ss_supervisor := "root"; ss_exec := ["/bin/x"%string];
                ss_workdir := None; ss_service_type := Simple; ss_environment := ∅;
                ss_environment_file := Some "/env"%string; ss_user := None |};
              sd_restart := sd_restart d; sd_readiness := sd_readiness d;
              sd_dependencies := sd_dependencies d; sd_cgroup := None; sd_namespace := None;
              sd_shutdown := sd_shutdown d |} in
  build_env (K := scripted) d None o !! "A"%string = Some "2"%string.
Proof.
  intros o d0 d. rewrite (env_precedence (K := scripted) d o "A"); [|discriminate|discriminate].
  vm_compute. reflexivity.
Defined.

(** ** The parent *)

Section spawn_laws.
Context `{L : FiniteExits, HO : HashOrder}.

Lemma parent_after_fork_spec lp rp child o :
  frame o (parent_after_fork lp rp child o).2 ∧
  sp_pid (parent_after_fork lp rp child o).1 = child ∧
  sp_ready_fd (parent_after_fork lp rp child o).1 = fst <$> rp.
Proof.
  unfold parent_after_fork. set (o1 := match lp with Some _ => _ | None => _ end).
  assert (frame o o1) as H1 by (unfold o1; destruct lp as [[]|]; auto with dynamod; reflexivity).
  set (p := match rp with Some _ => _ | None => _ end).
  assert (frame o1 p.2 ∧ p.1 = fst <$> rp) as [H2 Hr].
  { unfold p. destruct rp as [[]|]; cbn; auto with dynamod. split; [reflexivity|done]. }
  destruct p as [rfd o2]. cbn in H2, Hr. pose proof (pidfd_frame child o2) as H3.
  destruct (os_pidfd_open child o2) as [pfd o3]. cbn in *. split; [|done].
  etrans; [exact H1|]. by etrans.
Qed.

(** A command that can be executed: it names a program, and no argument holds a zero byte. *)
Definition runnable (def : ServiceDef) : bool :=
  match ss_exec (sd_service def) with [] => false | args => forallb (λ a, negb (has_nul a)) args end.

(** What a service's child is to run. *)
Definition plan_for (def : ServiceDef) (plan : child_plan) : Prop :=
  cp_def plan = def ∧ cp_args plan = ss_exec (sd_service def) ∧
  head (ss_exec (sd_service def)) = Some (cp_program plan).

Lemma c_string_spec s : c_string s = if has_nul s then None else Some s.
Proof.
  unfold c_string. assert (str_all (λ c, negb (Ascii.eqb Ascii.zero c)) s = negb (has_nul s)) as ->;
    [|by destruct (has_nul s)].
  induction s as [|c s IH]; [done|]. rewrite has_nul_cons. cbn [str_all]. rewrite IH. by rewrite negb_orb.
Qed.

Lemma c_args_spec args :
  match c_args args with
  | Ok cs => cs = args ∧ forallb (λ a, negb (has_nul a)) args = true
  | Err _ => forallb (λ a, negb (has_nul a)) args = false
  end.
Proof.
  induction args as [|a args IH]; [done|]. cbn. rewrite c_string_spec. destruct (has_nul a); [done|]. cbn.
  destruct (c_args args) as [cs|e]; [|done]. by destruct IH as [-> ?].
Qed.

(** A spawn adds the child it forked, or leaves the processes as they are: the fork failed,
    or the command cannot be executed and nothing was forked. *)
Lemma spawn_service_spec def o :
  let '(r, o') := spawn_service def o in
  (events o' ≤ events o)%nat ∧ clock o ≤ clock o' ∧
  match r with
  | Ok sp => (sp_pid sp ∉ live o) ∧ live o' = {[sp_pid sp]} ∪ live o ∧
      ∃ plan, plan_for def plan ∧ history o' = history o ++ [Forked plan (Ok (sp_pid sp))]
  | Err _ => live o' = live o ∧
      (runnable def = false ∧ history o' = history o ∨
       ∃ plan e, plan_for def plan ∧ history o' = history o ++ [Forked plan (Err e)])
  end.
Proof.
  unfold spawn_service, runnable. destruct (ss_exec (sd_service def)) as [|prog rest] eqn:E;
    [split_and!; (done || lia || by left)|].
  rewrite c_string_spec. destruct (has_nul prog) eqn:En.
  { cbn [forallb]. rewrite En. split_and!; (done || lia || by left). }
  pose proof (c_args_spec (prog :: rest)) as Ha.
  destruct (c_args _) as [args|]; [destruct Ha as [-> Ha]|split_and!; (done || lia || by left)].
  set (p := if decide (rd_readiness_type (sd_readiness def) = Fd) then os_pipe o else (None, o)).
  assert (frame o p.2) as H1 by (unfold p; case_decide; [auto with dynamod|reflexivity]).
  destruct p as [rp o1]. cbn in H1. pose proof (pipe_frame o1) as H2.
  destruct (os_pipe o1) as [lp o2]. cbn in H2.
  assert (frame o o2) as (Hl & He & Hk & Hc) by (by etrans). clear H1 H2.
  set (plan := {| cp_program := _ |}). pose proof (fork_law plan o2) as (He3 & Hk3 & Hc3 & Hf).
  assert (plan_for def plan) as Hplan by (unfold plan_for; by rewrite E).
  destruct (os_fork plan o2) as [[child|e] o3]; cbn [fst snd] in *.
  - pose proof (parent_after_fork_spec lp rp child o3) as (Hfr & Hp & _).
    destruct (parent_after_fork lp rp child o3) as [sp o4]. cbn [fst snd] in *.
    destruct Hfr as (Hl4 & He4 & Hk4 & Hc4). rewrite Hp, Hl4, Hk4, Hk3, Hk. rewrite Hl in Hf.
    split; [lia|]. split; [lia|]. destruct Hf. split_and!; try done. by exists plan.
  - rewrite Hk3, Hk, Hf. split; [lia|]. split; [lia|]. split; [done|]. right. by exists plan, e.
Qed.
End spawn_laws.
