(* ===== verification/Monad.v ===== *)
(** * The manager's effects

    A computation on a state that may return, exit the process, panic, or need
    more rounds of a loop than it was given, with its rules of total correctness. *)

From S2P Require Import Prelude.

Inductive out (S A : Type) :=
| Ret (a : A) (s : S)
| ProcExit (code : Z) (s : S)
| Panic
| OutOfFuel.
Arguments Ret {S A} a s.
Arguments ProcExit {S A} code s.
Arguments Panic {S A}.
Arguments OutOfFuel {S A}.

Definition St (S A : Type) : Type := S → out S A.

#[export] Instance St_ret S : MRet (St S) := λ A a s, Ret a s.
#[export] Instance St_bind S : MBind (St S) := λ A B k m s,
  match m s with
  | Ret a s => k a s
  | ProcExit c s => ProcExit c s
  | Panic => Panic
  | OutOfFuel => OutOfFuel
  end.

Definition gets {S A} (f : S → A) : St S A := λ s, Ret (f s) s.
Definition modify {S} (f : S → S) : St S unit := λ s, Ret () (f s).
Definition exit {S A} (code : Z) : St S A := λ s, ProcExit code s.
Definition panic {S A} : St S A := λ _, Panic.
Definition out_of_fuel {S A} : St S A := λ _, OutOfFuel.
Definition unwrap {S A} (o : option A) : St S A :=
  match o with Some a => mret a | None => panic end.

(** A loop over a list. *)
Fixpoint for_each {S A} (l : list A) (body : A → St S unit) : St S unit :=
  match l with
  | [] => mret ()
  | a :: l => body a ;; for_each l body
  end.

(** A computation on a part of the state. *)
Definition zoom {S T A} (get : T → S) (put : S → T → T) (m : St S A) : St T A := λ t,
  match m (get t) with
  | Ret a s => Ret a (put s t)
  | ProcExit c s => ProcExit c (put s t)
  | Panic => Panic
  | OutOfFuel => OutOfFuel
  end.

(** ** Total correctness

    [total P R m]: from every state in [P], [m] returns, in a state of [P] related
    by [R] to the first. *)

Section total.
Context {S : Type} (P : S → Prop) (R : S → S → Prop) `{!PreOrder R}.

Definition total_at {A} (m : St S A) (s : S) : Prop :=
  match m s with Ret _ s' => R s s' ∧ P s' | _ => False end.
Definition total {A} (m : St S A) : Prop := ∀ s, P s → total_at m s.

Lemma total_ret {A} (a : A) : total (mret a).
Proof. intros s Hs. unfold total_at. cbn. split; [reflexivity|done]. Qed.

Lemma total_gets {A} (f : S → A) : total (gets f).
Proof. intros s Hs. unfold total_at. cbn. split; [reflexivity|done]. Qed.

Lemma total_at_bind {A B} (m : St S A) (k : A → St S B) s :
  total_at m s → (∀ a s', m s = Ret a s' → R s s' → P s' → total_at (k a) s') →
  total_at (m ≫= k) s.
Proof.
  unfold total_at, mbind, St_bind. destruct (m s) as [a s'| | |]; try done. intros [HR HP] Hk.
  specialize (Hk a s' eq_refl HR HP). destruct (k a s') as [b s''| | |]; try done.
  destruct Hk. split; [by etrans|done].
Qed.

Lemma total_at_step {A B} (m : St S A) (k : A → St S B) s a s' :
  m s = Ret a s' → R s s' → total_at (k a) s' → total_at (m ≫= k) s.
Proof.
  unfold total_at, mbind, St_bind. intros -> HR Hk. destruct (k a s'); try done.
  destruct Hk. split; [by etrans|done].
Qed.

Lemma total_bind {A B} (m : St S A) (k : A → St S B) :
  total m → (∀ a, total (k a)) → total (m ≫= k).
Proof. intros Hm Hk s Hs. apply total_at_bind; [by apply Hm|]. intros a s' _ _ Hs'. by apply Hk. Qed.

Lemma total_modify f : (∀ s, P s → R s (f s) ∧ P (f s)) → total (modify f).
Proof. intros Hf s Hs. by apply Hf. Qed.

Lemma total_for_each {A} (l : list A) body :
  (∀ a, total (body a)) → total (for_each l body).
Proof.
  intros Hb. induction l as [|a l IH]; cbn [for_each]; [apply total_ret|]. by apply total_bind.
Qed.
End total.

(** Compose the cases above; what is left are the primitive steps. *)
Ltac total_tac :=
  repeat match goal with
    | |- total _ _ (mret _) => apply total_ret; apply _
    | |- total _ _ (gets _) => apply total_gets; apply _
    | |- total _ _ (_ ≫= _) => apply total_bind; [apply _| |intros ?]
    | |- total _ _ (for_each _ _) => apply total_for_each; [apply _|intros ?]
    | |- total _ _ (match ?x with _ => _ end) => destruct x eqn:?
    end.

(** Turn a goal at a state in [P], by [H], into one at every state. *)
Ltac total_from H :=
  match goal with
  | |- total_at ?P ?R ?m ?s => refine ((λ Ht : total P R m, Ht s H) _)
  end.

(** A computation that keeps to a finer relation keeps to a coarser one. *)
Lemma total_weaken {S A} (P P' : S → Prop) (R R' : S → S → Prop) (m : St S A) :
  total P R m → (∀ s, P' s → P s) → (∀ s s', P' s → R s s' → P s' → R' s s' ∧ P' s') → total P' R' m.
Proof.
  intros Hm HP HR s Hs. specialize (Hm s (HP s Hs)). unfold total_at in *.
  destruct (m s); try done. destruct Hm. eauto.
Qed.

Lemma total_at_weaken {S A} (P P' : S → Prop) (R : S → S → Prop) (m : St S A) s :
  total_at P R m s → (∀ s, P s → P' s) → total_at P' R m s.
Proof. unfold total_at. destruct (m s); try done. intros [? ?] HP. eauto. Qed.

(** ** Weakest preconditions

    [wp X m Q s]: from [s], [m] returns with a value and state in [Q], or panics
    and [X] holds. *)

Definition wp {S A} (X : Prop) (m : St S A) (Q : A → S → Prop) (s : S) : Prop :=
  match m s with Ret a s' => Q a s' | Panic => X | _ => False end.

Lemma wp_bind {S A B} X (m : St S A) (k : A → St S B) Q s :
  wp X m (λ a, wp X (k a) Q) s → wp X (m ≫= k) Q s.
Proof. unfold wp, mbind, St_bind. by destruct (m s). Qed.

Lemma wp_mono {S A} X (m : St S A) (Q Q' : A → S → Prop) s :
  wp X m Q s → (∀ a s', Q a s' → Q' a s') → wp X m Q' s.
Proof. unfold wp. destruct (m s); auto. Qed.

Lemma wp_unwrap {S A} (X : Prop) (o : option A) (Q : A → S → Prop) s :
  (o = None → X) → (∀ a, o = Some a → Q a s) → wp X (unwrap o) Q s.
Proof. unfold wp, unwrap. destruct o; cbn; auto. Qed.

Lemma wp_total {S A} X P R (m : St S A) s :
  total_at P R m s → wp X m (λ _ s', R s s' ∧ P s') s.
Proof. unfold wp, total_at. by destruct (m s). Qed.

Lemma wp_Ret {S A} X (m : St S A) (Q : A → S → Prop) s a s' : wp X m Q s → m s = Ret a s' → Q a s'.
Proof. unfold wp. intros H E. by rewrite E in H. Qed.

(** The state a run ends in, and the check that it returned. *)
Definition final_state {S A} (o : out S A) (d : S) : S :=
  match o with Ret _ s | ProcExit _ s => s | _ => d end.
Definition is_ret {S A} (o : out S A) : bool := match o with Ret _ _ => true | _ => false end.

Lemma is_ret_final {S} (o : out S ()) d : is_ret o = true → o = Ret () (final_state o d).
Proof. by destruct o as [[]| | |]. Qed.

(** [wpx X m Q s]: as [wp], where [X] also allows [m] to exit the process. *)
Definition wpx {S A} (X : Prop) (m : St S A) (Q : A → S → Prop) (s : S) : Prop :=
  match m s with Ret a s' => Q a s' | ProcExit _ _ | Panic => X | OutOfFuel => False end.

Lemma wpx_bind {S A B} X (m : St S A) (k : A → St S B) Q s :
  wpx X m (λ a, wpx X (k a) Q) s → wpx X (m ≫= k) Q s.
Proof. unfold wpx, mbind, St_bind. by destruct (m s). Qed.

Lemma wpx_gets {S A B} X (f : S → A) (k : A → St S B) Q s :
  wpx X (k (f s)) Q s → wpx X (gets f ≫= k) Q s.
Proof. done. Qed.

Lemma wpx_modify {S B} X f (k : () → St S B) Q s :
  wpx X (k ()) Q (f s) → wpx X (modify f ≫= k) Q s.
Proof. done. Qed.

Lemma wpx_mono {S A} X (m : St S A) (Q Q' : A → S → Prop) s :
  wpx X m Q s → (∀ a s', Q a s' → Q' a s') → wpx X m Q' s.
Proof. unfold wpx. destruct (m s); auto. Qed.

Lemma wp_wpx {S A} X (m : St S A) (Q : A → S → Prop) s : wp X m Q s → wpx X m Q s.
Proof. unfold wp, wpx. by destruct (m s). Qed.

Lemma wpx_total {S A} X P R (m : St S A) s :
  total_at P R m s → wpx X m (λ _ s', R s s' ∧ P s') s.
Proof. intros H. by apply wp_wpx, wp_total. Qed.

Lemma wpx_zoom {S T A} X (get : T → S) (put : S → T → T) (m : St S A) (Q : A → T → Prop) t :
  wpx X m (λ a s, Q a (put s t)) (get t) → wpx X (zoom get put m) Q t.
Proof. unfold wpx, zoom. by destruct (m (get t)). Qed.

(** A loop whose body keeps an invariant of the elements left. *)
Lemma wpx_for_each {S A} X (I : list A → S → Prop) (l : list A) body s :
  (∀ a l s, I (a :: l) s → wpx X (body a) (λ _, I l) s) → I l s →
  wpx X (for_each l body) (λ _, I []) s.
Proof.
  intros Hb. revert s. induction l as [|a l IH]; intros s Hi; [done|]. cbn [for_each].
  apply wpx_bind. eapply wpx_mono; [by apply Hb|]. intros ? s'. apply IH.
Qed.

Lemma wpx_Ret {S A} X (m : St S A) (Q : A → S → Prop) s a s' : wpx X m Q s → m s = Ret a s' → Q a s'.
Proof. unfold wpx. intros H E. by rewrite E in H. Qed.

Definition ret_value {S A} (o : out S A) : option A := match o with Ret a _ => Some a | _ => None end.

Lemma ret_final {S A} (o : out S A) d a : ret_value o = Some a → o = Ret a (final_state o d).
Proof. destruct o; try done. by intros [= ->]. Qed.

Lemma wpx_returns {S A} (m : St S A) (Q : A → S → Prop) s :
  wpx False m Q s → ∃ a s', m s = Ret a s' ∧ Q a s'.
Proof. unfold wpx. destruct (m s); try done. eauto. Qed.
