(* ===== verification/Manager.v ===== *)
(** * Starting, stopping and reaping (dynamod-svmgr/src/main.rs)

    The manager's state, the functions that start and stop a worker, and the
    reaping loop, which restarts what exited according to the strategies.
    [reap_and_handle_exits], [handle_child_exit] and [execute_strategy_action] call
    each other: the two latter take the reaping loop as an argument, and the loop
    is given a number of rounds; each round is one [waitpid] that reported an
    event, so [events] of the system plus one rounds are enough. *)

From S2P Require Import Prelude RustStr Config World Cgroup Spawn Namespace Intensity Tree Strategy.
From S2P Require Import Monad.

#[local] Open Scope Z_scope.
#[local] Open Scope list_scope.

Section manager.
Context `{K : OS, HO : HashOrder}.

Record Mgr := {
  mg_tree : SupervisorTree;
  mg_monitor : CgroupMonitor;
  mg_os : os;
}.

Definition with_tree (t : SupervisorTree) (s : Mgr) : Mgr :=
  {| mg_tree := t; mg_monitor := mg_monitor s; mg_os := mg_os s |}.
Definition with_monitor (m : CgroupMonitor) (s : Mgr) : Mgr :=
  {| mg_tree := mg_tree s; mg_monitor := m; mg_os := mg_os s |}.
Definition with_os (o : os) (s : Mgr) : Mgr :=
  {| mg_tree := mg_tree s; mg_monitor := mg_monitor s; mg_os := o |}.

Definition M : Type → Type := St Mgr.

(** A system call, an update of the tree. *)
Definition sys {A} (f : os → A * os) : M A := λ s, let '(a, o) := f (mg_os s) in Ret a (with_os o s).
Definition sys_ (f : os → os) : M unit := modify (λ s, with_os (f (mg_os s)) s).
Definition on_tree (f : SupervisorTree → SupervisorTree) : M unit :=
  modify (λ s, with_tree (f (mg_tree s)) s).

(** [std::thread::sleep] with a number of milliseconds or seconds. *)
Definition sleep_millis (ms : Z) : M unit := sys_ (os_sleep (ms * 1000000)).
Definition sleep_secs (secs : Z) : M unit := sys_ (os_sleep (from_secs secs)).

(** The cgroup hierarchy, when the system has one. *)
Variable hierarchy : option CgroupHierarchy.

(** ** start_worker *)

Definition setup_cgroup (worker_id : string) (def : ServiceDef) : M (option string) :=
  match hierarchy, sd_cgroup def with
  | Some h, Some cg =>
      r ← sys (create_service_cgroup h worker_id);
      match r with
      | Ok path => _ ← sys (apply_limits path cg); mret (Some path)
      | Err _ => mret None
      end
  | _, _ => mret None
  end.

Definition cleanup_cgroup (worker_id : string) : M unit :=
  match hierarchy with
  | Some h => _ ← sys (remove_service_cgroup h worker_id); mret ()
  | None => mret ()
  end.

Definition attach_cgroup (worker_id : string) (pid : Z) (cgroup_path : option string) : M unit :=
  match hierarchy, cgroup_path with
  | Some h, Some _ =>
      _ ← sys (add_process h worker_id (wrap_u32 pid));
      modify (λ s, with_monitor (watch worker_id (service_path h worker_id) (mg_os s) (mg_monitor s)) s)
  | _, _ => mret ()
  end.

Definition start_worker (worker_id : string) : M (option Z) :=
  t ← gets mg_tree;
  match get_worker t worker_id with
  | None => mret None
  | Some w =>
      let def := wn_def w in
      cgroup_path ← setup_cgroup worker_id def;
      r ← sys (spawn_service def);
      match r with
      | Ok spawned =>
          let pid := sp_pid spawned in
          on_tree (register_pid worker_id pid) ;;
          on_tree (update_worker (set_state Running) worker_id) ;;
          attach_cgroup worker_id pid cgroup_path ;;
          mret (sp_ready_fd spawned)
      | Err _ =>
          on_tree (update_worker (set_state (Failed None None)) worker_id) ;;
          cleanup_cgroup worker_id ;;
          mret None
      end
  end.

(** ** stop_worker *)

Definition stop_worker (worker_id : string) : M unit :=
  t ← gets mg_tree;
  match get_worker t worker_id with
  | None => mret ()
  | Some w =>
      match wn_pid w with
      | None => mret ()
      | Some pid =>
          _ ← sys (os_kill pid SIGTERM);
          on_tree (update_worker (set_state (Stopping None)) worker_id)
      end
  end.

(** ** execute_strategy_action *)

Definition stop_child (child_id : string) : M unit :=
  t ← gets mg_tree;
  match get t child_id with
  | Some (Worker w) => if is_running (wn_state w) then stop_worker child_id else mret ()
  | _ => mret ()
  end.

(** The restart delay of the worker, then the start. *)
Definition restart_child (child_id : string) : M unit :=
  t ← gets mg_tree;
  match get_worker t child_id with
  | Some w =>
      let delay := default 1 (parse_duration_secs (rs_delay (sd_restart (wn_def w)))) in
      if 0 <? delay then sleep_secs delay else mret ()
  | None => mret ()
  end ;;
  _ ← start_worker child_id;
  mret ().

Definition execute_strategy_action (reap : M unit) (action : StrategyAction) : M unit :=
  for_each (to_stop action) stop_child ;;
  (if bool_decide (to_stop action = []) then mret () else sleep_millis 100 ;; reap) ;;
  for_each (to_start action) restart_child.

(** ** handle_child_exit *)

(** Whether [apply_strategy] gets to recording a restart, which reads the clock. *)
Definition records_restart (t : SupervisorTree) (sup child : string) (e : ExitInfo) : bool :=
  match get t sup, get_worker t child with
  | Some (Supervisor _), Some w => should_restart (wn_restart_policy w) e
  | _, _ => false
  end.

(** [apply_strategy] and [escalate_failure] with the clock they read. *)
Definition run_strategy (sup child : string) (e : ExitInfo) : M StrategyAction :=
  t ← gets mg_tree;
  now ← (if records_restart t sup child e then sys os_now else mret 0);
  let '(action, t) := apply_strategy now t sup child e in
  on_tree (λ _, t) ;; mret action.

Definition run_escalation (sup : string) : M (option (string * StrategyAction)) :=
  t ← gets mg_tree;
  now ← match parent_of t sup with
        | Some p => if records_restart t p sup {| exit_code := None; signal := None |}
                    then sys os_now else mret 0
        | None => mret 0
        end;
  let '(r, t) := escalate_failure now t sup in
  on_tree (λ _, t) ;; mret r.

Definition clear_exited (exit_info : ExitInfo) (w : WorkerNode) : WorkerNode :=
  set_state (exit_state exit_info) (set_pid None w).

(** What follows the update of the worker: the strategy of its supervisor. *)
Definition supervise_exit (reap : M unit) (worker_id : string) (exit_info : ExitInfo) : M unit :=
  modify (λ s, with_monitor (unwatch worker_id (mg_monitor s)) s) ;;
  cleanup_cgroup worker_id ;;
  t ← gets mg_tree;
  match parent_of t worker_id with
  | None => mret ()
  | Some supervisor_id =>
      action ← run_strategy supervisor_id worker_id exit_info;
      if supervisor_failed action then
        r ← run_escalation supervisor_id;
        match r with
        | Some (_, parent_action) => execute_strategy_action reap parent_action
        | None => mret ()
        end
      else execute_strategy_action reap action
  end.

Definition handle_child_exit (reap : M unit) (pid : Z) (exit_info : ExitInfo) : M unit :=
  t ← gets mg_tree;
  let '(found, t) := unregister_pid pid t in
  on_tree (λ _, t) ;;
  match found with
  | None => mret ()
  | Some worker_id =>
      on_tree (update_worker (clear_exited exit_info) worker_id) ;;
      supervise_exit reap worker_id exit_info
  end.

(** ** reap_and_handle_exits *)

Fixpoint reap_and_handle_exits (fuel : nat) : M unit :=
  match fuel with
  | O => out_of_fuel
  | S fuel =>
      r ← sys (os_waitpid None);
      match r with
      | Exited pid code =>
          handle_child_exit (reap_and_handle_exits fuel) pid
            {| exit_code := Some code; signal := None |} ;;
          reap_and_handle_exits fuel
      | Signaled pid sig =>
          handle_child_exit (reap_and_handle_exits fuel) pid
            {| exit_code := None; signal := Some sig |} ;;
          reap_and_handle_exits fuel
      | EINTR => reap_and_handle_exits fuel
      | StillAlive | ECHILD | OtherWait => mret ()
      end
  end.
End manager.
