(* ===== verification/ManagerFacts.v ===== *)
(** * Facts about starting, stopping and reaping

    Every function of the manager keeps the invariant [mgr_ok] (the tree is well
    formed, the registered process ids are those of children not yet waited for),
    keeps the shape of the tree, and returns. *)

From S2P Require Import Prelude Config World Cgroup Spawn Intensity Tree Strategy Monad Manager.

#[local] Open Scope list_scope.

Section facts.
Context `{L : FiniteExits, HO : HashOrder}.
Context (hierarchy : option CgroupHierarchy).

(** The registered process ids are those of live children. *)
Definition mgr_ok (s : Mgr) : Prop :=
  tree_ok (mg_tree s) ∧ ∀ p id, pid_map (mg_tree s) !! p = Some id → p ∈ live (mg_os s).

(** With at most [n] more events. *)
Definition mgr_in (n : nat) (s : Mgr) : Prop := mgr_ok s ∧ events (mg_os s) ≤ n.

(** What a step of the manager may change. *)
Definition mstep (s s' : Mgr) : Prop :=
  same_shape (mg_tree s') (mg_tree s) ∧ events (mg_os s') ≤ events (mg_os s) ∧
  (clock (mg_os s) ≤ clock (mg_os s'))%Z.

(** A step that leaves the tree and the processes alone. *)
Definition ostep (s s' : Mgr) : Prop := mg_tree s' = mg_tree s ∧ frame (mg_os s) (mg_os s').

#[export] Instance mstep_preorder : PreOrder mstep.
Proof.
  split.
  - intros s. unfold mstep. split; [reflexivity|]. lia.
  - intros s1 s2 s3 (H1 & H2 & H3) (H4 & H5 & H6). unfold mstep. split; [by etrans|]. lia.
Qed.
#[export] Instance ostep_preorder : PreOrder ostep.
Proof.
  split.
  - intros s. split; [done|reflexivity].
  - intros s1 s2 s3 [H1 H2] [H3 H4]. split; [congruence|by etrans].
Qed.

Lemma ostep_ok n s s' : ostep s s' → mgr_in n s → mstep s s' ∧ mgr_in n s'.
Proof.
  intros [Ht (Hl & He & _ & Hc)] [[Hok Hp] Hn]. unfold mstep, mgr_in, mgr_ok. rewrite Ht, Hl.
  split; [split; [reflexivity|lia]|]. split; [done|lia].
Qed.

Lemma ostep_total {A} n (m : M A) : total (λ _, True) ostep m → total (mgr_in n) mstep m.
Proof.
  intros Hm. eapply total_weaken; [exact Hm|done|]. intros s s' Hs Hst _. by eapply ostep_ok.
Qed.

Lemma sys_total {A} (f : os → A * os) : (∀ o, frame o (f o).2) → total (λ _, True) ostep (sys f).
Proof.
  intros Hf s _. unfold total_at, sys. specialize (Hf (mg_os s)). destruct (f (mg_os s)). done.
Qed.

Lemma sys__total (f : os → os) : (∀ o, frame o (f o)) → total (λ _, True) ostep (sys_ f).
Proof. intros Hf. apply total_modify. intros s _. done. Qed.

Lemma monitor_total f : total (λ _, True) ostep (modify (λ s, with_monitor (f s) s)).
Proof. apply total_modify. intros s _. split; [split; [done|reflexivity]|done]. Qed.

Lemma setup_cgroup_total id def : total (λ _, True) ostep (setup_cgroup hierarchy id def).
Proof. unfold setup_cgroup. total_tac; apply sys_total; auto with dynamod. Qed.

Lemma cleanup_cgroup_total id : total (λ _, True) ostep (cleanup_cgroup hierarchy id).
Proof. unfold cleanup_cgroup. total_tac. apply sys_total. auto with dynamod. Qed.

Lemma attach_cgroup_total id p c : total (λ _, True) ostep (attach_cgroup hierarchy id p c).
Proof. unfold attach_cgroup. total_tac; [apply sys_total; auto with dynamod|apply monitor_total]. Qed.

Lemma sleep_total d : total (λ _, True) ostep (sys_ (os_sleep d)).
Proof. apply sys__total. auto with dynamod. Qed.

(** An update of the tree that keeps its shape and its process ids. *)
Lemma on_tree_total n f :
  (∀ t, same_shape (f t) t) → (∀ t, tree_ok t → tree_ok (f t)) → (∀ t, pid_map (f t) = pid_map t) →
  total (mgr_in n) mstep (on_tree f).
Proof.
  intros Hs Hok Hp. apply total_modify. intros s [[H1 H2] H3]. unfold mstep, mgr_in, mgr_ok. cbn.
  rewrite Hp. split; [split; [done|lia]|]. auto.
Qed.

Lemma set_state_total n st id : total (mgr_in n) mstep (on_tree (update_worker (set_state st) id)).
Proof.
  apply on_tree_total.
  - intros t. by apply update_worker_shape.
  - intros t. apply tree_ok_state; auto.
  - intros t. apply update_worker_pid_map.
Qed.

(** ** Starting *)

(** Registering a child that was just forked. *)
Lemma register_total n id def s s1 sp :
  mgr_in n s → is_worker (mg_tree s) id = true →
  sys (spawn_service def) s = Ret (Ok sp) s1 →
  total_at (mgr_in n) mstep (on_tree (register_pid id (sp_pid sp))) s1 ∧
  mstep s s1 ∧ mgr_in n s1.
Proof.
  intros [[Hok Hp] Hn] Hw E. unfold sys in E. pose proof (spawn_service_spec def (mg_os s)) as Hsp.
  destruct (spawn_service def (mg_os s)) as [r o1]. injection E as -> <-.
  destruct Hsp as (He & Hc & Hfresh & Hl & _).
  assert (mgr_in n (with_os o1 s)) as H1.
  { split; [split; [done|]|cbn; lia]. cbn. intros p id' H. rewrite Hl. apply Hp in H. set_solver. }
  assert (mstep s (with_os o1 s)) as H2 by (split; [reflexivity|]; cbn; lia).
  split; [|done]. unfold total_at. cbn. split.
  - split; [apply register_pid_shape|]. cbn. lia.
  - split; [split|cbn; lia].
    + cbn. apply tree_ok_register; [done| |done]. apply eq_None_not_Some. intros [id' Hid].
      by apply Hfresh, (Hp _ id').
    + cbn. intros p id'. rewrite update_worker_pid_map, lookup_insert. rewrite Hl.
      case_decide; [subst; set_solver|]. intros Hpid%Hp. set_solver.
Qed.

Lemma start_worker_total n id : total (mgr_in n) mstep (start_worker hierarchy id).
Proof.
  intros s Hs. unfold start_worker. apply total_at_bind; [apply _|apply total_gets; [apply _|done]|].
  intros t s0 [= <- <-] _ _. destruct (get_worker (mg_tree s) id) as [w|] eqn:Ew;
    [|apply total_ret; [apply _|done]].
  apply total_at_bind; [apply _|by apply (ostep_total n _ (setup_cgroup_total id _))|].
  intros path s1 E1 _ Hs1.
  assert (is_worker (mg_tree s1) id = true) as Hw.
  { pose proof (setup_cgroup_total id (wn_def w) s I) as H. unfold total_at in H. rewrite E1 in H.
    destruct H as [[-> _] _]. apply is_worker_iff. exists w. by apply get_worker_lookup. }
  destruct (sys (spawn_service (wn_def w)) s1) as [r s2| | |] eqn:E2;
    try (unfold sys in E2; by destruct (spawn_service (wn_def w) (mg_os s1))).
  destruct r as [sp|e].
  - destruct (register_total n id (wn_def w) s1 s2 sp Hs1 Hw E2) as (Hreg & Hst & Hs2).
    eapply total_at_step; [apply _|exact E2|exact Hst|]. cbn beta iota.
    apply total_at_bind; [apply _|done|]. intros _ s3 _ _ Hs3. total_from Hs3.
    total_tac; [apply set_state_total|apply ostep_total, attach_cgroup_total].
  - assert (mstep s1 s2 ∧ mgr_in n s2) as [Hst Hs2].
    { unfold sys in E2. pose proof (spawn_service_spec (wn_def w) (mg_os s1)) as Hsp.
      destruct (spawn_service (wn_def w) (mg_os s1)) as [r o1]. injection E2 as -> <-.
      destruct Hsp as (He & Hc & Hl & _). destruct Hs1 as [[Hok Hp] Hn]. split.
      - split; [reflexivity|]. cbn. lia.
      - split; [split; [done|]|cbn; lia]. cbn. by rewrite Hl. }
    eapply total_at_step; [apply _|exact E2|exact Hst|]. cbn beta iota. total_from Hs2.
    total_tac; [apply set_state_total|apply ostep_total, cleanup_cgroup_total].
Qed.

(** ** Stopping *)

Lemma kill_total n p sg : total (mgr_in n) mstep (sys (os_kill p sg)).
Proof.
  intros s [[Hok Hp] Hn]. unfold total_at, sys. pose proof (kill_law p sg (mg_os s)) as (Hl & He & _ & Hc).
  destruct (os_kill p sg (mg_os s)) as [b o]. cbn in *. split.
  - split; [reflexivity|]. cbn. lia.
  - split; [split; [done|]|cbn; lia]. cbn. by rewrite Hl.
Qed.

Lemma stop_worker_total n id : total (mgr_in n) mstep (stop_worker id).
Proof. unfold stop_worker. total_tac; [apply kill_total|apply set_state_total]. Qed.

Lemma stop_child_total n id : total (mgr_in n) mstep (stop_child id).
Proof. unfold stop_child. total_tac. apply stop_worker_total. Qed.

Lemma restart_child_total n id : total (mgr_in n) mstep (restart_child hierarchy id).
Proof.
  unfold restart_child. total_tac; try apply start_worker_total.
  unfold sleep_secs. apply ostep_total, sleep_total.
Qed.

Lemma execute_strategy_action_total n reap a :
  total (mgr_in n) mstep reap → total (mgr_in n) mstep (execute_strategy_action hierarchy reap a).
Proof.
  intros Hr. unfold execute_strategy_action, sleep_millis. total_tac; [apply stop_child_total| |done|].
  - apply ostep_total, sleep_total.
  - apply restart_child_total.
Qed.

(** ** Strategies *)

Lemma replace_tree_total {A} n (f : SupervisorTree → A * SupervisorTree) :
  (∀ t, same_shape (f t).2 t) → (∀ t, tree_ok t → tree_ok (f t).2) →
  (∀ t, pid_map (f t).2 = pid_map t) →
  ∀ s, mgr_in n s →
    total_at (mgr_in n) mstep (on_tree (λ _, (f (mg_tree s)).2) ;; mret (f (mg_tree s)).1) s.
Proof.
  intros Hs Hok Hp s [[H1 H2] H3]. eapply total_at_step; [apply _|reflexivity| |].
  - split; [apply Hs|]. cbn. lia.
  - apply total_ret; [apply _|]. split; [split; [by apply Hok|]|done]. cbn -[snd]. by rewrite Hp.
Qed.

Lemma now_keeps_tree (s : Mgr) (b : bool) :
  ∃ t s', ((if b then sys os_now else mret 0%Z) : M Z) s = Ret t s' ∧ ostep s s'.
Proof.
  destruct b.
  - unfold sys. pose proof (now_frame (mg_os s)) as H'. destruct (os_now (mg_os s)) as [t o].
    exists t, (with_os o s). split; [done|]. by split.
  - exists 0%Z, s. split; [done|reflexivity].
Qed.

Lemma run_strategy_total n sup c e : total (mgr_in n) mstep (run_strategy sup c e).
Proof.
  intros s Hs. unfold run_strategy. eapply total_at_step; [apply _|reflexivity|reflexivity|].
  destruct (now_keeps_tree s (records_restart (mg_tree s) sup c e)) as (now & s1 & E & Ho).
  destruct (ostep_ok n s s1 Ho Hs) as [Hst Hs1].
  eapply total_at_step; [apply _|exact E|exact Hst|]. destruct Ho as [<- _].
  pose proof (replace_tree_total n (λ t, apply_strategy now t sup c e)) as H'.
  specialize (H' (λ t, apply_strategy_shape now t sup c e) (λ t, apply_strategy_ok now t sup c e)
    (λ t, apply_strategy_pid_map now t sup c e) s1 Hs1).
  by destruct (apply_strategy now (mg_tree s1) sup c e).
Qed.

Lemma escalate_failure_props now t sup :
  same_shape (escalate_failure now t sup).2 t ∧
  (tree_ok t → tree_ok (escalate_failure now t sup).2) ∧
  pid_map (escalate_failure now t sup).2 = pid_map t.
Proof.
  unfold escalate_failure. destruct (parent_of t sup) as [p|]; [|done].
  pose proof (apply_strategy_shape now t p sup {| exit_code := None; signal := None |}).
  pose proof (apply_strategy_ok now t p sup {| exit_code := None; signal := None |}).
  pose proof (apply_strategy_pid_map now t p sup {| exit_code := None; signal := None |}).
  by destruct (apply_strategy now t p sup _).
Qed.

Lemma run_escalation_total n sup : total (mgr_in n) mstep (run_escalation sup).
Proof.
  intros s Hs. unfold run_escalation. eapply total_at_step; [apply _|reflexivity|reflexivity|].
  set (b := match parent_of (mg_tree s) sup with
            | Some p => records_restart (mg_tree s) p sup {| exit_code := None; signal := None |}
            | None => false end).
  destruct (now_keeps_tree s b) as (now & s1 & E & Ho).
  destruct (ostep_ok n s s1 Ho Hs) as [Hst Hs1].
  eapply total_at_step; [apply _| |exact Hst|].
  { rewrite <-E. unfold b. destruct (parent_of (mg_tree s) sup); done. }
  destruct Ho as [<- _]. pose proof (replace_tree_total n (λ t, escalate_failure now t sup)) as H'.
  specialize (H' (λ t, proj1 (escalate_failure_props now t sup))
    (λ t, proj1 (proj2 (escalate_failure_props now t sup)))
    (λ t, proj2 (proj2 (escalate_failure_props now t sup))) s1 Hs1).
  by destruct (escalate_failure now (mg_tree s1) sup).
Qed.

Lemma supervise_exit_total n reap id e :
  total (mgr_in n) mstep reap → total (mgr_in n) mstep (supervise_exit hierarchy reap id e).
Proof.
  intros Hr. unfold supervise_exit. total_tac.
  - apply ostep_total, monitor_total.
  - apply ostep_total, cleanup_cgroup_total.
  - apply run_strategy_total.
  - apply run_escalation_total.
  - by apply execute_strategy_action_total.
  - by apply execute_strategy_action_total.
Qed.

(** ** Reaping *)

(** The state between a wait that reported [p] and its handling. *)
Definition mgr_waited (n : nat) (p : Z) (s : Mgr) : Prop :=
  tree_ok (mg_tree s) ∧ events (mg_os s) ≤ n ∧
  ∀ q id, pid_map (mg_tree s) !! q = Some id → q = p ∨ q ∈ live (mg_os s).

Lemma handle_child_exit_total n reap p e s :
  total (mgr_in n) mstep reap → mgr_waited n p s →
  total_at (mgr_in n) mstep (handle_child_exit hierarchy reap p e) s.
Proof.
  intros Hr (Hok & Hn & Hp). unfold handle_child_exit.
  eapply total_at_step; [apply _|reflexivity|reflexivity|]. unfold unregister_pid.
  eapply total_at_step; [apply _|reflexivity| |].
  { cbn. split; [apply with_pids_shape|]. cbn. lia. }
  cbn beta iota. destruct (pid_map (mg_tree s) !! p) as [id|] eqn:E.
  - eapply total_at_step; [apply _|reflexivity| |].
    { cbn. split; [by apply update_worker_shape|]. cbn. lia. }
    apply (supervise_exit_total n reap id e Hr). split; [split|cbn; lia].
    + cbn. apply (tree_ok_exit (clear_exited e) p id (mg_tree s)); done.
    + cbn. rewrite update_worker_pid_map. cbn. intros q id'. rewrite lookup_delete_Some.
      intros [Hne Hq]. destruct (Hp _ _ Hq); congruence.
  - apply total_ret; [apply _|]. split; [split|cbn; lia].
    + cbn. by rewrite delete_id by done; destruct (mg_tree s).
    + cbn. rewrite delete_id by done. intros q id Hq. destruct (Hp _ _ Hq); congruence.
Qed.

Lemma wait_cases n s :
  mgr_in n s →
  let '(r, o) := os_waitpid None (mg_os s) in
  mstep s (with_os o s) ∧
  match r with
  | Exited p _ | Signaled p _ => events (mg_os s) ≠ 0 ∧ mgr_waited (Nat.pred n) p (with_os o s)
  | EINTR => events (mg_os s) ≠ 0 ∧ mgr_in (Nat.pred n) (with_os o s)
  | _ => mgr_in n (with_os o s)
  end.
Proof.
  intros [[Hok Hp] Hn]. pose proof (wait_law None (mg_os s)) as (_ & Hc & Hw).
  destruct (os_waitpid None (mg_os s)) as [r o]. cbn [fst snd] in *. split.
  { split; [reflexivity|]. cbn. split; [|lia]. destruct r; deex; lia. }
  destruct r as [p c|p c| | | |]; deex; unfold mgr_waited, mgr_in, mgr_ok; cbn.
  1,2: split; [lia|]; split; [done|]; split; [lia|]; intros q id Hq; apply Hp in Hq;
    destruct (decide (q = p)); [by left|right]; set_solver.
  all: split_and?; try done; try lia; intros q id Hq; apply Hp in Hq; congruence.
Qed.

Lemma reap_total fuel n : n < fuel → total (mgr_in n) mstep (reap_and_handle_exits hierarchy fuel).
Proof.
  revert n. induction fuel as [|fuel IH]; intros n Hn; [lia|]. intros s Hs. cbn [reap_and_handle_exits].
  pose proof (wait_cases n s Hs) as Hw. assert (Hs' := Hs). destruct Hs' as [_ He].
  destruct (os_waitpid None (mg_os s)) as [r o] eqn:E. destruct Hw as [Hst Hw].
  eapply total_at_step; [apply _|unfold sys; rewrite E; reflexivity|exact Hst|].
  assert (∀ m : nat, Nat.pred n ≤ m → ∀ s', mgr_in (Nat.pred n) s' → mgr_in m s') as Hmon
    by (intros m Hm s' [? ?]; split; [done|lia]).
  destruct r as [p c|p c| | | |].
  1,2: destruct Hw as [Hne Hw]; apply total_at_weaken with (P := mgr_in (Nat.pred n)); [|auto with lia];
    apply total_at_bind; [apply _|apply handle_child_exit_total; [apply IH; lia|exact Hw]|];
    intros _ s' _ _ Hs'; apply IH; [lia|done].
  - apply total_ret; [apply _|done].
  - apply total_ret; [apply _|done].
  - destruct Hw as [Hne Hw]. apply total_at_weaken with (P := mgr_in (Nat.pred n)); [|auto with lia].
    apply IH; [lia|done].
  - apply total_ret; [apply _|done].
Qed.
End facts.
