(* ===== verification/StopOrder.v ===== *)
(** * The stop order (dynamod-svmgr/src/shutdown.rs, compute_reverse_topo_order)

    Kahn's algorithm over the dependency graph, and the proof that the order it
    returns lists every service once and, on an acyclic graph, every service
    before everything it depends on. *)

From S2P Require Import Prelude Config Graph Cycle.

#[local] Open Scope list_scope.

Record kahn := {
  k_degree : gmap string nat;
  k_queue : list string;
  k_visited : gset string;
  k_order : list string;
}.

Section kahn.
Context `{HO : HashOrder}.

(** The loop over the dependents of the service just visited. *)
Definition kahn_dependent (k : kahn) (dependent : string) : kahn :=
  match k_degree k !! dependent with
  | Some deg =>
      let deg := saturating_sub deg 1 in
      {| k_degree := <[dependent := deg]> (k_degree k);
         k_queue := if decide (deg = 0 ∧ (dependent ∉ k_visited k))
                    then k_queue k ++ [dependent] else k_queue k;
         k_visited := k_visited k; k_order := k_order k |}
  | None => k
  end.

Definition kahn_visit (g : DependencyGraph) (svc : string) (queue : list string) (k : kahn) : kahn :=
  foldl kahn_dependent
    {| k_degree := k_degree k; k_queue := queue; k_visited := {[svc]} ∪ k_visited k;
       k_order := k_order k ++ [svc] |}
    (iter_dependents g svc).

Fixpoint kahn_loop (fuel : nat) (g : DependencyGraph) (k : kahn) : option kahn :=
  match k_queue k with
  | [] => Some k
  | svc :: queue =>
      match fuel with
      | O => None
      | S fuel =>
          if decide (svc ∈ k_visited k) then
            kahn_loop fuel g {| k_degree := k_degree k; k_queue := queue;
                                k_visited := k_visited k; k_order := k_order k |}
          else kahn_loop fuel g (kahn_visit g svc queue k)
      end
  end.

Definition kahn_init (g : DependencyGraph) : kahn :=
  let degree : gmap string nat :=
    set_to_map (λ svc, (svc, size (dependencies_of g svc))) (services g) in
  {| k_degree := degree;
     k_queue := omap (λ kv, if decide (snd kv = 0) then Some (fst kv) else None)
                  (map_iter "forward_in_degree" degree);
     k_visited := ∅; k_order := [] |}.

(** Every service is visited at most once, so as many rounds as services do. *)
Definition compute_reverse_topo_order (g : DependencyGraph) : option (list string) :=
  k ← kahn_loop (size (services g)) g (kahn_init g);
  let unreached := filter (λ svc, svc ∉ k_visited k) (set_iter "services" (services g)) in
  Some (reverse (k_order k ++ unreached)).

(** ** The invariant *)

(** [kahn_inv g todo k]: the dependents in [todo] are still to be told about the
    service that was just visited. *)
Record kahn_inv (g : DependencyGraph) (todo : list string) (k : kahn) : Prop := {
  ki_degree : ∀ s, s ∈ services g →
    k_degree k !! s = Some (size (dependencies_of g s ∖ k_visited k) + (if decide (s ∈ todo) then 1 else 0));
  ki_dom : ∀ s, s ∉ services g → k_degree k !! s = None;
  ki_nodup : NoDup (k_queue k);
  ki_queue : ∀ s, s ∈ k_queue k ↔
    s ∈ services g ∧ (s ∉ k_visited k) ∧ (s ∉ todo) ∧ dependencies_of g s ⊆ k_visited k;
  ki_visited : ∀ s, s ∈ k_order k ↔ s ∈ k_visited k;
  ki_services : k_visited k ⊆ services g;
  ki_topo : topo g (reverse (k_order k));
}.

Lemma kahn_init_inv g : wf_graph g → kahn_inv g [] (kahn_init g).
Proof.
  intros Hwf.
  assert (∀ s n, k_degree (kahn_init g) !! s = Some n ↔ s ∈ services g ∧ n = size (dependencies_of g s)) as Hd.
  { intros s n. cbn. rewrite lookup_set_to_map by (intros ????; naive_solver). naive_solver. }
  split; cbn [k_visited k_order k_queue kahn_init].
  - intros s Hs. apply Hd. split; [done|]. rewrite difference_empty_L, decide_False by set_solver. lia.
  - intros s Hs. destruct (k_degree (kahn_init g) !! s) eqn:E; [|done]. apply Hd in E. tauto.
  - assert (∀ l : list (string * nat), NoDup l.*1 →
      NoDup (omap (λ kv, if decide (snd kv = 0) then Some (fst kv) else None) l)) as Hnd.
    { induction l as [|[s n] l IH]; [constructor|]. cbn [fmap list_fmap]. rewrite NoDup_cons. intros [Hs Hl].
      cbn. case_decide; [|by apply IH]. apply NoDup_cons. split; [|by apply IH].
      rewrite list_elem_of_omap. intros ([s' n'] & Hin & Hs'). cbn in Hs'.
      case_decide; [|done]. injection Hs' as ->. apply Hs. apply list_elem_of_fmap. by exists (s, n'). }
    apply Hnd, NoDup_map_iter.
  - intros s. rewrite list_elem_of_omap. split.
    + intros ([s' n] & Hin & Hs). cbn in Hs. case_decide as Hn; [|done]. cbn in Hn. injection Hs as ->. subst n.
      apply elem_of_map_iter, Hd in Hin as [Hs Hz]. symmetry in Hz. apply size_empty_inv in Hz.
      set_solver.
    + intros (Hs & _ & _ & Hsub). exists (s, 0). split; [|done]. apply elem_of_map_iter, Hd.
      split; [done|]. assert (dependencies_of g s = ∅) as -> by set_solver. by rewrite size_empty.
  - set_solver.
  - set_solver.
  - constructor.
Qed.

Lemma kahn_dependent_inv g x todo k :
  kahn_inv g (x :: todo) k → x ∉ todo → kahn_inv g todo (kahn_dependent k x).
Proof.
  intros [Hdeg Hdom Hnd Hq Hv Hs Ht] Hx. unfold kahn_dependent.
  destruct (decide (x ∈ services g)) as [Hxs|Hxs].
  - rewrite (Hdeg x Hxs), decide_True by set_solver.
    replace (saturating_sub (size (dependencies_of g x ∖ k_visited k) + 1) 1)
      with (size (dependencies_of g x ∖ k_visited k)) by (unfold saturating_sub; lia).
    split; cbn [k_degree k_queue k_visited k_order]; try done.
    + intros s Hss. destruct (decide (s = x)) as [->|Hne].
      * rewrite lookup_insert, decide_True by done. rewrite decide_False by done. f_equal. lia.
      * rewrite lookup_insert_ne, (Hdeg s Hss) by done. do 2 f_equal. apply decide_ext. set_solver.
    + intros s Hss. rewrite lookup_insert_ne by congruence. by apply Hdom.
    + case_decide; [|done]. apply NoDup_app. split; [done|]. split; [|apply NoDup_singleton].
      intros y Hy ->%list_elem_of_singleton. apply Hq in Hy. set_solver.
    + intros s. assert (s ∈ (if decide (size (dependencies_of g x ∖ k_visited k) = 0 ∧ x ∉ k_visited k)
        then k_queue k ++ [x] else k_queue k) ↔ s ∈ k_queue k ∨ (s = x ∧
        dependencies_of g x ⊆ k_visited k ∧ (x ∉ k_visited k))) as ->.
      { assert (size (dependencies_of g x ∖ k_visited k) = 0 ↔ dependencies_of g x ⊆ k_visited k) as Hz.
        { rewrite size_empty_iff. clear. split; [|set_solver]. intros H y Hy.
          destruct (decide (y ∈ k_visited k)); [done|]. set_solver. }
        clear -Hz. case_decide; rewrite ?elem_of_app, ?list_elem_of_singleton; naive_solver. }
      rewrite Hq, not_elem_of_cons. destruct (decide (s = x)) as [->|]; naive_solver.
  - rewrite (Hdom x Hxs). split; try done.
    + intros s Hss. rewrite (Hdeg s Hss). do 2 f_equal. apply decide_ext. set_solver.
    + intros s. rewrite Hq, not_elem_of_cons. naive_solver.
Qed.

Lemma kahn_fold_inv g l k :
  NoDup l → kahn_inv g l k → kahn_inv g [] (foldl kahn_dependent k l).
Proof.
  revert k. induction l as [|x l IH]; intros k Hnd Hi; cbn [foldl]; [done|].
  apply NoDup_cons in Hnd as [Hx Hnd]. by apply IH, kahn_dependent_inv.
Qed.

Lemma kahn_visit_inv g svc queue k :
  wf_graph g → k_queue k = svc :: queue → kahn_inv g [] k →
  kahn_inv g [] (kahn_visit g svc queue k) ∧
  k_visited (kahn_visit g svc queue k) = {[svc]} ∪ k_visited k.
Proof.
  intros Hwf Hqueue [Hdeg Hdom Hnd Hq Hv Hs Ht]. rewrite Hqueue in *.
  apply NoDup_cons in Hnd as [Hsvc Hnd].
  destruct (proj1 (Hq svc)) as (Hsv & Hnv & _ & Hdeps); [set_solver|]. split.
  - apply kahn_fold_inv; [apply NoDup_iter_dependents|].
    assert (∀ s, s ∈ iter_dependents g svc ↔ svc ∈ dependencies_of g s) as Hl.
    { intros s. rewrite elem_of_iter_dependents. symmetry. apply (wf_inverse _ Hwf). }
    split; cbn [k_degree k_queue k_visited k_order].
    + intros s Hss. rewrite (Hdeg s Hss), decide_False by set_solver. f_equal.
      case_decide as Hin; rewrite Hl in Hin.
      * assert (dependencies_of g s ∖ k_visited k = {[svc]} ∪ dependencies_of g s ∖ ({[svc]} ∪ k_visited k)) as ->.
        { apply set_eq. intros x. destruct (decide (x = svc)); set_solver. }
        rewrite size_union by set_solver. rewrite size_singleton. lia.
      * f_equal. f_equal. set_solver.
    + done.
    + done.
    + intros s. specialize (Hq s). rewrite elem_of_cons in Hq. rewrite Hl.
      destruct (decide (s = svc)) as [->|Hne]; [clear -Hsvc; set_solver|].
      assert (s ∈ queue ↔ s = svc ∨ s ∈ queue) as -> by tauto. rewrite Hq.
      clear -Hne Hnv. split; [set_solver|]. intros (? & ? & ? & Hsub). split_and!; try set_solver.
    + intros s. rewrite elem_of_app, list_elem_of_singleton, Hv. set_solver.
    + set_solver.
    + rewrite reverse_snoc. constructor; [done| |].
      * by rewrite elem_of_reverse, Hv.
      * intros d Hd. rewrite elem_of_reverse, Hv. by apply Hdeps.
  - unfold kahn_visit. generalize (iter_dependents g svc). intros l.
    set (k0 := {| k_degree := _ |}). change ({[svc]} ∪ k_visited k) with (k_visited k0). generalize k0. clear.
    induction l as [|x l IH]; intros k; [done|]. cbn [foldl]. rewrite IH.
    unfold kahn_dependent. by destruct (k_degree k !! x).
Qed.

Lemma kahn_loop_inv fuel g k :
  wf_graph g → kahn_inv g [] k → size (services g ∖ k_visited k) ≤ fuel →
  ∃ k', kahn_loop fuel g k = Some k' ∧ kahn_inv g [] k' ∧ k_queue k' = [].
Proof.
  intros Hwf. revert k. induction fuel as [|fuel IH]; intros k Hi Hf; cbn [kahn_loop];
    destruct (k_queue k) as [|svc queue] eqn:Eq; eauto;
    (assert (svc ∈ services g ∧ (svc ∉ k_visited k)) as [Hsv Hnv]
       by (destruct (proj1 (ki_queue _ _ _ Hi svc)) as (? & ? & _); [rewrite Eq; set_solver|done])).
  - exfalso. assert (services g ∖ k_visited k = ∅) as He by (apply leibniz_equiv, size_empty_inv; lia). set_solver.
  - rewrite decide_False by done. destruct (kahn_visit_inv g svc queue k Hwf Eq Hi) as [Hi' Hvis].
    apply IH; [done|]. rewrite Hvis.
    assert (services g ∖ k_visited k = {[svc]} ∪ services g ∖ ({[svc]} ∪ k_visited k)) as Heq.
    { apply set_eq. intros x. destruct (decide (x = svc)); set_solver. }
    rewrite Heq, size_union, size_singleton in Hf by set_solver. lia.
Qed.

Lemma topo_NoDup g l : topo g l → NoDup l.
Proof. induction 1; constructor; done. Qed.

Lemma topo_before g l s d i j :
  topo g l → edge g s d → l !! i = Some s → l !! j = Some d → i < j.
Proof.
  intros Ht. revert i j. induction Ht as [|n l Ht IH Hn Hd]; intros i j He; [done|].
  destruct i as [|i]; cbn.
  - intros [= ->]. destruct j as [|j]; [|lia]. cbn. intros [= ->]. by apply Hd in He.
  - intros Hi. destruct j as [|j]; cbn.
    + intros [= ->]. apply list_elem_of_lookup_2 in Hi.
      exfalso. apply Hn. eapply topo_closed; [done|exact Hi|by apply tc_once].
    + intros Hj. specialize (IH i j He Hi Hj). lia.
Qed.

Lemma stop_order_spec g :
  wf_graph g →
  ∃ l, compute_reverse_topo_order g = Some l ∧
    (∀ s, s ∈ l ↔ s ∈ services g) ∧ NoDup l ∧
    (validate_no_cycles g = Some (Ok ()) →
     ∀ s d i j, d ∈ dependencies_of g s → l !! i = Some s → l !! j = Some d → i < j).
Proof.
  intros Hwf. destruct (kahn_loop_inv (size (services g)) g (kahn_init g) Hwf
    (kahn_init_inv g Hwf)) as (k & Hk & [Hdeg Hdom _ Hq Hv Hs Ht] & Hnil).
  { apply subseteq_size. set_solver. }
  unfold compute_reverse_topo_order. rewrite Hk. cbn [mbind option_bind].
  set (rest := filter _ _). exists (reverse (k_order k ++ rest)). split; [done|].
  assert (∀ s, s ∈ rest ↔ s ∈ services g ∧ s ∉ k_visited k) as Hrest.
  { intros s. unfold rest. rewrite list_elem_of_filter, elem_of_set_iter. tauto. }
  split; [|split].
  - intros s. rewrite elem_of_reverse, elem_of_app, Hv, Hrest.
    destruct (decide (s ∈ k_visited k)); set_solver.
  - rewrite reverse_Permutation. apply NoDup_app. split; [|split].
    + rewrite <-(reverse_Permutation (k_order k)). by eapply topo_NoDup.
    + intros s Hs'%Hv Hr%Hrest. tauto.
    + apply NoDup_filter, NoDup_set_iter.
  - intros Hcyc. assert (rest = []) as ->.
    { assert (detect_cycles g = Some []) as Hd.
      { unfold validate_no_cycles in Hcyc. destruct (detect_cycles g) as [[]|]; naive_solver. }
      destruct (no_cycles_topo g Hwf Hd) as (l & Hl & Hin).
      assert (∀ s, s ∈ l → s ∈ services g → s ∈ k_visited k) as Hall.
      { clear Hin. induction Hl as [|n l Hl IH Hn Hdn]; intros s Hsl Hss; [set_solver|].
        apply elem_of_cons in Hsl as [->|Hsl]; [|by apply IH].
        destruct (decide (n ∈ k_visited k)) as [|Hnv]; [done|]. exfalso.
        assert (n ∈ k_queue k) as Hnq; [|rewrite Hnil in Hnq; set_solver].
        apply Hq. split_and!; [done|done|set_solver|]. intros d Hd'. apply IH; [by apply Hdn|].
        by apply (wf_deps_services _ _ _ Hwf Hd'). }
      destruct rest as [|x rest'] eqn:E; [done|]. destruct (proj1 (Hrest x)) as [Hx Hnx]; [set_solver|].
      exfalso. apply Hnx, Hall; [by apply Hin|done]. }
    rewrite app_nil_r. intros s d i j He. by apply (topo_before g).
Qed.
End kahn.

(** C12: The shutdown order lists every service exactly once, whatever the graph, and on an
    acyclic graph every service comes before the services it depends on. *)
Theorem stop_order_correct `{HO : HashOrder} defs g :
  build defs = Some g →
  ∃ l, compute_reverse_topo_order g = Some l ∧
    (∀ s, s ∈ l ↔ s ∈ services g) ∧ NoDup l ∧
    (validate_no_cycles g = Some (Ok ()) →
     ∀ s d i j, d ∈ dependencies_of g s → l !! i = Some s → l !! j = Some d → i < j).
Proof. intros Hwf%build_wf. by apply stop_order_spec. Qed.
Lemma stop_order_correct_witness :
  let mk name reqs := let d := minimal_service name ["/bin/true"] in
    {| sd_service := sd_service d; sd_restart := sd_restart d; sd_readiness := sd_readiness d;
       sd_dependencies := {| ds_requires := reqs; ds_wants := []; ds_after := []; ds_before := [] |};
       sd_cgroup := None; sd_namespace := None; sd_shutdown := sd_shutdown d |} in
  let g := default {| hard_deps := ∅; requires := ∅; reverse_deps := ∅; services := ∅ |}
             (build (HO := elements_order) [mk "net" []; mk "db" ["net"]; mk "web" ["db"; "net"]]) in
  compute_reverse_topo_order (HO := elements_order) g = Some ["web"; "db"; "net"] ∧
  NoDup ["web"; "db"; "net"].
Proof.
  intros mk g. split; [vm_compute; reflexivity|].
  destruct (stop_order_correct (HO := elements_order) [mk "net" []; mk "db" ["net"]; mk "web" ["db"; "net"]] g)
    as (l & Hl & _ & Hnd & _); [vm_compute; reflexivity|].
  vm_compute in Hl. injection Hl as <-. exact Hnd.
Defined.
