(* ===== verification/Shutdown.v ===== *)
(** * Graceful shutdown (dynamod-svmgr/src/shutdown.rs)

    Stopping every service in reverse dependency order: the stop command, the
    stop signal, the wait with a deadline, SIGKILL, the wait for that, the clean up.
    A waiting loop sleeps 50 ms per round and gives up at its deadline, so
    [rounds] of its timeout are enough; [OutOfFuel] is proved not to happen.
    [Panic] is the overflow of [Instant + Duration]. *)

From S2P Require Import Prelude RustStr Config Graph Cycle World Cgroup Intensity Tree Strategy.
From S2P Require Import Monad Manager ManagerFacts StopOrder.

#[local] Open Scope Z_scope.
#[local] Open Scope list_scope.

Definition parse_signal (name : string) : Signal :=
  if String.eqb name "SIGTERM" || String.eqb name "sigterm" then SIGTERM
  else if String.eqb name "SIGINT" || String.eqb name "sigint" then SIGINT
  else if String.eqb name "SIGQUIT" || String.eqb name "sigquit" then SIGQUIT
  else if String.eqb name "SIGHUP" || String.eqb name "sighup" then SIGHUP
  else if String.eqb name "SIGUSR1" || String.eqb name "sigusr1" then SIGUSR1
  else if String.eqb name "SIGUSR2" || String.eqb name "sigusr2" then SIGUSR2
  else SIGTERM.

(** [Instant + Duration], which panics when the seconds leave the signed range. *)
Definition instant_add (now d : Z) : option Z :=
  if 2 ^ 63 - 1 <? (now + d) / NANOS then None else Some (now + d).

Definition stop_timeout (def : ServiceDef) : Z :=
  match parse_duration_secs (sh_stop_timeout (sd_shutdown def)) with
  | Some secs => from_secs secs
  | None => from_secs 10
  end.

(** The rounds of 50 ms a timeout takes. *)
Definition POLL : Z := 50 * 1000000.
Definition rounds (timeout : Z) : nat := S (S (Z.to_nat (timeout / POLL))).

Section shutdown.
Context `{K : OS, HO : HashOrder}.
Variable hierarchy : option CgroupHierarchy.

Definition finalize_stop (name : string) (pid : Z) : M unit :=
  on_tree (λ t, (unregister_pid pid t).2) ;;
  on_tree (update_worker (λ w, set_state Stopped (set_pid None w)) name) ;;
  modify (λ s, with_monitor (unwatch name (mg_monitor s)) s) ;;
  cleanup_cgroup hierarchy name.

(** The first waiting loop: [true] when the process is gone, [false] at the deadline. *)
Fixpoint wait_exit (fuel : nat) (pid deadline : Z) : M bool :=
  match fuel with
  | O => out_of_fuel
  | S fuel =>
      r ← sys (os_waitpid (Some pid));
      match r with
      | Exited _ _ | Signaled _ _ | ECHILD => mret true
      | StillAlive | EINTR | OtherWait =>
          now ← sys os_now;
          if deadline <=? now then mret false
          else sleep_millis 50 ;; wait_exit fuel pid deadline
      end
  end.

(** The loop after SIGKILL, which ends on anything but [StillAlive]. *)
Fixpoint wait_killed (fuel : nat) (pid deadline : Z) : M unit :=
  match fuel with
  | O => out_of_fuel
  | S fuel =>
      r ← sys (os_waitpid (Some pid));
      match r with
      | StillAlive =>
          now ← sys os_now;
          if deadline <=? now then mret ()
          else sleep_millis 50 ;; wait_killed fuel pid deadline
      | _ => mret ()
      end
  end.

Definition run_stop_exec (def : ServiceDef) : M unit :=
  match sh_stop_exec (sd_shutdown def) with
  | Some (c :: cmd) => _ ← sys (os_command (c :: cmd)); mret ()
  | _ => mret ()
  end.

Definition stop_service_graceful (name : string) : M unit :=
  t ← gets mg_tree;
  match get_worker t name with
  | Some w =>
      match wn_pid w with
      | None => mret ()
      | Some pid =>
          let timeout := stop_timeout (wn_def w) in
          run_stop_exec (wn_def w) ;;
          _ ← sys (os_kill pid (parse_signal (sh_stop_signal (sd_shutdown (wn_def w)))));
          now ← sys os_now;
          state_deadline ← unwrap (instant_add now timeout);
          on_tree (update_worker (set_state (Stopping (Some state_deadline))) name) ;;
          now ← sys os_now;
          deadline ← unwrap (instant_add now timeout);
          gone ← wait_exit (rounds timeout) pid deadline;
          (if gone : bool then mret ()
           else
             _ ← sys (os_kill pid SIGKILL);
             now ← sys os_now;
             kill_deadline ← unwrap (instant_add now (from_secs 3));
             wait_killed (rounds (from_secs 3)) pid kill_deadline) ;;
          finalize_stop name pid
      end
  | None => mret ()
  end.

(** [reap_remaining]: one round per event. *)
Fixpoint reap_remaining (fuel : nat) : M unit :=
  match fuel with
  | O => out_of_fuel
  | S fuel =>
      r ← sys (os_waitpid None);
      match r with
      | StillAlive | ECHILD => mret ()
      | _ => reap_remaining fuel
      end
  end.

Definition execute_shutdown (fuel : nat) (dep_graph : DependencyGraph) : M unit :=
  stop_order ← unwrap (compute_reverse_topo_order dep_graph);
  for_each stop_order stop_service_graceful ;;
  reap_remaining fuel.
End shutdown.

(** ** The waiting loops end *)

Section waiting.
Context `{L : FiniteExits, HO : HashOrder}.
Variable hierarchy : option CgroupHierarchy.

(** Waiting for [pid]: at most that child is gone. *)
Definition wstep (pid : Z) (s s' : Mgr) : Prop :=
  mg_tree s' = mg_tree s ∧ history (mg_os s') = history (mg_os s) ∧
  clock (mg_os s) ≤ clock (mg_os s') ∧ (events (mg_os s') ≤ events (mg_os s))%nat ∧
  live (mg_os s) ∖ {[pid]} ⊆ live (mg_os s') ∧ live (mg_os s') ⊆ live (mg_os s).

#[export] Instance wstep_preorder pid : PreOrder (wstep pid).
Proof.
  split.
  - intros s. unfold wstep. split_and!; try done; try lia; set_solver.
  - intros s1 s2 s3 (?&?&?&?&?&?) (?&?&?&?&?&?). unfold wstep.
    split_and!; try congruence; try lia; set_solver.
Qed.

Lemma ostep_wstep pid s s' : ostep s s' → wstep pid s s'.
Proof.
  intros [Ht (Hl & He & Hk & Hc)]. unfold wstep. rewrite Ht, Hl, Hk.
  split_and!; try done; set_solver.
Qed.

Lemma waitpid_wstep pid s :
  wstep pid s (with_os (os_waitpid (Some pid) (mg_os s)).2 s).
Proof.
  pose proof (wait_law (Some pid) (mg_os s)) as (Hk & Hc & Hw). unfold wstep. cbn.
  destruct (os_waitpid (Some pid) (mg_os s)) as [r o]. cbn [fst snd default from_option id] in *.
  split; [done|]. split; [done|]. split; [done|].
  destruct r as [p c|p c| | | |]; deex; subst; (split; [lia|]);
    match goal with H : live o = _ |- _ => rewrite H end; set_solver.
Qed.

(** One round of waiting and looking at the clock. *)
Lemma poll_round pid s :
  let '(r, o) := os_waitpid (Some pid) (mg_os s) in
  let '(now, o') := os_now o in
  wstep pid s (with_os o s) ∧ wstep pid (with_os o s) (with_os o' s) ∧ clock (mg_os s) ≤ now ∧
  wstep pid (with_os o' s) (with_os (os_sleep (50 * 1000000) o') s) ∧
  clock (mg_os s) + POLL ≤ clock (os_sleep (50 * 1000000) o').
Proof.
  pose proof (waitpid_wstep pid s) as H1. destruct (os_waitpid (Some pid) (mg_os s)) as [r o].
  cbn [snd] in H1. pose proof (now_frame o) as H2. pose proof (now_law o) as H3.
  destruct (os_now o) as [now o']. cbn [fst snd] in *.
  pose proof (sleep_frame (50 * 1000000) o') as H4. pose proof (sleep_law (50 * 1000000) o') as H5.
  assert (clock (mg_os s) ≤ clock o) by apply H1. unfold POLL.
  split; [done|]. split; [apply ostep_wstep; by split|]. split; [lia|].
  split; [apply ostep_wstep; by split|]. destruct H2 as (_ & _ & _ & ?). lia.
Qed.

(** How the first wait ends: the child was waited for, or is still there at the deadline. *)
Definition waited (pid deadline : Z) (gone : bool) (s s' : Mgr) : Prop :=
  wstep pid s s' ∧
  if gone then pid ∉ live (mg_os s') else live (mg_os s') = live (mg_os s) ∧ deadline ≤ clock (mg_os s').

Lemma waitpid_gone pid s :
  match (os_waitpid (Some pid) (mg_os s)).1 with
  | Exited _ _ | Signaled _ _ | ECHILD => pid ∉ live (os_waitpid (Some pid) (mg_os s)).2
  | _ => live (os_waitpid (Some pid) (mg_os s)).2 = live (mg_os s)
  end.
Proof.
  pose proof (wait_law (Some pid) (mg_os s)) as (_ & _ & Hw).
  destruct (os_waitpid (Some pid) (mg_os s)) as [[p c|p c| | | |] o]; cbn in *; destruct Hw as [Hl Hw];
    try done; [destruct Hw as (-> & -> & _)|destruct Hw as (-> & -> & _)|rewrite Hl; by destruct Hw];
    set_solver.
Qed.

Lemma wait_exit_spec fuel pid deadline s :
  deadline ≤ clock (mg_os s) + Z.of_nat fuel * POLL - POLL → (1 ≤ fuel)%nat →
  ∃ b s', wait_exit fuel pid deadline s = Ret b s' ∧ waited pid deadline b s s'.
Proof.
  revert s. induction fuel as [|fuel IH]; intros s Hd Hf; [lia|]. cbn [wait_exit].
  pose proof (poll_round pid s) as Hr. pose proof (waitpid_gone pid s) as Hgone.
  unfold mbind, St_bind, sys at 1. destruct (os_waitpid (Some pid) (mg_os s)) as [r o]. cbn [fst snd] in Hgone.
  pose proof (now_law o) as Hnl. pose proof (now_frame o) as (Hnf & _).
  destruct (os_now o) as [now o'] eqn:En. cbn [fst snd] in *.
  destruct Hr as (H1 & H2 & Hnow & H4 & Hslept).
  assert (live o = live (mg_os s) → ∃ b s', (now ← sys os_now; if deadline <=? now then mret false
     else sleep_millis 50;; wait_exit fuel pid deadline) (with_os o s) = Ret b s' ∧
     waited pid deadline b s s') as Hgo.
  { intros Hl. unfold mbind, St_bind, sys. cbn [mg_os with_os]. rewrite En.
    destruct (Z.leb_spec deadline now).
    - exists false, (with_os o' s). split; [done|]. split; [by etrans|]. cbn. split; [congruence|lia].
    - destruct (IH (with_os (os_sleep (50 * 1000000) o') s)) as (b & s' & Hs' & Hst & Hb).
      + cbn. lia.
      + destruct fuel; [|lia]. unfold POLL in *. lia.
      + exists b, s'. split; [exact Hs'|]. split; [etrans; [exact H1|]; etrans; [exact H2|]; by etrans|].
        destruct b; [done|]. pose proof (sleep_frame (50 * 1000000) o') as (Hsl & _).
        cbn in Hb. destruct Hb as [-> ?]. split; [congruence|done]. }
  destruct r; first [by apply Hgo | by exists true, (with_os o s)].
Qed.

Lemma wait_killed_spec fuel pid deadline s :
  deadline ≤ clock (mg_os s) + Z.of_nat fuel * POLL - POLL → (1 ≤ fuel)%nat →
  ∃ s', wait_killed fuel pid deadline s = Ret () s' ∧ wstep pid s s'.
Proof.
  revert s. induction fuel as [|fuel IH]; intros s Hd Hf; [lia|]. cbn [wait_killed].
  pose proof (poll_round pid s) as Hr. unfold mbind, St_bind, sys at 1.
  destruct (os_waitpid (Some pid) (mg_os s)) as [r o].
  destruct (os_now o) as [now o'] eqn:En. destruct Hr as (H1 & H2 & Hnow & H4 & Hslept).
  destruct r; try (eexists; split; [reflexivity|done]).
  unfold mbind, St_bind, sys. cbn [mg_os with_os]. rewrite En. destruct (Z.leb_spec deadline now).
  - exists (with_os o' s). split; [done|]. by etrans.
  - destruct (IH (with_os (os_sleep (50 * 1000000) o') s)) as (s' & Hs' & Hst).
    + cbn. lia.
    + destruct fuel; [|lia]. unfold POLL in *. lia.
    + exists s'. split; [exact Hs'|]. etrans; [exact H1|]. etrans; [exact H2|]. by etrans.
Qed.

Lemma rounds_enough now d c : 0 ≤ d → now ≤ c → now + d ≤ c + Z.of_nat (rounds d) * POLL - POLL.
Proof.
  intros Hd Hc. unfold rounds. rewrite !Nat2Z.inj_succ, Z2Nat.id by (apply Z.div_pos; unfold POLL; lia).
  pose proof (Z.mod_pos_bound d POLL ltac:(unfold POLL; lia)). pose proof (Z.div_mod d POLL ltac:(unfold POLL; lia)).
  lia.
Qed.
End waiting.

(** ** Stopping one service *)

Section stopping.
Context `{L : FiniteExits, HO : HashOrder}.
Variable hierarchy : option CgroupHierarchy.

(** Signals were sent, and at most [pid] was waited for. *)
Definition pstep (pid : Z) (l : list proc_event) (s s' : Mgr) : Prop :=
  mg_tree s' = mg_tree s ∧ history (mg_os s') = history (mg_os s) ++ l ∧
  clock (mg_os s) ≤ clock (mg_os s') ∧ (events (mg_os s') ≤ events (mg_os s))%nat ∧
  live (mg_os s) ∖ {[pid]} ⊆ live (mg_os s') ∧ live (mg_os s') ⊆ live (mg_os s).

Lemma pstep_trans pid l1 l2 s1 s2 s3 :
  pstep pid l1 s1 s2 → pstep pid l2 s2 s3 → pstep pid (l1 ++ l2) s1 s3.
Proof.
  intros (H1 & H2 & H3 & H4 & H5 & H6) (H7 & H8 & H9 & H10 & H11 & H12). unfold pstep. rewrite H8, H2, app_assoc.
  split_and!; [congruence|done|lia|lia| |]; clear -H5 H6 H11 H12; set_solver.
Qed.

Lemma wstep_pstep pid s s' : wstep pid s s' → pstep pid [] s s'.
Proof. intros (H1 & H2 & H3 & H4 & H5 & H6). unfold pstep. by rewrite app_nil_r. Qed.

Lemma ostep_pstep pid s s' : ostep s s' → pstep pid [] s s'.
Proof. intros H. by apply wstep_pstep, ostep_wstep. Qed.

Lemma kill_pstep pid sg s :
  pid ∈ live (mg_os s) →
  pstep pid [Sent pid sg (clock (mg_os s)) true] s (with_os (os_kill pid sg (mg_os s)).2 s) ∧
  live (os_kill pid sg (mg_os s)).2 = live (mg_os s).
Proof.
  intros Hp. pose proof (kill_law pid sg (mg_os s)) as (Hl & He & Hk & Hc). unfold pstep. cbn.
  rewrite Hl, Hk, bool_decide_eq_true_2 by done. split_and!; (done || set_solver).
Qed.

(** The signals by their names; any other name stands for SIGTERM. *)
Definition signal_names : list (string * Signal) :=
  [("SIGTERM"%string, SIGTERM); ("SIGINT"%string, SIGINT); ("SIGQUIT"%string, SIGQUIT);
   ("SIGHUP"%string, SIGHUP); ("SIGUSR1"%string, SIGUSR1); ("SIGUSR2"%string, SIGUSR2);
   ("sigterm"%string, SIGTERM); ("sigint"%string, SIGINT); ("sigquit"%string, SIGQUIT);
   ("sighup"%string, SIGHUP); ("sigusr1"%string, SIGUSR1); ("sigusr2"%string, SIGUSR2)].
Definition stop_signal (def : ServiceDef) : Signal :=
  default SIGTERM ((list_to_map signal_names : gmap string Signal) !! sh_stop_signal (sd_shutdown def)).

Lemma parse_signal_names name :
  parse_signal name = default SIGTERM ((list_to_map signal_names : gmap string Signal) !! name).
Proof.
  unfold parse_signal, signal_names. cbn [list_to_map foldr fst snd].
  repeat match goal with
  | |- context [String.eqb name ?x] => destruct (String.eqb_spec name x) as [->|]; [vm_compute; reflexivity|]
  end. cbn [orb].
  rewrite !lookup_insert_ne by congruence. by rewrite lookup_empty.
Qed.

(** What stopping a worker sends: nothing without a process; else the stop signal, at some
    time [t], to a child that is there.  Then either the child was waited for, and is not
    among the children left, or it was still there when its timeout had passed, and was sent
    SIGKILL. *)
Definition stop_log (w : option WorkerNode) (left : gset Z) (l : list proc_event) : Prop :=
  match w with
  | Some w =>
      match wn_pid w with
      | Some pid => ∃ t, let stop := Sent pid (stop_signal (wn_def w)) t true in
          l = [stop] ∧ (pid ∉ left) ∨
          ∃ t', t + stop_timeout (wn_def w) ≤ t' ∧ l = [stop; Sent pid SIGKILL t' true]
      | None => l = []
      end
  | None => l = []
  end.

Lemma stop_log_mono w left left' l : left' ⊆ left → stop_log w left l → stop_log w left' l.
Proof.
  intros Hs. unfold stop_log. destruct w as [w|]; [|done]. destruct (wn_pid w); [|done].
  intros (t & [[-> H]|H]); exists t; [left; split; [done|set_solver]|by right].
Qed.

(** The worker after it was stopped: one without a process stays as it is. *)
Definition stopped (w : WorkerNode) : WorkerNode :=
  match wn_pid w with Some _ => set_state Stopped (set_pid None w) | None => w end.

(** Stopping [name] changes that worker alone. *)
Definition stop_spec (name : string) (s s' : Mgr) : Prop :=
  (∀ i, nodes (mg_tree s') !! i =
     match nodes (mg_tree s) !! i with
     | Some (Worker w) => Some (Worker (if decide (i = name) then stopped w else w))
     | o => o
     end) ∧
  (events (mg_os s') ≤ events (mg_os s))%nat ∧ live (mg_os s') ⊆ live (mg_os s) ∧
  ∃ l, history (mg_os s') = history (mg_os s) ++ l ∧
       stop_log (get_worker (mg_tree s) name) (live (mg_os s')) l.

(** A clock reading so late that adding a timeout overflows. *)
Definition overflows (d : Z) : Prop := ∃ o, instant_add (os_now o).1 d = None.

Lemma wp_sys {A} (X : Prop) (f : os → A * os) (Q : A → Mgr → Prop) s :
  Q (f (mg_os s)).1 (with_os (f (mg_os s)).2 s) → wp X (sys f) Q s.
Proof. unfold wp, sys. by destruct (f (mg_os s)). Qed.

Lemma finalize_stop_spec (X : Prop) name pid s (Q : () → Mgr → Prop) :
  (∀ s', mg_tree s' = update_worker (λ w, set_state Stopped (set_pid None w)) name
           (unregister_pid pid (mg_tree s)).2 → frame (mg_os s) (mg_os s') → Q () s') →
  wp X (finalize_stop hierarchy name pid) Q s.
Proof.
  intros HQ. unfold finalize_stop. apply wp_bind. cbn. apply wp_bind. cbn. apply wp_bind. cbn.
  set (s3 := with_monitor _ _).
  pose proof (cleanup_cgroup_total hierarchy name s3 I) as H. apply (wp_total X) in H.
  eapply wp_mono; [exact H|]. intros [] s' [[Ht Hf] _]. apply HQ; [by rewrite Ht|exact Hf].
Qed.

(** How the two waits end: the child is gone, or it was killed after the deadline. *)
Definition waits_log (pid deadline : Z) (s' : Mgr) (l : list proc_event) : Prop :=
  l = [] ∧ (pid ∉ live (mg_os s')) ∨ ∃ t, deadline ≤ t ∧ l = [Sent pid SIGKILL t true].

Lemma instant_add_Some now d t : instant_add now d = Some t → t = now + d.
Proof. unfold instant_add. destruct (_ <? _); congruence. Qed.

Lemma stop_waits (X : Prop) pid timeout deadline now s (Q : () → Mgr → Prop) :
  (overflows (from_secs 3) → X) → 0 ≤ timeout → instant_add now timeout = Some deadline →
  now ≤ clock (mg_os s) → pid ∈ live (mg_os s) →
  (∀ l s', pstep pid l s s' → waits_log pid deadline s' l → Q () s') →
  wp X (gone ← wait_exit (rounds timeout) pid deadline;
        (if gone : bool then mret ()
         else
           _ ← sys (os_kill pid SIGKILL);
           now ← sys os_now;
           kill_deadline ← unwrap (instant_add now (from_secs 3));
           wait_killed (rounds (from_secs 3)) pid kill_deadline)) Q s.
Proof.
  intros HX Ht Hdl%instant_add_Some Hnow Hp HQ. apply wp_bind. subst deadline.
  destruct (wait_exit_spec (rounds timeout) pid (now + timeout) s) as (b & s1 & E & H1 & Hb);
    [by apply rounds_enough|unfold rounds; lia|].
  unfold wp at 1. rewrite E. apply wstep_pstep in H1. destruct b.
  { apply (HQ []); [done|by left]. }
  destruct Hb as [Hl1 Hc1].
  apply wp_bind, wp_sys. destruct (kill_pstep pid SIGKILL s1) as [H2 _]; [by rewrite Hl1|].
  set (s2 := with_os _ s1) in *. apply wp_bind, wp_sys.
  pose proof (now_law (mg_os s2)) as Hl.
  assert (pstep pid [] s2 (with_os (os_now (mg_os s2)).2 s2)) as H3
    by (apply ostep_pstep; split; [done|apply now_frame]).
  apply wp_bind, wp_unwrap; [intros Hn; apply HX; by exists (mg_os s2)|]. intros kd ->%instant_add_Some.
  destruct (wait_killed_spec (rounds (from_secs 3)) pid ((os_now (mg_os s2)).1 + from_secs 3)
    (with_os (os_now (mg_os s2)).2 s2)) as (s4 & E4 & H4%wstep_pstep).
  { apply rounds_enough; [unfold from_secs, NANOS; lia|]. exact (proj2 Hl). }
  { unfold rounds. lia. }
  unfold wp. rewrite E4. eapply HQ; [|right; by exists (clock (mg_os s1))].
  exact (pstep_trans _ _ _ _ _ _ (pstep_trans _ _ _ _ _ _ (pstep_trans _ _ _ _ _ _ H1 H2) H3) H4).
Qed.
End stopping.

Lemma wp_assoc {S A B C} X (m : St S A) (k : A → St S B) (f : B → St S C) Q s :
  wp X ((m ≫= k) ≫= f) Q s → wp X (m ≫= λ a, k a ≫= f) Q s.
Proof. unfold wp, mbind, St_bind. by destruct (m s). Qed.

Lemma stop_timeout_nonneg def : 0 ≤ stop_timeout def.
Proof.
  unfold stop_timeout, from_secs, NANOS. destruct (parse_duration_secs _) as [n|] eqn:E; [|lia].
  apply parse_duration_range in E. lia.
Qed.

Section stop_service.
Context `{L : FiniteExits, HO : HashOrder}.
Variable hierarchy : option CgroupHierarchy.

Lemma run_stop_exec_total def : total (λ _, True) ostep (run_stop_exec def).
Proof.
  unfold run_stop_exec. destruct (sh_stop_exec _) as [[|c cmd]|]; total_tac.
  apply sys_total. auto with dynamod.
Qed.

(** From the second reading of the clock on. *)
Lemma stop_tail (X : Prop) name pid w s (Q : () → Mgr → Prop) :
  (overflows (from_secs 3) → X) → (overflows (stop_timeout (wn_def w)) → X) → pid ∈ live (mg_os s) →
  (∀ l s1 s', pstep pid l s s1 → waits_log pid (clock (mg_os s) + stop_timeout (wn_def w)) s1 l →
     frame (mg_os s1) (mg_os s') →
     mg_tree s' = update_worker (λ w, set_state Stopped (set_pid None w)) name
       (unregister_pid pid (mg_tree s)).2 → Q () s') →
  wp X (now ← sys os_now;
        deadline ← unwrap (instant_add now (stop_timeout (wn_def w)));
        gone ← wait_exit (rounds (stop_timeout (wn_def w))) pid deadline;
        (if gone : bool then mret ()
         else
           _ ← sys (os_kill pid SIGKILL);
           now ← sys os_now;
           kill_deadline ← unwrap (instant_add now (from_secs 3));
           wait_killed (rounds (from_secs 3)) pid kill_deadline) ;;
        finalize_stop hierarchy name pid) Q s.
Proof.
  intros HX1 HX2 Hp HQ. apply wp_bind, wp_sys. pose proof (now_law (mg_os s)) as Hl.
  pose proof (now_frame (mg_os s)) as Hfr.
  assert (pstep pid [] s (with_os (os_now (mg_os s)).2 s)) as H1 by (apply ostep_pstep; by split).
  apply wp_bind, wp_unwrap; [intros Hn; apply HX2; by exists (mg_os s)|]. intros dl Hdl.
  apply wp_assoc, wp_bind.
  eapply stop_waits; [exact HX1|apply stop_timeout_nonneg|exact Hdl|apply Hl| |].
  { cbn. destruct Hfr as (-> & _). exact Hp. }
  intros l s2 H2 Hw. apply finalize_stop_spec. intros s3 Ht3 Hf3.
  apply (HQ l s2); [exact (pstep_trans _ _ _ _ _ _ H1 H2)| |done|].
  - destruct Hw as [?|(t & Ht & ->)]; [by left|right]. exists t. split; [|done].
    apply instant_add_Some in Hdl. lia.
  - rewrite Ht3. destruct H2 as (-> & _). done.
Qed.

(** A service without a process is left as it is. *)
Lemma stop_spec_refl name s :
  (∀ w p, get_worker (mg_tree s) name = Some w → wn_pid w = Some p → False) → stop_spec name s s.
Proof.
  intros Hno. split; [|split; [lia|split; [done|]]].
  - intros i. destruct (nodes (mg_tree s) !! i) as [[|v]|] eqn:Ei; [done| |done]. do 2 f_equal.
    case_decide; [|done]. subst i. unfold stopped. destruct (wn_pid v) as [p|] eqn:Ep; [|done].
    exfalso. apply (Hno v p); [by apply get_worker_lookup|done].
  - exists []. rewrite app_nil_r. split; [done|]. unfold stop_log.
    destruct (get_worker (mg_tree s) name) as [w|] eqn:Ew; [|done].
    destruct (wn_pid w) as [p|] eqn:Ep; [|done]. exfalso. by apply (Hno w p).
Qed.

(** The tree after a stop: the worker was marked stopping, then stopped. *)
Definition stopped_tree (name : string) (pid : Z) (st : ServiceState) (t : SupervisorTree) : SupervisorTree :=
  update_worker (λ w, set_state Stopped (set_pid None w)) name
    (unregister_pid pid (update_worker (set_state st) name t)).2.

Lemma stopped_tree_spec name pid st t w :
  tree_ok t → nodes t !! name = Some (Worker w) → wn_pid w = Some pid →
  tree_ok (stopped_tree name pid st t) ∧ pid_map (stopped_tree name pid st t) = delete pid (pid_map t) ∧
  ∀ i, nodes (stopped_tree name pid st t) !! i =
    match nodes t !! i with
    | Some (Worker w) => Some (Worker (if decide (i = name) then stopped w else w))
    | o => o
    end.
Proof.
  intros Hok Hw Ep. pose proof (wp_pid _ (proj2 Hok) _ _ _ Hw Ep) as Hpm. split; [|split].
  - apply tree_ok_exit; [by rewrite update_worker_pid_map|done|done|]. by apply tree_ok_state; [|auto|].
  - unfold stopped_tree. rewrite update_worker_pid_map. cbn. by rewrite update_worker_pid_map.
  - intros i. unfold stopped_tree. rewrite update_worker_lookup. cbn [unregister_pid snd with_pids nodes].
    rewrite update_worker_lookup. destruct (nodes t !! i) as [[|v]|] eqn:Ei; [done| |done]. do 2 f_equal.
    case_decide; [|done]. subst i. rewrite Hw in Ei. injection Ei as <-. unfold stopped. by rewrite Ep.
Qed.

Lemma stop_service_graceful_spec (X : Prop) name s (Q : () → Mgr → Prop) :
  mgr_ok s → (overflows (from_secs 3) → X) →
  (∀ w, get_worker (mg_tree s) name = Some w → overflows (stop_timeout (wn_def w)) → X) →
  (∀ s', mgr_ok s' → stop_spec name s s' → Q () s') →
  wp X (stop_service_graceful hierarchy name) Q s.
Proof.
  intros [Hok Hlive] HX1 HX2 HQ. unfold stop_service_graceful. apply wp_bind. unfold wp at 1. cbn.
  destruct (get_worker (mg_tree s) name) as [w|] eqn:Ew; [destruct (wn_pid w) as [pid|] eqn:Ep|].
  2,3: apply HQ; [done|]; apply stop_spec_refl; intros v p Hv Hp; congruence.
  apply get_worker_lookup in Ew as Hw.
  assert (pid ∈ live (mg_os s)) as Hp by (eapply Hlive, (wp_pid _ (proj2 Hok)); done).
  apply wp_bind. eapply wp_mono; [apply (wp_total X), run_stop_exec_total; done|].
  intros _ s1 [Ho1 _]. assert (Ho1' := Ho1). destruct Ho1' as [Ht1 (Hl1 & _)].
  apply wp_bind, wp_sys. set (sg := parse_signal _).
  destruct (kill_pstep pid sg s1) as [H2 Hl2]; [by rewrite Hl1|]. set (s2 := with_os _ s1) in *.
  apply wp_bind, wp_sys. set (s3 := with_os (os_now (mg_os s2)).2 s2).
  assert (pstep pid [] s2 s3) as H3 by (apply ostep_pstep; split; [done|apply now_frame]).
  apply wp_bind, wp_unwrap; [intros Hn; apply (HX2 w eq_refl); by exists (mg_os s2)|]. intros sd _.
  apply wp_bind. unfold wp at 1. cbn [on_tree modify].
  set (s4 := with_tree _ s3). apply (stop_tail X name pid w); [exact HX1|by apply HX2| |].
  { pose proof (now_frame (mg_os s2)) as (Hl3 & _). change (pid ∈ live (os_now (mg_os s2)).2). rewrite Hl3.
    change (pid ∈ live (os_kill pid sg (mg_os s1)).2). by rewrite Hl2, Hl1. }
  intros l s5 s6 H5 Hw5 (Hfl & Hfe & Hfk & Hfc) Ht6.
  pose proof (pstep_trans _ _ _ _ _ _ (ostep_pstep pid _ _ Ho1) (pstep_trans _ _ _ _ _ _ H2 H3)) as (_ & Hk & Hc & He & Hlo & Hhi).
  destruct H5 as (_ & Hk5 & Hc5 & He5 & Hlo5 & Hhi5). change (mg_os s4) with (mg_os s3) in *.
  destruct (stopped_tree_spec name pid (Stopping (Some sd)) (mg_tree s) w Hok Hw Ep) as (Hok' & Hpids & Hnodes).
  change (mg_tree s4) with (update_worker (set_state (Stopping (Some sd))) name (mg_tree s1)) in Ht6.
  rewrite Ht1 in Ht6. fold (stopped_tree name pid (Stopping (Some sd)) (mg_tree s)) in Ht6.
  apply HQ.
  - split; [by rewrite Ht6|]. rewrite Ht6, Hpids. intros q id [Hne Hq]%lookup_delete_Some.
    apply Hlive in Hq. rewrite Hfl. clear -Hlo Hlo5 Hne Hq. set_solver.
  - split; [by rewrite Ht6|]. split; [lia|]. split; [rewrite Hfl; clear -Hhi Hhi5; set_solver|].
    exists (Sent pid sg (clock (mg_os s1)) true :: l). split; [by rewrite Hfk, Hk5, Hk, <-app_assoc|].
    unfold stop_log. rewrite Ew, Ep, Hfl. exists (clock (mg_os s1)). unfold stop_signal.
    rewrite <-parse_signal_names. fold sg.
    destruct Hw5 as [[-> ?]|(t & Hle & ->)]; [by left|right]. exists t. split; [|done].
    destruct H2 as (_ & _ & ? & _), H3 as (_ & _ & ? & _). lia.
Qed.
End stop_service.

(** ** Stopping all of them *)

Section shutdown_facts.
Context `{L : FiniteExits, HO : HashOrder}.
Variable hierarchy : option CgroupHierarchy.

(** A stop timeout of the tree overflows the clock. *)
Definition timeout_overflows (t : SupervisorTree) : Prop :=
  overflows (from_secs 3) ∨ ∃ name w, get_worker t name = Some w ∧ overflows (stop_timeout (wn_def w)).

(** The workers in [l] are stopped, the others are as they were. *)
Definition all_stopped (l : list string) (t t' : SupervisorTree) : Prop :=
  ∀ i, nodes t' !! i =
    match nodes t !! i with
    | Some (Worker w) => Some (Worker (if decide (i ∈ l) then stopped w else w))
    | o => o
    end.

Lemma stopped_def w : wn_def (stopped w) = wn_def w.
Proof. unfold stopped. by destruct (wn_pid w). Qed.

Lemma stop_all_spec X l s (Q : () → Mgr → Prop) :
  NoDup l → mgr_ok s → (timeout_overflows (mg_tree s) → X) →
  (∀ s' logs, mgr_ok s' → all_stopped l (mg_tree s) (mg_tree s') →
     (events (mg_os s') ≤ events (mg_os s))%nat → live (mg_os s') ⊆ live (mg_os s) →
     history (mg_os s') = history (mg_os s) ++ concat logs →
     Forall2 (λ n, stop_log (get_worker (mg_tree s) n) (live (mg_os s'))) l logs → Q () s') →
  wp X (for_each l (stop_service_graceful hierarchy)) Q s.
Proof.
  revert s Q. induction l as [|n l IH]; intros s Q Hnd Hok HX HQ; cbn [for_each].
  { apply (HQ s []); [done| |lia|done|by rewrite app_nil_r|constructor].
    intros i. destruct (nodes (mg_tree s) !! i) as [[]|]; [done| |done]. by rewrite decide_False by set_solver. }
  apply NoDup_cons in Hnd as [Hn Hnd]. apply wp_bind.
  apply stop_service_graceful_spec; [done|intros H; apply HX; by left|intros w Hw H; apply HX; right; eauto|].
  intros s1 Hok1 (Hnodes & He & Hlv & log0 & Hk & Hlog0).
  assert (∀ m, m ≠ n → get_worker (mg_tree s1) m = get_worker (mg_tree s) m) as Hsame.
  { intros m Hm. unfold get_worker. rewrite Hnodes.
    destruct (nodes (mg_tree s) !! m) as [[]|]; [done| |done]. by rewrite decide_False. }
  apply IH; [done|done| |].
  - intros [H|(m & w & Hm & Ho)]; [apply HX; by left|]. apply HX. right. unfold get_worker in Hm.
    rewrite Hnodes in Hm. unfold get_worker.
    destruct (nodes (mg_tree s) !! m) as [[|v]|] eqn:Ev; [done| |done]. exists m, v. rewrite Ev.
    split; [done|]. injection Hm as <-. case_decide; [by rewrite stopped_def in Ho|done].
  - intros s2 logs Hok2 Hall He2 Hlv2 Hk2 Hlogs. apply (HQ s2 (log0 :: logs)); [done| |lia|by etrans| |].
    + intros i. rewrite Hall, Hnodes. destruct (nodes (mg_tree s) !! i) as [[|w]|]; [done| |done].
      do 2 f_equal. destruct (decide (i = n)) as [->|Hi].
      * rewrite decide_False, decide_True by set_solver. done.
      * apply decide_ext. set_solver.
    + by rewrite Hk2, Hk, <-app_assoc.
    + constructor; [by eapply stop_log_mono|]. apply Forall2_same_length_lookup.
      split; [by eapply Forall2_length|]. intros i m lg Hm Hlg.
      rewrite <-Hsame; [by apply (Forall2_lookup_lr _ _ _ i _ _ Hlogs)|]. intros ->.
      by apply Hn, (list_elem_of_lookup_2 _ i).
Qed.

Lemma reap_remaining_spec fuel s :
  (events (mg_os s) < fuel)%nat →
  ∃ s', reap_remaining fuel s = Ret () s' ∧ mg_tree s' = mg_tree s ∧
    history (mg_os s') = history (mg_os s) ∧ live (mg_os s') ⊆ live (mg_os s).
Proof.
  revert s. induction fuel as [|fuel IH]; intros s Hf; [lia|]. cbn [reap_remaining].
  unfold mbind, St_bind, sys. pose proof (wait_law None (mg_os s)) as (Hk & _ & Hw).
  destruct (os_waitpid None (mg_os s)) as [r o]. cbn [fst snd] in *.
  assert (live o ⊆ live (mg_os s) → (events o < events (mg_os s))%nat → ∃ s',
    reap_remaining fuel (with_os o s) = Ret () s' ∧ mg_tree s' = mg_tree s ∧
    history (mg_os s') = history (mg_os s) ∧ live (mg_os s') ⊆ live (mg_os s)) as Hgo.
  { intros Hl He. destruct (IH (with_os o s)) as (s' & E & Ht & Hk' & Hl'); [cbn; lia|]. exists s'.
    split; [done|]. split; [done|]. split; [by rewrite Hk'|]. by etrans. }
  destruct r as [p c|p c| | | |]; destruct Hw as [Hl Hw];
    try (eexists; split; [reflexivity|]; cbn; rewrite Hl; done);
    apply Hgo; try (destruct Hw as (_ & -> & ?); set_solver); try (by rewrite Hl); try lia;
    destruct Hw as (_ & _ & ?); done.
Qed.

(** The outcome of a shutdown: the workers of the graph are stopped, and the history grew by
    what stopping each of them in the stop order sends. *)
Definition shut (g : DependencyGraph) (s s' : Mgr) : Prop :=
  all_stopped (elements (services g)) (mg_tree s) (mg_tree s') ∧
  ∃ order logs, compute_reverse_topo_order g = Some order ∧
    history (mg_os s') = history (mg_os s) ++ concat logs ∧
    Forall2 (λ n, stop_log (get_worker (mg_tree s) n) (live (mg_os s'))) order logs.

Lemma execute_shutdown_spec X g fuel s (Q : () → Mgr → Prop) :
  wf_graph g → mgr_ok s → (events (mg_os s) < fuel)%nat → (timeout_overflows (mg_tree s) → X) →
  (∀ s', shut g s s' → Q () s') →
  wp X (execute_shutdown hierarchy fuel g) Q s.
Proof.
  intros Hwf Hok Hf HX HQ. destruct (stop_order_spec g Hwf) as (l & Hl & Hin & Hnd & _).
  unfold execute_shutdown. apply wp_bind, wp_unwrap; [congruence|]. intros l' Hl'.
  assert (l' = l) as -> by congruence. apply wp_bind.
  apply stop_all_spec; [done|done|done|]. intros s1 logs Hok1 Hall He _ Hk Hlogs.
  destruct (reap_remaining_spec fuel s1) as (s2 & E & Ht & Hk2 & Hl2); [lia|].
  unfold wp. rewrite E. apply HQ. split.
  - intros i. rewrite Ht, Hall. destruct (nodes (mg_tree s) !! i) as [[]|]; [done| |done].
    do 2 f_equal. apply decide_ext. by rewrite Hin, elem_of_elements.
  - exists l, logs. split; [done|]. split; [by rewrite Hk2|]. eapply Forall2_impl; [exact Hlogs|].
    intros n lg. by apply stop_log_mono.
Qed.
End shutdown_facts.


(** Two services, the second requiring the first, both running; the first one does
    not react to its stop signal. *)
Definition two_services : list ServiceDef :=
  let d := minimal_service "db" ["/bin/db"%string] in
  let w := minimal_service "web" ["/bin/web"%string] in
  [{| sd_service := sd_service d; sd_restart := sd_restart d; sd_readiness := sd_readiness d;
      sd_dependencies := sd_dependencies d; sd_cgroup := None; sd_namespace := None;
      sd_shutdown := {| sh_stop_signal := "SIGINT"; sh_stop_timeout := "0s"; sh_stop_exec := None |} |};
   {| sd_service := sd_service w; sd_restart := sd_restart w; sd_readiness := sd_readiness w;
         sd_dependencies := {| ds_requires := ["db"%string]; ds_wants := []; ds_after := []; ds_before := [] |};
         sd_cgroup := None; sd_namespace := None; sd_shutdown := sd_shutdown w |}].
Definition two_graph : DependencyGraph :=
  default {| hard_deps := ∅; requires := ∅; reverse_deps := ∅; services := ∅ |}
    (build (HO := elements_order) two_services).
Definition two_tree : SupervisorTree :=
  let t := tree_new "root" OneForOne (intensity_new 20 (from_secs 600)) in
  let t := foldl (λ t d, or_keep (add_worker d "root" t) t) t two_services in
  register_pid "web" 11 (register_pid "db" 10 t).
Definition two_running : @Mgr scripted :=
  {| mg_tree := two_tree; mg_monitor := monitor_new;
     mg_os := {| sc_clock := 0; sc_wait := [Exited 11 0; StillAlive; Signaled 10 9]; sc_pids := []; sc_live := {[10; 11]};
                 sc_history := []; sc_files := ∅ |} |}.

Lemma two_running_ok : mgr_ok two_running.
Proof.
  split.
  - apply tree_ok_register; [reflexivity|reflexivity|].
    apply tree_ok_register; [reflexivity|reflexivity|]. cbn [two_services foldl].
    apply tree_ok_keep_worker, tree_ok_keep_worker, tree_ok_new.
  - intros p id Hp. cbn in Hp. vm_compute in Hp. unfold two_running; cbn [mg_os live scripted_laws sc_live].
    destruct (decide (p = 10)) as [->|]; [set_solver|]. destruct (decide (p = 11)) as [->|]; [set_solver|].
    exfalso. change (pid_map two_tree !! p = Some id) in Hp. unfold two_tree, register_pid in Hp.
    cbn [pid_map with_pids] in Hp. rewrite lookup_insert_ne in Hp by congruence.
    rewrite update_worker_pid_map in Hp. cbn [pid_map with_pids] in Hp.
    rewrite lookup_insert_ne in Hp by congruence. rewrite update_worker_pid_map in Hp. by vm_compute in Hp.
Qed.

(** The state after the shutdown of the two. *)
Definition two_stopped : @Mgr scripted :=
  final_state (execute_shutdown (K := scripted) (HO := elements_order) None 4 two_graph two_running)
    two_running.

