(* ===== verification/Supervision.v ===== *)
(** * What supervision guarantees

    Theorems about the reaping loop: it returns and keeps the manager's invariant
    whatever the system reports, and an exited worker is started again according
    to its policy, and only it under one-for-one. *)

From S2P Require Import Prelude Config World Cgroup Spawn Intensity Tree Strategy Monad Manager.
From S2P Require Import ManagerFacts.

#[local] Open Scope list_scope.

Section supervision.
Context `{L : FiniteExits, HO : HashOrder}.
Variable hierarchy : option CgroupHierarchy.

(** A process id in the tree belongs to one worker, which the exit of that process
    will be attributed to, and to a child the system still has. *)
Definition registered (s : Mgr) : Prop :=
  ∀ id w p, get_worker (mg_tree s) id = Some w → wn_pid w = Some p →
    worker_for_pid (mg_tree s) p = Some id ∧ p ∈ live (mg_os s) ∧
    ∀ id' w', get_worker (mg_tree s) id' = Some w' → wn_pid w' = Some p → id' = id.

Lemma mgr_ok_registered s : mgr_ok s → registered s.
Proof.
  intros [[_ Hp] Hl] id w p Hw%get_worker_lookup Hpid. pose proof (wp_pid _ Hp _ _ _ Hw Hpid) as Hm.
  split; [done|]. split; [by eapply Hl|]. intros id' w' Hw'%get_worker_lookup Hpid'.
  pose proof (wp_pid _ Hp _ _ _ Hw' Hpid'). congruence.
Qed.

(** ** The tree after a start *)

(** The tree after [id] was started: running as the child [q], or failed without one. *)
Definition started_tree (id : string) (q : option Z) (t : SupervisorTree) : SupervisorTree :=
  match q with
  | Some q => update_worker (set_state Running) id (register_pid id q t)
  | None => update_worker (set_state (Failed None None)) id t
  end.

(** What a start did to the processes: one fork for the service, whose child is [q]; or a fork
    that failed; or none, when the command cannot be executed. *)
Inductive start_log (def : ServiceDef) (o o' : os) : option Z → Prop :=
| log_forked plan q :
    plan_for def plan → history o' = history o ++ [Forked plan (Ok q)] → q ∉ live o → q ∈ live o' →
    start_log def o o' (Some q)
| log_refused plan e :
    plan_for def plan → history o' = history o ++ [Forked plan (Err e)] → start_log def o o' None
| log_unrunnable :
    runnable def = false → history o' = history o → start_log def o o' None.

Lemma start_log_frame def o1 o2 o3 o4 q :
  frame o1 o2 → start_log def o2 o3 q → frame o3 o4 → start_log def o1 o4 q.
Proof.
  intros (Hl & _ & Hh & _) Hs (Hl' & _ & Hh' & _).
  destruct Hs as [plan q Hp H1 H2 H3|plan e Hp H1|Hr H1]; rewrite Hh in H1.
  - eapply log_forked; [done|by rewrite Hh'|by rewrite <-Hl|by rewrite Hl'].
  - eapply log_refused; [done|by rewrite Hh'].
  - eapply log_unrunnable; [done|by rewrite Hh'].
Qed.

Lemma start_worker_spec (X : Prop) id w s (Q : option Z → Mgr → Prop) :
  get_worker (mg_tree s) id = Some w →
  (∀ r s' q, start_log (wn_def w) (mg_os s) (mg_os s') q →
     mg_tree s' = started_tree id q (mg_tree s) → Q r s') →
  wp X (start_worker hierarchy id) Q s.
Proof.
  intros Hw HQ. unfold start_worker. apply wp_bind. unfold wp at 1. cbn. rewrite Hw.
  apply wp_bind. eapply wp_mono; [apply (wp_total X), setup_cgroup_total; done|].
  intros path s1 [[Ht1 Hf1] _]. apply wp_bind. unfold wp at 1, sys.
  pose proof (spawn_service_spec (wn_def w) (mg_os s1)) as Hsp.
  destruct (spawn_service (wn_def w) (mg_os s1)) as [[sp|e] o]; cbn beta iota; destruct Hsp as (_ & _ & Hsp).
  - destruct Hsp as (Hnew & Hl & plan & Hp & Hh). apply wp_bind. cbn. apply wp_bind. cbn. apply wp_bind.
    eapply wp_mono; [apply (wp_total X), attach_cgroup_total; done|].
    intros [] s2 [[Ht2 Hf2] _]. apply (HQ _ _ (Some (sp_pid sp))).
    + eapply start_log_frame; [exact Hf1| |exact Hf2]. eapply log_forked; [done|done|done|]. cbn. set_solver.
    + rewrite Ht2. cbn. by rewrite Ht1.
  - destruct Hsp as (_ & Hh). apply wp_bind. cbn. apply wp_bind.
    eapply wp_mono; [apply (wp_total X), cleanup_cgroup_total; done|].
    intros [] s2 [[Ht2 Hf2] _]. apply (HQ _ _ None).
    + eapply start_log_frame; [exact Hf1| |exact Hf2].
      destruct Hh as [[? ?]|(plan & e' & ? & ?)]; [by eapply log_unrunnable|by eapply log_refused].
    + rewrite Ht2. cbn. by rewrite Ht1.
Qed.

(** ** The tree after an exit *)

(** An intensity that is not exceeded by one more restart. *)
Definition below_intensity (i : RestartIntensity) : Prop :=
  (Z.of_nat (length (timestamps i)) < max_restarts i)%Z.

Lemma evict_length c ts : length (evict c ts) ≤ length ts.
Proof. induction ts as [|t ts IH]; cbn; [lia|]. destruct (_ <? _)%Z; cbn; lia. Qed.

Lemma below_not_exceeded now i : below_intensity i → fst (record_restart_at now i) = false.
Proof.
  unfold below_intensity, record_restart_at. cbn. intros Hb. apply Z.ltb_ge.
  pose proof (evict_length (default now (checked_sub now (window i))) (timestamps i ++ [now])) as H'.
  rewrite length_app in H'. cbn in H'. lia.
Qed.

(** Under one-for-one, the exit of a worker that is to be restarted. *)
Definition restarts_alone (t : SupervisorTree) (id : string) (w : WorkerNode) (e : ExitInfo) : Prop :=
  get_worker t id = Some w ∧ should_restart (wn_restart_policy w) e = true ∧
  ∃ sup, get_supervisor t (wn_parent w) = Some sup ∧ sn_strategy sup = OneForOne ∧
         below_intensity (sn_intensity sup).

(** The tree when the restart is recorded and the exited worker is cleared. *)
Definition recorded_tree (now : Z) (t : SupervisorTree) (id : string) (w : WorkerNode) (e : ExitInfo)
    : SupervisorTree :=
  (record_in now (wn_parent w) (update_worker (clear_exited e) id t)).2.

Lemma strategy_of_exit now t id w e :
  restarts_alone t id w e →
  let t' := update_worker (clear_exited e) id t in
  apply_strategy now t' (wn_parent w) id e = (apply_one_for_one id, recorded_tree now t id w e).
Proof.
  intros (Hw & Hr & sup & Hs & Hst & Hb). cbv zeta. apply get_worker_lookup in Hw.
  unfold get_supervisor in Hs. destruct (nodes t !! wn_parent w) as [[sup'|]|] eqn:Es; try done.
  injection Hs as ->. unfold apply_strategy, get, get_worker, recorded_tree, record_in.
  rewrite !update_worker_lookup, Es, Hw, decide_True by done. cbn [clear_exited set_state set_pid wn_restart_policy].
  rewrite Hr. cbn [negb]. pose proof (below_not_exceeded now _ Hb) as Hx.
  destruct (record_restart_at now (sn_intensity sup)) as [ex i]. cbn in Hx. subst ex. cbn [snd].
  by rewrite Hst.
Qed.

Lemma recorded_tree_lookup now t id w e j v :
  nodes t !! j = Some (Worker v) →
  nodes (recorded_tree now t id w e) !! j =
    Some (Worker (if decide (j = id) then clear_exited e v else v)).
Proof.
  intros Hj. unfold recorded_tree, record_in. set (t' := update_worker (clear_exited e) id t).
  assert (nodes t' !! j = Some (Worker (if decide (j = id) then clear_exited e v else v))) as Hj'
    by (unfold t'; by rewrite update_worker_lookup, Hj).
  destruct (nodes t' !! wn_parent w) as [[s'|]|] eqn:E; [|done|done].
  destruct (record_restart_at now (sn_intensity s')). cbn [snd]. unfold update_supervisor. rewrite E. cbn.
  rewrite lookup_insert_ne; [done|congruence].
Qed.

Lemma recorded_with_pids now ps t id w e :
  recorded_tree now (with_pids ps t) id w e = with_pids ps (recorded_tree now t id w e).
Proof.
  unfold recorded_tree, record_in.
  assert (update_worker (clear_exited e) id (with_pids ps t)
          = with_pids ps (update_worker (clear_exited e) id t)) as ->.
  { unfold update_worker. cbn. by destruct (nodes t !! id) as [[]|]. }
  cbn [nodes with_pids]. destruct (nodes (update_worker _ id t) !! wn_parent w) as [[s'|]|] eqn:E; try done.
  destruct (record_restart_at now (sn_intensity s')). cbn [snd]. unfold update_supervisor. cbn.
  by rewrite E.
Qed.

(** The strategy step after the exit: the restart of the worker alone. *)
Lemma supervise_exit_restarts (X : Prop) reap id w e t s (Q : () → Mgr → Prop) :
  restarts_alone t id w e → mg_tree s = update_worker (clear_exited e) id t →
  (∀ now s' q, start_log (wn_def w) (mg_os s) (mg_os s') q →
     mg_tree s' = started_tree id q (recorded_tree now t id w e) → Q () s') →
  wp X (supervise_exit hierarchy reap id e) Q s.
Proof.
  intros Hr Hts HQ. assert (Hr' := Hr). destruct Hr' as (Hw & _). apply get_worker_lookup in Hw.
  unfold supervise_exit. apply wp_bind. unfold wp at 1. cbn [modify]. apply wp_bind.
  eapply wp_mono; [apply (wp_total X), cleanup_cgroup_total; done|].
  intros [] s3 [[Ht3 Hf3] _]. apply wp_bind. unfold wp at 1. cbn [gets].
  assert (mg_tree s3 = update_worker (clear_exited e) id t) as Ht by (by rewrite Ht3).
  rewrite Ht. unfold parent_of. rewrite update_worker_lookup, Hw, decide_True by done.
  cbn [clear_exited set_state set_pid wn_parent].
  apply wp_bind. unfold run_strategy. apply wp_bind. unfold wp at 1. cbn [gets]. apply wp_bind. rewrite Ht.
  destruct (now_keeps_tree s3 (records_restart (update_worker (clear_exited e) id t) (wn_parent w) id e))
    as (now & s4 & E4 & [Ht4 Hf4]). unfold wp at 1. rewrite E4.
  rewrite (strategy_of_exit now t id w e Hr). apply wp_bind. unfold wp at 1. cbn [on_tree modify].
  unfold wp at 1. cbn [mret St_ret supervisor_failed apply_one_for_one].
  unfold execute_strategy_action. cbn [to_stop to_start for_each]. apply wp_bind. unfold wp at 1. cbn [mret St_ret].
  apply wp_bind. unfold wp at 1. cbn [bool_decide decide_rel list_eq_dec mret St_ret].
  set (s5 := with_tree (recorded_tree now t id w e) s4).
  assert (get_worker (mg_tree s5) id = Some (clear_exited e w)) as Hv.
  { apply get_worker_lookup. pose proof (recorded_tree_lookup now t id w e id w Hw) as H.
    by rewrite decide_True in H. }
  apply wp_bind. unfold restart_child. apply wp_bind. unfold wp at 1. cbn [gets]. rewrite Hv. apply wp_bind.
  set (m := if (0 <? _)%Z then _ else _).
  assert (total (λ _, True) ostep m) as Hm.
  { unfold m. destruct (_ <? _)%Z; [apply sleep_total|apply total_ret, _]. }
  eapply wp_mono; [apply (wp_total X), Hm; done|]. intros [] s6 [[Ht6 Hf6] _]. apply wp_bind.
  apply (start_worker_spec X id (clear_exited e w)); [by rewrite Ht6|]. intros r s7 q Hlog Ht7.
  unfold wp. cbn [mret St_ret for_each]. apply (HQ now s7 q); [|by rewrite Ht7, Ht6].
  eapply start_log_frame; [|exact Hlog|reflexivity]. etrans; [exact Hf3|]. etrans; [exact Hf4|exact Hf6].
Qed.

Lemma handle_exit_restarts (X : Prop) reap p e s id w (Q : () → Mgr → Prop) :
  pid_map (mg_tree s) !! p = Some id → restarts_alone (mg_tree s) id w e →
  (∀ now s' q, start_log (wn_def w) (mg_os s) (mg_os s') q →
     mg_tree s' = started_tree id q (with_pids (delete p (pid_map (mg_tree s)))
                                       (recorded_tree now (mg_tree s) id w e)) → Q () s') →
  wp X (handle_child_exit hierarchy reap p e) Q s.
Proof.
  intros Hp Hr HQ. unfold handle_child_exit. apply wp_bind. unfold wp at 1. cbn [gets].
  unfold unregister_pid. rewrite Hp. apply wp_bind. unfold wp at 1. cbn [on_tree modify].
  apply wp_bind. unfold wp at 1. cbn [on_tree modify].
  apply (supervise_exit_restarts X reap id w e (with_pids (delete p (pid_map (mg_tree s))) (mg_tree s)));
    [exact Hr|done|]. intros now s' q Hlog H'. apply (HQ now s' q); [exact Hlog|].
  by rewrite recorded_with_pids in H'.
Qed.

(** A worker that came back: what [start_log] tells of the processes is what the tree says.
    The worker runs as the child that was just forked for it, to which its exit will be
    attributed; it is failed, without a process, only if nothing could be forked. *)
Definition came_back (id : string) (def : ServiceDef) (s s' : Mgr) : Prop :=
  ∃ w q, get_worker (mg_tree s') id = Some w ∧ wn_def w = def ∧ wn_pid w = q ∧
    start_log def (mg_os s) (mg_os s') q ∧
    match q with
    | Some q => wn_state w = Running ∧ pid_map (mg_tree s') !! q = Some id
    | None => wn_state w = Failed None None
    end.

Lemma started_tree_lookup id q t v :
  nodes t !! id = Some (Worker v) → wn_pid v = None →
  ∃ w, get_worker (started_tree id q t) id = Some w ∧ wn_def w = wn_def v ∧ wn_pid w = q ∧
    match q with
    | Some q => wn_state w = Running ∧ pid_map (started_tree id (Some q) t) !! q = Some id
    | None => wn_state w = Failed None None
    end.
Proof.
  intros Hv Hvp. destruct q as [q|]; cbn [started_tree].
  - eexists. split.
    + apply get_worker_lookup. rewrite update_worker_lookup. unfold register_pid. cbn [nodes with_pids].
      by rewrite update_worker_lookup, Hv, !decide_True.
    + cbn. split_and!; try done. rewrite update_worker_pid_map. cbn. by rewrite lookup_insert, decide_True.
  - eexists. split; [apply get_worker_lookup; by rewrite update_worker_lookup, Hv, decide_True|]. done.
Qed.

Lemma started_tree_other id q t j v :
  j ≠ id → nodes t !! j = Some (Worker v) → nodes (started_tree id q t) !! j = Some (Worker v).
Proof.
  intros Hj Hv. destruct q as [q|]; cbn [started_tree]; rewrite update_worker_lookup; unfold register_pid;
    cbn [nodes with_pids]; rewrite ?update_worker_lookup, Hv, !decide_False by done; done.
Qed.

(** Both for the tree after an exit. *)
Lemma exit_outcome now ps id w e s s' q :
  get_worker (mg_tree s) id = Some w → start_log (wn_def w) (mg_os s) (mg_os s') q →
  mg_tree s' = started_tree id q (with_pids ps (recorded_tree now (mg_tree s) id w e)) →
  came_back id (wn_def w) s s' ∧
  ∀ j v, j ≠ id → nodes (mg_tree s) !! j = Some (Worker v) → nodes (mg_tree s') !! j = Some (Worker v).
Proof.
  intros Hw%get_worker_lookup Hlog Ht. split.
  - destruct (started_tree_lookup id q (with_pids ps (recorded_tree now (mg_tree s) id w e)) (clear_exited e w))
      as (w' & H1 & H2 & H3 & H4); [|done|].
    { cbn. by rewrite (recorded_tree_lookup now (mg_tree s) id w e id w Hw), decide_True. }
    exists w', q. rewrite Ht. split_and!; try done. by destruct q.
  - intros j v Hj Hv. rewrite Ht. apply started_tree_other; [done|]. cbn.
    by rewrite (recorded_tree_lookup now (mg_tree s) id w e j v Hv), decide_False.
Qed.
End supervision.

(** C3: The reaping loop returns (no panic, enough rounds for the finitely many exits),
    keeps the supervisor tree well formed and its shape, and leaves every registered process
    id that of a live child registered to the worker that has it. *)
Theorem reaping_sound `{L : FiniteExits, HO : HashOrder} hierarchy fuel s :
  mgr_ok s → events (mg_os s) < fuel →
  wp False (reap_and_handle_exits hierarchy fuel) (λ _ s',
    mgr_ok s' ∧ same_shape (mg_tree s') (mg_tree s) ∧ registered s') s.
Proof.
  intros Hok Hf. eapply wp_mono.
  - apply (wp_total False), (reap_total hierarchy fuel (events (mg_os s)) Hf). by split.
  - intros [] s' [(Hs & _) [Hok' _]]. split; [done|]. split; [done|].
    by apply mgr_ok_registered.
Qed.

(** C18: When a worker whose policy restarts it exits under a one-for-one supervisor within
    its intensity, handling the exit returns and has started the worker again: it runs under
    the process id of the child just forked for its command, which is registered to it, or
    it is Failed without a process id, which happens only when its command cannot be
    executed (it names no program or holds a zero byte) or the fork failed; every other
    worker is unchanged. *)
Theorem exit_restarts_worker `{L : FiniteExits, HO : HashOrder} hierarchy reap p e s id w :
  pid_map (mg_tree s) !! p = Some id → restarts_alone (mg_tree s) id w e →
  wp False (handle_child_exit hierarchy reap p e) (λ _ s',
    came_back id (wn_def w) s s' ∧
    ∀ j v, j ≠ id → nodes (mg_tree s) !! j = Some (Worker v) → nodes (mg_tree s') !! j = Some (Worker v)) s.
Proof.
  intros Hp Hr. apply (handle_exit_restarts hierarchy False reap p e s id w); [done|done|].
  intros now s' q Hlog H'. eapply exit_outcome; [apply Hr|exact Hlog|exact H'].
Qed.

(** ** Examples *)

(** The services of [two_services], running, where the first exits; the second one
    is being stopped. *)
Definition pair_tree : SupervisorTree :=
  let t := tree_new "root" OneForOne (intensity_new 20 (from_secs 600)) in
  let t := or_keep (add_worker (svc "db") "root" t) t in
  let t := or_keep (add_worker (svc "web") "root" t) t in
  register_pid "web" 11 (register_pid "db" 10 t).
Definition pair_running (wait : list wait_status) : @Mgr scripted :=
  {| mg_tree := pair_tree; mg_monitor := monitor_new;
     mg_os := {| sc_clock := 0; sc_wait := wait; sc_pids := [12; 13]%Z; sc_live := {[10; 11]}%Z;
                 sc_history := []; sc_files := ∅ |} |}.

Lemma pair_pids p id : pid_map pair_tree !! p = Some id → p = 10%Z ∨ p = 11%Z.
Proof.
  unfold pair_tree, register_pid. cbn [pid_map with_pids]. rewrite update_worker_pid_map.
  intros Hp. destruct (decide (p = 11%Z)); [auto|]. rewrite lookup_insert_ne in Hp by congruence.
  cbn [pid_map with_pids] in Hp. rewrite update_worker_pid_map in Hp. destruct (decide (p = 10%Z)); [auto|].
  rewrite lookup_insert_ne in Hp by congruence. by vm_compute in Hp.
Qed.

Lemma pair_running_ok wait : mgr_ok (L := scripted_laws) (pair_running wait).
Proof.
  split.
  - apply tree_ok_register; [reflexivity|reflexivity|].
    apply tree_ok_register; [reflexivity|reflexivity|].
    apply tree_ok_keep_worker, tree_ok_keep_worker, tree_ok_new.
  - intros p id Hp. cbn. apply pair_pids in Hp. set_solver.
Qed.

(** db is killed, restarted as 12, exits again and is restarted as 13. *)
Definition pair_reaped : @Mgr scripted :=
  final_state (reap_and_handle_exits (K := scripted) (HO := elements_order) None 3
    (pair_running [Signaled 10 9; Exited 12 1])) (pair_running []).

Lemma reaping_sound_witness :
  worker_for_pid (mg_tree pair_reaped) 13 = Some "db"%string ∧ registered (L := scripted_laws) pair_reaped.
Proof.
  split; [vm_compute; reflexivity|].
  refine (proj2 (proj2 (wp_Ret _ _ _ _ () pair_reaped (reaping_sound (L := scripted_laws)
    (HO := elements_order) None 3 (pair_running [Signaled 10 9; Exited 12 1]%Z) (pair_running_ok _) _) _))).
  - cbn. lia.
  - apply is_ret_final. vm_compute. reflexivity.
Defined.

(** The exit of db, which is started again as 12. *)
Definition db_restarted : @Mgr scripted :=
  final_state (handle_child_exit (K := scripted) (HO := elements_order) None (mret ())
    10 {| exit_code := Some 1%Z; signal := None |} (pair_running [])) (pair_running []).

Lemma exit_restarts_worker_witness :
  wn_pid <$> get_worker (mg_tree db_restarted) "db" = Some (Some 12%Z) ∧
  came_back (L := scripted_laws) "db" (svc "db") (pair_running []) db_restarted.
Proof.
  split; [vm_compute; reflexivity|].
  destruct (get_worker pair_tree "db") as [w|] eqn:Ew; [|vm_compute in Ew; discriminate].
  assert (wn_def w = svc "db") as <- by (vm_compute in Ew; injection Ew as <-; reflexivity).
  refine (proj1 (wp_Ret _ _ _ _ () _ (exit_restarts_worker (L := scripted_laws) (HO := elements_order)
    None (mret ()) 10 {| exit_code := Some 1%Z; signal := None |} (pair_running []) "db" w _ _) _)).
  - vm_compute. reflexivity.
  - split; [exact Ew|]. vm_compute in Ew. injection Ew as <-. split; [reflexivity|].
    eexists. split; [vm_compute; reflexivity|]. split; [reflexivity|]. vm_compute. reflexivity.
  - apply is_ret_final. vm_compute. reflexivity.
Defined.

(** A service stopped over the control socket whose policy restarts it is marked stopping,
    and is started again when its exit is reaped. *)
Theorem stopped_service_comes_back `{L : FiniteExits, HO : HashOrder} hierarchy reap e s s1 s2 id w p :
  get_worker (mg_tree s) id = Some w → wn_pid w = Some p →
  restarts_alone (mg_tree s) id w e → mgr_ok s →
  stop_worker id s = Ret () s1 → mg_tree s2 = mg_tree s1 →
  wn_state <$> get_worker (mg_tree s2) id = Some (Stopping None) ∧
  wp False (handle_child_exit hierarchy reap p e) (λ _ s', came_back id (wn_def w) s2 s') s2.
Proof.
  intros Hw Hp Hr Hok Hs1 Ht2.
  assert (mg_tree s1 = update_worker (set_state (Stopping None)) id (mg_tree s)) as Ht1.
  { unfold stop_worker, mbind, St_bind, gets in Hs1. rewrite Hw, Hp in Hs1. unfold sys in Hs1.
    destruct (os_kill p SIGTERM (mg_os s)) as [b o]. by injection Hs1 as <-. }
  apply get_worker_lookup in Hw as Hw'. rewrite Ht1 in Ht2.
  assert (get_worker (mg_tree s2) id = Some (set_state (Stopping None) w)) as Hw2.
  { apply get_worker_lookup. by rewrite Ht2, update_worker_lookup, Hw', decide_True. }
  rewrite Hw2. split; [done|].
  apply (handle_exit_restarts hierarchy False reap p e s2 id (set_state (Stopping None) w)).
  - rewrite Ht2, update_worker_pid_map. exact (wp_pid _ (proj2 (proj1 Hok)) _ _ _ Hw' Hp).
  - destruct Hr as (_ & Hsr & sup & Hsup & Hst & Hb). split; [done|]. split; [done|]. exists sup.
    split; [|done]. unfold get_supervisor in *. cbn [wn_parent set_state].
    rewrite Ht2, update_worker_lookup. by destruct (nodes (mg_tree s) !! wn_parent w) as [[]|].
  - intros now s' q Hlog H'.
    exact (proj1 (exit_outcome now _ id (set_state (Stopping None) w) e s2 s' q Hw2 Hlog H')).
Qed.
Lemma stopped_service_comes_back_witness :
  wn_state <$> get_worker (mg_tree (final_state (stop_worker (K := scripted) "db" (pair_running []))
    (pair_running []))) "db" = Some (Stopping None).
Proof.
  destruct (get_worker pair_tree "db") as [w|] eqn:Ew; [|vm_compute in Ew; discriminate].
  refine (proj1 (stopped_service_comes_back (L := scripted_laws) (HO := elements_order) None (mret ())
    {| exit_code := None; signal := Some 15%Z |} (pair_running [])
    (final_state (stop_worker (K := scripted) "db" (pair_running [])) (pair_running [])) _ "db" w 10
    Ew _ _ (pair_running_ok _) _ eq_refl)).
  - vm_compute in Ew. injection Ew as <-. reflexivity.
  - split; [exact Ew|]. vm_compute in Ew. injection Ew as <-. split; [reflexivity|].
    eexists. split; [vm_compute; reflexivity|]. split; [reflexivity|]. vm_compute. reflexivity.
  - apply is_ret_final. vm_compute. reflexivity.
Defined.
