(* ===== verification/Control.v ===== *)
(** * The control socket (dynamod-svmgr/src/ipc/control.rs)

    One request and one response per connection.  A connection is what the stream
    hands out: the results of its reads and whether the response can be written. *)

From S2P Require Import Prelude RustStr Config Protocol Intensity Tree.

#[local] Open Scope list_scope.

Inductive ControlAction :=
| StartService (name : string)
| StopService (name : string)
| RestartService (name : string)
| Reload
| Shutdown (kind : ShutdownKind).

(** ** format_tree *)

(** [Debug] of a strategy. *)
Definition debug_strategy (s : RestartStrategy) : string :=
  match s with OneForOne => "OneForOne" | OneForAll => "OneForAll" | RestForOne => "RestForOne" end.

Fixpoint repeat_str (n : nat) (s : string) : string :=
  match n with O => "" | S n => String.append s (repeat_str n s) end.


(** The line of one node. *)
Definition node_line (t : SupervisorTree) (node_id : string) (depth : nat) : string :=
  let indent := repeat_str depth "  " in
  match get t node_id with
  | Some (Supervisor s) =>
      cat [indent; "[supervisor: "; node_id; "] strategy="; debug_strategy (sn_strategy s); nl]
  | Some (Worker w) =>
      let pid_str := match wn_pid w with Some p => String.append " pid=" (to_string p) | None => "" end in
      cat [indent; node_id; " ["; display_name (wn_state w); "]"; pid_str; nl]
  | None => cat [indent; node_id; " [unknown]"; nl]
  end.

(** The recursion over the children; [None] when the levels run out. *)
Fixpoint format_tree (fuel : nat) (t : SupervisorTree) (node_id : string) (depth : nat) : option string :=
  match fuel with
  | O => None
  | S fuel =>
      match get t node_id with
      | Some (Supervisor s) =>
          foldl (λ acc child, out ← acc; sub ← format_tree fuel t child (S depth);
                              Some (String.append out sub))
            (Some (node_line t node_id depth)) (sn_children s)
      | _ => Some (node_line t node_id depth)
      end
  end.

(** A tree has no more levels than nodes. *)
Definition levels (t : SupervisorTree) : nat := size (nodes t).

(** ** handle_request *)

Definition unknown_service (name : string) : MessageBody :=
  Error (String.append "unknown service: " name).

Definition handle_request `{HashOrder} (body : MessageBody) (t : SupervisorTree)
    : option (MessageBody * option ControlAction) :=
  match body with
  | MStartService name =>
      Some (match get_worker t name with
            | Some _ => (Ack, Some (StartService name))
            | None => (unknown_service name, None)
            end)
  | MStopService name =>
      Some (match get_worker t name with
            | Some _ => (Ack, Some (StopService name))
            | None => (unknown_service name, None)
            end)
  | MRestartService name =>
      Some (match get_worker t name with
            | Some _ => (Ack, Some (RestartService name))
            | None => (unknown_service name, None)
            end)
  | MServiceStatus name =>
      Some (match get_worker t name with
            | Some w => (ServiceInfo name (display_name (wn_state w)) (wn_pid w) (wn_parent w), None)
            | None => (unknown_service name, None)
            end)
  | ListServices =>
      Some (ServiceList (omap (λ name, (λ w, {| se_name := name; se_status := display_name (wn_state w);
                                                se_pid := wn_pid w |}) <$> get_worker t name)
                           (all_workers t)), None)
  | TreeStatus => text ← format_tree (levels t) t (root_id t) 0; Some (Tree text, None)
  | MShutdown kind => Some (Ack, Some (Shutdown kind))
  | MReload => Some (Ack, Some Reload)
  | GetServiceByPid pid => Some (ServiceByPid (worker_for_pid t pid) pid, None)
  | _ => Some (Error "unknown command", None)
  end.

(** ** handle_connection *)

Inductive conn_error := ConnIo | ConnClosed | ConnDecode (e : DecodeError) | ConnEncode (e : EncodeError).

Record connection := {
  cn_setup : bool;                       (** the socket options can be set *)
  cn_reads : list (option (list Z));     (** the reads: bytes, or an error *)
  cn_write : bool;                       (** the response can be written *)
}.

Definition BUF_SIZE : nat := Z.to_nat (HEADER_SIZE + MAX_MESSAGE_SIZE).

Section connections.
Context `{R : Rmp, HO : HashOrder}.

(** The reading loop: the buffer holds what was read so far.  No more reads is the
    end of the stream. *)
Fixpoint read_request (reads : list (option (list Z))) (buf : list Z)
    : result (option (list Z)) conn_error :=
  let eof := match buf with [] => Ok None | _ => Err ConnClosed end in
  match reads with
  | [] => eof
  | None :: _ => Err ConnIo
  | Some chunk :: reads =>
      match take (BUF_SIZE - length buf) chunk with
      | [] => eof
      | data =>
          let buf := buf ++ data in
          match decode buf with
          | Ok _ => Ok (Some buf)
          | Err Incomplete => read_request reads buf
          | Err e => Err (ConnDecode e)
          end
      end
  end.

Definition response_to (msg : Message) (body : MessageBody) : Message :=
  {| m_id := m_id msg; m_kind := Response (m_id msg); m_body := body |}.

(** The action for the main loop, and the bytes sent to the client; the outer
    [None] is a tree deeper than it has nodes. *)
Definition handle_connection (c : connection) (t : SupervisorTree)
    : option (result (option ControlAction) conn_error * list Z) :=
  if negb (cn_setup c) then Some (Err ConnIo, [])
  else
    match read_request (cn_reads c) [] with
    | Err e => Some (Err e, [])
    | Ok None => Some (Ok None, [])
    | Ok (Some buf) =>
        match decode buf with
        | Err e => Some (Err (ConnDecode e), [])
        | Ok (msg, _) =>
            '(body, action) ← handle_request (m_body msg) t;
            Some (match encode (response_to msg body) with
                  | Err e => (Err (ConnEncode e), [])
                  | Ok data => if cn_write c then (Ok action, data) else (Err ConnIo, [])
                  end)
        end
    end.

(** [ControlServer::bind]: the calls made on the path, and whether a server is returned. *)
Inductive bind_call := UnlinkStale | BindListener | SetNonblocking | SetMode (mode : Z).
Definition bind (call_ok : bind_call → bool) : list bind_call * bool :=
  if negb (call_ok BindListener) then ([UnlinkStale; BindListener], false)
  else if negb (call_ok SetNonblocking) then ([UnlinkStale; BindListener; SetNonblocking], false)
  else ([UnlinkStale; BindListener; SetNonblocking; SetMode (6 * 64 + 6 * 8)], true).

(** [poll]: the actions of the connections that are waiting, in order; a connection
    that fails is logged. *)
Fixpoint poll_control (conns : list connection) (t : SupervisorTree) : option (list ControlAction) :=
  match conns with
  | [] => Some []
  | c :: conns =>
      '(r, _) ← handle_connection c t;
      actions ← poll_control conns t;
      Some (match r with Ok (Some a) => a :: actions | _ => actions end)
  end.
End connections.

(** ** The levels of a tree *)

(** The distance of a node from the root. *)
Inductive depth_of (t : SupervisorTree) : string → nat → Prop :=
| depth_root : depth_of t (root_id t) 0
| depth_child c p n : child t c p → depth_of t p n → depth_of t c (S n).

Section levels.
Variable t : SupervisorTree.
Hypothesis Hwf : wf_tree t.

Lemma root_no_parent p : ¬ child t (root_id t) p.
Proof.
  destruct (wt_root _ Hwf) as (s & Hs & Hp). unfold child, parent_of. rewrite Hs. congruence.
Qed.

Lemma child_parent_node c p : child t c p → ∃ s, nodes t !! p = Some (Supervisor s) ∧ c ∈ sn_children s.
Proof.
  intros Hc. apply (wt_links _ Hwf) in Hc. unfold children_of in Hc.
  destruct (nodes t !! p) as [[s|]|]; [|set_solver..]. eauto.
Qed.

Lemma depth_functional id n m : depth_of t id n → depth_of t id m → n = m.
Proof.
  intros Hn. revert m. induction Hn as [|c p n Hc Hn IH]; intros m Hm; inversion Hm; subst; try done.
  - by eapply root_no_parent in H.
  - by eapply root_no_parent in Hc.
  - unfold child in *. assert (p0 = p) as -> by congruence. f_equal. eauto.
Qed.

(** The ancestors of a node are distinct nodes, so its depth is below their number. *)
Lemma depth_bound id n : depth_of t id n → is_Some (nodes t !! id) → n < levels t.
Proof.
  intros Hd Hid.
  assert (∃ l : list string, length l = S n ∧ NoDup l ∧
    ∀ x, x ∈ l → is_Some (nodes t !! x) ∧ ∃ k, k ≤ n ∧ depth_of t x k) as (l & Hl & Hnd & Hin).
  { clear -Hd Hid Hwf. induction Hd as [|c p n Hc Hd IH].
    - exists [root_id t]. split; [done|]. split; [apply NoDup_singleton|].
      intros x ->%list_elem_of_singleton. split; [done|]. exists 0. split; [lia|constructor].
    - destruct (child_parent_node c p Hc) as (s & Hs & _).
      destruct IH as (l & Hl & Hnd & Hin); [by rewrite Hs|].
      exists (c :: l). split; [cbn; by rewrite Hl|]. split.
      + apply NoDup_cons. split; [|done]. intros Hcl. apply Hin in Hcl as (_ & k & Hk & Hck).
        assert (depth_of t c (S n)) as Hcn by (by econstructor).
        pose proof (depth_functional _ _ _ Hck Hcn). lia.
      + intros x [->|Hx]%elem_of_cons.
        * split; [done|]. exists (S n). split; [lia|]. by econstructor.
        * apply Hin in Hx as (? & k & ? & ?). split; [done|]. exists k. split; [lia|done]. }
  unfold levels. rewrite <-size_dom. assert (list_to_set l ⊆ dom (nodes t)) as Hsub.
  { intros x Hx%elem_of_list_to_set. apply elem_of_dom. by apply Hin. }
  apply subseteq_size in Hsub. rewrite size_list_to_set in Hsub by done. lia.
Qed.
End levels.

(** ** The nodes a tree listing visits *)

(** The nodes and depths [format_tree] prints a line for, in order. *)
Fixpoint walk (fuel : nat) (t : SupervisorTree) (node_id : string) (depth : nat)
    : option (list (string * nat)) :=
  match fuel with
  | O => None
  | S fuel =>
      match get t node_id with
      | Some (Supervisor s) =>
          foldl (λ acc child, out ← acc; sub ← walk fuel t child (S depth); Some (out ++ sub))
            (Some [(node_id, depth)]) (sn_children s)
      | _ => Some [(node_id, depth)]
      end
  end.

Definition render (t : SupervisorTree) (l : list (string * nat)) : string :=
  cat (map (λ nd, node_line t (fst nd) (snd nd)) l).

Lemma render_app t l k : render t (l ++ k) = String.append (render t l) (render t k).
Proof. unfold render. by rewrite map_app, cat_app. Qed.

Lemma format_walk fuel t id d : format_tree fuel t id d = render t <$> walk fuel t id d.
Proof.
  revert id d. induction fuel as [|fuel IH]; intros id d; [done|]. cbn [format_tree walk].
  assert (Some (node_line t id d) = render t <$> Some [(id, d)]) as Hline
    by (unfold render; cbn; by rewrite app_nil_r_str).
  destruct (get t id) as [[s|]|]; [|exact Hline..]. rewrite Hline.
  generalize (Some [(id, d)]). induction (sn_children s) as [|c cs IHc]; intros acc; [done|].
  cbn [foldl]. rewrite <-IHc. f_equal. rewrite IH. destruct acc as [out|]; [|done]. cbn.
  destruct (walk fuel t c (S d)); [|done]. cbn. by rewrite render_app.
Qed.

Section walking.
Variable t : SupervisorTree.
Hypothesis Hwf : wf_tree t.

Lemma rtc_depth x y m :
  rtc (child t) x y → depth_of t y m → ∃ k, nsteps (child t) k x y ∧ depth_of t x (k + m).
Proof.
  induction 1 as [|x y z Hxy _ IH]; intros Hm.
  - exists 0. split; [constructor|done].
  - destruct (IH Hm) as (k & Hk & Hd). exists (S k). split; by econstructor.
Qed.

Lemma nsteps_functional k x y z : nsteps (child t) k x y → nsteps (child t) k x z → y = z.
Proof.
  intros Hy. revert z. induction Hy as [|k x y1 y Hxy Hy IH]; intros z Hz; inversion Hz; subst; [done|].
  apply IH. unfold child in *. assert (y0 = y1) as -> by congruence. done.
Qed.

Lemma same_depth x c1 c2 m :
  rtc (child t) x c1 → rtc (child t) x c2 → depth_of t c1 m → depth_of t c2 m → c1 = c2.
Proof.
  intros H1 H2 D1 D2. destruct (rtc_depth _ _ _ H1 D1) as (k1 & S1 & E1).
  destruct (rtc_depth _ _ _ H2 D2) as (k2 & S2 & E2).
  pose proof (depth_functional t Hwf _ _ _ E1 E2). assert (k2 = k1) as -> by lia.
  by eapply nsteps_functional.
Qed.

Lemma NoDup_concat_map {A B} (f : A → list B) l :
  NoDup l → (∀ x, x ∈ l → NoDup (f x)) →
  (∀ x y b, x ∈ l → y ∈ l → b ∈ f x → b ∈ f y → x = y) → NoDup (concat (map f l)).
Proof.
  induction 1 as [|a l Ha Hl IH]; intros Hnd Hdisj; cbn; [constructor|].
  apply NoDup_app. split; [apply Hnd; set_solver|]. split.
  - intros b Hb (bs & Hin & Hbs)%list_elem_of_In%in_concat. apply in_map_iff in Hin as (y & <- & Hy).
    apply list_elem_of_In in Hy, Hbs. assert (a = y) by (eapply Hdisj; [| |exact Hb|exact Hbs]; set_solver).
    congruence.
  - apply IH; [intros x Hx; apply Hnd; set_solver|].
    intros x y b Hx Hy. apply Hdisj; set_solver.
Qed.

Lemma elem_of_concat_map {A B} (f : A → list B) l b :
  b ∈ concat (map f l) ↔ ∃ x, x ∈ l ∧ b ∈ f x.
Proof.
  rewrite list_elem_of_In, in_concat. split.
  - intros (bs & (x & <- & Hx)%in_map_iff & Hb). exists x. by rewrite !list_elem_of_In.
  - intros (x & Hx & Hb). exists (f x). rewrite in_map_iff, <-list_elem_of_In. split; [|done].
    exists x. by rewrite <-list_elem_of_In.
Qed.

Lemma foldl_walk fuel d cs out (f : string → list (string * nat)) :
  (∀ c, c ∈ cs → walk fuel t c (S d) = Some (f c)) →
  foldl (λ acc c, out ← acc; sub ← walk fuel t c (S d); Some (out ++ sub)) (Some out) cs
  = Some (out ++ concat (map f cs)).
Proof.
  revert out. induction cs as [|c cs IH]; intros out Hf; cbn; [by rewrite app_nil_r|].
  rewrite (Hf c) by set_solver. cbn. rewrite IH by set_solver. by rewrite app_assoc.
Qed.

(** The listing below [id] visits every node below it, once. *)
Lemma walk_total fuel id n d :
  depth_of t id n → is_Some (nodes t !! id) → levels t ≤ fuel + n →
  ∃ l, walk fuel t id d = Some l ∧ NoDup l.*1 ∧ ∀ x, x ∈ l.*1 ↔ rtc (child t) x id.
Proof.
  revert id n d. induction fuel as [|fuel IH]; intros id n d Hd Hid Hf.
  { pose proof (depth_bound t Hwf id n Hd Hid). lia. }
  cbn [walk]. unfold get. destruct (nodes t !! id) as [[s|w]|] eqn:E; [| |by destruct Hid].
  2: { exists [(id, d)]. split; [done|]. split; [apply NoDup_singleton|]. intros x. cbn.
       rewrite list_elem_of_singleton. split; [by intros ->|]. intros Hx.
       apply rtc_inv_r in Hx as [->|(y & _ & Hy)]; [done|].
       apply (child_parent_node t Hwf) in Hy as (s & Hs & _). congruence. }
  assert (∀ c, c ∈ sn_children s ↔ child t c id) as Hch.
  { intros c. rewrite <-(wt_links _ Hwf). unfold children_of. by rewrite E. }
  assert (∀ c, c ∈ sn_children s → depth_of t c (S n)) as Hcd
    by (intros c Hc; econstructor; [by apply Hch|done]).
  set (f := λ c, default [] (walk fuel t c (S d))).
  assert (∀ c, c ∈ sn_children s → walk fuel t c (S d) = Some (f c) ∧ NoDup (f c).*1 ∧
    ∀ x, x ∈ (f c).*1 ↔ rtc (child t) x c) as Hsub.
  { intros c Hc. destruct (IH c (S n) (S d) (Hcd c Hc)) as (l & Hl & Hp).
    - apply Hch in Hc. unfold child, parent_of in Hc. destruct (nodes t !! c); by eauto.
    - lia.
    - unfold f. by rewrite Hl. }
  exists ([(id, d)] ++ concat (map f (sn_children s))).
  split; [apply foldl_walk; intros c Hc; by apply Hsub|]. rewrite fmap_app.
  assert ((concat (map f (sn_children s))).*1 = concat (map (λ c, (f c).*1) (sn_children s))) as Hfst.
  { generalize (sn_children s). clear. intros cs. induction cs as [|c cs IHc]; [done|].
    cbn [map concat]. by rewrite fmap_app, IHc. }
  rewrite Hfst. cbn [fmap list_fmap fst app]. split.
  - apply NoDup_cons. split.
    + rewrite elem_of_concat_map. intros (c & Hc & Hid'). apply (Hsub c Hc) in Hid'.
      destruct (rtc_depth _ _ _ Hid' (Hcd c Hc)) as (k & _ & Hk).
      pose proof (depth_functional t Hwf _ _ _ Hk Hd). lia.
    + apply NoDup_concat_map; [by eapply wt_children|intros c Hc; by apply Hsub|].
      intros c1 c2 x H1 H2 X1%(Hsub c1 H1) X2%(Hsub c2 H2). eapply same_depth; eauto.
  - intros x. rewrite elem_of_cons, elem_of_concat_map. split.
    + intros [->|(c & Hc & Hx)]; [done|]. apply (Hsub c Hc) in Hx. eapply rtc_r; [exact Hx|by apply Hch].
    + intros Hx. apply rtc_inv_r in Hx as [->|(c & Hx & Hc)]; [by left|right].
      apply Hch in Hc as Hc'. exists c. split; [done|]. by apply Hsub.
Qed.

Lemma rtc_is_node x : rtc (child t) x (root_id t) ↔ is_Some (nodes t !! x).
Proof.
  split; [|apply (wt_attached _ Hwf)]. intros Hx. destruct (wt_root _ Hwf) as (r & Hr & _).
  inversion Hx as [|? y ? Hxy]; subst; [by rewrite Hr|].
  unfold child, parent_of in Hxy. destruct (nodes t !! x); by eauto.
Qed.
End walking.

(** On a well-formed tree the recursion of format_tree ends, and its text has exactly one
    line for every node of the tree. *)
Theorem tree_listing_complete t d :
  wf_tree t →
  ∃ l, format_tree (levels t) t (root_id t) d = Some (render t l) ∧ NoDup l.*1 ∧
    ∀ id, id ∈ l.*1 ↔ is_Some (get t id).
Proof.
  intros Hwf. destruct (wt_root _ Hwf) as (r & Hr & _).
  destruct (walk_total t Hwf (levels t) (root_id t) 0 d) as (l & Hl & Hnd & Hin);
    [constructor|by rewrite Hr|lia|].
  exists l. rewrite format_walk, Hl. split; [done|]. split; [done|]. intros id.
  by rewrite Hin, (rtc_is_node t Hwf).
Qed.
Lemma tree_listing_complete_witness :
  ∃ l, format_tree 1 (tree_new "root" OneForAll (intensity_new 1 0)) "root" 0
         = Some (render (tree_new "root" OneForAll (intensity_new 1 0)) l) ∧ NoDup l.*1.
Proof.
  destruct (tree_listing_complete (tree_new "root" OneForAll (intensity_new 1 0)) 0
    (wf_tree_new "root" OneForAll (intensity_new 1 0))) as (l & Hl & Hnd & _).
  exists l. split; [exact Hl|exact Hnd].
Defined.

(** ** Requests *)

(** Every request is answered. *)
Lemma handle_request_total `{HashOrder} body t :
  wf_tree t → ∃ r, handle_request body t = Some r.
Proof.
  intros Hwf. destruct body; try (eexists; reflexivity). cbn [handle_request].
  destruct (wt_root _ Hwf) as (r & Hr & _).
  destruct (walk_total t Hwf (levels t) (root_id t) 0 0) as (l & Hl & _);
    [constructor|by rewrite Hr|lia|].
  rewrite format_walk, Hl. cbn. by eexists.
Qed.

Lemma elem_of_all_workers `{HashOrder} t name : name ∈ all_workers t ↔ is_Some (get_worker t name).
Proof.
  unfold all_workers. rewrite list_elem_of_omap. split.
  - intros ([k n] & Hin & Hk). cbn in Hk. destruct n as [|w]; [done|]. injection Hk as ->.
    apply elem_of_map_iter in Hin. exists w. by apply get_worker_lookup.
  - intros [w Hw%get_worker_lookup]. exists (name, Worker w). split; [|done]. by apply elem_of_map_iter.
Qed.

Lemma NoDup_all_workers `{HashOrder} t : NoDup (all_workers t).
Proof.
  unfold all_workers. pose proof (NoDup_map_iter "tree" (nodes t)) as Hnd.
  induction (map_iter "tree" (nodes t)) as [|[k n] l IH]; [constructor|].
  cbn [fmap list_fmap fst] in Hnd. apply NoDup_cons in Hnd as [Hk Hnd].
  destruct n as [|w]; cbn; [by apply IH|]. apply NoDup_cons. split; [|by apply IH].
  rewrite list_elem_of_omap. intros ([k' n'] & Hin & Hk'). cbn in Hk'. destruct n'; [done|].
  injection Hk' as ->. apply Hk. apply list_elem_of_fmap. by exists (k, Worker w0).
Qed.

Lemma list_services_spec `{HashOrder} t :
  ∃ entries, handle_request ListServices t = Some (ServiceList entries, None) ∧
    NoDup (map se_name entries) ∧
    ∀ e, e ∈ entries ↔ ∃ w, get_worker t (se_name e) = Some w ∧
      se_status e = display_name (wn_state w) ∧ se_pid e = wn_pid w.
Proof.
  eexists. split; [reflexivity|]. set (mk := λ name, _ <$> get_worker t name).
  assert (∀ l, (∀ n, n ∈ l → is_Some (get_worker t n)) → map se_name (omap mk l) = l) as Hnames.
  { induction l as [|n l IH]; intros Hl; [done|]. cbn. destruct (Hl n) as [w Hw]; [set_solver|].
    unfold mk at 1. rewrite Hw. cbn. f_equal. apply IH. set_solver. }
  split.
  - rewrite Hnames; [apply NoDup_all_workers|]. intros n Hn. by apply elem_of_all_workers.
  - intros [name status pid]. rewrite list_elem_of_omap. cbn. split.
    + intros (n & _ & Hn). unfold mk in Hn. apply fmap_Some in Hn as (w & Hw & He).
      injection He as -> -> ->. eauto.
    + intros (w & Hw & -> & ->). exists name. split; [apply elem_of_all_workers; eauto|].
      unfold mk. by rewrite Hw.
Qed.

(** The list of services has exactly one entry per worker of the tree, with its state and
    process id. *)
Theorem service_list_complete `{HashOrder} t :
  ∃ entries, handle_request ListServices t = Some (ServiceList entries, None) ∧
    NoDup (map se_name entries) ∧
    ∀ e, e ∈ entries ↔ ∃ w, get_worker t (se_name e) = Some w ∧
      se_status e = display_name (wn_state w) ∧ se_pid e = wn_pid w.
Proof.
  apply list_services_spec.
Qed.

Section reading.
Context `{R : Rmp}.

Lemma read_request_chunks m bytes chunks more buf :
  encode m = Ok bytes → (∀ rest, ∃ r, decode (bytes ++ rest) = Ok r) →
  buf ++ concat chunks = bytes → Forall (λ c, c ≠ []) chunks → chunks ≠ [] →
  read_request (map Some chunks ++ more) buf = Ok (Some bytes).
Proof.
  intros Henc Hdec. revert buf. induction chunks as [|c chunks IH]; intros buf Hcat Hne Hnil; [done|].
  apply Forall_cons in Hne as [Hc Hne]. cbn [map app read_request concat].
  cbn [concat] in Hcat. rewrite app_assoc in Hcat.
  assert (take (BUF_SIZE - length buf) c = c) as ->.
  { apply take_ge. pose proof (encode_fits m bytes Henc) as [_ Hmax]. unfold BUF_SIZE.
    rewrite <-Hcat, !len_app in Hmax. unfold len in Hmax. lia. }
  destruct c as [|b c']; [done|]. set (c := b :: c') in *. destruct chunks as [|c2 chunks].
  - cbn [concat] in Hcat. rewrite app_nil_r in Hcat. rewrite Hcat.
    destruct (Hdec []) as [r Hr]. rewrite app_nil_r in Hr. by rewrite Hr.
  - rewrite (decode_encode_prefix m bytes _ _ Henc Hcat); [by apply IH|].
    apply Forall_cons in Hne as [Hc2 _]. by destruct c2.
Qed.

(** A connection on which a whole request arrives is answered. *)
Lemma request_served `{!RmpRoundTrip R, HO : HashOrder} req bytes chunks later t body action data :
  encode req = Ok bytes → concat chunks = bytes → Forall (λ c, c ≠ []) chunks →
  handle_request (m_body req) t = Some (body, action) →
  encode (response_to req body) = Ok data →
  handle_connection {| cn_setup := true; cn_reads := map Some chunks ++ later; cn_write := true |} t
    = Some (Ok action, data).
Proof.
  intros Henc Hcat Hne Hreq Hresp. unfold handle_connection. cbn [cn_setup cn_reads cn_write negb].
  rewrite (read_request_chunks req bytes chunks later []); [|done| |done|done|].
  - pose proof (decode_encode req bytes [] Henc) as Hd. rewrite app_nil_r in Hd.
    rewrite Hd, Hreq. cbn. by rewrite Hresp.
  - intros rest. exists (req, length bytes). by apply decode_encode.
  - intros ->. cbn in Hcat. subst bytes. by apply encode_fits in Henc as [? _].
Qed.
End reading.

(** A request on the control socket, however its bytes are split into reads, is answered
    with the response handle_request computes, carrying the request's id, and its action is
    handed to the main loop. *)
Theorem request_answered `{RmpRoundTrip, HashOrder} req bytes chunks later t body action data :
  encode req = Ok bytes → concat chunks = bytes → Forall (λ c, c ≠ []) chunks →
  handle_request (m_body req) t = Some (body, action) →
  encode (response_to req body) = Ok data →
  handle_connection {| cn_setup := true; cn_reads := map Some chunks ++ later; cn_write := true |} t
    = Some (Ok action, data) ∧
  decode data = Ok (response_to req body, length data).
Proof.
  intros Henc Hcat Hne Hreq Hresp. split; [exact (request_served _ _ _ later t _ _ _ Henc Hcat Hne Hreq Hresp)|].
  pose proof (decode_encode _ _ [] Hresp) as Hd. by rewrite app_nil_r in Hd.
Qed.

Definition reload_request : Message := {| m_id := 3; m_kind := Request; m_body := MReload |}.
(** An instance of the library that knows a request and its response. *)
Definition pair_rmp (req resp : Message) : Rmp := {|
  rmp_serialize m := if decide (m = req) then Ok [1%Z]
                     else if decide (m = resp) then Ok [2%Z; 3%Z] else Err "no"%string;
  rmp_from_slice p := if decide (p = [1%Z]) then Ok req
                      else if decide (p = [2%Z; 3%Z]) then Ok resp else Err "no"%string |}.
Lemma pair_rmp_roundtrip req resp : RmpRoundTrip (pair_rmp req resp).
Proof.
  intros m p. cbn. case_decide as H1; [intros [= <-]; subst; reflexivity|].
  case_decide as H2; [intros [= <-]; subst; reflexivity|done].
Qed.
#[local] Abbreviation ack_rmp req := (pair_rmp req (response_to req Ack)).

Lemma request_answered_witness :
  let t := tree_new "root" OneForOne (intensity_new 1 0) in
  handle_connection (R := ack_rmp reload_request) (HO := elements_order)
    {| cn_setup := true; cn_reads := [Some [0x44%Z]; Some [0x4D; 1; 0; 0]%Z; Some [0; 1]%Z]; cn_write := true |} t
  = Some (Ok (Some Reload), [0x44; 0x4D; 2; 0; 0; 0; 2; 3]%Z).
Proof.
  intros t. refine (proj1 (request_answered (R := ack_rmp reload_request) (H := pair_rmp_roundtrip _ _) (H0 := elements_order)
    reload_request [0x44; 0x4D; 1; 0; 0; 0; 1]%Z [[0x44%Z]; [0x4D; 1; 0; 0]%Z; [0; 1]%Z] [] t Ack (Some Reload)
    _ _ _ _ _ _)).
  - vm_compute. reflexivity.
  - reflexivity.
  - repeat constructor; discriminate.
  - reflexivity.
  - vm_compute. reflexivity.
Defined.
