(* ===== verification/Ctl.v ===== *)
(** * The command line tool (dynamodctl/src/main.rs, dynamodctl/src/commands/mod.rs)

    A command sends one request over the control socket, reads until the answer is
    complete, and prints it.  A connection is what the stream hands out to the client:
    whether it connects, takes the timeout and the bytes, and the results of its reads.
    A run is the bytes sent, what is printed, and how it ends.  The theorem composes the
    tool with the service manager's side of the socket ([Control]). *)

From stdpp Require Import sorting.
From S2P Require Import Prelude RustStr Config Protocol Intensity Tree Control.

#[local] Open Scope list_scope.
#[local] Infix "+++" := String.append (at level 60, right associativity).

Inductive Command :=
| CmdStart (name : string)
| CmdStop (name : string)
| CmdRestart (name : string)
| CmdStatus (name : string)
| CmdList
| CmdTree
| CmdReload
| CmdShutdown (kind : string).

(** [Box<dyn Error>]: a text, an I/O error, an error of the protocol. *)
Inductive ctl_error :=
| CtlText (text : string)
| CtlIo (e : string)
| CtlEncode (e : EncodeError)
| CtlDecode (e : DecodeError).

(** [Display] *)
Definition ctl_error_text (e : ctl_error) : string :=
  match e with
  | CtlText s | CtlIo s => s
  | CtlEncode e => encode_error_text e
  | CtlDecode e => decode_error_text e
  end.

Record ctl_conn := {
  cc_connect : result unit string;
  cc_set_timeout : result unit string;
  cc_write : result unit string;
  cc_reads : list (result (list Z) string);   (** no more reads is the end of the stream *)
}.

(** What a command prints and how it ends. *)
Definition outcome : Type := string * result unit ctl_error.
(** A command: the bytes it sends, and its outcome. *)
Definition command : Type := ctl_conn → string → list Z * outcome.

Section ctl.
Context `{R : Rmp}.

(** ** send_request *)

(** The reading loop; [buf] holds the bytes filled in so far. *)
Fixpoint read_response (reads : list (result (list Z) string)) (buf : list Z)
    : result MessageBody ctl_error :=
  let closed := Err (CtlText "connection closed before complete message") in
  match reads with
  | [] => closed
  | Err e :: _ => Err (CtlIo e)
  | Ok chunk :: reads =>
      match take (BUF_SIZE - length buf) chunk with
      | [] => closed
      | data =>
          let buf := buf ++ data in
          match decode buf with
          | Ok (resp, _) => Ok (m_body resp)
          | Err Incomplete => read_response reads buf
          | Err e => Err (CtlDecode e)
          end
      end
  end.

Definition ctl_request (body : MessageBody) : Message :=
  {| m_id := 1; m_kind := Request; m_body := body |}.

(** The bytes written to the socket, and the answer. *)
Definition send_request (c : ctl_conn) (socket_path : string) (body : MessageBody)
    : list Z * result MessageBody ctl_error :=
  match cc_connect c with
  | Err e => ([], Err (CtlText ("cannot connect to " +++ socket_path +++ ": " +++ e)))
  | Ok _ =>
      match cc_set_timeout c with
      | Err e => ([], Err (CtlIo e))
      | Ok _ =>
          match encode (ctl_request body) with
          | Err e => ([], Err (CtlEncode e))
          | Ok data =>
              match cc_write c with
              | Err e => ([], Err (CtlIo e))
              | Ok _ => (data, read_response (cc_reads c) [])
              end
          end
      end
  end.

(** ** The commands *)

(** The branches every command ends with. *)
Definition refused (answer : result MessageBody ctl_error) : outcome :=
  match answer with
  | Err e => ("", Err e)
  | Ok (Error message) => ("", Err (CtlText message))
  | Ok _ => ("", Err (CtlText "unexpected response"))
  end.

(** [println!] of one line. *)
Definition println (s : string) : string := s +++ nl.

Definition acknowledged (said : string) (answer : result MessageBody ctl_error) : outcome :=
  match answer with Ok Ack => (println said, Ok ()) | _ => refused answer end.

Definition request (body : MessageBody) (handle : result MessageBody ctl_error → outcome) : command :=
  λ c socket_path, let '(sent, answer) := send_request c socket_path body in (sent, handle answer).

Definition start (name : string) : command :=
  request (MStartService name) (acknowledged ("Starting service '" +++ name +++ "'...")).
Definition stop (name : string) : command :=
  request (MStopService name) (acknowledged ("Stopping service '" +++ name +++ "'...")).
Definition restart (name : string) : command :=
  request (MRestartService name) (acknowledged ("Restarting service '" +++ name +++ "'...")).
Definition reload : command :=
  request MReload (acknowledged "Reloading service definitions...").

Definition status_text (name st : string) (pid : option Z) (supervisor : string) : string :=
  cat [println ("Service: " +++ name);
       println ("  Status:     " +++ st);
       match pid with Some p => println ("  PID:        " +++ to_string p) | None => "" end;
       println ("  Supervisor: " +++ supervisor)].

Definition status (name : string) : command :=
  request (MServiceStatus name) (λ answer,
    match answer with
    | Ok (ServiceInfo name st pid supervisor) => (status_text name st pid supervisor, Ok ())
    | _ => refused answer
    end).

(** [{:<n}]: padded with spaces to [n] characters (the bytes that do not continue a
    UTF-8 sequence). *)
Fixpoint char_count (s : string) : nat :=
  match s with
  | EmptyString => 0
  | String c s =>
      let b := Ascii.nat_of_ascii c in
      (if (128 <=? b)%nat && (b <? 192)%nat then 0 else 1) + char_count s
  end.
Definition pad_left_aligned (n : nat) (s : string) : string := s +++ repeat_str (n - char_count s) " ".

(** [sort_by] on the names: stable. *)
Fixpoint insert_entry (e : ServiceEntry) (l : list ServiceEntry) : list ServiceEntry :=
  match l with
  | [] => [e]
  | x :: l' => if String.leb (se_name e) (se_name x) then e :: l else x :: insert_entry e l'
  end.
Definition sort_by_name (l : list ServiceEntry) : list ServiceEntry := foldr insert_entry [] l.

Definition row (name st pid : string) : string :=
  println (pad_left_aligned 30 name +++ " " +++ pad_left_aligned 15 st +++ " " +++ pad_left_aligned 10 pid).
Definition entry_row (e : ServiceEntry) : string :=
  row (se_name e) (se_status e) (match se_pid e with Some p => to_string p | None => "-" end).

Definition service_table (services : list ServiceEntry) : string :=
  if bool_decide (services = []) then println "No services configured."
  else
    let sorted := sort_by_name services in
    cat [row "SERVICE" "STATUS" "PID"; println (repeat_str 55 "-");
         cat (map entry_row sorted);
         println (nl +++ to_string (Z.of_nat (length sorted)) +++ " service(s) total")].

Definition list_cmd : command :=
  request ListServices (λ answer,
    match answer with
    | Ok (ServiceList services) => (service_table services, Ok ())
    | _ => refused answer
    end).

Definition tree : command :=
  request TreeStatus (λ answer,
    match answer with Ok (Tree text) => (text, Ok ()) | _ => refused answer end).

Definition shutdown_kind (kind : string) : option ShutdownKind :=
  if bool_decide (kind = "poweroff" ∨ kind = "off") then Some Poweroff
  else if bool_decide (kind = "reboot") then Some Reboot
  else if bool_decide (kind = "halt") then Some Halt
  else None.

(** An unknown kind is refused before anything is sent. *)
Definition shutdown (kind : string) : command := λ c socket_path,
  match shutdown_kind kind with
  | None => ([], ("", Err (CtlText ("unknown shutdown kind: " +++ kind +++
                                    " (use poweroff, reboot, or halt)"))))
  | Some k => request (MShutdown k) (acknowledged ("System " +++ kind +++ " initiated.")) c socket_path
  end.

(** ** main *)

Record ctl_run := {
  run_sent : list Z;
  run_stdout : string;
  run_stderr : string;
  run_exit : Z;
}.

Definition run_command (cmd : Command) : command :=
  match cmd with
  | CmdStart name => start name
  | CmdStop name => stop name
  | CmdRestart name => restart name
  | CmdStatus name => status name
  | CmdList => list_cmd
  | CmdTree => tree
  | CmdReload => reload
  | CmdShutdown kind => shutdown kind
  end.

Definition ctl_main (c : ctl_conn) (socket_path : string) (cmd : Command) : ctl_run :=
  let '(sent, (printed, res)) := run_command cmd c socket_path in
  match res with
  | Ok _ => {| run_sent := sent; run_stdout := printed; run_stderr := ""; run_exit := 0 |}
  | Err e => {| run_sent := sent; run_stdout := printed;
                run_stderr := println ("error: " +++ ctl_error_text e); run_exit := 1 |}
  end.
End ctl.

(** The table has every service once, in the order of the names. *)
Lemma insert_entry_perm e l : insert_entry e l ≡ₚ e :: l.
Proof.
  induction l as [|x l IH]; [done|]. cbn [insert_entry]. destruct (String.leb _ _); [done|].
  rewrite IH. apply Permutation_swap.
Qed.

Lemma sort_by_name_perm l : sort_by_name l ≡ₚ l.
Proof. induction l as [|e l IH]; [done|]. cbn. by rewrite insert_entry_perm, IH. Qed.

Lemma insert_entry_sorted e k :
  Sorted String.le (map se_name k) → Sorted String.le (map se_name (insert_entry e k)).
Proof.
  intros Hk. induction k as [|x k IHk]; cbn [insert_entry map]; [constructor; constructor|].
  destruct (String.leb (se_name e) (se_name x)) eqn:E; cbn [map].
  - constructor; [done|]. constructor. unfold String.le. by rewrite E.
  - apply Sorted_inv in Hk as [Hk Hx]. constructor; [by apply IHk|].
    assert (String.le (se_name x) (se_name e)) as Hle.
    { destruct (String.leb_total (se_name x) (se_name e)) as [H|H]; [|congruence].
      unfold String.le. by rewrite H. }
    destruct k as [|y k]; cbn [insert_entry map]; [by constructor|].
    destruct (String.leb (se_name e) (se_name y)); constructor; [done|by inversion Hx].
Qed.

Lemma sort_by_name_sorted l : Sorted String.le (map se_name (sort_by_name l)).
Proof. induction l as [|e l IH]; cbn; [constructor|]. by apply insert_entry_sorted. Qed.

(** ** What a command is for

    The contract of the tool, in terms of the service manager's tree: the request, the
    action the manager is left with, and what the user sees. *)

Definition command_request (cmd : Command) : option MessageBody :=
  match cmd with
  | CmdStart name => Some (MStartService name)
  | CmdStop name => Some (MStopService name)
  | CmdRestart name => Some (MRestartService name)
  | CmdStatus name => Some (MServiceStatus name)
  | CmdList => Some ListServices
  | CmdTree => Some TreeStatus
  | CmdReload => Some MReload
  | CmdShutdown kind => MShutdown <$> shutdown_kind kind
  end.

(** The action the manager is to carry out. *)
Definition command_action (cmd : Command) (t : SupervisorTree) : option ControlAction :=
  let known name a := match get_worker t name with Some _ => Some a | None => None end in
  match cmd with
  | CmdStart name => known name (StartService name)
  | CmdStop name => known name (StopService name)
  | CmdRestart name => known name (RestartService name)
  | CmdReload => Some Reload
  | CmdShutdown kind => Shutdown <$> shutdown_kind kind
  | CmdStatus _ | CmdList | CmdTree => None
  end.

(** What the user sees: the printed text, or the error. *)
Definition command_shows `{HashOrder} (cmd : Command) (t : SupervisorTree) : result string string :=
  let about name (f : WorkerNode → string) :=
    match get_worker t name with
    | Some w => Ok (f w)
    | None => Err ("unknown service: " +++ name)
    end in
  match cmd with
  | CmdStart name => about name (λ _, println ("Starting service '" +++ name +++ "'..."))
  | CmdStop name => about name (λ _, println ("Stopping service '" +++ name +++ "'..."))
  | CmdRestart name => about name (λ _, println ("Restarting service '" +++ name +++ "'..."))
  | CmdStatus name =>
      about name (λ w, status_text name (display_name (wn_state w)) (wn_pid w) (wn_parent w))
  | CmdList => Ok (service_table (omap (λ name, (λ w, {| se_name := name;
      se_status := display_name (wn_state w); se_pid := wn_pid w |}) <$> get_worker t name) (all_workers t)))
  | CmdTree => match format_tree (levels t) t (root_id t) 0 with
               | Some text => Ok text | None => Err "" end
  | CmdReload => Ok (println "Reloading service definitions...")
  | CmdShutdown kind => Ok (println ("System " +++ kind +++ " initiated."))
  end.

(** The process as the user sees it end. *)
Definition shown (sent : list Z) (r : result string string) : ctl_run :=
  match r with
  | Ok text => {| run_sent := sent; run_stdout := text; run_stderr := ""; run_exit := 0 |}
  | Err e => {| run_sent := sent; run_stdout := ""; run_stderr := "error: " +++ e +++ nl; run_exit := 1 |}
  end.

Section end_to_end.
Context `{R : Rmp, RT : !RmpRoundTrip R, HO : HashOrder}.

Lemma read_response_chunks m bytes chunks more buf :
  encode m = Ok bytes → buf ++ concat chunks = bytes → Forall (λ c, c ≠ []) chunks → chunks ≠ [] →
  read_response (map Ok chunks ++ more) buf = Ok (m_body m).
Proof.
  intros Henc. revert buf. induction chunks as [|c chunks IH]; intros buf Hcat Hne Hnil; [done|].
  apply Forall_cons in Hne as [Hc Hne]. cbn [map app read_response].
  cbn [concat] in Hcat. rewrite app_assoc in Hcat.
  assert (take (BUF_SIZE - length buf) c = c) as ->.
  { apply take_ge. pose proof (encode_fits m bytes Henc) as [_ Hmax]. unfold BUF_SIZE.
    rewrite <-Hcat, !len_app in Hmax. unfold len in Hmax. lia. }
  destruct c as [|b c']; [done|]. set (c := b :: c') in *. destruct chunks as [|c2 chunks].
  - cbn [concat] in Hcat. rewrite app_nil_r in Hcat. rewrite Hcat.
    pose proof (decode_encode m bytes [] Henc) as Hd. rewrite app_nil_r in Hd. by rewrite Hd.
  - rewrite (decode_encode_prefix m bytes _ _ Henc Hcat); [by apply IH|].
    apply Forall_cons in Hne as [Hc2 _]. by destruct c2.
Qed.

(** An answered request: the bytes sent are the encoded request, and the answer is the
    body of the response. *)
Lemma send_request_answered path body bytes m data replies later :
  encode (ctl_request body) = Ok bytes → encode m = Ok data → concat replies = data →
  Forall (λ c, c ≠ []) replies →
  send_request {| cc_connect := Ok (); cc_set_timeout := Ok (); cc_write := Ok ();
                  cc_reads := map Ok replies ++ later |} path body = (bytes, Ok (m_body m)).
Proof.
  intros Hreq Henc Hcat Hne. unfold send_request. cbn. rewrite Hreq. f_equal.
  apply (read_response_chunks m data); try done. intros ->. cbn in Hcat. subst data.
  by apply encode_fits in Henc as [? _].
Qed.

(** C6: A dynamodctl command against the service manager's side of the socket, however
    request and answer are split into reads, leaves the manager with the action the command
    stands for and shows the user what the tree says: the text and exit code 0, or the error
    and exit code 1 for an unknown service. *)
Theorem command_end_to_end cmd path t body answer action bytes data chunks replies later :
  command_request cmd = Some body → encode (ctl_request body) = Ok bytes →
  handle_request body t = Some (answer, action) →
  encode (response_to (ctl_request body) answer) = Ok data →
  concat chunks = bytes → Forall (λ c, c ≠ []) chunks →
  concat replies = data → Forall (λ c, c ≠ []) replies →
  handle_connection {| cn_setup := true; cn_reads := map Some chunks; cn_write := true |} t
    = Some (Ok (command_action cmd t), data) ∧
  ctl_main {| cc_connect := Ok (); cc_set_timeout := Ok (); cc_write := Ok ();
              cc_reads := map Ok replies ++ later |} path cmd = shown bytes (command_shows cmd t).
Proof.
  intros Hcmd Henc Hreq Hresp Hc Hcne Hr Hrne.
  pose proof (request_served (ctl_request body) bytes chunks [] t answer action data Henc Hc Hcne Hreq Hresp) as Hs.
  rewrite app_nil_r in Hs. rewrite Hs. clear Hs.
  pose proof (send_request_answered path body bytes (response_to (ctl_request body) answer) data replies later
    Henc Hresp Hr Hrne) as Ha. cbn [m_body response_to] in Ha.
  unfold ctl_main, run_command.
  destruct cmd as [n|n|n|n| | | |k]; cbn [command_request] in Hcmd;
    try (injection Hcmd as <-; cbn [handle_request] in Hreq;
         unfold start, stop, restart, status, list_cmd, tree, reload, request; rewrite Ha;
         unfold command_action, command_shows;
         try (destruct (get_worker t n)); try (destruct (format_tree _ _ _ _) as [text|]);
         cbn in Hreq; simplify_eq; done).
  destruct (shutdown_kind k) as [sk|] eqn:Ek; [|done]. injection Hcmd as <-. cbn in Hreq.
  injection Hreq as <- <-. unfold shutdown, request. rewrite Ek, Ha. cbn. by rewrite Ek.
Qed.
End end_to_end.

(** A reload whose request and acknowledgement arrive in pieces. *)
Lemma command_end_to_end_witness :
  let t := tree_new "root" OneForOne (intensity_new 1 0) in
  let R := pair_rmp (ctl_request MReload) (response_to (ctl_request MReload) Ack) in
  @handle_connection R elements_order {| cn_setup := true;
    cn_reads := [Some [0x44%Z]; Some [0x4D; 1; 0; 0]%Z; Some [0; 1]%Z]; cn_write := true |} t
    = Some (Ok (Some Reload), [0x44; 0x4D; 2; 0; 0; 0; 2; 3]%Z) ∧
  @ctl_main R {| cc_connect := Ok (); cc_set_timeout := Ok (); cc_write := Ok ();
    cc_reads := [Ok [0x44; 0x4D; 2]%Z; Ok [0; 0; 0; 2; 3]%Z] |} "/run/dynamod/control.sock" CmdReload
    = {| run_sent := [0x44; 0x4D; 1; 0; 0; 0; 1]%Z; run_stdout := println "Reloading service definitions...";
         run_stderr := ""; run_exit := 0%Z |}.
Proof.
  intros t R. refine (@command_end_to_end R (pair_rmp_roundtrip _ _) elements_order CmdReload
    "/run/dynamod/control.sock" t MReload Ack (Some Reload) [0x44; 0x4D; 1; 0; 0; 0; 1]%Z
    [0x44; 0x4D; 2; 0; 0; 0; 2; 3]%Z [[0x44%Z]; [0x4D; 1; 0; 0]%Z; [0; 1]%Z]
    [[0x44; 0x4D; 2]%Z; [0; 0; 0; 2; 3]%Z] [] _ _ _ _ _ _ _ _);
    first [reflexivity | vm_compute; reflexivity | repeat constructor; discriminate].
Defined.
