(* ===== verification/InitChannel.v ===== *)
(** * The channel to init (dynamod-svmgr/src/ipc/init_channel.rs)

    The non-blocking receiver reassembles messages from whatever the reads
    deliver: whichever way the stream is cut, the messages come out in order,
    none lost, none twice. *)

From S2P Require Import Prelude RustStr Protocol.

#[local] Open Scope list_scope.

Record InitChannel := {
  ic_read_buf : list Z;
  ic_next_id : Z;           (** the process-wide message counter *)
}.

(** The result of a [read]: bytes, the end of the stream, nothing yet, an error. *)
Inductive chan_read := ChBytes (data : list Z) | ChEof | ChWouldBlock | ChError.

Inductive SendError := SendEncode | SendIo.

Section channel.
Context `{R : Rmp}.

Definition from_fd (counter : Z) : InitChannel := {| ic_read_buf := []; ic_next_id := counter |}.

(** [from_env]: the descriptor is named by an environment variable. *)
Definition INIT_FD_ENV : string := "DYNAMOD_INIT_FD".
Definition from_env (env : gmap string string) (counter : Z) : option InitChannel :=
  fd_str ← env !! INIT_FD_ENV;
  _ ← parse_i32 fd_str;
  Some (from_fd counter).

(** [next_id]: [fetch_add], which wraps. *)
Definition next_id (ch : InitChannel) : Z * InitChannel :=
  (ic_next_id ch, {| ic_read_buf := ic_read_buf ch; ic_next_id := wrap_u64 (ic_next_id ch + 1) |}).

Definition with_buf (buf : list Z) (ch : InitChannel) : InitChannel :=
  {| ic_read_buf := buf; ic_next_id := ic_next_id ch |}.

(** The decoding step of [try_recv]. *)
Definition try_decode (ch : InitChannel) : option Message * InitChannel :=
  match decode (ic_read_buf ch) with
  | Ok (msg, consumed) => (Some msg, with_buf (drop consumed (ic_read_buf ch)) ch)
  | Err Incomplete => (None, ch)
  | Err _ => (None, with_buf [] ch)
  end.

Definition try_recv (r : chan_read) (ch : InitChannel) : option Message * InitChannel :=
  match r with
  | ChEof => (None, ch)
  | ChBytes data => try_decode (with_buf (ic_read_buf ch ++ data) ch)
  | ChWouldBlock => try_decode ch
  | ChError => (None, ch)
  end.

(** [send_message]: the bytes put on the stream; [write_ok] is the result of the write. *)
Definition send_message (write_ok : bool) (body : MessageBody) (ch : InitChannel)
    : result (list Z) SendError * InitChannel :=
  let '(id, ch) := next_id ch in
  match encode {| m_id := id; m_kind := Request; m_body := body |} with
  | Err _ => (Err SendEncode, ch)
  | Ok data => (if write_ok then Ok data else Err SendIo, ch)
  end.

Definition send_heartbeat (write_ok : bool) : InitChannel → result (list Z) SendError * InitChannel :=
  send_message write_ok Heartbeat.
Definition request_shutdown (write_ok : bool) (kind : ShutdownKind)
    : InitChannel → result (list Z) SendError * InitChannel := send_message write_ok (RequestShutdown kind).
Definition log_to_kmsg (write_ok : bool) (level : Z) (message : string)
    : InitChannel → result (list Z) SendError * InitChannel := send_message write_ok (LogToKmsg level message).

(** The messages a sequence of reads delivers. *)
Fixpoint recv_all (reads : list chan_read) (ch : InitChannel) : list Message * InitChannel :=
  match reads with
  | [] => ([], ch)
  | r :: reads =>
      let '(m, ch) := try_recv r ch in
      let '(ms, ch) := recv_all reads ch in
      (match m with Some m => m :: ms | None => ms end, ch)
  end.

(** The bytes of a sequence of reads. *)
Definition read_data (r : chan_read) : list Z := match r with ChBytes d => d | _ => [] end.
Definition is_data (r : chan_read) : Prop := match r with ChBytes _ | ChWouldBlock => True | _ => False end.

(** ** Streams of frames *)

(** [stream ms bytes]: [bytes] is the encoding of the messages [ms], one after the other. *)
Inductive stream : list Message → list Z → Prop :=
| stream_nil : stream [] []
| stream_cons m p ms bytes :
    rmp_serialize m = Ok p → (len p ≤ MAX_MESSAGE_SIZE)%Z → stream ms bytes →
    stream (m :: ms) (frame p ++ bytes).

#[local] Opaque frame.

Context {RT : RmpRoundTrip R}.

(** A step of the receiver on a stream of which only [buf] has arrived. *)
Lemma try_decode_stream ms buf future counter :
  stream ms (buf ++ future) →
  let '(m, ch) := try_decode {| ic_read_buf := buf; ic_next_id := counter |} in
  ∃ ms', ms = match m with Some m => m :: ms' | None => ms' end ∧
    stream ms' (ic_read_buf ch ++ future) ∧
    (future = [] → m = None → ms' = []).
Proof.
  intros Hs. inversion Hs as [Hnil Hb|m p ms' bytes Hser Hlen Hs' Heq Hb]; subst.
  - symmetry in Hb. apply app_nil in Hb as [-> ->]. cbn. exists []. done.
  - unfold try_decode. cbn [ic_read_buf].
    destruct (decide (length (frame p) ≤ length buf)) as [Hle|Hlt].
    + assert (buf = frame p ++ drop (length (frame p)) buf) as Hbuf.
      { assert (take (length (frame p)) buf = frame p) as Ht.
        { rewrite <-(take_app_le buf future) by done. rewrite <-Hb. by rewrite take_app_length. }
        rewrite <-Ht at 1. by rewrite take_drop. }
      assert (decode buf = Ok (m, length (frame p))) as ->.
      { rewrite Hbuf, decode_frame by done. by rewrite (rmp_roundtrip m p Hser). }
      exists ms'. split; [done|]. cbn [ic_read_buf with_buf]. split; [|done].
      rewrite Hbuf in Hb. rewrite <-app_assoc in Hb. apply app_inv_head in Hb. by rewrite Hb in Hs'.
    + assert (buf = take (length buf) (frame p ++ bytes)) as Hbuf by (by rewrite Hb, take_app_length).
      assert (decode buf = Err Incomplete) as -> by (rewrite Hbuf; apply decode_prefix; [done|lia]). exists (m :: ms'). split; [done|].
      cbn [ic_read_buf]. rewrite <-Hb. split; [by constructor|]. intros -> _.
      exfalso. rewrite app_nil_r in Hb. rewrite <-Hb, length_app in Hlt. lia.
Qed.

Lemma recv_stream reads ms buf counter future :
  Forall is_data reads → stream ms (buf ++ concat (map read_data reads) ++ future) →
  let '(got, ch) := recv_all reads {| ic_read_buf := buf; ic_next_id := counter |} in
  ∃ ms', ms = got ++ ms' ∧ stream ms' (ic_read_buf ch ++ future).
Proof.
  revert ms buf counter. induction reads as [|r reads IH]; intros ms buf counter Hd Hs; cbn [recv_all].
  - exists ms. done.
  - apply Forall_cons in Hd as [Hr Hd]. cbn [map concat] in Hs. rewrite <-app_assoc in Hs.
    set (ch0 := {| ic_read_buf := buf; ic_next_id := counter |}).
    assert (try_recv r ch0 = try_decode {| ic_read_buf := buf ++ read_data r; ic_next_id := counter |}) as ->.
    { destruct r; try done. cbn. by rewrite app_nil_r. }
    rewrite app_assoc in Hs. pose proof (try_decode_stream ms _ _ counter Hs) as Ht.
    destruct (try_decode _) as [m [buf' counter']]. destruct Ht as (ms1 & -> & Hs1 & _).
    specialize (IH ms1 buf' counter' Hd Hs1).
    destruct (recv_all reads _) as [got ch]. destruct IH as (ms2 & -> & Hs2).
    exists ms2. destruct m; done.
Qed.

(** Once everything has arrived, each further call delivers a message. *)
Lemma drain_stream n ms buf counter :
  stream ms buf → length ms ≤ n →
  (recv_all (replicate n ChWouldBlock) {| ic_read_buf := buf; ic_next_id := counter |}).1 = ms.
Proof.
  revert ms buf counter. induction n as [|n IH]; intros ms buf counter Hs Hn; cbn [replicate recv_all try_recv].
  - by destruct ms; [|cbn in Hn; lia].
  - rewrite <-(app_nil_r buf) in Hs. pose proof (try_decode_stream ms buf [] counter Hs) as Ht.
    destruct (try_decode _) as [m [buf' counter']]. destruct Ht as (ms1 & -> & Hs1 & Hnone).
    rewrite app_nil_r in Hs1. destruct m as [m|].
    + specialize (IH ms1 buf' counter' Hs1). destruct (recv_all _ _). cbn in *. rewrite IH; [done|lia].
    + rewrite (Hnone eq_refl eq_refl) in *. specialize (IH [] buf' counter' Hs1).
      destruct (recv_all _ _). cbn in *. apply IH. lia.
Qed.
End channel.

Lemma recv_all_app `{Rmp} r1 r2 ch :
  recv_all (r1 ++ r2) ch =
  let '(m1, ch) := recv_all r1 ch in let '(m2, ch) := recv_all r2 ch in (m1 ++ m2, ch).
Proof.
  revert ch. induction r1 as [|r r1 IH]; intros ch; cbn [app recv_all].
  - by destruct (recv_all r2 ch).
  - destruct (try_recv r ch) as [m ch1]. rewrite IH. destruct (recv_all r1 ch1) as [m1 ch2].
    destruct (recv_all r2 ch2). by destruct m.
Qed.

