(* ===== verification/Readiness.v ===== *)
(** * Readiness (dynamod-svmgr/src/process/readiness.rs)

    The tracker of one service and its non-blocking check, over the system's
    clock, sockets, commands and descriptors. *)

From S2P Require Import Prelude RustStr Utf8 Config World Intensity.

#[local] Open Scope Z_scope.

Inductive ReadinessResult :=
| Ready
| NotReady
| TimedOut
| ReadyFailed (msg : string).

#[export] Instance ReadinessResult_eq_dec : EqDecision ReadinessResult.
Proof. solve_decision. Defined.

Record ReadinessTracker := {
  rt_type : ReadinessType;
  rt_port : option Z;
  rt_check_exec : option (list string);
  rt_timeout : Z;
  rt_started_at : Z;
  rt_notify_socket : option string;
  rt_bound_notify : option string;    (** the path the datagram socket is bound to *)
  rt_ready_fd : option Z;
}.

Definition notify_path (service_name : string) : string :=
  String.append "/run/dynamod/notify-" (String.append service_name ".sock").

Section readiness.
Context `{K : OS}.

(** [ReadinessTracker::new]: binds the notify socket, reads the clock. *)
Definition tracker_new (config : ReadinessSection) (service_name : string) (o : os)
    : ReadinessTracker * os :=
  let timeout := match parse_duration_secs (rd_timeout config) with
                 | Some secs => from_secs secs
                 | None => from_secs 30
                 end in
  let notify_socket := if decide (rd_readiness_type config = Notify)
                       then Some (notify_path service_name) else None in
  let '(bound, o) := match notify_socket with
                     | Some path =>
                         let o := os_remove_file path o in
                         let '(ok, o) := os_bind_datagram path o in
                         (if ok : bool then Some path else None, o)
                     | None => (None, o)
                     end in
  let '(now, o) := os_now o in
  ({| rt_type := rd_readiness_type config; rt_port := rd_port config;
      rt_check_exec := rd_check_exec config; rt_timeout := timeout; rt_started_at := now;
      rt_notify_socket := notify_socket; rt_bound_notify := bound; rt_ready_fd := None |}, o).

Definition set_ready_fd (fd : Z) (r : ReadinessTracker) : ReadinessTracker :=
  {| rt_type := rt_type r; rt_port := rt_port r; rt_check_exec := rt_check_exec r;
     rt_timeout := rt_timeout r; rt_started_at := rt_started_at r;
     rt_notify_socket := rt_notify_socket r; rt_bound_notify := rt_bound_notify r;
     rt_ready_fd := Some fd |}.

Definition is_immediate (r : ReadinessTracker) : bool := bool_decide (rt_type r = NoReadiness).

Definition check_tcp_port (r : ReadinessTracker) (o : os) : ReadinessResult * os :=
  match rt_port r with
  | None => (ReadyFailed "no port configured", o)
  | Some p => let '(ok, o) := os_tcp_connect p o in (if ok : bool then Ready else NotReady, o)
  end.

Definition check_exec (r : ReadinessTracker) (o : os) : ReadinessResult * os :=
  match rt_check_exec r with
  | Some (c :: cmd) =>
      match os_command (c :: cmd) o with
      | (ExitSuccess, o) => (Ready, o)
      | (ExitFailure, o) => (NotReady, o)
      | (CommandError e, o) => (ReadyFailed (String.append "check-exec error: " e), o)
      end
  | _ => (ReadyFailed "no check-exec configured", o)
  end.

(** A datagram counts when its first 256 bytes are UTF-8 and say READY=1. *)
Definition says_ready (data : string) : bool :=
  let data := take_str 256 data in
  contains "READY=1" (if valid_utf8 data then data else "").

Definition check_notify (r : ReadinessTracker) (o : os) : ReadinessResult * os :=
  match rt_bound_notify r with
  | None => (ReadyFailed "no notify socket", o)
  | Some sock =>
      match os_recv_datagram sock o with
      | (ReadBytes data, o) =>
          if says_ready data then
            (Ready, match rt_notify_socket r with Some path => os_remove_file path o | None => o end)
          else (NotReady, o)
      | (ReadEof, o) => (NotReady, o)
      | (_, o) => (NotReady, o)
      end
  end.

Definition check_fd (r : ReadinessTracker) (o : os) : ReadinessResult * os :=
  match rt_ready_fd r with
  | None => (ReadyFailed "no ready fd configured", o)
  | Some fd =>
      match os_read_fd fd o with
      | (ReadBytes _, o) => (Ready, os_close fd o)
      | (ReadEof, o) => (ReadyFailed "ready fd closed without signal", os_close fd o)
      | (ReadWouldBlock, o) => (NotReady, o)
      | (ReadError e, o) => (ReadyFailed (String.append "ready fd read error: " e), o)
      end
  end.

Definition check (r : ReadinessTracker) (o : os) : ReadinessResult * os :=
  let '(now, o) := os_now o in
  if rt_timeout r <? now - rt_started_at r then (TimedOut, o)
  else
    match rt_type r with
    | NoReadiness => (Ready, o)
    | TcpPort => check_tcp_port r o
    | Exec => check_exec r o
    | Notify => check_notify r o
    | Fd => check_fd r o
    end.

Definition tracker_reset (o : os) (r : ReadinessTracker) : ReadinessTracker * os :=
  let '(now, o) := os_now o in
  ({| rt_type := rt_type r; rt_port := rt_port r; rt_check_exec := rt_check_exec r;
      rt_timeout := rt_timeout r; rt_started_at := now;
      rt_notify_socket := rt_notify_socket r; rt_bound_notify := rt_bound_notify r;
      rt_ready_fd := rt_ready_fd r |}, o).

(** [wait_for_ready]; [None] is running out of rounds. *)
Fixpoint readiness_loop (rounds : nat) (tracker : ReadinessTracker) (poll_interval : Z) (o : os)
    : option (ReadinessResult * os) :=
  match rounds with
  | O => None
  | S rounds =>
      match check tracker o with
      | (NotReady, o) => readiness_loop rounds tracker poll_interval (os_sleep poll_interval o)
      | (result, o) => Some (result, o)
      end
  end.

Definition wait_for_ready (rounds : nat) (tracker : ReadinessTracker) (poll_interval : Z) (o : os)
    : option (ReadinessResult * os) :=
  if is_immediate tracker then Some (Ready, o) else readiness_loop rounds tracker poll_interval o.
End readiness.

(** ** A service is ready only on evidence *)

(** What the mechanism of a tracker has to see, in system state [o]. *)
Definition evidence `{K : OS} (r : ReadinessTracker) (o : os) : Prop :=
  match rt_type r with
  | NoReadiness => True
  | TcpPort => ∃ p, rt_port r = Some p ∧ (os_tcp_connect p o).1 = true
  | Exec => ∃ c cmd, rt_check_exec r = Some (c :: cmd) ∧ (os_command (c :: cmd) o).1 = ExitSuccess
  | Notify => ∃ sock data, rt_bound_notify r = Some sock ∧
      (os_recv_datagram sock o).1 = ReadBytes data ∧ says_ready data = true
  | Fd => ∃ fd data, rt_ready_fd r = Some fd ∧ (os_read_fd fd o).1 = ReadBytes data
  end.

Section check_facts.
Context `{L : FiniteExits}.

Lemma check_frame r o : frame o (check r o).2.
Proof.
  unfold check. pose proof (now_frame o) as H1. destruct (os_now o) as [now o1]. cbn [snd] in H1.
  destruct (_ <? _); [done|]. destruct (rt_type r).
  - done.
  - unfold check_notify. destruct (rt_bound_notify r) as [sock|]; [|done].
    pose proof (recv_frame sock o1) as H2. destruct (os_recv_datagram sock o1) as [[data| | |] o2]; cbn [snd] in *;
      try (by etrans). destruct (says_ready data); [|by etrans]. cbn [snd].
    destruct (rt_notify_socket r); [|by etrans]. etrans; [exact H1|]. etrans; [exact H2|]. apply remove_file_frame.
  - unfold check_tcp_port. destruct (rt_port r) as [p|]; [|done].
    pose proof (tcp_frame p o1). destruct (os_tcp_connect p o1) as [[] o2]; by etrans.
  - unfold check_exec. destruct (rt_check_exec r) as [[|c cmd]|]; [done| |done].
    pose proof (command_frame (c :: cmd) o1). destruct (os_command (c :: cmd) o1) as [[] o2]; by etrans.
  - unfold check_fd. destruct (rt_ready_fd r) as [fd|]; [|done].
    pose proof (read_fd_frame fd o1) as H2. destruct (os_read_fd fd o1) as [[] o2]; cbn [snd] in *;
      try (by etrans); (etrans; [exact H1|]; etrans; [exact H2|]; apply close_frame).
Qed.

Lemma tracker_new_frame c n o : frame o (tracker_new c n o).2.
Proof.
  unfold tracker_new. destruct (decide _).
  - pose proof (remove_file_frame (notify_path n) o) as H1. set (o1 := os_remove_file _ o) in *.
    pose proof (bind_frame (notify_path n) o1) as H2.
    destruct (os_bind_datagram (notify_path n) o1) as [ok o2]. cbn [snd] in *.
    pose proof (now_frame o2) as H3. destruct (os_now o2) as [now o3]. cbn [snd] in *.
    etrans; [exact H1|]. by etrans.
  - pose proof (now_frame o) as H3. by destruct (os_now o) as [now o3].
Qed.

(** Past the timeout the check does not answer [NotReady]. *)
Lemma check_timed_out r o : rt_timeout r < clock o - rt_started_at r → (check r o).1 = TimedOut.
Proof.
  intros Ht. unfold check. pose proof (now_law o). destruct (os_now o) as [now o1]. cbn [fst snd] in *.
  by destruct (Z.ltb_spec (rt_timeout r) (now - rt_started_at r)); [|lia].
Qed.

(** The blocking wait ends: each round takes at least the interval, and the tracker
    times out. *)
Lemma wait_for_ready_returns rounds r poll_interval o :
  0 ≤ poll_interval → (1 ≤ rounds)%nat →
  rt_timeout r < clock o - rt_started_at r + (Z.of_nat rounds - 1) * poll_interval →
  ∃ res o', wait_for_ready rounds r poll_interval o = Some (res, o') ∧ res ≠ NotReady.
Proof.
  intros Hp Hr Ht. unfold wait_for_ready. destruct (is_immediate r); [by eexists _, _|].
  revert o Hr Ht. induction rounds as [|rounds IH]; intros o Hr Ht; [lia|]. cbn [readiness_loop].
  pose proof (check_frame r o) as (_ & _ & _ & Hc). pose proof (check_timed_out r o) as Hto.
  destruct (check r o) as [res o1]. cbn [fst snd] in *.
  destruct res; try (eexists _, _; split; [reflexivity|discriminate]).
  pose proof (sleep_law poll_interval o1). destruct rounds as [|rounds].
  - cbn in Ht. assert (NotReady = TimedOut) by (apply Hto; lia). done.
  - apply IH; [lia|]. nia.
Qed.
End check_facts.

(** C31: A tracker reports ready only within its timeout and on evidence of its own
    mechanism: an accepted connection, a successful command, a datagram saying READY=1, a
    byte on the descriptor. *)
Theorem ready_needs_evidence `{K : OS} r o o' :
  check r o = (Ready, o') →
  (os_now o).1 - rt_started_at r ≤ rt_timeout r ∧ evidence r (os_now o).2.
Proof.
  unfold check, evidence. destruct (os_now o) as [now o1]. cbn [fst snd].
  destruct (Z.ltb_spec (rt_timeout r) (now - rt_started_at r)); [done|]. intros Hc. split; [done|].
  destruct (rt_type r); [done| | | |].
  - unfold check_notify in Hc. destruct (rt_bound_notify r) as [sock|]; [|done]. exists sock.
    destruct (os_recv_datagram sock o1) as [[data| | |] o2]; try done. exists data.
    by destruct (says_ready data).
  - unfold check_tcp_port in Hc. destruct (rt_port r) as [p|]; [|done]. exists p.
    by destruct (os_tcp_connect p o1) as [[] o2].
  - unfold check_exec in Hc. destruct (rt_check_exec r) as [[|c cmd]|]; [done| |done]. exists c, cmd.
    by destruct (os_command (c :: cmd) o1) as [[] o2].
  - unfold check_fd in Hc. destruct (rt_ready_fd r) as [fd|]; [|done]. exists fd.
    destruct (os_read_fd fd o1) as [[data| | |] o2]; try done. by exists data.
Qed.
Lemma ready_needs_evidence_witness :
  let o := {| sc_clock := 7; sc_wait := []; sc_pids := []; sc_live := ∅; sc_history := []; sc_files := ∅ |} in
  let r := (tracker_new (K := scripted) {| rd_readiness_type := TcpPort; rd_port := Some 80;
              rd_check_exec := None; rd_timeout := "5s" |} "web" o).1 in
  evidence (K := scripted) r o.
Proof.
  intros o r. apply (ready_needs_evidence (K := scripted) r o o). vm_compute. reflexivity.
Defined.
