(* ===== verification/Svmgr.v ===== *)
(** * The service manager (dynamod-svmgr/src/main.rs)

    The supervisor tree built from the configuration, the startup loop over the
    dependency frontier, the actions of the control socket, reloading, and the
    main loop.  The connections that are waiting and what init sent are inputs of
    each round of a loop. *)

From S2P Require Import Prelude RustStr Config Graph Cycle Frontier Protocol InitChannel World.
From S2P Require Import Cgroup Intensity Tree Strategy Monad Manager StopOrder Shutdown Control.
From S2P Require Import Readiness.

#[local] Open Scope Z_scope.
#[local] Open Scope list_scope.

(** ** The supervisor tree *)

(** The intensity of a supervisor section, with the default window in seconds. *)
Definition configured_intensity (r : SupervisorRestartSection) (default_window : Z) : RestartIntensity :=
  intensity_new (sr_max_restarts r)
    (from_secs (default default_window (parse_duration_secs (sr_max_restart_window r)))).

Definition add_configured_supervisor (t : SupervisorTree) (def : SupervisorDef) : SupervisorTree :=
  let sec := sup_supervisor def in
  if decide (sp_name sec = "root"%string) then
    update_supervisor (set_strategy (sp_strategy sec) (configured_intensity (sup_restart def) 600)) "root" t
  else
    or_keep (add_supervisor (sp_name sec) (default "root"%string (sp_parent sec)) (sp_strategy sec)
               (configured_intensity (sup_restart def) 300) t) t.

(** The supervisor a service goes under: its own when the tree has it, else the root. *)
Definition parent_for (t : SupervisorTree) (def : ServiceDef) : string :=
  match get t (ss_supervisor (sd_service def)) with
  | Some _ => ss_supervisor (sd_service def)
  | None => "root"
  end.

Definition add_configured_worker (t : SupervisorTree) (def : ServiceDef) : SupervisorTree :=
  or_keep (add_worker def (parent_for t def) t) t.

Definition build_tree (supervisor_defs : list SupervisorDef) (services : list ServiceDef) : SupervisorTree :=
  let t := tree_new "root" OneForOne (intensity_new 20 (from_secs 600)) in
  let t := foldl add_configured_supervisor t supervisor_defs in
  foldl add_configured_worker t services.

Section svmgr.
Context `{K : OS, HO : HashOrder, R : Rmp}.
Variable hierarchy : option CgroupHierarchy.
(** [load_services_dir] on the services directory, in a state of the system. *)
Variable load_defs : os → result (list ServiceDef) ServiceLoadError.

(** The manager with its channel to init; [sv_sent] are the results of the sends. *)
Record Svm := {
  sv_mgr : Mgr;
  sv_chan : option InitChannel;
  sv_sent : list (result (list Z) SendError);
}.

Definition with_mgr (m : Mgr) (s : Svm) : Svm :=
  {| sv_mgr := m; sv_chan := sv_chan s; sv_sent := sv_sent s |}.

Definition mgr {A} (m : M A) : St Svm A := zoom sv_mgr with_mgr m.

(** ** Reloading *)

(** A definition that the tree does not have yet; the count is for the log. *)
Definition reload_add (existing : gset string) (def : ServiceDef) : M unit :=
  if decide (sd_name def ∈ existing) then mret ()
  else
    t ← gets mg_tree;
    match add_worker def (parent_for t def) t with
    | Err _ => mret ()
    | Ok t' => on_tree (λ _, t') ;; _ ← start_worker hierarchy (sd_name def); mret ()
    end.

Definition reload_stop (loaded : gset string) (name : string) : M unit :=
  if decide (name ∈ loaded) then mret () else stop_worker name.

Definition reload_services : M unit :=
  defs ← gets (λ s, load_defs (mg_os s));
  match defs with
  | Err _ => mret ()
  | Ok new_defs =>
      t ← gets mg_tree;
      let existing : gset string := list_to_set (all_workers t) in
      let loaded : gset string := list_to_set (map sd_name new_defs) in
      for_each new_defs (reload_add existing) ;;
      for_each (set_iter "existing" existing) (reload_stop loaded)
  end.

(** ** Control actions *)

(** The wait of a restart: reap until the worker has another process id or the
    deadline has passed. *)
Fixpoint await_exit (rounds fuel : nat) (name : string) (pid deadline : Z) : M unit :=
  match rounds with
  | O => out_of_fuel
  | S rounds =>
      reap_and_handle_exits hierarchy fuel ;;
      t ← gets mg_tree;
      let still_running := match get_worker t name with
                           | Some w => bool_decide (wn_pid w = Some pid)
                           | None => false
                           end in
      if negb still_running then mret ()
      else
        now ← sys os_now;
        if deadline <=? now then mret ()
        else sleep_millis 50 ;; await_exit rounds fuel name pid deadline
  end.

Definition restart_service (fuel : nat) (name : string) : M unit :=
  t ← gets mg_tree;
  let old_pid := w ← get_worker t name; wn_pid w in
  stop_worker name ;;
  match old_pid with
  | Some pid =>
      now ← sys os_now;
      deadline ← unwrap (instant_add now (from_secs 5));
      await_exit (rounds (from_secs 5)) fuel name pid deadline
  | None => mret ()
  end ;;
  _ ← start_worker hierarchy name;
  mret ().

(** [write_ok]: whether writing to init succeeds. *)
Definition send (write_ok : bool) (body : MessageBody) : St Svm (option (result (list Z) SendError)) :=
  c ← gets sv_chan;
  match c with
  | None => mret None
  | Some ch =>
      let '(r, ch) := send_message write_ok body ch in
      modify (λ s, {| sv_mgr := sv_mgr s; sv_chan := Some ch; sv_sent := sv_sent s ++ [r] |}) ;;
      mret (Some r)
  end.

Definition dispatch_action (fuel : nat) (write_ok : bool) (dep_graph : DependencyGraph)
    (action : ControlAction) : St Svm unit :=
  match action with
  | StartService name => _ ← mgr (start_worker hierarchy name); mret ()
  | StopService name => mgr (stop_worker name)
  | RestartService name => mgr (restart_service fuel name)
  | Reload => mgr reload_services
  | Shutdown kind =>
      mgr (execute_shutdown hierarchy fuel dep_graph) ;;
      _ ← send write_ok (RequestShutdown kind);
      exit 0
  end.

Definition dispatch_control_actions (fuel : nat) (write_ok : bool) (dep_graph : DependencyGraph)
    (actions : list ControlAction) : St Svm unit :=
  for_each actions (dispatch_action fuel write_ok dep_graph).

(** ** Startup *)

Record Boot := {
  bt_svm : Svm;
  bt_frontier : StartupFrontier;
  bt_trackers : gmap string ReadinessTracker;
  bt_oneshots : gset string;
}.

Definition boot_mgr {A} (m : M A) : St Boot A :=
  zoom bt_svm (λ s b, {| bt_svm := s; bt_frontier := bt_frontier b; bt_trackers := bt_trackers b;
                         bt_oneshots := bt_oneshots b |}) (mgr m).

Definition set_frontier (f : StartupFrontier) : St Boot unit :=
  modify (λ b, {| bt_svm := bt_svm b; bt_frontier := f; bt_trackers := bt_trackers b;
                  bt_oneshots := bt_oneshots b |}).
Definition set_trackers (ts : gmap string ReadinessTracker) : St Boot unit :=
  modify (λ b, {| bt_svm := bt_svm b; bt_frontier := bt_frontier b; bt_trackers := ts;
                  bt_oneshots := bt_oneshots b |}).
Definition set_oneshots (os : gset string) : St Boot unit :=
  modify (λ b, {| bt_svm := bt_svm b; bt_frontier := bt_frontier b; bt_trackers := bt_trackers b;
                  bt_oneshots := os |}).

Variable dep_graph : DependencyGraph.

Definition boot_ready (name : string) : St Boot unit :=
  f ← gets bt_frontier; set_frontier (mark_ready name dep_graph f).
Definition boot_failed (name : string) : St Boot unit :=
  f ← gets bt_frontier; f ← unwrap (mark_failed name dep_graph f); set_frontier f.

(** The end of a pending oneshot service. *)
Definition finish_oneshot (name : string) (e : ExitInfo) : St Boot unit :=
  boot_mgr (on_tree (update_worker (clear_exited e) name) ;;
            modify (λ s, with_monitor (unwatch name (mg_monitor s)) s) ;;
            cleanup_cgroup hierarchy name) ;;
  if is_normal e then boot_ready name else boot_failed name.

(** An exit during startup. *)
Definition boot_exit (fuel : nat) (pid : Z) (e : ExitInfo) : St Boot unit :=
  t ← gets (λ b, mg_tree (sv_mgr (bt_svm b)));
  let '(worker_id, t) := unregister_pid pid t in
  boot_mgr (on_tree (λ _, t)) ;;
  match worker_id with
  | None => mret ()
  | Some name =>
      pending ← gets bt_oneshots;
      if decide (name ∈ pending) then
        set_oneshots (pending ∖ {[name]}) ;; finish_oneshot name e
      else
        boot_mgr (on_tree (register_pid name pid) ;;
                  handle_child_exit hierarchy (reap_and_handle_exits hierarchy fuel) pid e)
  end.

Fixpoint reap_oneshots_during_startup (fuel : nat) : St Boot unit :=
  match fuel with
  | O => out_of_fuel
  | S fuel =>
      r ← boot_mgr (sys (os_waitpid None));
      match r with
      | Exited pid code =>
          boot_exit fuel pid {| exit_code := Some code; signal := None |} ;;
          reap_oneshots_during_startup fuel
      | Signaled pid sig =>
          boot_exit fuel pid {| exit_code := None; signal := Some sig |} ;;
          reap_oneshots_during_startup fuel
      | EINTR => reap_oneshots_during_startup fuel
      | StillAlive | ECHILD | OtherWait => mret ()
      end
  end.

(** One service of a batch. *)
Definition boot_start (name : string) : St Boot unit :=
  ready_fd ← boot_mgr (start_worker hierarchy name);
  t ← gets (λ b, mg_tree (sv_mgr (bt_svm b)));
  match get_worker t name with
  | None => mret ()
  | Some w =>
      let is_oneshot := bool_decide (ss_service_type (sd_service (wn_def w)) = Oneshot) in
      tracker ← boot_mgr (sys (tracker_new (sd_readiness (wn_def w)) name));
      let tracker := match ready_fd with Some fd => set_ready_fd fd tracker | None => tracker end in
      if is_oneshot && is_immediate tracker then
        os ← gets bt_oneshots; set_oneshots ({[name]} ∪ os)
      else if is_immediate tracker then boot_ready name
      else ts ← gets bt_trackers; set_trackers (<[name := tracker]> ts)
  end.

(** One pending readiness check. *)
Definition boot_check (name : string) : St Boot unit :=
  ts ← gets bt_trackers;
  match ts !! name with
  | None => panic
  | Some tracker =>
      result ← boot_mgr (sys (check tracker));
      match result with
      | Ready => set_trackers (delete name ts) ;; boot_ready name
      | TimedOut | ReadyFailed _ => set_trackers (delete name ts) ;; boot_failed name
      | NotReady => mret ()
      end
  end.

(** A round of the startup loop; [true] ends it.  [conns] are the connections that
    wait on the control socket. *)
Definition boot_round (fuel : nat) (write_ok : bool) (conns : list connection) : St Boot bool :=
  reap_oneshots_during_startup fuel ;;
  f ← gets bt_frontier;
  let '(batch, f) := take_ready f in
  set_frontier f ;;
  for_each batch boot_start ;;
  names ← gets (λ b, map fst (map_iter "trackers" (bt_trackers b)));
  for_each names boot_check ;;
  b ← gets (λ b, negb (has_ready (bt_frontier b)) && bool_decide (bt_trackers b = ∅) &&
                 bool_decide (bt_oneshots b = ∅));
  if b : bool then mret true
  else
    actions ← (λ s : Boot, match poll_control conns (mg_tree (sv_mgr (bt_svm s))) with
                           | Some a => Ret a s | None => OutOfFuel end);
    zoom bt_svm (λ s b, {| bt_svm := s; bt_frontier := bt_frontier b; bt_trackers := bt_trackers b;
                           bt_oneshots := bt_oneshots b |})
      (dispatch_control_actions fuel write_ok dep_graph actions) ;;
    boot_mgr (sleep_millis 100) ;;
    mret false.

(** The state the startup loop begins with. *)
Definition boot_init (s : Svm) : Boot :=
  {| bt_svm := s; bt_frontier := frontier_new dep_graph; bt_trackers := ∅; bt_oneshots := ∅ |}.

(** The startup loop, for a list of rounds. *)
Fixpoint boot_loop (fuel : nat) (write_ok : bool) (rounds : list (list connection)) : St Boot unit :=
  match rounds with
  | [] => out_of_fuel
  | conns :: rounds =>
      finished ← boot_round fuel write_ok conns;
      if finished : bool then mret () else boot_loop fuel write_ok rounds
  end.

(** ** The main loop *)

Record Loop := {
  lp_svm : Svm;
  lp_last_heartbeat : Z;
  lp_failures : Z;
}.

Definition MAX_HEARTBEAT_FAILURES : Z := 3.
Definition loop_svm {A} (m : St Svm A) : St Loop A :=
  zoom lp_svm (λ s l, {| lp_svm := s; lp_last_heartbeat := lp_last_heartbeat l;
                         lp_failures := lp_failures l |}) m.
Definition set_failures (n : Z) : St Loop unit :=
  modify (λ l, {| lp_svm := lp_svm l; lp_last_heartbeat := lp_last_heartbeat l; lp_failures := n |}).

(** What init sent: each read is one [try_recv], until one delivers no message; the
    list has to be long enough for that. *)
Fixpoint init_messages (fuel : nat) (reads : list chan_read) : St Svm unit :=
  c ← gets sv_chan;
  match c, reads with
  | Some ch, r :: reads =>
      let '(m, ch) := try_recv r ch in
      modify (λ s, {| sv_mgr := sv_mgr s; sv_chan := Some ch; sv_sent := sv_sent s |}) ;;
      match m with
      | None => mret ()
      | Some msg =>
          match m_body msg with
          | ShutdownSignal _ => mgr (execute_shutdown hierarchy fuel dep_graph) ;; exit 0
          | _ => init_messages fuel reads
          end
      end
  | Some _, [] => out_of_fuel
  | None, _ => mret ()
  end.

(** The heartbeat: [true] when init is given up. *)
Definition heartbeat (write_ok : bool) : St Loop bool :=
  last ← gets lp_last_heartbeat;
  now ← loop_svm (mgr (sys os_now));
  if now - last <? from_secs 5 then mret false
  else
    r ← loop_svm (send write_ok Heartbeat);
    lost ← match r with
           | Some (Err _) =>
               n ← gets lp_failures;
               let n := wrap_u32 (n + 1) in
               set_failures n ;; mret (MAX_HEARTBEAT_FAILURES <=? n)
           | Some (Ok _) => set_failures 0 ;; mret false
           | None => mret false
           end;
    if lost : bool then mret true
    else
      now ← loop_svm (mgr (sys os_now));
      modify (λ l, {| lp_svm := lp_svm l; lp_last_heartbeat := now; lp_failures := lp_failures l |}) ;;
      mret false.

(** A round of the main loop; [true] ends it. *)
Definition main_round (fuel : nat) (write_ok : bool) (conns : list connection) (reads : list chan_read)
    : St Loop bool :=
  loop_svm (mgr (reap_and_handle_exits hierarchy fuel)) ;;
  actions ← (λ l : Loop, match poll_control conns (mg_tree (sv_mgr (lp_svm l))) with
                         | Some a => Ret a l | None => OutOfFuel end);
  loop_svm (dispatch_control_actions fuel write_ok dep_graph actions) ;;
  loop_svm (init_messages fuel reads) ;;
  loop_svm (mgr (modify (λ s, with_monitor (poll (mg_os s) (mg_monitor s)).2 s))) ;;
  lost ← heartbeat write_ok;
  if lost : bool then mret true
  else loop_svm (mgr (sleep_millis 100)) ;; mret false.
End svmgr.

(** ** main *)

(** [unwrap_or_else]: a directory that cannot be loaded counts as empty. *)
Definition loaded {A E} (r : result (list A) E) : list A := match r with Ok l => l | Err _ => [] end.

(** From the results of loading the configuration to the startup loop: the first
    heartbeat, the tree, the dependency graph; a cyclic configuration ends the
    process.  What [validate_all] reports is only logged. *)
Definition svmgr_start `{K : OS, HO : HashOrder, R : Rmp} {E F} (write_ok : bool) (o : os)
    (chan : option InitChannel) (services : result (list ServiceDef) E)
    (supervisor_defs : result (list SupervisorDef) F) : out Svm (DependencyGraph * Boot) :=
  let s := {| sv_mgr := {| mg_tree := build_tree (loaded supervisor_defs) (loaded services);
                           mg_monitor := monitor_new; mg_os := o |};
              sv_chan := chan; sv_sent := [] |} in
  (_ ← send write_ok Heartbeat;
   g ← unwrap (build (loaded services));
   match validate_no_cycles g with
   | None => out_of_fuel
   | Some (Err _) => exit 1
   | Some (Ok _) => s ← gets id; mret (g, boot_init g s)
   end) s.
