(* ===== verification/SvmgrFacts.v ===== *)
(** * Facts about the service manager

    The supervisor tree is built as the configuration declares it, where that is
    unambiguous; otherwise it is still well formed, and what is left out is known. *)

From S2P Require Import Prelude Config Graph Cycle Frontier FrontierLoops FrontierFacts Startup.
From S2P Require Import Protocol InitChannel World Cgroup Intensity Tree Strategy Monad Manager.
From S2P Require Import Shutdown Control Readiness Svmgr.

#[local] Open Scope list_scope.

(** ** The tree *)

Lemma add_configured_supervisor_ok t def : tree_ok t → tree_ok (add_configured_supervisor t def).
Proof.
  intros Hok. unfold add_configured_supervisor. case_decide.
  - by apply tree_ok_supervisor.
  - by apply tree_ok_keep_supervisor.
Qed.

Lemma build_tree_ok sups svcs : tree_ok (build_tree sups svcs).
Proof.
  unfold build_tree. set (t := tree_new _ _ _). assert (tree_ok t) as Ht by apply tree_ok_new.
  generalize dependent t. induction sups as [|d sups IH]; intros t Ht; cbn [foldl].
  - revert t Ht. induction svcs as [|d svcs IH]; intros t Ht; cbn [foldl]; [done|].
    apply IH. by apply tree_ok_keep_worker.
  - by apply IH, add_configured_supervisor_ok.
Qed.

(** What a tree must have for a worker to be added under [parent_for]. *)
Definition has_root (t : SupervisorTree) : Prop := ∃ s, nodes t !! "root" = Some (Supervisor s).

(** A worker placed under its own supervisor, or under the root when the tree has no
    supervisor of that name. *)
Definition placed (sup_tree t : SupervisorTree) (d : ServiceDef) : Prop :=
  ∃ w, get_worker t (sd_name d) = Some w ∧ wn_def w = d ∧ wn_state w = Stopped ∧ wn_pid w = None ∧
    wn_parent w = parent_for sup_tree d.

(** What a supervisor is configured with. *)
Definition sup_info (t : SupervisorTree) (id : string)
    : option (RestartStrategy * RestartIntensity * option string) :=
  s ← get_supervisor t id; Some (sn_strategy s, sn_intensity s, sn_parent s).

(** Adding workers keeps the supervisors and the workers there are. *)
Definition extends_tree (t t' : SupervisorTree) : Prop :=
  (∀ id w, get_worker t id = Some w → get_worker t' id = Some w) ∧
  ∀ id, sup_info t id = sup_info t' id.

Lemma add_configured_worker_spec t d :
  has_root t → nodes t !! sd_name d = None → is_worker t (ss_supervisor (sd_service d)) = false →
  placed t (add_configured_worker t d) d ∧ extends_tree t (add_configured_worker t d) ∧
  ∀ id, is_Some (nodes (add_configured_worker t d) !! id) ↔ id = sd_name d ∨ is_Some (nodes t !! id).
Proof.
  intros [r Hroot] Hfresh Hsup. unfold add_configured_worker.
  assert (∃ s, nodes t !! parent_for t d = Some (Supervisor s)) as [s Hs].
  { unfold parent_for, get. unfold is_worker in Hsup.
    destruct (nodes t !! ss_supervisor (sd_service d)) as [[s|]|] eqn:E; [eauto|done|eauto]. }
  destruct (add_worker d (parent_for t d) t) as [t'|] eqn:E.
  2: { exfalso. unfold add_worker in E. rewrite Hs in E. case_decide as Hd; [|done].
       rewrite Hfresh in Hd. by destruct Hd. }
  cbn [or_keep]. apply add_worker_Ok in E as (_ & s' & Hs' & ->). assert (s' = s) as -> by congruence.
  set (n := Worker _). split; [|split].
  - eexists. split; [apply get_worker_lookup; rewrite add_node_lookup; by rewrite decide_True|]. done.
  - split.
    + intros id w. rewrite !get_worker_lookup, add_node_lookup. intros Hw.
      repeat case_decide; subst; congruence.
    + intros id. unfold sup_info, get_supervisor. rewrite add_node_lookup. repeat case_decide; subst.
      * by rewrite Hfresh.
      * by rewrite Hs.
      * done.
  - intros id. rewrite add_node_lookup. repeat case_decide; subst; [naive_solver| |naive_solver].
    rewrite Hs. naive_solver.
Qed.

Lemma parent_for_ext t t' d :
  (∀ id, is_Some (nodes t' !! id) ↔ id = sd_name d ∨ is_Some (nodes t !! id)) →
  ∀ d', ss_supervisor (sd_service d') ≠ sd_name d → parent_for t' d' = parent_for t d'.
Proof.
  intros H d' Hne. unfold parent_for, get. specialize (H (ss_supervisor (sd_service d'))).
  destruct (nodes t' !! _) eqn:E', (nodes t !! _) eqn:E; try done; exfalso.
  - destruct H as [H _]. destruct H as [|[? ?]]; [by eexists|done|congruence].
  - destruct H as [_ H]. destruct H as [? ?]; [right; by eexists|congruence].
Qed.

Lemma configured_workers svcs t :
  has_root t → NoDup (map sd_name svcs) →
  (∀ d, d ∈ svcs → nodes t !! sd_name d = None ∧ is_worker t (ss_supervisor (sd_service d)) = false ∧
    ss_supervisor (sd_service d) ∉ map sd_name svcs) →
  let t' := foldl add_configured_worker t svcs in
  (∀ d, d ∈ svcs → placed t t' d) ∧ extends_tree t t' ∧
  ∀ id, is_Some (nodes t' !! id) ↔ id ∈ map sd_name svcs ∨ is_Some (nodes t !! id).
Proof.
  revert t. induction svcs as [|d svcs IH]; intros t Hr Hnd Hd; cbn [foldl map].
  { split; [by intros ? ?%elem_of_nil|]. split; [done|]. set_solver. }
  apply NoDup_cons in Hnd as [Hnin Hnd].
  destruct (Hd d) as (Hf & Hw & Hns); [by apply elem_of_cons; left|].
  destruct (add_configured_worker_spec t d Hr Hf Hw) as (Hpl & Hext & Hdom).
  set (t1 := add_configured_worker t d) in *.
  assert (∀ d', d' ∈ svcs → nodes t1 !! sd_name d' = None ∧
    is_worker t1 (ss_supervisor (sd_service d')) = false ∧
    (ss_supervisor (sd_service d') ∉ map sd_name svcs) ∧ ss_supervisor (sd_service d') ≠ sd_name d) as Hd1.
  { intros d' Hd'. destruct (Hd d') as (Hf' & Hw' & Hns'); [by apply elem_of_cons; right|].
    assert (sd_name d' ≠ sd_name d) as Hne.
    { intros Heq. apply Hnin. rewrite <-Heq. by apply list_elem_of_fmap_2. }
    cbn [map] in Hns'. apply not_elem_of_cons in Hns' as [Hns1 Hns2].
    split; [|split; [|done]].
    - apply eq_None_not_Some. intros [?|[? ?]]%Hdom; congruence.
    - apply not_true_iff_false. rewrite is_worker_iff. intros (w & Hlk).
      destruct (nodes t !! ss_supervisor (sd_service d')) as [[s|w']|] eqn:E.
      + apply get_worker_lookup in Hlk. destruct Hext as [_ He]. specialize (He (ss_supervisor (sd_service d'))).
        unfold sup_info, get_supervisor in He. apply get_worker_lookup in Hlk. by rewrite E, Hlk in He.
      + unfold is_worker in Hw'. by rewrite E in Hw'.
      + destruct (proj1 (Hdom (ss_supervisor (sd_service d')))) as [|[? ?]]; [by eexists|done|congruence]. }
  destruct (IH t1) as (IH1 & IH2 & IH3); [|done|by intros ? ?; naive_solver|].
  { destruct Hr as [s Hs]. destruct Hext as [_ He]. specialize (He "root"). unfold has_root.
    unfold sup_info, get_supervisor in He. rewrite Hs in He. destruct (nodes t1 !! "root") as [[]|]; naive_solver. }
  split; [|split].
  - intros d' [->|Hd']%elem_of_cons.
    + destruct Hpl as (w & Hg & ?). exists w. split; [by apply IH2|done].
    + destruct (IH1 d' Hd') as (w & Hg & ? & ? & ? & Hp). exists w. rewrite Hp.
      rewrite (parent_for_ext t t1 d Hdom d') by naive_solver. done.
  - split; [intros; apply IH2; by apply Hext|]. intros id. rewrite (proj2 Hext id). apply IH2.
  - intros id. rewrite IH3, Hdom. rewrite elem_of_cons. naive_solver.
Qed.

(** What a supervisor definition asks for. *)
Definition sup_name (d : SupervisorDef) : string := sp_name (sup_supervisor d).
Definition sup_parent (d : SupervisorDef) : string := default "root" (sp_parent (sup_supervisor d)).
Definition sup_wanted (d : SupervisorDef) : RestartStrategy * RestartIntensity * option string :=
  if decide (sup_name d = "root") then
    (sp_strategy (sup_supervisor d), configured_intensity (sup_restart d) 600, None)
  else
    (sp_strategy (sup_supervisor d), configured_intensity (sup_restart d) 300, Some (sup_parent d)).

(** Every definition comes after the one of its parent. *)
Fixpoint parents_first (seen : gset string) (sups : list SupervisorDef) : bool :=
  match sups with
  | [] => true
  | d :: sups =>
      bool_decide (sup_name d = "root" ∨ sup_parent d ∈ seen) && parents_first ({[sup_name d]} ∪ seen) sups
  end.

(** A tree of supervisors only, with the names [seen]. *)
Definition sup_tree (seen : gset string) (t : SupervisorTree) : Prop :=
  (∀ id, is_Some (nodes t !! id) ↔ id ∈ seen) ∧ (∀ id, id ∈ seen → is_Some (sup_info t id)) ∧
  ∃ st i, sup_info t "root" = Some (st, i, None).

Lemma sup_info_lookup t id x :
  sup_info t id = Some x ↔
  ∃ s, nodes t !! id = Some (Supervisor s) ∧ (sn_strategy s, sn_intensity s, sn_parent s) = x.
Proof. unfold sup_info, get_supervisor. destruct (nodes t !! id) as [[]|]; cbn; naive_solver. Qed.

Lemma add_configured_supervisor_info seen t d :
  sup_tree seen t → (sup_name d = "root" ∨ (sup_parent d ∈ seen) ∧ sup_name d ∉ seen) →
  sup_info (add_configured_supervisor t d) (sup_name d) = Some (sup_wanted d) ∧
  (∀ id, id ≠ sup_name d → sup_info (add_configured_supervisor t d) id = sup_info t id) ∧
  ∀ id, is_Some (nodes (add_configured_supervisor t d) !! id) ↔ id = sup_name d ∨ is_Some (nodes t !! id).
Proof.
  intros (Hdom & Hsup & st & i & Hroot) Hd. unfold add_configured_supervisor, sup_wanted.
  fold (sup_name d). fold (sup_parent d). case_decide as Hn.
  - apply sup_info_lookup in Hroot as (s & Hs & [= _ _ Hp]). unfold update_supervisor. rewrite Hs. split; [|split].
    + apply sup_info_lookup. eexists. rewrite Hn. cbn. rewrite lookup_insert, decide_True by done.
      split; [done|]. cbn. by rewrite Hp.
    + intros id Hid. unfold sup_info, get_supervisor. cbn. rewrite lookup_insert_ne; congruence.
    + intros id. cbn. rewrite lookup_insert. case_decide; naive_solver.
  - destruct Hd as [|[Hp Hf]]; [done|]. destruct (Hsup _ Hp) as [x Hx].
    apply sup_info_lookup in Hx as (s & Hs & _).
    assert (nodes t !! sup_name d = None) as Hnone by (apply eq_None_not_Some; by rewrite Hdom).
    destruct (add_supervisor _ _ _ _ t) as [t'|] eqn:E.
    2: { exfalso. unfold add_supervisor in E. rewrite Hs, Hnone in E. case_decide as H; [by destruct H|done]. }
    cbn [or_keep]. apply add_supervisor_Ok in E as (_ & s' & Hs' & ->). assert (s' = s) as -> by congruence.
    split; [|split].
    + apply sup_info_lookup. eexists. rewrite add_node_lookup, decide_True; done.
    + intros id Hid. unfold sup_info, get_supervisor. rewrite add_node_lookup, decide_False by done.
      case_decide; [|done]. subst. by rewrite Hs.
    + intros id. rewrite add_node_lookup. repeat case_decide; subst; [naive_solver| |naive_solver].
      rewrite Hs. naive_solver.
Qed.

Lemma add_configured_supervisor_tree seen t d :
  sup_tree seen t → (sup_name d = "root" ∨ (sup_parent d ∈ seen) ∧ sup_name d ∉ seen) →
  sup_tree ({[sup_name d]} ∪ seen) (add_configured_supervisor t d).
Proof.
  intros Ht Hd. destruct (add_configured_supervisor_info seen t d Ht Hd) as (H1 & H2 & H3).
  destruct Ht as (Hdom & Hsup & st & i & Hroot). split; [|split].
  - intros id. rewrite H3, Hdom. set_solver.
  - intros id. destruct (decide (id = sup_name d)) as [->|Hne]; [by rewrite H1|].
    rewrite (H2 _ Hne). intros Hid. apply Hsup. set_solver.
  - destruct (decide ("root" = sup_name d)) as [Heq|Hne]; [|rewrite (H2 _ Hne); eauto].
    rewrite Heq, H1. unfold sup_wanted. rewrite decide_True; eauto.
Qed.

Lemma configured_supervisors_info sups : ∀ seen t,
  sup_tree seen t → NoDup (map sup_name sups) → parents_first seen sups = true →
  (∀ d, d ∈ sups → sup_name d = "root" ∨ sup_name d ∉ seen) →
  let t' := foldl add_configured_supervisor t sups in
  (∀ d, d ∈ sups → sup_info t' (sup_name d) = Some (sup_wanted d)) ∧
  (∀ id, id ∉ map sup_name sups → sup_info t' id = sup_info t id) ∧
  sup_tree (seen ∪ list_to_set (map sup_name sups)) t'.
Proof.
  induction sups as [|d sups IH]; intros seen t Ht Hnd Hpf Hfresh; cbn [foldl map list_to_set].
  { split; [by intros ? ?%elem_of_nil|]. split; [done|]. by rewrite (right_id_L ∅ (∪)). }
  apply NoDup_cons in Hnd as [Hnin Hnd]. cbn in Hpf. apply andb_true_iff in Hpf as [Hp Hpf].
  apply bool_decide_eq_true in Hp.
  assert (sup_name d = "root" ∨ sup_parent d ∈ seen ∧ sup_name d ∉ seen) as Hd.
  { destruct (Hfresh d) as [|]; [by apply elem_of_cons; left|by left|]. naive_solver. }
  destruct (add_configured_supervisor_info seen t d Ht Hd) as (H1 & H2 & _).
  destruct (IH _ _ (add_configured_supervisor_tree seen t d Ht Hd) Hnd Hpf) as (I1 & I2 & I3).
  { intros d' Hd'. destruct (Hfresh d') as [|]; [by apply elem_of_cons; right|by left|]. right.
    assert (sup_name d' ≠ sup_name d); [|set_solver]. intros Heq. apply Hnin. rewrite <-Heq.
    by apply list_elem_of_fmap_2. }
  split; [|split].
  - intros d' [->|Hd']%elem_of_cons; [|by apply I1]. by rewrite I2.
  - intros id [Hne Hid]%not_elem_of_cons. by rewrite I2, H2.
  - by rewrite (assoc_L (∪)), (comm_L (∪) seen).
Qed.

(** A configuration with unambiguous names: no two services and no two supervisors share a
    name, nor does a service with a supervisor or the root; no service names a service as its
    supervisor; and a supervisor is defined after its parent.  The code does not demand it: it
    logs what [add_worker] and [add_supervisor] refuse, and goes on without it. *)
Definition config_names_ok (sups : list SupervisorDef) (svcs : list ServiceDef) : bool :=
  bool_decide (NoDup (map sup_name sups)) && bool_decide (NoDup (map sd_name svcs)) &&
  parents_first {["root"]} sups &&
  forallb (λ d, bool_decide (sd_name d ∉ "root" :: map sup_name sups) &&
                bool_decide (ss_supervisor (sd_service d) ∉ map sd_name svcs)) svcs.

(** Where a service goes: under its supervisor when it is configured, else under the root. *)
Definition declared_parent (sups : list SupervisorDef) (d : ServiceDef) : string :=
  if decide (ss_supervisor (sd_service d) ∈ "root" :: map sup_name sups)
  then ss_supervisor (sd_service d) else "root".

Lemma sup_tree_new st i : sup_tree {["root"]} (tree_new "root" st i).
Proof.
  split; [|split].
  - intros id. cbn. rewrite lookup_singleton_is_Some. set_solver.
  - intros id ->%elem_of_singleton. by eexists.
  - eexists _, _. reflexivity.
Qed.

Lemma build_tree_spec sups svcs :
  config_names_ok sups svcs = true →
  let t := build_tree sups svcs in
  tree_ok t ∧
  (∀ d, d ∈ sups → sup_info t (sup_name d) = Some (sup_wanted d)) ∧
  (∀ d, d ∈ svcs → ∃ w, get_worker t (sd_name d) = Some w ∧ wn_def w = d ∧ wn_state w = Stopped ∧
    wn_pid w = None ∧ wn_parent w = declared_parent sups d) ∧
  ∀ id, is_worker t id = true ↔ id ∈ map sd_name svcs.
Proof.
  unfold config_names_ok. rewrite !andb_true_iff, !bool_decide_eq_true, forallb_forall.
  intros [[[Hsn Hvn] Hpf] Hsv]. split; [apply build_tree_ok|]. unfold build_tree.
  destruct (configured_supervisors_info sups _ _ (sup_tree_new OneForOne (intensity_new 20 (from_secs 600)))
    Hsn Hpf) as (H1 & _ & Hdom & Hsup & st & i & Hroot).
  { intros d _. destruct (decide (sup_name d = "root")); [by left|]. right. set_solver. }
  set (t0 := foldl add_configured_supervisor _ sups) in *.
  assert (∀ d, d ∈ svcs → (sd_name d ∉ "root" :: map sup_name sups) ∧
    ss_supervisor (sd_service d) ∉ map sd_name svcs) as Hd.
  { intros d Hd%list_elem_of_In%Hsv. by rewrite andb_true_iff, !bool_decide_eq_true in Hd. }
  assert (∀ id, is_Some (nodes t0 !! id) ↔ id ∈ "root" :: map sup_name sups) as Hin.
  { intros id. rewrite Hdom. rewrite elem_of_union, elem_of_singleton, elem_of_list_to_set, elem_of_cons. done. }
  assert (∀ id, is_worker t0 id = false) as Hnw.
  { intros id. apply not_true_iff_false. rewrite is_worker_iff. intros (w & Hw).
    destruct (Hsup id) as [x Hx]; [apply Hdom; by eexists|]. apply sup_info_lookup in Hx as (s & Hs & _). congruence. }
  destruct (configured_workers svcs t0) as (W1 & [W2 W2'] & W3); [|done| |].
  - apply sup_info_lookup in Hroot as (s & Hs & _). by exists s.
  - intros d Hd'. destruct (Hd d Hd'). split; [apply eq_None_not_Some; by rewrite Hin|done].
  - split; [|split].
    + intros d Hds. rewrite <-W2'. by apply H1.
    + intros d Hdv. destruct (W1 d Hdv) as (w & ? & ? & ? & ? & Hp). exists w. split_and!; try done.
      rewrite Hp. unfold parent_for, get, declared_parent.
      pose proof (Hin (ss_supervisor (sd_service d))) as Hiff. destruct (nodes t0 !! _) as [n|] eqn:En.
      * rewrite decide_True; [done|]. apply Hiff. by eexists.
      * rewrite decide_False; [done|]. rewrite <-Hiff. by intros [? ?].
    + intros id. split.
      * intros Hw. apply is_worker_iff in Hw as (w & Hw). destruct (proj1 (W3 id)) as [|Ht0]; [by eexists|done|].
        exfalso. destruct (Hsup id) as [x Hx]; [by apply Hdom|]. rewrite (W2' id) in Hx.
        apply sup_info_lookup in Hx as (s & Hs & _). congruence.
      * intros (d & -> & Hd')%list_elem_of_fmap. destruct (W1 d Hd') as (w & Hw & _).
        apply is_worker_iff. exists w. by apply get_worker_lookup.
Qed.

(** ** Any configuration *)

(** The workers are stopped services of [ds] under their own names. *)
Definition only_from (ds : list ServiceDef) (t : SupervisorTree) : Prop :=
  ∀ id w, get_worker t id = Some w →
    (wn_def w ∈ ds) ∧ sd_name (wn_def w) = id ∧ wn_state w = Stopped ∧ wn_pid w = None.

(** A service that is in the tree, or whose name is taken by a supervisor, or whose
    supervisor is a service. *)
Definition accounted (t : SupervisorTree) (d : ServiceDef) : Prop :=
  is_worker t (sd_name d) = true ∨ is_Some (get_supervisor t (sd_name d)) ∨
  is_worker t (ss_supervisor (sd_service d)) = true.

(** A tree with every node of another, of the same kind. *)
Definition grown (t t' : SupervisorTree) : Prop :=
  ∀ id, (is_worker t id = true → is_worker t' id = true) ∧
        (is_Some (get_supervisor t id) → is_Some (get_supervisor t' id)).

Lemma accounted_grown t t' d : grown t t' → accounted t d → accounted t' d.
Proof.
  intros Hg [H|[H|H]]; [left|right; left|right; right]; by apply Hg.
Qed.

Lemma add_configured_worker_any ds t d :
  has_root t → only_from ds t →
  has_root (add_configured_worker t d) ∧ only_from (d :: ds) (add_configured_worker t d) ∧
  grown t (add_configured_worker t d) ∧ accounted (add_configured_worker t d) d.
Proof.
  intros [r Hroot] Hof. unfold add_configured_worker.
  destruct (add_worker d (parent_for t d) t) as [t'|e] eqn:E; cbn [or_keep].
  - apply add_worker_Ok in E as (Hf & s & Hs & ->). set (n := Worker _). split_and!.
    + unfold has_root. rewrite add_node_lookup. repeat case_decide; subst; [congruence|eauto|eauto].
    + intros id w. rewrite get_worker_lookup, add_node_lookup. repeat case_decide; subst; [|done|].
      * intros [= <-]. cbn. split_and!; try done. by apply elem_of_cons; left.
      * intros Hw%get_worker_lookup%Hof. destruct Hw as (? & ?). split; [by apply elem_of_cons; right|done].
    + intros id. unfold is_worker, get_supervisor. rewrite add_node_lookup. repeat case_decide; subst;
        [by rewrite Hf; split; [|intros [? ?]]|by rewrite Hs; split; [|intros _; eexists]|done].
    + left. unfold is_worker. by rewrite add_node_lookup, decide_True.
  - split_and!; [by exists r|intros id w Hw%Hof; destruct Hw; split; [by apply elem_of_cons; right|done]|done|].
    unfold accounted, is_worker, get_supervisor. unfold add_worker in E.
    destruct (nodes t !! sd_name d) as [[s|w]|] eqn:En; [right; left; by eexists|by left|]. right; right.
    unfold parent_for, get in E. destruct (nodes t !! ss_supervisor (sd_service d)) as [[s|w]|] eqn:Es; [|done|].
    + rewrite Es in E. case_decide as Hd; [by destruct Hd|done].
    + rewrite Hroot in E. case_decide as Hd; [by destruct Hd|done].
Qed.

Lemma configured_workers_any svcs ds t :
  has_root t → only_from ds t →
  let t' := foldl add_configured_worker t svcs in
  only_from (svcs ++ ds) t' ∧ grown t t' ∧ ∀ d, d ∈ svcs → accounted t' d.
Proof.
  revert ds t. induction svcs as [|d svcs IH]; intros ds t Hr Hof; cbn [foldl app].
  { split_and!; [done|done|by intros ? ?%elem_of_nil]. }
  destruct (add_configured_worker_any ds t d Hr Hof) as (Hr1 & Hof1 & Hg1 & Ha1).
  destruct (IH (d :: ds) _ Hr1 Hof1) as (H1 & H2 & H3). split_and!.
  - intros id w Hw%H1. destruct Hw as (Hin & ?). split; [|done].
    apply elem_of_app in Hin as [Hin|[->|Hin]%elem_of_cons]; apply elem_of_cons; rewrite elem_of_app; auto.
  - intros id. split; intros Hx; by apply H2, Hg1.
  - intros d' [->|Hd']%elem_of_cons; [by eapply accounted_grown|by apply H3].
Qed.

(** The supervisors alone: no workers, and a root. *)
Lemma configured_supervisors_any sups t :
  has_root t → (∀ id, is_worker t id = false) →
  let t' := foldl add_configured_supervisor t sups in has_root t' ∧ ∀ id, is_worker t' id = false.
Proof.
  revert t. induction sups as [|d sups IH]; intros t Hr Hw; [done|]. cbn [foldl]. apply IH.
  - destruct Hr as [r Hr]. unfold add_configured_supervisor. case_decide.
    + unfold update_supervisor. rewrite Hr. eexists. cbn. by rewrite lookup_insert_eq.
    + destruct (add_supervisor _ _ _ _ t) as [t'|] eqn:E; [|by exists r].
      apply add_supervisor_Ok in E as (_ & s & Hs & ->). unfold has_root. cbn [or_keep]. rewrite add_node_lookup.
      repeat case_decide; subst; eauto.
  - intros id. unfold add_configured_supervisor. case_decide.
    + unfold update_supervisor, is_worker. destruct (nodes t !! "root") as [[]|]; [|apply Hw|apply Hw]. cbn.
      rewrite lookup_insert. case_decide; [done|]. apply Hw.
    + destruct (add_supervisor _ _ _ _ t) as [t'|] eqn:E; [|apply Hw].
      apply add_supervisor_Ok in E as (_ & s & Hs & ->). unfold is_worker. cbn [or_keep]. rewrite add_node_lookup.
      repeat case_decide; [done|done|apply Hw].
Qed.

Lemma build_tree_any sups svcs :
  only_from svcs (build_tree sups svcs) ∧ ∀ d, d ∈ svcs → accounted (build_tree sups svcs) d.
Proof.
  unfold build_tree. set (t := tree_new _ _ _).
  destruct (configured_supervisors_any sups t) as [Hr Hw].
  - eexists. reflexivity.
  - intros id. unfold is_worker, t, tree_new. cbn. rewrite lookup_singleton. by case_decide.
  - destruct (configured_workers_any svcs [] _ Hr) as (H1 & _ & H3).
    + intros id w Hg. pose proof (Hw id) as Hf. apply get_worker_lookup in Hg. unfold is_worker in Hf.
      by rewrite Hg in Hf.
    + split; [|done]. intros id w Hg%H1. by rewrite app_nil_r in Hg.
Qed.

(** C25: On any configuration the tree built is well formed, its workers are stopped
    services of the configuration under their own names, and no worker has the name of a
    configured service only if that is a supervisor's name or the supervisor the service
    names is a service. When names are unambiguous (no two services or supervisors share
    one, no service has a supervisor's or the root's, no service names a service as its
    supervisor) and supervisors come after their parents, every supervisor has its
    configured strategy, intensity and parent, and the workers are exactly the services,
    each under its declared supervisor, or under the root when that is not configured. *)
Theorem build_tree_complete sups svcs :
  let t := build_tree sups svcs in
  tree_ok t ∧ only_from svcs t ∧ (∀ d, d ∈ svcs → accounted t d) ∧
  (config_names_ok sups svcs = true →
     (∀ d, d ∈ sups → sup_info t (sup_name d) = Some (sup_wanted d)) ∧
     (∀ d, d ∈ svcs → ∃ w, get_worker t (sd_name d) = Some w ∧ wn_def w = d ∧
        wn_parent w = declared_parent sups d) ∧
     ∀ id, is_worker t id = true ↔ id ∈ map sd_name svcs).
Proof.
  intros t. destruct (build_tree_any sups svcs) as [H1 H2]. split_and!; [apply build_tree_ok|done|done|].
  intros Hn. destruct (build_tree_spec sups svcs Hn) as (_ & H3 & H4 & H5). split_and!; [done| |done].
  intros d (w & ? & ? & _ & _ & ?)%H4. by exists w.
Qed.

(** A group of two levels and three services, the last of an unknown supervisor. *)
Definition sup_def (name : string) (parent : option string) (st : RestartStrategy) : SupervisorDef :=
  {| sup_supervisor := {| sp_name := name; sp_parent := parent; sp_strategy := st |};
     sup_restart := {| sr_max_restarts := 5; sr_max_restart_window := "1m" |} |}.
Definition svc_under (name sup : string) : ServiceDef :=
  let d := minimal_service name ["/bin/true"] in
  {| sd_service := {| ss_name := name; ss_supervisor := sup; ss_exec := ["/bin/true"]; ss_workdir := None;
       ss_service_type := default_service_type; ss_environment := ∅; ss_environment_file := None;
       ss_user := None |};
     sd_restart := sd_restart d; sd_readiness := sd_readiness d; sd_dependencies := sd_dependencies d;
     sd_cgroup := None; sd_namespace := None; sd_shutdown := sd_shutdown d |}.
Definition some_sups : list SupervisorDef :=
  [sup_def "net" None RestForOne; sup_def "dns" (Some "net") OneForAll].
Definition some_svcs : list ServiceDef :=
  [svc_under "dhcpd" "net"; svc_under "unbound" "dns"; svc_under "getty" "tty"].

Lemma build_tree_complete_witness :
  config_names_ok some_sups some_svcs = true ∧
  declared_parent some_sups (svc_under "unbound" "dns") = "dns" ∧
  sup_info (build_tree some_sups some_svcs) "dns" = Some (sup_wanted (sup_def "dns" (Some "net") OneForAll)).
Proof.
  split; [vm_compute; reflexivity|]. split; [vm_compute; reflexivity|].
  refine (proj1 (proj2 (proj2 (proj2 (build_tree_complete some_sups some_svcs))) _) (sup_def "dns" (Some "net") OneForAll) _).
  - vm_compute. reflexivity.
  - apply list_elem_of_In. cbn. tauto.
Defined.

(** A supervisor defined before its parent is refused, and its services go under the root. *)
Example child_before_parent :
  let t := build_tree (rev some_sups) some_svcs in
  get_supervisor t "dns" = None ∧ parent_of t "unbound" = Some "root".
Proof. vm_compute. split; reflexivity. Qed.
