(* ===== verification/Boot.v ===== *)
(** * The startup loop

    Every round of the startup loop returns and moves the frontier along the runs
    of [Startup]: a service is started once, when its dependencies allow it, and
    every started service is waited for, as a pending oneshot or by its readiness
    tracker, until its outcome is reported. *)

From S2P Require Import Prelude Config Graph Cycle Frontier FrontierLoops FrontierFacts Startup.
From S2P Require Import Protocol InitChannel World Cgroup Intensity Tree Strategy Monad Manager.
From S2P Require Import ManagerFacts StopOrder Shutdown Control Readiness Svmgr SvmgrFacts.

#[local] Open Scope list_scope.

(** An exit that is put back: its process id is registered again. *)
Lemma tree_ok_reregister p id t :
  tree_ok t → pid_map t !! p = Some id → tree_ok (register_pid id p (unregister_pid p t).2).
Proof.
  intros [Hwf [Hw Hp]] Hid. split; [by rewrite register_pid_shape, unregister_pid_shape|].
  unfold register_pid. split; cbn; rewrite update_worker_pid_map; cbn; rewrite insert_delete_eq.
  - intros q i Hq. rewrite insert_id in Hq by done. apply Hw in Hq.
    unfold is_worker in *. cbn. rewrite update_worker_lookup. cbn. by destruct (nodes t !! i) as [[]|].
  - intros i w q. rewrite update_worker_lookup. cbn. rewrite insert_id by done.
    destruct (nodes t !! i) as [[|v]|] eqn:E; [done| |done]. intros [= <-] Hq.
    case_decide as Hi; [|by eapply Hp]. subst i. cbn in Hq. congruence.
Qed.

Section boot.
Context `{L : FiniteExits, HO : HashOrder, R : Rmp}.
Context (hierarchy : option CgroupHierarchy) (load_defs : os → result (list ServiceDef) ServiceLoadError).

(** ** The manager during startup *)

(** The manager's invariant, in a tree with the workers [W]. *)
Definition kept (n : nat) (W : gset string) (s : Mgr) : Prop :=
  mgr_in n s ∧ ∀ w, w ∈ W → is_worker (mg_tree s) w = true.

Lemma kept_mono n n' W s : n ≤ n' → kept n W s → kept n' W s.
Proof. intros Hn [[? ?] ?]. split; [split; [done|lia]|done]. Qed.

Lemma kept_shape n n' W s s' : mstep s s' → mgr_in n' s' → kept n W s → kept n' W s'.
Proof. intros [Hs _] Hn [_ Hw]. split; [done|]. intros w ?%Hw. by rewrite Hs. Qed.

Lemma wpx_kept {A} X n W (m : M A) s (Q : A → Mgr → Prop) :
  total (mgr_in n) mstep m → kept n W s → (∀ a s', kept n W s' → Q a s') → wpx X m Q s.
Proof.
  intros Hm Hk HQ. eapply wpx_mono; [apply wpx_total, Hm, Hk|]. intros a s' [Hst Hn]. cbn in *.
  apply HQ. by eapply kept_shape.
Qed.

(** ** Control actions *)

Lemma sleep_millis_law d s : ∃ s', sleep_millis d s = Ret () s' ∧ ostep s s' ∧
  (clock (mg_os s) + d * 1000000 ≤ clock (mg_os s'))%Z.
Proof.
  eexists. split; [reflexivity|]. split; [split; [done|apply sleep_frame]|]. cbn. apply sleep_law.
Qed.

Lemma await_exit_total rounds fuel n name pid deadline s :
  n < fuel → mgr_in n s → (deadline ≤ clock (mg_os s) + Z.of_nat rounds * POLL - POLL)%Z → 1 ≤ rounds →
  total_at (mgr_in n) mstep (await_exit hierarchy rounds fuel name pid deadline) s.
Proof.
  intros Hf. revert s. induction rounds as [|rounds IH]; intros s Hs Hd Hr; [lia|]. cbn [await_exit].
  apply total_at_bind; [apply _|by apply reap_total|]. intros _ s1 _ (_ & _ & Hc1) Hs1.
  eapply total_at_step; [apply _|reflexivity|reflexivity|].
  destruct (negb _); [apply total_ret; [apply _|done]|].
  pose proof (now_law (mg_os s1)) as Hnow. pose proof (now_frame (mg_os s1)) as Hfr.
  destruct (os_now (mg_os s1)) as [now o] eqn:En. cbn [fst snd] in *.
  assert (ostep s1 (with_os o s1)) as Ho by done. destruct (ostep_ok n _ _ Ho Hs1) as [Hst Hs2].
  eapply total_at_step; [apply _|unfold sys; rewrite En; reflexivity|exact Hst|].
  destruct (Z.leb_spec deadline now); [apply total_ret; [apply _|done]|].
  destruct (sleep_millis_law 50 (with_os o s1)) as (s3 & E3 & Ho3 & Hc3).
  destruct (ostep_ok n _ _ Ho3 Hs2) as [Hst3 Hs3]. eapply total_at_step; [apply _|exact E3|exact Hst3|].
  cbn [mg_os with_os] in *. unfold POLL in *.
  apply IH; [done|cbn in *; lia|]. destruct rounds; [|lia]. cbn in *; lia.
Qed.

Lemma restart_service_kept (X : Prop) fuel n W name s :
  X → n < fuel → kept n W s → wpx X (restart_service hierarchy fuel name) (λ _, kept n W) s.
Proof.
  intros HX Hf Hs. unfold restart_service. apply wpx_gets.
  apply wpx_bind, (wpx_kept X n W); [apply stop_worker_total|done|]. intros _ s1 Hs1.
  apply wpx_bind. set (old := _ ≫= wn_pid). clearbody old.
  assert (∀ s2, kept n W s2 → wpx X (_ ← start_worker hierarchy name; mret ()) (λ _, kept n W) s2) as Hend.
  { intros s2 Hs2. apply wpx_bind, (wpx_kept X n W); [apply start_worker_total|done|]. by intros _ s3. }
  destruct old as [pid|]; [|by apply Hend].
  apply wpx_bind. unfold wpx at 1, sys. pose proof (now_law (mg_os s1)) as Hnow.
  pose proof (now_frame (mg_os s1)) as Hfr. destruct (os_now (mg_os s1)) as [now o] eqn:En. cbn [fst snd] in *.
  assert (ostep s1 (with_os o s1)) as Ho by done. destruct (ostep_ok n _ _ Ho (proj1 Hs1)) as [Hst Hs2].
  assert (kept n W (with_os o s1)) as Hk2 by (by eapply kept_shape). clear Hst Hs2 Ho.
  apply wpx_bind. destruct (instant_add now (from_secs 5)) as [deadline|] eqn:Ed; [|done].
  cbn [unwrap]. unfold wpx at 1. cbn beta iota delta [mret St_ret].
  eapply wpx_mono; [apply wpx_total, (await_exit_total _ _ n)|]; [done|apply Hk2| |unfold rounds; lia|].
  - unfold instant_add in Ed. case_match; [done|]. injection Ed as <-. cbn [mg_os with_os].
    apply rounds_enough; [unfold from_secs, NANOS|]; lia.
  - intros _ s3 [Hst Hs3]. apply Hend. by eapply kept_shape.
Qed.

Lemma add_worker_kept n W s def p t' :
  kept n W s → add_worker def p (mg_tree s) = Ok t' → kept n W (with_tree t' s).
Proof.
  intros [[[Hok Hp] Hn] Hw] E. pose proof (tree_ok_add_worker _ _ _ _ Hok E) as Hok'.
  apply add_worker_Ok in E as (Hf & sp & Hs & ->). split; [split; [split|]|]; cbn; [done|done|done|].
  intros w Hin%Hw. apply is_worker_iff in Hin as (v & Hv). apply is_worker_iff. exists v.
  cbn [mg_tree with_tree]. rewrite add_node_lookup. repeat case_decide; congruence.
Qed.

Lemma reload_add_kept X n W existing def s :
  kept n W s → wpx X (reload_add hierarchy existing def) (λ _, kept n W) s.
Proof.
  intros Hs. unfold reload_add. case_decide; [done|]. apply wpx_gets.
  destruct (add_worker def (parent_for (mg_tree s) def) (mg_tree s)) as [t'|] eqn:E; [|done].
  apply wpx_modify. cbn beta.
  apply wpx_bind, (wpx_kept X n W); [apply start_worker_total|by eapply add_worker_kept|]. by intros.
Qed.

Lemma reload_services_kept X n W s :
  kept n W s → wpx X (reload_services hierarchy load_defs) (λ _, kept n W) s.
Proof.
  intros Hs. unfold reload_services. apply wpx_gets.
  destruct (load_defs (mg_os s)) as [defs|e]; [|done].
  apply wpx_gets. apply wpx_bind.
  eapply wpx_mono; [apply (wpx_for_each X (λ _, kept n W)); [|done]|].
  { intros a l s'. apply reload_add_kept. }
  intros [] s1 Hs1. apply (wpx_for_each X (λ _, kept n W)); [|done]. intros a l s' Hs'. unfold reload_stop.
  case_decide; [done|]. apply (wpx_kept X n W); [apply stop_worker_total|done|]. by intros.
Qed.

(** The actions that compute a deadline, or end the process. *)
Definition deadline_action (a : ControlAction) : bool :=
  match a with RestartService _ | Control.Shutdown _ => true | _ => false end.

Definition svm_kept (n : nat) (W : gset string) (s : Svm) : Prop := kept n W (sv_mgr s).

Lemma wpx_mgr {A} X n W (m : M A) s :
  wpx X m (λ _, kept n W) (sv_mgr s) → wpx X (mgr m) (λ _, svm_kept n W) s.
Proof. intros H. apply wpx_zoom. exact H. Qed.

Lemma dispatch_action_kept (X : Prop) fuel n W ok g a s :
  wf_graph g → n < fuel → (deadline_action a = true → X) → svm_kept n W s →
  wpx X (dispatch_action hierarchy load_defs fuel ok g a) (λ _, svm_kept n W) s.
Proof.
  intros Hg Hf HX Hs. destruct a as [name|name|name| |kind]; cbn [dispatch_action].
  - apply wpx_bind, wpx_mgr, (wpx_kept X n W); [apply start_worker_total|done|by intros].
  - apply wpx_mgr, (wpx_kept X n W); [apply stop_worker_total|done|by intros].
  - apply wpx_mgr, restart_service_kept; [by apply HX|done|done].
  - by apply wpx_mgr, reload_services_kept.
  - apply wpx_bind, wpx_zoom, wp_wpx. destruct Hs as [[Hok He] _].
    apply execute_shutdown_spec; [done|done|lia|intros _; by apply HX|]. intros s' _.
    apply wpx_bind. unfold send. apply wpx_gets.
    destruct (sv_chan _) as [ch|]; [|by apply HX]. destruct (send_message ok _ ch). by apply HX.
Qed.

Lemma dispatch_kept (X : Prop) fuel n W ok g actions s :
  wf_graph g → n < fuel → (∀ a, a ∈ actions → deadline_action a = true → X) → svm_kept n W s →
  wpx X (dispatch_control_actions hierarchy load_defs fuel ok g actions) (λ _, svm_kept n W) s.
Proof.
  intros Hg Hf HX Hs. eapply wpx_mono.
  - apply (wpx_for_each X (λ l s, (∀ a, a ∈ l → deadline_action a = true → X) ∧ svm_kept n W s)); [|done].
    intros a l s' [HX' Hs']. eapply wpx_mono; [apply (dispatch_action_kept X fuel n W); try done|].
    + intros Ha. apply (HX' a); [by apply elem_of_cons; left|done].
    + intros [] s'' Hs''. split; [|done]. intros b Hb. apply HX'. by apply elem_of_cons; right.
  - by intros [] s' [_ Hs'].
Qed.

Lemma poll_control_total conns t : wf_tree t → ∃ actions, poll_control conns t = Some actions.
Proof.
  intros Hwf. induction conns as [|c conns [actions IH]]; cbn [poll_control]; [by eexists|].
  assert (∃ r, handle_connection c t = Some r) as [[r bs] ->]; [|cbn; rewrite IH; by eexists].
  unfold handle_connection. destruct (negb (cn_setup c)); [by eexists|].
  destruct (read_request (cn_reads c) []) as [[buf|]|]; try by eexists.
  destruct (decode buf) as [[msg k]|]; [|by eexists].
  destruct (handle_request_total (m_body msg) t Hwf) as [[body action] ->]. cbn. by eexists.
Qed.

(** ** The startup state *)

Variables (g : DependencyGraph) (tr0 : list label).
Hypothesis Hg : wf_graph g.

(** The frontier continues the run [tr0], and waits for the services [W]. *)
Definition awaits (W : gset string) (f : StartupFrontier) : Prop :=
  (∃ tr, frun g (tr0 ++ tr) f) ∧ pending f = W.

(** Every service that is waited for is a pending oneshot, or has a tracker, or is in
    [todo], the rest of the batch that is being started. *)
Record boot_track (todo : list string) (b : Boot) : Prop := {
  bt_awaits : awaits (list_to_set todo ∪ bt_oneshots b ∪ dom (bt_trackers b)) (bt_frontier b);
  bt_nodup : NoDup todo;
  bt_todo : list_to_set todo ## bt_oneshots b ∪ dom (bt_trackers b);
  bt_disj : bt_oneshots b ## dom (bt_trackers b);
}.

Definition boot_inv (n : nat) (todo : list string) (b : Boot) : Prop :=
  kept n (services g) (sv_mgr (bt_svm b)) ∧ boot_track todo b.

Lemma frun_step tr st l st' : frun g (tr0 ++ tr) st → fstep g st l st' → ∃ tr', frun g (tr0 ++ tr') st'.
Proof. intros Hr Hs. exists (tr ++ [l]). rewrite app_assoc. by eapply run_snoc. Qed.

Lemma awaits_ready W f name : awaits W f → name ∈ W → awaits (W ∖ {[name]}) (mark_ready name g f).
Proof.
  intros [[tr Hr] <-] Hin. split; [eapply frun_step; [done|]; by constructor|].
  by destruct (mark_ready_sets g f name) as (_ & -> & _).
Qed.

Lemma awaits_failed W f name :
  awaits W f → name ∈ W → ∃ f', mark_failed name g f = Some f' ∧ awaits (W ∖ {[name]}) f'.
Proof.
  intros [[tr Hr] <-] Hin. pose proof (frun_inv _ _ _ Hg Hr) as Hi.
  destruct (mark_failed_returns g f name Hg Hi Hin) as [f' E]. exists f'. split; [done|].
  split; [eapply frun_step; [done|]; by constructor|].
  by destruct (mark_failed_frame g f name Hg Hi f' E) as (_ & -> & _).
Qed.

Lemma awaits_services W f : awaits W f → W ⊆ services g.
Proof.
  intros [[tr Hr] <-] s Hs. apply (fi_started _ _ (frun_inv _ _ _ Hg Hr)). set_solver.
Qed.

Lemma awaits_take W f batch f' :
  awaits W f → take_ready f = (batch, f') → awaits (list_to_set batch ∪ W) f' ∧ NoDup batch ∧ list_to_set batch ## W.
Proof.
  intros [[tr Hr] <-] E. pose proof (frun_inv _ _ _ Hg Hr) as Hi. split; [split|].
  - eapply frun_step; [done|]. by constructor.
  - pose proof (take_ready_pending f) as Hp. rewrite E in Hp. cbn [snd] in Hp. rewrite Hp.
    injection E as <- _. set_solver.
  - injection E as <- _. split; [apply (fi_queue_nodup _ _ Hi)|]. intros s Hs%elem_of_list_to_set.
    by apply (fi_queue _ _ Hi) in Hs as (_ & ? & _).
Qed.

Definition boot_with (s : Mgr) (b : Boot) : Boot :=
  {| bt_svm := with_mgr s (bt_svm b); bt_frontier := bt_frontier b; bt_trackers := bt_trackers b;
     bt_oneshots := bt_oneshots b |}.

Lemma wpx_boot {A} X (m : M A) (Q : A → Boot → Prop) b :
  wpx X m (λ a s, Q a (boot_with s b)) (sv_mgr (bt_svm b)) → wpx X (boot_mgr m) Q b.
Proof. intros H. apply wpx_zoom, wpx_zoom. exact H. Qed.

(** A step of the manager leaves the bookkeeping alone. *)
Lemma wpx_boot_inv {A} X n todo (m : M A) b (Q : A → Boot → Prop) :
  total (mgr_in n) mstep m → boot_inv n todo b → (∀ a b', boot_inv n todo b' → Q a b') →
  wpx X (boot_mgr m) Q b.
Proof.
  intros Hm [Hk Ht] HQ. apply wpx_boot, (wpx_kept X n (services g)); [done|done|]. intros a s' Hs'.
  apply HQ. split; [done|]. by destruct Ht.
Qed.

(** Taking a service out of a container, and putting it into one. *)
Lemma oneshot_out todo b name :
  boot_track todo b → name ∈ bt_oneshots b →
  boot_track (name :: todo)
    {| bt_svm := bt_svm b; bt_frontier := bt_frontier b; bt_trackers := bt_trackers b;
       bt_oneshots := bt_oneshots b ∖ {[name]} |}.
Proof.
  intros [Ha Hn Ht Hd] Hin. split; cbn.
  - replace (_ ∪ _ ∪ _) with (list_to_set todo ∪ bt_oneshots b ∪ dom (bt_trackers b)); [done|].
    apply set_eq. intros x. destruct (decide (x = name)); set_solver.
  - apply NoDup_cons. split; [|done]. set_solver.
  - set_solver.
  - set_solver.
Qed.

Lemma oneshot_in todo b name :
  boot_track (name :: todo) b →
  boot_track todo
    {| bt_svm := bt_svm b; bt_frontier := bt_frontier b; bt_trackers := bt_trackers b;
       bt_oneshots := {[name]} ∪ bt_oneshots b |}.
Proof.
  intros [Ha [Hn1 Hn]%NoDup_cons Ht Hd]. cbn in *. split; cbn.
  - replace (_ ∪ _ ∪ _) with ({[name]} ∪ list_to_set todo ∪ bt_oneshots b ∪ dom (bt_trackers b)); [done|].
    set_solver.
  - done.
  - set_solver.
  - set_solver.
Qed.

Lemma tracker_out todo b name :
  boot_track todo b → name ∈ dom (bt_trackers b) →
  boot_track (name :: todo)
    {| bt_svm := bt_svm b; bt_frontier := bt_frontier b; bt_trackers := delete name (bt_trackers b);
       bt_oneshots := bt_oneshots b |}.
Proof.
  intros [Ha Hn Ht Hd] Hin. split; cbn; rewrite ?dom_delete_L.
  - replace (_ ∪ _ ∪ _) with (list_to_set todo ∪ bt_oneshots b ∪ dom (bt_trackers b)); [done|].
    apply set_eq. intros x. destruct (decide (x = name)); set_solver.
  - apply NoDup_cons. split; [|done]. set_solver.
  - set_solver.
  - set_solver.
Qed.

Lemma tracker_in todo b name r :
  boot_track (name :: todo) b →
  boot_track todo
    {| bt_svm := bt_svm b; bt_frontier := bt_frontier b; bt_trackers := <[name := r]> (bt_trackers b);
       bt_oneshots := bt_oneshots b |}.
Proof.
  intros [Ha [Hn1 Hn]%NoDup_cons Ht Hd]. cbn in *. split; cbn; rewrite ?dom_insert_L.
  - replace (_ ∪ _ ∪ _) with ({[name]} ∪ list_to_set todo ∪ bt_oneshots b ∪ dom (bt_trackers b)); [done|].
    set_solver.
  - done.
  - set_solver.
  - set_solver.
Qed.

(** Reporting a service that is in no container. *)
Lemma report_track todo b name f :
  boot_track (name :: todo) b →
  (∀ W, awaits W (bt_frontier b) → name ∈ W → awaits (W ∖ {[name]}) f) →
  boot_track todo {| bt_svm := bt_svm b; bt_frontier := f; bt_trackers := bt_trackers b;
                     bt_oneshots := bt_oneshots b |}.
Proof.
  intros [Ha [Hn1 Hn]%NoDup_cons Ht Hd] Hf. cbn in *. split; cbn; [|done|set_solver|done].
  specialize (Hf _ Ha ltac:(set_solver)).
  replace (_ ∪ _ ∪ _) with (({[name]} ∪ list_to_set todo ∪ bt_oneshots b ∪ dom (bt_trackers b)) ∖ {[name]});
    [done|].
  set_solver.
Qed.

Lemma boot_ready_inv X n todo b name :
  boot_inv n (name :: todo) b → wpx X (boot_ready g name) (λ _, boot_inv n todo) b.
Proof.
  intros [Hk Ht]. split; [done|]. cbn. apply (report_track todo b name); [done|].
  intros W. apply awaits_ready.
Qed.

Lemma boot_failed_inv X n todo b name :
  boot_inv n (name :: todo) b → wpx X (boot_failed g name) (λ _, boot_inv n todo) b.
Proof.
  intros [Hk Ht]. unfold wpx, boot_failed, mbind, St_bind, gets.
  destruct (awaits_failed _ (bt_frontier b) name (bt_awaits _ _ Ht)) as (f' & E & _); [set_solver|].
  rewrite E. split; [done|]. cbn. apply (report_track todo b name); [done|].
  intros W Hw Hin. destruct (awaits_failed W _ name Hw Hin) as (f2 & E2 & ?). congruence.
Qed.

(** ** Exits during startup *)

Lemma finish_oneshot_inv X n todo b name e :
  let s := sv_mgr (bt_svm b) in
  kept n (services g) (with_tree (update_worker (clear_exited e) name (mg_tree s)) s) →
  boot_track (name :: todo) b → wpx X (finish_oneshot hierarchy g name e) (λ _, boot_inv n todo) b.
Proof.
  intros s Hk Ht. unfold finish_oneshot. apply wpx_bind, wpx_boot, wpx_bind. unfold wpx at 1.
  cbn beta iota delta [on_tree modify]. apply (wpx_kept X n (services g)); [|exact Hk|].
  - total_tac; [apply ostep_total, monitor_total|apply ostep_total, cleanup_cgroup_total].
  - intros _ s' Hs'. assert (boot_inv n (name :: todo) (boot_with s' b)) by (split; [done|by destruct Ht]).
    destruct (is_normal e); [by apply boot_ready_inv|by apply boot_failed_inv].
Qed.

(** The exit of a service that is not a pending oneshot is handled as in the main loop. *)
Lemma reregistered_exit X fuel n p id e s :
  n < fuel → mgr_waited n p s → pid_map (mg_tree s) !! p = Some id →
  wpx X (on_tree (register_pid id p) ;;
         handle_child_exit hierarchy (reap_and_handle_exits hierarchy fuel) p e)
    (λ _ s', mgr_in n s' ∧ same_shape (mg_tree s') (mg_tree s) ∧ (clock (mg_os s) ≤ clock (mg_os s'))%Z)
    (with_tree (unregister_pid p (mg_tree s)).2 s).
Proof.
  intros Hf (Hok & Hn & Hp) Hid. apply wpx_modify. cbn beta.
  eapply wpx_mono; [apply wpx_total, (handle_child_exit_total hierarchy n); [by apply reap_total|]|].
  - split; [by apply tree_ok_reregister|]. split; [done|]. cbn. rewrite update_worker_pid_map. cbn.
    rewrite insert_delete_eq, insert_id; done.
  - intros _ s' [(Hs & _ & Hc) Hin]. split; [done|]. split; [|exact Hc]. rewrite Hs. cbn [mg_tree with_tree].
    by rewrite register_pid_shape, unregister_pid_shape.
Qed.

Lemma boot_exit_inv X fuel n todo p e b :
  n < fuel → mgr_waited n p (sv_mgr (bt_svm b)) →
  (∀ w, w ∈ services g → is_worker (mg_tree (sv_mgr (bt_svm b))) w = true) → boot_track todo b →
  wpx X (boot_exit hierarchy g fuel p e) (λ _, boot_inv n todo) b.
Proof.
  intros Hf Hwait Hw Ht. assert (Hwait' := Hwait). destruct Hwait' as (Hok & Hn & Hp).
  unfold boot_exit. apply wpx_bind. unfold wpx at 1.
  cbn beta iota delta [gets unregister_pid]. set (t := mg_tree (sv_mgr (bt_svm b))) in *.
  apply wpx_bind. unfold wpx at 1. cbn beta iota delta [boot_mgr mgr zoom on_tree modify].
  destruct (pid_map t !! p) as [id|] eqn:E.
  - apply wpx_gets. case_decide as Hin.
    + apply wpx_modify. cbn beta.
      apply finish_oneshot_inv; [|by refine (oneshot_out todo (boot_with _ b) id _ _); [destruct Ht|]]. cbn. split; [split; [split|cbn; lia]|].
      * cbn. by apply (tree_ok_exit (clear_exited e) p id t).
      * cbn. rewrite update_worker_pid_map. cbn. intros q i. rewrite lookup_delete_Some. intros [Hne Hq].
        destruct (Hp q i Hq); congruence.
      * intros w Hin'%Hw. cbn. rewrite update_worker_is_worker. exact Hin'.
    + apply wpx_boot. eapply wpx_mono; [by apply (reregistered_exit X fuel n p id e _ Hf Hwait)|].
      intros _ s' (Hs' & Hsh & _). split; [|by destruct Ht]. split; [done|]. intros w Hw'%Hw. cbn.
      by rewrite Hsh.
  - cbn. split; [|by destruct Ht]. cbn. split; [split; [split|cbn; lia]|].
    + cbn. by rewrite delete_id by done; destruct t.
    + cbn. rewrite delete_id by done. intros q i Hq. destruct (Hp q i Hq); congruence.
    + intros w Hin%Hw. done.
Qed.

Lemma reap_oneshots_inv X fuel n todo b :
  n < fuel → boot_inv n todo b →
  wpx X (reap_oneshots_during_startup hierarchy g fuel) (λ _, boot_inv n todo) b.
Proof.
  revert n b. induction fuel as [|fuel IH]; intros n b Hf [Hk Ht]; [lia|]. cbn [reap_oneshots_during_startup].
  pose proof (wait_cases n _ (proj1 Hk)) as Hc. assert (Hk' := Hk). destruct Hk' as [[_ He] Hw].
  destruct (os_waitpid None (mg_os (sv_mgr (bt_svm b)))) as [r o] eqn:E. destruct Hc as [Hst Hc].
  apply wpx_bind, wpx_boot. unfold wpx at 1, sys. rewrite E.
  assert (∀ w, w ∈ services g → is_worker (mg_tree (with_os o (sv_mgr (bt_svm b)))) w = true) as Hw' by done.
  assert (∀ m b', m ≤ n → boot_inv m todo b' → boot_inv n todo b') as Hmono.
  { intros m b' Hm [H1 H2]. split; [by eapply kept_mono|done]. }
  assert (boot_track todo (boot_with (with_os o (sv_mgr (bt_svm b))) b)) as Ht' by (by destruct Ht).
  destruct r as [p c|p c| | | |]; [| |split; [by split|done]..| |split; [by split|done]].
  1,2: destruct Hc as [Hne Hc]; apply wpx_bind; eapply wpx_mono;
    [apply (boot_exit_inv X fuel (Nat.pred n) todo); [lia|exact Hc|exact Hw'|exact Ht']|];
    intros [] b' Hb'; eapply wpx_mono; [apply (IH (Nat.pred n)); [lia|done]|];
    intros [] b''; apply Hmono; lia.
  destruct Hc as [Hne Hc]. eapply wpx_mono; [apply (IH (Nat.pred n)); [lia|]|].
  - split; [by split|done].
  - intros [] b''. apply Hmono. lia.
Qed.

(** ** A round *)

Lemma sys_inv {A} X n todo (f : os → A * os) b (Q : A → Boot → Prop) :
  (∀ o, frame o (f o).2) → boot_inv n todo b → (∀ a b', boot_inv n todo b' → Q a b') →
  wpx X (boot_mgr (sys f)) Q b.
Proof. intros Hf. apply wpx_boot_inv. by apply ostep_total, sys_total. Qed.

Lemma boot_start_inv X n todo b name :
  boot_inv n (name :: todo) b → wpx X (boot_start hierarchy g name) (λ _, boot_inv n todo) b.
Proof.
  intros Hb. unfold boot_start. apply wpx_bind, (wpx_boot_inv X n (name :: todo)); [apply start_worker_total|done|].
  intros fd b1 Hb1. apply wpx_gets.
  assert (is_worker (mg_tree (sv_mgr (bt_svm b1))) name = true) as Hw.
  { destruct Hb1 as [[_ Hw] Ht]. apply Hw, (awaits_services _ _ (bt_awaits _ _ Ht)). set_solver. }
  apply is_worker_iff in Hw as (w & Hw%get_worker_lookup). rewrite Hw.
  apply wpx_bind, (sys_inv X n (name :: todo)); [apply tracker_new_frame|done|]. intros r b2 Hb2.
  set (r' := match fd with Some _ => _ | None => _ end). clearbody r'. clear r.
  destruct (bool_decide _ && is_immediate r').
  - destruct Hb2 as [Hk Ht]. split; [done|]. by apply oneshot_in.
  - destruct (is_immediate r'); [by apply boot_ready_inv|].
    destruct Hb2 as [Hk Ht]. split; [done|]. by apply tracker_in.
Qed.

(** The trackers named in [names] are still there. *)
Definition to_check (n : nat) (names : list string) (b : Boot) : Prop :=
  boot_inv n [] b ∧ NoDup names ∧ ∀ x, x ∈ names → x ∈ dom (bt_trackers b).

Lemma boot_check_inv X n name names b :
  to_check n (name :: names) b → wpx X (boot_check g name) (λ _, to_check n names) b.
Proof.
  intros (Hb & [Hn1 Hn]%NoDup_cons & Hin). unfold boot_check. apply wpx_gets. assert (name ∈ dom (bt_trackers b)) as Hdom by (apply Hin; set_solver).
  pose proof Hdom as [r Hr]%elem_of_dom. rewrite Hr. apply wpx_bind, wpx_boot.
  destruct Hb as [Hk Ht]. apply (wpx_kept X n (services g)); [apply ostep_total, sys_total, check_frame|done|].
  intros res s' Hs'. set (b1 := boot_with s' b).
  assert (∀ m : St Boot (), (∀ b2, boot_inv n [name] b2 →
      wpx X m (λ _ b3, boot_inv n [] b3 ∧ bt_trackers b3 = bt_trackers b2) b2) →
    wpx X (set_trackers (delete name (bt_trackers b)) ;; m) (λ _, to_check n names) b1) as Hout.
  { intros m Hm. apply wpx_modify. cbn beta.
    eapply wpx_mono; [apply Hm|].
    - split; [done|]. by refine (tracker_out [] b1 name _ _); [destruct Ht|].
    - intros [] b3 [Hb3 Ets]. split; [done|]. split; [done|]. intros x Hx. rewrite Ets. cbn.
      rewrite dom_delete_L. assert (x ≠ name) by (by intros ->). specialize (Hin x). set_solver. }
  assert (∀ b2, boot_inv n [name] b2 →
    wpx X (boot_ready g name) (λ _ b3, boot_inv n [] b3 ∧ bt_trackers b3 = bt_trackers b2) b2) as Hready.
  { intros b2 Hb2. pose proof (boot_ready_inv X n [] b2 name Hb2) as H. done. }
  assert (∀ b2, boot_inv n [name] b2 →
    wpx X (boot_failed g name) (λ _ b3, boot_inv n [] b3 ∧ bt_trackers b3 = bt_trackers b2) b2) as Hfailed.
  { intros b2 Hb2. pose proof (boot_failed_inv X n [] b2 name Hb2) as H. revert H.
    unfold wpx, boot_failed, mbind, St_bind, gets. destruct (mark_failed name g (bt_frontier b2)); [|done].
    done. }
  destruct res as [| | |msg]; [by apply Hout| |by apply Hout|by apply Hout].
  unfold to_check. split; [split; [done|by destruct Ht]|]. split; [done|]. intros x Hx. apply Hin. set_solver.
Qed.

Definition boot_finished (b : Boot) : Prop :=
  has_ready (bt_frontier b) = false ∧ has_pending (bt_frontier b) = false.

Lemma boot_round_inv fuel n ok conns b :
  n < fuel → boot_inv n [] b →
  wpx (∃ t actions a, poll_control conns t = Some actions ∧ a ∈ actions ∧ deadline_action a = true)
    (boot_round hierarchy load_defs g fuel ok conns)
    (λ finished b', boot_inv n [] b' ∧ (finished = true → boot_finished b')) b.
Proof.
  intros Hf Hb. unfold boot_round. set (X := ∃ t actions a, _).
  apply wpx_bind. eapply wpx_mono; [by apply (reap_oneshots_inv X fuel n [])|]. intros [] b1 [Hk1 Ht1].
  apply wpx_gets.
  destruct (take_ready (bt_frontier b1)) as [batch f] eqn:E.
  apply wpx_modify. cbn beta.
  apply wpx_bind. eapply wpx_mono.
  { apply (wpx_for_each X (boot_inv n)); [intros a l s; apply boot_start_inv|]. split; [done|].
    destruct Ht1 as [Ha _ _ Hd]. destruct (awaits_take _ _ _ _ Ha E) as (Ha' & Hnd & Hdis).
    cbn in Hdis, Ha'. rewrite (left_id_L ∅ (∪)) in Hdis, Ha'.
    split; cbn; [by rewrite <-(assoc_L (∪))|done|done|done]. }
  intros [] b2 Hb2. apply wpx_gets.
  apply wpx_bind. eapply wpx_mono.
  { apply (wpx_for_each X (to_check n)); [intros a l s; apply boot_check_inv|]. split; [done|].
    split; [apply NoDup_map_iter|]. intros x ([k r] & -> & Hkv%elem_of_map_iter)%list_elem_of_fmap.
    apply elem_of_dom. by exists r. }
  intros [] b3 [Hb3 _]. apply wpx_gets.
  destruct (_ && _ && _) eqn:Edone.
  - split; [done|]. intros _. rewrite !andb_true_iff, negb_true_iff, !bool_decide_eq_true in Edone.
    destruct Edone as [[Hr Hts] Hos]. split; [done|]. destruct Hb3 as [_ [[_ Hp] _ _ _]].
    unfold has_pending. rewrite Hp, Hts, Hos, dom_empty_L. by rewrite bool_decide_eq_true_2 by set_solver.
  - destruct Hb3 as [Hk3 Ht3]. destruct (poll_control_total conns (mg_tree (sv_mgr (bt_svm b3)))) as [actions Ea].
    { destruct Hk3 as [[[[Hwf _] _] _] _]. done. }
    apply wpx_bind. unfold wpx at 1. rewrite Ea. apply wpx_bind, wpx_zoom.
    eapply wpx_mono; [apply (dispatch_kept X fuel n (services g)); try done|].
    + intros a Ha Hda. unfold X. eauto 6.
    + intros [] s4 Hs4. apply wpx_bind. eapply (wpx_boot_inv X n []).
      * apply ostep_total. apply sleep_total.
      * split; [exact Hs4|]. by destruct Ht3.
      * intros [] b4 Hb4. done.
Qed.
End boot.

(** ** The whole startup *)

Lemma boot_inv_base `{L : FiniteExits, HO : HashOrder, R : Rmp} g tr n b :
  frun g tr (bt_frontier b) → boot_inv g [] n [] b → boot_inv g tr n [] b.
Proof.
  intros Hr [Hk [[_ Hp] Hn Ht Hd]]. split; [done|]. split; try done. split; [|done].
  exists []. by rewrite app_nil_r.
Qed.

Lemma boot_inv_run `{L : FiniteExits, HO : HashOrder, R : Rmp} g tr n b :
  boot_inv g tr n [] b → (∃ tr', frun g (tr ++ tr') (bt_frontier b)) ∧ boot_inv g [] n [] b.
Proof.
  intros [Hk [[[tr' Hr] Hp] Hn Ht Hd]]. split; [by exists tr'|]. split; [done|]. split; try done.
  split; [|done]. by exists (tr ++ tr').
Qed.


Lemma build_tree_pids sups svcs : pid_map (build_tree sups svcs) = ∅.
Proof.
  unfold build_tree. set (t := tree_new _ _ _). assert (pid_map t = ∅) as Ht by done.
  generalize dependent t. induction sups as [|d sups IH]; intros t Ht; cbn [foldl].
  - revert t Ht. induction svcs as [|d svcs IH]; intros t Ht; cbn [foldl]; [done|]. apply IH.
    unfold add_configured_worker. destruct (add_worker d _ t) as [t'|] eqn:E; [|done].
    by apply add_worker_Ok in E as (_ & s & _ & ->).
  - apply IH. unfold add_configured_supervisor. case_decide.
    + unfold update_supervisor. by destruct (nodes t !! "root") as [[]|].
    + destruct (add_supervisor _ _ _ _ t) as [t'|] eqn:E; [|done].
      by apply add_supervisor_Ok in E as (_ & s & _ & ->).
Qed.

Section whole.
Context `{L : FiniteExits, HO : HashOrder, R : Rmp}.

Lemma boot_init_inv sups svcs g n s :
  build svcs = Some g → config_names_ok sups svcs = true →
  mg_tree (sv_mgr s) = build_tree sups svcs → events (mg_os (sv_mgr s)) ≤ n →
  boot_inv g [] n [] (boot_init g s).
Proof.
  intros Hb Hn Ht He. split.
  - destruct (build_tree_spec sups svcs Hn) as (Hok & _ & _ & Hw). split; [split; [split|done]|]; cbn; rewrite Ht.
    + done.
    + intros p id. rewrite build_tree_pids. by rewrite lookup_empty.
    + intros w Hin. apply Hw. destruct (build_represents svcs) as (g' & Hb' & Hrep).
      rewrite Hb in Hb'. injection Hb' as <-. rewrite (rep_services _ _ _ _ Hrep) in Hin. set_solver.
  - destruct (frontier_new_sets g) as (_ & Hp & _). split; cbn; [|constructor|set_solver|set_solver].
    split; [by exists []; constructor|]. cbn. rewrite Hp. set_solver.
Qed.

Lemma boot_loop_end hierarchy load_defs g n fuel write_ok rounds b b' :
  wf_graph g → n < fuel → boot_inv g [] n [] b →
  boot_loop hierarchy load_defs g fuel write_ok rounds b = Ret () b' →
  boot_inv g [] n [] b' ∧ boot_finished b'.
Proof.
  intros Hg Hf. revert b. induction rounds as [|conns rounds IH]; intros b Hb; cbn [boot_loop]; [done|].
  unfold mbind, St_bind. pose proof (boot_round_inv hierarchy load_defs g [] Hg fuel n write_ok conns b Hf Hb) as Hr.
  unfold wpx in Hr. destruct (boot_round _ _ _ _ _ _ b) as [fin b1| | |]; try done.
  destruct Hr as [Hb1 Hfin]. destruct fin; [|by apply IH]. intros [= <-]. by split; [|apply Hfin].
Qed.

Lemma send_returns write_ok body (s : Svm) :
  ∃ r s', send write_ok body s = Ret r s' ∧ sv_mgr s' = sv_mgr s ∧ sv_sent s' = sv_sent s ++ option_list r.
Proof.
  unfold send, mbind, St_bind, gets. destruct (sv_chan s) as [ch|].
  - destruct (send_message write_ok body ch) as [x ch']. by eexists _, _.
  - eexists _, _. split; [done|]. by rewrite app_nil_r.
Qed.

Lemma svmgr_start_spec {E F} write_ok o chan (rs : result (list ServiceDef) E) (rp : result (list SupervisorDef) F) :
  match svmgr_start write_ok o chan rs rp with
  | Ret (g, b) s =>
      build (loaded rs) = Some g ∧ validate_no_cycles g = Some (Ok ()) ∧ acyclic g ∧ b = boot_init g s ∧
      mg_tree (sv_mgr s) = build_tree (loaded rp) (loaded rs) ∧ mg_os (sv_mgr s) = o
  | ProcExit code _ => code = 1%Z ∧ ∃ g, build (loaded rs) = Some g ∧ ¬ acyclic g
  | Panic | OutOfFuel => False
  end.
Proof.
  destruct (build_represents (loaded rs)) as (g & Hb & _). pose proof (build_wf _ _ Hb) as Hwf.
  destruct (detect_cycles_spec g Hwf) as (cs & Hd & _ & Hac).
  unfold svmgr_start. rewrite Hb. cbn [unwrap].
  set (s0 := {| sv_mgr := _; sv_chan := _; sv_sent := _ |}).
  destruct (send_returns write_ok Heartbeat s0) as (r & s1 & E1 & Em & _).
  unfold mbind at 1, St_bind at 1. rewrite E1. unfold mbind at 1, St_bind at 1. cbn beta iota delta [mret St_ret].
  unfold validate_no_cycles. rewrite Hd. destruct cs as [|c cs]; cbn -[build detect_cycles build_tree].
  - unfold mbind at 1, St_bind at 1. cbn beta iota delta [gets id mret St_ret]. rewrite Em, Hd.
    split_and!; try done. by apply Hac.
  - split; [done|]. exists g. split; [done|]. intros H%Hac. done.
Qed.
End whole.

(** main reaches the startup loop exactly on acyclic configurations: it never panics on
    the way, a cyclic configuration exits with code 1, and otherwise the loop starts in a
    state that satisfies its invariant. *)
Theorem svmgr_start_correct `{L : FiniteExits, HO : HashOrder, R : Rmp} {E F} write_ok o chan
    (rs : result (list ServiceDef) E) (rp : result (list SupervisorDef) F) n :
  config_names_ok (loaded rp) (loaded rs) = true → events o ≤ n →
  match svmgr_start write_ok o chan rs rp with
  | Ret (g, b) _ => build (loaded rs) = Some g ∧ acyclic g ∧ boot_inv g [] n [] b
  | ProcExit code _ => code = 1%Z ∧ ∃ g, build (loaded rs) = Some g ∧ ¬ acyclic g
  | Panic | OutOfFuel => False
  end.
Proof.
  intros Hn He. pose proof (svmgr_start_spec write_ok o chan rs rp) as Hs.
  destruct (svmgr_start write_ok o chan rs rp) as [[g b] s|code s| |]; try done.
  destruct Hs as (Hb & _ & Hac & -> & Ht & <-). split; [done|]. split; [done|]. by eapply boot_init_inv.
Qed.

(** C9: When the startup loop that main enters after building the tree and the graph ends,
    every configured service is a worker of the tree and was reported ready or failed, or is
    blocked, or depends transitively on a blocked service, in a run of the frontier;
    provided the names of the configuration are unambiguous (no two services and no two
    supervisors share a name, no service has the name of a supervisor or of the root, none
    names a service as its supervisor, and supervisors are listed after their parents), and
    as long as finitely many exits are to come. (A service the tree refuses is only logged:
    refused_service_strands_dependents shows what happens then.) *)
Theorem startup_loop_complete `{L : FiniteExits, HO : HashOrder, R : Rmp} {E F} hierarchy load_defs write_ok o
    chan (rs : result (list ServiceDef) E) (rp : result (list SupervisorDef) F) fuel rounds g b0 s b :
  config_names_ok (loaded rp) (loaded rs) = true → events o < fuel →
  svmgr_start write_ok o chan rs rp = Ret (g, b0) s →
  boot_loop hierarchy load_defs g fuel write_ok rounds b0 = Ret () b →
  boot_finished b ∧ ∃ tr, frun g tr (bt_frontier b) ∧
    (∀ name, name ∈ map sd_name (loaded rs) →
       reported tr name ∨ name ∈ blocked_services (bt_frontier b) ∨
       ∃ d, tc (edge g) name d ∧ d ∈ blocked_services (bt_frontier b)) ∧
    ∀ name, name ∈ map sd_name (loaded rs) → is_worker (mg_tree (sv_mgr (bt_svm b))) name = true.
Proof.
  intros Hn He Hs Hl. pose proof (svmgr_start_spec write_ok o chan rs rp) as Hsp. rewrite Hs in Hsp.
  destruct Hsp as (Hb & Hv & _ & -> & Ht & Ho). pose proof (build_wf _ _ Hb) as Hg.
  pose proof (boot_init_inv (loaded rp) (loaded rs) g (events o) s Hb Hn Ht ltac:(by rewrite Ho)) as Hi.
  destruct (boot_loop_end _ _ _ _ _ _ _ _ _ Hg He Hi Hl) as [[[_ Hk] [[[tr Hr] _] _ _ _]] [Hf1 Hf2]].
  assert (∀ name, name ∈ map sd_name (loaded rs) → name ∈ services g) as Hin.
  { intros name. destruct (build_represents (loaded rs)) as (g' & Hb' & Hrep). rewrite Hb in Hb'.
    injection Hb' as <-. rewrite (rep_services _ _ _ _ Hrep). set_solver. }
  split; [done|]. exists tr. split; [done|]. split; [|by intros name ?%Hin%Hk].
  intros name ?%Hin. by apply accounted_for.
Qed.

(** ** A small startup *)

Definition quiet (pids : list Z) : script :=
  {| sc_clock := 0; sc_wait := []; sc_pids := pids; sc_live := ∅; sc_history := []; sc_files := ∅ |}.
Definition no_defs (_ : script) : result (list ServiceDef) ServiceLoadError := Ok [].
Definition pair_svcs : list ServiceDef := [dep_service "a" [] []; dep_service "b" ["a"] []].
Definition pair_svm : @Svm scripted :=
  {| sv_mgr := {| mg_tree := build_tree [] pair_svcs; mg_monitor := monitor_new; mg_os := quiet [10; 11]%Z |};
     sv_chan := None; sv_sent := [] |}.
Definition pair_b0 : @Boot scripted := boot_init (HO := elements_order) (the_graph pair_svcs) pair_svm.
Definition pair_loop : out (@Boot scripted) () :=
  boot_loop (K := scripted) (HO := elements_order) (R := fixmap_rmp) None no_defs (the_graph pair_svcs) 1 true
    [[]; []; []] pair_b0.

Lemma pair_build : build (HO := elements_order) pair_svcs = Some (the_graph pair_svcs).
Proof. vm_compute. reflexivity. Qed.
Lemma pair_started :
  svmgr_start (K := scripted) (HO := elements_order) (R := fixmap_rmp) true (quiet [10; 11]%Z) None
    (Ok pair_svcs : result _ ()) (Ok [] : result _ ())
  = Ret (the_graph pair_svcs, pair_b0) pair_svm.
Proof. vm_cast_no_check (eq_refl (@Ret (@Svm scripted) _ (the_graph pair_svcs, pair_b0) pair_svm)). Qed.

Definition pair_round : out (@Boot scripted) bool :=
  boot_round (K := scripted) (HO := elements_order) (R := fixmap_rmp) None no_defs (the_graph pair_svcs)
    1 true [] pair_b0.


Lemma svmgr_start_correct_witness :
  config_names_ok [] pair_svcs = true ∧ acyclic (the_graph pair_svcs).
Proof.
  split; [vm_compute; reflexivity|].
  pose proof (svmgr_start_correct (L := scripted_laws) (HO := elements_order) (R := fixmap_rmp) true
    (quiet [10; 11]%Z) None (Ok pair_svcs : result _ ()) (Ok [] : result _ ()) 0 ltac:(vm_compute; reflexivity) ltac:(cbn; lia)) as H.
  rewrite pair_started in H. exact (proj1 (proj2 H)).
Defined.

Lemma startup_loop_complete_witness :
  ∃ b, pair_loop = Ret () b ∧ ready_services (bt_frontier b) = {["a"; "b"]} ∧
    is_worker (mg_tree (sv_mgr (bt_svm b))) "b" = true.
Proof.
  assert (pair_loop = Ret () (final_state pair_loop pair_b0)) as E.
  { apply is_ret_final. vm_compute. reflexivity. }
  destruct (startup_loop_complete (L := scripted_laws) (HO := elements_order) (R := fixmap_rmp) None no_defs
    true (quiet [10; 11]%Z) None (Ok pair_svcs : result _ ()) (Ok [] : result _ ()) 1 [[]; []; []] (the_graph pair_svcs) pair_b0 pair_svm
    (final_state pair_loop pair_b0) ltac:(vm_compute; reflexivity) ltac:(cbn; lia) pair_started E)
    as (_ & tr & _ & _ & Hw).
  exists (final_state pair_loop pair_b0). split; [exact E|]. split; [vm_compute; reflexivity|].
  apply Hw. apply list_elem_of_In. cbn. tauto.
Defined.

(** ** A oneshot that cannot be spawned *)

Definition oneshot_svc : ServiceDef :=
  let d := minimal_service "init-once" ["/bin/true"] in
  {| sd_service := {| ss_name := "init-once"; ss_supervisor := "root"; ss_exec := ["/bin/true"];
       ss_workdir := None; ss_service_type := Oneshot; ss_environment := ∅; ss_environment_file := None;
       ss_user := None |};
     sd_restart := sd_restart d; sd_readiness := sd_readiness d; sd_dependencies := sd_dependencies d;
     sd_cgroup := None; sd_namespace := None; sd_shutdown := sd_shutdown d |}.

(** The state before the loop, and the state after a round, at a time. *)
Definition hang_start (c : Z) : @Boot scripted :=
  boot_init (HO := elements_order) (the_graph [oneshot_svc])
    {| sv_mgr := {| mg_tree := build_tree [] [oneshot_svc]; mg_monitor := monitor_new;
                    mg_os := {| sc_clock := c; sc_wait := []; sc_pids := []; sc_live := ∅; sc_history := [];
                                sc_files := ∅ |} |};
       sv_chan := None; sv_sent := [] |}.
Definition hang_round (b : @Boot scripted) : out (@Boot scripted) bool :=
  boot_round (K := scripted) (HO := elements_order) (R := fixmap_rmp) None no_defs (the_graph [oneshot_svc]) 1
    true [] b.
Definition hung (c : Z) : @Boot scripted :=
  match hang_round (hang_start c) with Ret _ b => b | _ => hang_start c end.

Lemma hang_first c : hang_round (hang_start c) = Ret false (hung c).
Proof. vm_cast_no_check (eq_refl (@Ret (@Boot scripted) bool false (hung c))). Qed.
Lemma hang_again c : hang_round (hung c) = Ret false (hung (sc_clock (mg_os (sv_mgr (bt_svm (hung c)))))).
Proof.
  vm_cast_no_check (eq_refl (@Ret (@Boot scripted) bool false
    (hung (sc_clock (mg_os (sv_mgr (bt_svm (hung c)))))))).
Qed.

(** A loop whose rounds stay in [P] without finishing never ends. *)
Lemma boot_loop_stuck `{K : OS, HO : HashOrder, R : Rmp} hierarchy load_defs g fuel ok (P : Boot → Prop) k b :
  (∀ b, P b → ∃ b', boot_round hierarchy load_defs g fuel ok [] b = Ret false b' ∧ P b') → P b →
  boot_loop hierarchy load_defs g fuel ok (replicate k []) b = OutOfFuel.
Proof.
  intros Hr. revert b. induction k as [|k IH]; intros b Hb; [done|]. cbn [replicate boot_loop].
  destruct (Hr b Hb) as (b' & E & Hb'). unfold mbind, St_bind. rewrite E. by apply IH.
Qed.

(** A oneshot service whose process cannot be spawned is waited for forever: no number of
    rounds ends the startup loop. *)
Theorem oneshot_spawn_failure_hangs (k : nat) (c : Z) :
  boot_loop (K := scripted) (HO := elements_order) (R := fixmap_rmp) None no_defs (the_graph [oneshot_svc]) 1
    true (replicate k []) (hang_start c) = OutOfFuel.
Proof.
  apply (boot_loop_stuck _ _ _ _ _ (λ b, ∃ c, b = hang_start c ∨ b = hung c)); [|exists c; left; reflexivity].
  intros b (c' & [->| ->]).
  - exists (hung c'). split; [exact (hang_first c')|]. by exists c'; right.
  - eexists. split; [exact (hang_again c')|]. eexists. right. reflexivity.
Qed.

(** ** A service the tree refused *)

(** A service with the name of a supervisor is not added to the tree, which is only logged.
    The startup loop takes it from the frontier and never hears of it again: the loop ends,
    and what depends on it was neither started nor blocked. *)
Definition clash_svcs : list ServiceDef := [dep_service "net" [] []; dep_service "web" ["net"] []].
Definition clash_tree : SupervisorTree := build_tree [sup_def "net" None OneForOne] clash_svcs.
Definition clash_loop : out (@Boot scripted) () :=
  boot_loop (K := scripted) (HO := elements_order) (R := fixmap_rmp) None no_defs (the_graph clash_svcs) 1 true
    [[]; []] (boot_init (HO := elements_order) (the_graph clash_svcs)
      {| sv_mgr := {| mg_tree := clash_tree; mg_monitor := monitor_new; mg_os := quiet [10; 11]%Z |};
         sv_chan := None; sv_sent := [] |}).
Definition ended_boot (r : out (@Boot scripted) ()) : option (@Boot scripted) :=
  match r with Ret () b => Some b | _ => None end.

Example refused_service_strands_dependents :
  is_worker clash_tree "net" = false ∧
  match ended_boot clash_loop with
  | Some b => wn_state <$> get_worker (mg_tree (sv_mgr (bt_svm b))) "web" = Some Stopped ∧
      blocked_services (bt_frontier b) = ∅ ∧ pending (bt_frontier b) = {["net"]}
  | None => False
  end.
Proof. vm_compute. split_and!; reflexivity. Qed.
