(* ===== verification/MainLoop.v ===== *)
(** * The main loop

    A round of the main loop returns and keeps the manager's invariant, unless an
    action or a message ends the process; the loop itself ends only on the third
    heartbeat in a row that cannot be sent. *)

From S2P Require Import Prelude Config Graph Cycle Frontier Startup Protocol InitChannel World.
From S2P Require Import Cgroup Intensity Tree Strategy Monad Manager ManagerFacts StopOrder Shutdown.
From S2P Require Import Control Readiness Svmgr SvmgrFacts Boot.

#[local] Open Scope Z_scope.
#[local] Open Scope list_scope.

(** The messages the loop takes from init; [None] when the reads run out. *)
Fixpoint received `{Rmp} (reads : list chan_read) (ch : InitChannel) : option (list Message) :=
  match reads with
  | [] => None
  | r :: reads =>
      match try_recv r ch with
      | (None, _) => Some []
      | (Some m, ch) => ms ← received reads ch; Some (m :: ms)
      end
  end.

Definition is_shutdown (m : Message) : bool :=
  match m_body m with ShutdownSignal _ => true | _ => false end.

Section main_loop.
Context `{L : FiniteExits, HO : HashOrder, R : Rmp}.
Context (hierarchy : option CgroupHierarchy) (load_defs : os → result (list ServiceDef) ServiceLoadError).
Context (g : DependencyGraph) (Hg : wf_graph g).

(** The channel to init and what was sent over it. *)
Definition init_side (s : Svm) : option InitChannel * list (result (list Z) SendError) := (sv_chan s, sv_sent s).

Lemma mgr_chan {A} (m : M A) s a s' : mgr m s = Ret a s' → init_side s' = init_side s.
Proof. unfold mgr, zoom. destruct (m (sv_mgr s)); try done. by intros [= <- <-]. Qed.

(** Only a shutdown writes to init, and it does not return. *)
Lemma dispatch_chan fuel ok actions s s' :
  dispatch_control_actions hierarchy load_defs fuel ok g actions s = Ret () s' → init_side s' = init_side s.
Proof.
  revert s. unfold dispatch_control_actions. induction actions as [|a actions IH]; intros s; cbn [for_each].
  { by intros [= <-]. }
  unfold mbind, St_bind. destruct (dispatch_action hierarchy load_defs fuel ok g a s) as [[] s1| | |] eqn:E;
    try done. intros Hs'%IH. rewrite Hs'. clear IH Hs'.
  destruct a as [name|name|name| |kind]; cbn [dispatch_action] in E.
  - unfold mbind, St_bind in E. destruct (mgr _ s) eqn:E1; try done. injection E as <-. by eapply mgr_chan.
  - by eapply mgr_chan.
  - by eapply mgr_chan.
  - by eapply mgr_chan.
  - exfalso. unfold mbind, St_bind in E. destruct (mgr _ s) as [[] s2| | |]; try done.
    destruct (send_returns ok (RequestShutdown kind) s2) as (r & s3 & E3 & _). by rewrite E3 in E.
Qed.

Lemma init_messages_kept (X : Prop) fuel n W reads s :
  (n < fuel)%nat → svm_kept n W s →
  (∀ ch, sv_chan s = Some ch → ∃ ms, received reads ch = Some ms ∧ (Exists is_shutdown ms → X)) →
  wpx X (init_messages hierarchy g fuel reads) (λ _ s', svm_kept n W s' ∧ sv_sent s' = sv_sent s) s.
Proof.
  intros Hf. revert s. induction reads as [|r reads IH]; intros s Hs Hch; cbn [init_messages];
    apply wpx_bind; unfold wpx at 1; cbn beta iota delta [gets]; destruct (sv_chan s) as [ch|] eqn:E; try done.
  - by destruct (Hch ch eq_refl) as (ms & ? & _).
  - destruct (Hch ch eq_refl) as (ms & Hms & HX). cbn [received] in Hms.
    destruct (try_recv r ch) as [[m|] ch1]; apply wpx_bind; unfold wpx at 1; cbn beta iota delta [modify]; [|done].
    destruct (received reads ch1) as [ms1|] eqn:E1; [|done]. injection Hms as <-.
    set (s1 := {| sv_mgr := sv_mgr s; sv_chan := Some ch1; sv_sent := sv_sent s |}).
    assert (wpx X (init_messages hierarchy g fuel reads) (λ _ s', svm_kept n W s' ∧ sv_sent s' = sv_sent s) s1) as Hrest.
    { change (sv_sent s) with (sv_sent s1). apply IH; [done|]. intros ch2 [= <-]. exists ms1. split; [done|]. intros H. apply HX. by constructor. }
    destruct (m_body m) eqn:Em; try exact Hrest.
    apply wpx_bind, wpx_zoom, wp_wpx. destruct Hs as [[Hok He] _].
    assert X as HX1 by (apply HX; constructor; unfold is_shutdown; by rewrite Em).
    apply execute_shutdown_spec; [done|done|cbn; lia|done|]. intros. exact HX1.
Qed.

(** ** Heartbeats *)

(** The last [k] things sent to init could not be sent. *)
Definition failed_tail (k : Z) (sent : list (result (list Z) SendError)) : Prop :=
  ∃ before errs, sent = before ++ map Err errs ∧ Z.of_nat (length errs) = k.

(** The count of failures is the number of heartbeats that failed in a row. *)
Definition hearts (l : Loop) : Prop :=
  0 ≤ lp_failures l < MAX_HEARTBEAT_FAILURES ∧ failed_tail (lp_failures l) (sv_sent (lp_svm l)).

Lemma failed_tail_snoc k e sent : failed_tail k sent → failed_tail (k + 1) (sent ++ [Err e]).
Proof.
  intros (before & errs & -> & <-). exists before, (errs ++ [e]).
  split; [by rewrite map_app, <-app_assoc|]. rewrite length_app. cbn. lia.
Qed.

Lemma heartbeat_spec (X : Prop) n W ok (l : Loop) :
  svm_kept n W (lp_svm l) → hearts l →
  wpx X (heartbeat ok) (λ lost l', svm_kept n W (lp_svm l') ∧
    if lost : bool then failed_tail MAX_HEARTBEAT_FAILURES (sv_sent (lp_svm l')) else hearts l') l.
Proof.
  intros Hs Hh. unfold heartbeat.
  assert (∀ (l : Loop) (Q : Z → Loop → Prop), svm_kept n W (lp_svm l) →
    (∀ now l', svm_kept n W (lp_svm l') → sv_sent (lp_svm l') = sv_sent (lp_svm l) →
       lp_failures l' = lp_failures l → Q now l') →
    wpx X (loop_svm (mgr (sys os_now))) Q l) as Hnow.
  { intros l0 Q H0 HQ. apply wpx_zoom, wpx_zoom, (wpx_kept X n W);
      [apply ostep_total, sys_total, now_frame|done|]. intros now s' Hs'. by apply HQ. }
  apply wpx_gets.
  apply wpx_bind, Hnow; [done|]. intros now l1 H1 S1 F1.
  assert (hearts l1) as Hh1 by (unfold hearts; by rewrite S1, F1).
  destruct (now - lp_last_heartbeat l <? from_secs 5); [by split|].
  apply wpx_bind, wpx_zoom. destruct (send_returns ok Heartbeat (lp_svm l1)) as (r & s1 & E1 & Em & Es).
  unfold wpx at 1. rewrite E1. set (l2 := {| lp_svm := s1; lp_last_heartbeat := _; lp_failures := _ |}).
  assert (svm_kept n W (lp_svm l2)) as H2 by (unfold svm_kept; cbn; by rewrite Em).
  destruct Hh1 as [Hr1 Ht1]. apply wpx_bind. destruct r as [[data|e]|].
  - apply wpx_modify. cbn beta. unfold wpx at 1. cbn beta iota delta [mret St_ret].
    apply wpx_bind, Hnow; [done|]. intros now2 l3 H3 S3 F3. split; [done|]. unfold hearts. cbn in *.
    rewrite F3, S3. split; [unfold MAX_HEARTBEAT_FAILURES; lia|]. exists (sv_sent s1), []. by rewrite app_nil_r.
  - apply wpx_gets. apply wpx_modify. cbn beta.
    unfold wpx at 1. cbn beta iota delta [mret St_ret]. cbn [l2 lp_failures].
    assert (wrap_u32 (lp_failures l1 + 1) = lp_failures l1 + 1) as ->
      by (apply Z.mod_small; unfold MAX_HEARTBEAT_FAILURES in *; lia).
    assert (failed_tail (lp_failures l1 + 1) (sv_sent s1)) as Ht2 by (rewrite Es; by apply failed_tail_snoc).
    destruct (Z.leb_spec MAX_HEARTBEAT_FAILURES (lp_failures l1 + 1)).
    + split; [done|]. cbn. by replace MAX_HEARTBEAT_FAILURES with (lp_failures l1 + 1) by lia.
    + apply wpx_bind, Hnow; [done|]. intros now2 l3 H3 S3 F3. split; [done|]. unfold hearts. cbn in *.
      rewrite F3, S3. split; [lia|done].
  - unfold wpx at 1. cbn beta iota delta [mret St_ret]. apply wpx_bind, Hnow; [done|].
    intros now2 l3 H3 S3 F3. split; [done|]. unfold hearts. cbn in *. rewrite F3, S3, Es. cbn.
    by rewrite app_nil_r.
Qed.
End main_loop.

(** A round of the main loop returns and keeps the manager's invariant, unless a restart or
    shutdown action or a shutdown message from init arrived; the loop ends only when the last
    three heartbeats could not be sent. *)
Theorem main_round_keeps `{L : FiniteExits, HO : HashOrder, R : Rmp} hierarchy load_defs defs g n W fuel write_ok
    conns reads (l : Loop) :
  build defs = Some g → (n < fuel)%nat → svm_kept n W (lp_svm l) → hearts l →
  (∀ ch, sv_chan (lp_svm l) = Some ch → is_Some (received reads ch)) →
  wpx ((∃ t actions a, poll_control conns t = Some actions ∧ a ∈ actions ∧ deadline_action a = true) ∨
       ∃ ch ms, sv_chan (lp_svm l) = Some ch ∧ received reads ch = Some ms ∧ Exists is_shutdown ms)
    (main_round hierarchy load_defs g fuel write_ok conns reads)
    (λ ended l', svm_kept n W (lp_svm l') ∧
       if ended : bool then failed_tail MAX_HEARTBEAT_FAILURES (sv_sent (lp_svm l')) else hearts l') l.
Proof.
  intros Hg%build_wf Hf Hs Hh Hreads. unfold main_round. set (X := _ ∨ _).
  apply wpx_bind, wpx_zoom, wpx_zoom, (wpx_kept X n W); [by apply reap_total|done|]. intros [] s1 Hs1.
  set (sv1 := with_mgr s1 (lp_svm l)). assert (svm_kept n W sv1) as Hsv1 by done.
  set (l1 := {| lp_svm := sv1; lp_last_heartbeat := _; lp_failures := _ |}).
  destruct (poll_control_total conns (mg_tree s1)) as [actions Ea]; [by destruct Hs1 as [[[[? _] _] _] _]|].
  apply wpx_bind. unfold wpx at 1. cbn [l1 lp_svm sv1 sv_mgr with_mgr]. rewrite Ea.
  apply wpx_bind, wpx_zoom. fold sv1.
  assert (wpx X (dispatch_control_actions hierarchy load_defs fuel write_ok g actions)
    (λ _ s, svm_kept n W s ∧ init_side s = init_side (lp_svm l)) sv1) as Hd.
  { pose proof (dispatch_kept hierarchy load_defs X fuel n W write_ok g actions sv1 Hg Hf) as H.
    pose proof (dispatch_chan hierarchy load_defs g fuel write_ok actions sv1) as Hc. unfold wpx in *.
    destruct (dispatch_control_actions _ _ _ _ _ _ sv1) as [[] s2| | |].
    1: split; [|by rewrite (Hc s2 eq_refl)].
    all: apply H; try done; intros a Ha Hda; left; eauto 6. }
  eapply wpx_mono; [exact Hd|]. intros [] s2 [Hs2 [= Hc2 Hsent2]]. apply wpx_bind, wpx_zoom. cbn [lp_svm].
  eapply wpx_mono; [apply (init_messages_kept hierarchy g Hg X fuel n W); [done|done|]|].
  { intros ch Hch. rewrite Hc2 in Hch. destruct (Hreads ch Hch) as [ms Hms]. exists ms. split; [done|].
    intros He. right. eauto. }
  intros [] s3 [Hs3 Hsent3]. apply wpx_bind, wpx_zoom, wpx_zoom, (wpx_kept X n W);
    [apply ostep_total, monitor_total|done|]. intros [] s4 Hs4. cbn [lp_svm].
  apply wpx_bind. eapply wpx_mono; [apply (heartbeat_spec X n W); [done|]|].
  { unfold hearts. cbn. by rewrite Hsent3, Hsent2. }
  intros lost l5 (H5 & Ht).
  destruct lost; [by split|]. apply wpx_bind, wpx_zoom, wpx_zoom, (wpx_kept X n W);
    [apply ostep_total, sleep_total|done|]. intros [] s6 Hs6. split; [done|exact Ht].
Qed.

(** Two heartbeats were lost, and the third cannot be written either. *)
Definition lonely : @Loop scripted :=
  {| lp_svm := {| sv_mgr := {| mg_tree := build_tree [] pair_svcs; mg_monitor := monitor_new;
                               mg_os := {| sc_clock := from_secs 30; sc_wait := []; sc_pids := [];
                                           sc_live := ∅; sc_history := []; sc_files := ∅ |} |};
                  sv_chan := Some (from_fd 7); sv_sent := [Err SendIo; Err SendIo] |};
     lp_last_heartbeat := 0; lp_failures := 2 |}.
Definition lonely_round : out (@Loop scripted) bool :=
  main_round (K := scripted) (HO := elements_order) (R := fixmap_rmp) None no_defs (the_graph pair_svcs) 1
    false [] [ChWouldBlock] lonely.

Lemma lonely_kept : svm_kept (L := scripted_laws) 0 ∅ (lp_svm lonely).
Proof.
  split; [split; [split|cbn; lia]|].
  - apply build_tree_ok.
  - intros p id. cbn [lp_svm lonely sv_mgr mg_tree]. by rewrite build_tree_pids, lookup_empty.
  - intros w Hw. by apply elem_of_empty in Hw.
Qed.

Lemma lonely_hearts : hearts lonely.
Proof. split; [vm_compute; done|]. exists [], [SendIo; SendIo]. done. Qed.

Lemma main_round_keeps_witness :
  ∃ l, lonely_round = Ret true l ∧ failed_tail 3 (sv_sent (lp_svm l)).
Proof.
  assert (lonely_round = Ret true (final_state lonely_round lonely)) as E.
  { apply ret_final. vm_compute. reflexivity. }
  exists (final_state lonely_round lonely). split; [exact E|].
  refine (proj2 (wpx_Ret _ _ _ _ _ _ (main_round_keeps (L := scripted_laws)
    (HO := elements_order) (R := fixmap_rmp) None no_defs pair_svcs (the_graph pair_svcs) 0 ∅ 1 false []
    [ChWouldBlock] lonely pair_build _ lonely_kept lonely_hearts _) E)).
  - lia.
  - intros ch [= <-]. exists []. vm_compute. reflexivity.
Defined.
