(* ===== verification/SvmgrMain.v ===== *)
(** * The service manager from start to end (dynamod-svmgr/src/main.rs)

    [svmgr_main] is main as a whole: the channel to init, the cgroup hierarchy, the control
    socket, the tree and the graph, the startup loop and the main loop, for any finite
    sequence of rounds.  What arrives from outside is given per round: the connections on
    the control socket, whether a heartbeat can be written, and what the reads of the init
    channel return.

    The theorem: on a configuration whose names are unambiguous ([config_names_ok]), when
    finitely many exits are to come ([FiniteExits]), and as long as nobody asks for a restart
    or a shutdown, main never panics and never gets stuck; it exits with code 1 exactly when
    the dependencies are cyclic; in whatever round it is looked at, the supervisor tree and
    the process table are consistent, and every configured service is in the tree; and it
    returns only when the last three heartbeats could not be sent. *)

From S2P Require Import Prelude RustStr Config Graph Cycle Frontier Startup Protocol InitChannel World.
From S2P Require Import Cgroup Intensity Tree Strategy Monad Manager ManagerFacts StopOrder Shutdown.
From S2P Require Import Control Readiness Svmgr SvmgrFacts Boot MainLoop.

#[local] Open Scope Z_scope.
#[local] Open Scope list_scope.

(** What a round of the main loop meets; the reads depend on what was read before. *)
Record round := {
  rd_write_ok : bool;
  rd_conns : list connection;
  rd_reads : InitChannel → list chan_read;
}.

Section lifetime.
Context `{K : OS, HO : HashOrder, R : Rmp}.
Context (load_defs : os → result (list ServiceDef) ServiceLoadError).

(** The cgroup hierarchy, where the system has one. *)
Definition start_cgroups (o : os) : option CgroupHierarchy * os :=
  if is_available o then
    match hierarchy_init o with (Ok h, o) => (Some h, o) | (Err _, o) => (None, o) end
  else (None, o).

(** Without a control socket nobody connects. *)
Definition control_conns (server : bool) (conns : list connection) : list connection :=
  if server then conns else [].

Section loop.
Context (hierarchy : option CgroupHierarchy) (g : DependencyGraph) (server : bool).

(** The rounds of the startup loop; [true] when it was left. *)
Fixpoint startup_loop (fuel : nat) (write_ok : bool) (rounds : list (list connection)) : St Boot bool :=
  match rounds with
  | [] => mret false
  | conns :: rounds =>
      finished ← boot_round hierarchy load_defs g fuel write_ok (control_conns server conns);
      if finished : bool then mret true else startup_loop fuel write_ok rounds
  end.

(** The rounds of the main loop; [true] when it was left. *)
Fixpoint main_loop (fuel : nat) (rounds : list round) : St Loop bool :=
  match rounds with
  | [] => mret false
  | r :: rounds =>
      c ← gets (λ l, sv_chan (lp_svm l));
      ended ← main_round hierarchy load_defs g fuel (rd_write_ok r) (control_conns server (rd_conns r))
                (match c with Some ch => rd_reads r ch | None => [] end);
      if ended : bool then mret true else main_loop fuel rounds
  end.
End loop.

(** main returns: the hierarchy goes out of scope. *)
Definition leave_main (hierarchy : option CgroupHierarchy) (l : Loop) : Loop :=
  match hierarchy with
  | Some h =>
      let s := lp_svm l in
      {| lp_svm := with_mgr (with_os (hierarchy_drop h (mg_os (sv_mgr s))) (sv_mgr s)) s;
         lp_last_heartbeat := lp_last_heartbeat l; lp_failures := lp_failures l |}
  | None => l
  end.

(** How far main got; [MainStuck] is a computation that ran out of fuel. *)
Inductive main_outcome :=
| MainExit (code : Z)
| MainPanic
| MainStuck
| MainStarting (b : Boot)    (** in the startup loop *)
| MainServing (l : Loop)     (** in the main loop *)
| MainReturned (l : Loop).

Definition outcome {S A} (k : A → S → main_outcome) (r : out S A) : main_outcome :=
  match r with
  | Ret a s => k a s
  | ProcExit code _ => MainExit code
  | Panic => MainPanic
  | OutOfFuel => MainStuck
  end.

Definition svmgr_main {E F} (env : gmap string string) (counter : Z) (bind_ok : bind_call → bool)
    (fuel : nat) (write_ok : bool) (services : result (list ServiceDef) E)
    (supervisor_defs : result (list SupervisorDef) F) (boot_rounds : list (list connection))
    (rounds : list round) (o : os) : main_outcome :=
  let init_channel := from_env env counter in
  let '(hierarchy, o) := start_cgroups o in
  let server := (bind bind_ok).2 in
  outcome (λ '(g, b0) _,
    outcome (λ (finished : bool) b,
      if finished then
        let s := bt_svm b in
        let '(now, o) := os_now (mg_os (sv_mgr s)) in
        outcome (λ (ended : bool) l, if ended then MainReturned (leave_main hierarchy l) else MainServing l)
          (main_loop hierarchy g server fuel rounds
             {| lp_svm := with_mgr (with_os o (sv_mgr s)) s; lp_last_heartbeat := now; lp_failures := 0 |})
      else MainStarting b)
    (startup_loop hierarchy g server fuel write_ok boot_rounds b0))
  (svmgr_start write_ok o init_channel services supervisor_defs).
End lifetime.

(** ** Nobody asks for a restart or a shutdown *)

Definition calm_conns `{K : OS, HO : HashOrder, R : Rmp} (conns : list connection) : Prop :=
  ∀ t actions, poll_control conns t = Some actions → Forall (λ a, deadline_action a = false) actions.
Definition calm_round `{K : OS, HO : HashOrder, R : Rmp} (r : round) : Prop :=
  calm_conns (rd_conns r) ∧
  ∀ ch, ∃ ms, received (rd_reads r ch) ch = Some ms ∧ ¬ Exists is_shutdown ms.

Section facts.
Context `{L : FiniteExits, HO : HashOrder, R : Rmp}.
Context (load_defs : os → result (list ServiceDef) ServiceLoadError).

Lemma start_cgroups_frame o : frame o (start_cgroups o).2.
Proof.
  unfold start_cgroups. destruct (is_available o); [|done].
  pose proof (hierarchy_init_frame o) as H. by destruct (hierarchy_init o) as [[h|e] o1].
Qed.

Lemma leave_main_keeps hierarchy n W l :
  svm_kept n W (lp_svm l) → svm_kept n W (lp_svm (leave_main hierarchy l)).
Proof.
  destruct hierarchy as [h|]; [|done]. intros [Hk Hw]. split; [|done].
  refine (proj2 (ostep_ok n (sv_mgr (lp_svm l)) _ _ Hk)). split; [done|apply remove_dir_frame].
Qed.

Lemma calm_control server conns : calm_conns conns → calm_conns (control_conns server conns).
Proof. destruct server; [done|]. intros _ t actions [= <-]. constructor. Qed.

Lemma calm_no_deadline conns :
  calm_conns conns →
  ¬ ∃ t actions a, poll_control conns t = Some actions ∧ a ∈ actions ∧ deadline_action a = true.
Proof.
  intros Hc (t & actions & a & Hp & Ha & Hd). specialize (Hc t actions Hp).
  rewrite Forall_forall in Hc. specialize (Hc a Ha). congruence.
Qed.

Lemma startup_loop_spec hierarchy g server n fuel ok rounds b :
  wf_graph g → (n < fuel)%nat → Forall calm_conns rounds → boot_inv g [] n [] b →
  wpx False (startup_loop load_defs hierarchy g server fuel ok rounds)
    (λ finished b', boot_inv g [] n [] b' ∧ (finished = true → boot_finished b')) b.
Proof.
  intros Hg Hf. revert b. induction rounds as [|conns rounds IH]; intros b Hc Hb; [done|].
  apply Forall_cons in Hc as [Hc Hcs]. cbn [startup_loop]. apply wpx_bind.
  pose proof (boot_round_inv hierarchy load_defs g [] Hg fuel n ok (control_conns server conns) b Hf Hb) as Hr.
  pose proof (calm_no_deadline _ (calm_control server _ Hc)) as Hno. unfold wpx in *.
  destruct (boot_round _ _ _ _ _ _ b) as [[] b1| | |]; try done; try (by destruct (Hno Hr));
    destruct Hr as [Hb1 Hfin]. by apply IH.
Qed.

Lemma main_loop_spec hierarchy g server defs n W fuel rounds l :
  build defs = Some g → (n < fuel)%nat → Forall calm_round rounds → svm_kept n W (lp_svm l) → hearts l →
  wpx False (main_loop load_defs hierarchy g server fuel rounds)
    (λ ended l', svm_kept n W (lp_svm l') ∧
       (ended = true → failed_tail MAX_HEARTBEAT_FAILURES (sv_sent (lp_svm l')))) l.
Proof.
  intros Hb Hf. revert l. induction rounds as [|r rounds IH]; intros l Hc Hk Hh; [done|].
  apply Forall_cons in Hc as [[Hc Hm] Hcs]. cbn [main_loop]. apply wpx_gets, wpx_bind.
  set (reads := match sv_chan (lp_svm l) with Some ch => rd_reads r ch | None => [] end).
  assert (∀ ch, sv_chan (lp_svm l) = Some ch → ∃ ms, received reads ch = Some ms ∧ ¬ Exists is_shutdown ms)
    as Hreads by (intros ch Hch; unfold reads; rewrite Hch; apply Hm).
  pose proof (main_round_keeps hierarchy load_defs defs g n W fuel (rd_write_ok r)
    (control_conns server (rd_conns r)) reads l Hb Hf Hk Hh) as Hr.
  specialize (Hr ltac:(intros ch Hch; destruct (Hreads ch Hch) as (ms & Hms & _); by exists ms)).
  pose proof (calm_no_deadline _ (calm_control server _ Hc)) as Hno.
  assert (¬ ∃ ch ms, sv_chan (lp_svm l) = Some ch ∧ received reads ch = Some ms ∧ Exists is_shutdown ms) as Hno2.
  { intros (ch & ms & Hch & Hms & He). destruct (Hreads ch Hch) as (ms' & Hms' & Hne). congruence. }
  unfold wpx in *. destruct (main_round _ _ _ _ _ _ _ l) as [[] l1| | |]; try tauto;
    destruct Hr as (Hk1 & He).
  - exact (conj Hk1 (λ _, He)).
  - by apply IH.
Qed.

(** What holds of a running manager: its tree and process table are consistent, and every
    configured service is in the tree. *)
Definition running (names : list string) (n : nat) (s : Svm) : Prop :=
  mgr_in n (sv_mgr s) ∧ ∀ name, name ∈ names → is_worker (mg_tree (sv_mgr s)) name = true.

(** C17: The whole life of the service manager, from the environment and the configuration
    through any number of rounds of the startup and the main loop in which nobody asks for a
    restart or shutdown, provided the names of the configuration are unambiguous (no two
    services and no two supervisors share a name, no service has the name of a supervisor or
    of the root, none names a service as its supervisor, and supervisors are listed after
    their parents) and finitely many exits are to come: it never panics and its inner loops
    return; it exits, with code 1, exactly when the configuration is cyclic; otherwise,
    wherever it is, the tree and the process table are consistent and every configured
    service is in the tree; and it returns only when the last three heartbeats it tried to
    send failed. *)
Theorem manager_lifetime {E F} env counter bind_ok fuel write_ok (rs : result (list ServiceDef) E)
    (rp : result (list SupervisorDef) F) boot_rounds rounds o :
  config_names_ok (loaded rp) (loaded rs) = true → (events o < fuel)%nat →
  Forall calm_conns boot_rounds → Forall calm_round rounds →
  let names := map sd_name (loaded rs) in
  let cyclic := ∃ g, build (loaded rs) = Some g ∧ ¬ acyclic g in
  match svmgr_main load_defs env counter bind_ok fuel write_ok rs rp boot_rounds rounds o with
  | MainExit code => code = 1 ∧ cyclic
  | MainPanic | MainStuck => False
  | MainStarting b => ¬ cyclic ∧ running names (events o) (bt_svm b)
  | MainServing l => ¬ cyclic ∧ running names (events o) (lp_svm l)
  | MainReturned l =>
      ¬ cyclic ∧ running names (events o) (lp_svm l) ∧ failed_tail 3 (sv_sent (lp_svm l))
  end.
Proof.
  intros Hn He Hbr Hr names cyclic. unfold svmgr_main. pose proof (start_cgroups_frame o) as (_ & Hev & _).
  destruct (start_cgroups o) as [hierarchy o1]. cbn [snd] in Hev.
  pose proof (svmgr_start_spec write_ok o1 (from_env env counter) rs rp) as Hs.
  destruct (svmgr_start write_ok o1 (from_env env counter) rs rp) as [[g b0] s|code s| |];
    cbn [outcome]; try done. destruct Hs as (Hb & _ & Hac & -> & Ht & Ho).
  assert (¬ cyclic) as Hcyc by (intros (g' & Hb' & Hna); congruence). pose proof (build_wf _ _ Hb) as Hg.
  pose proof (boot_init_inv _ _ g (events o) s Hb Hn Ht ltac:(by rewrite Ho)) as Hi.
  assert (∀ s, svm_kept (events o) (services g) s → running names (events o) s) as Hrun.
  { intros s1 [Hk Hw]. split; [done|]. intros name Hname. apply Hw.
    destruct (build_represents (loaded rs)) as (g' & Hb' & Hrep). rewrite Hb in Hb'.
    injection Hb' as <-. rewrite (rep_services _ _ _ _ Hrep). set_solver. }
  destruct (wpx_returns _ _ _ (startup_loop_spec hierarchy g (bind bind_ok).2 _ fuel write_ok boot_rounds _
    Hg He Hbr Hi)) as (fin & b & -> & [Hk _] & _). cbn [outcome].
  destruct fin; [|by split; [|apply Hrun]].
  pose proof (now_frame (mg_os (sv_mgr (bt_svm b)))) as Hnow.
  destruct (os_now (mg_os (sv_mgr (bt_svm b)))) as [now o2]. cbn [snd] in Hnow.
  set (l0 := {| lp_svm := _; lp_last_heartbeat := _; lp_failures := _ |}).
  assert (svm_kept (events o) (services g) (lp_svm l0)) as Hk0.
  { destruct Hk as [Hk Hw]. split; [|done]. by apply (ostep_ok (events o) (sv_mgr (bt_svm b))). }
  assert (hearts l0) as Hh0.
  { split; [cbn; unfold MAX_HEARTBEAT_FAILURES; lia|]. eexists _, []. by rewrite app_nil_r. }
  destruct (wpx_returns _ _ _ (main_loop_spec hierarchy g (bind bind_ok).2 _ _ _ fuel rounds l0 Hb He Hr Hk0 Hh0))
    as ([] & l & -> & Hl & Hend); cbn [outcome]; [|by split; [|apply Hrun]].
  split; [done|]. split; [by apply Hrun, leave_main_keeps|]. destruct hierarchy; by apply Hend.
Qed.
End facts.

(** ** Two services *)

Definition calm_input : round := {| rd_write_ok := true; rd_conns := []; rd_reads _ := [ChEof] |}.
Definition pair_main : @main_outcome scripted :=
  svmgr_main (K := scripted) (HO := elements_order) (R := fixmap_rmp) no_defs
    {[INIT_FD_ENV := "3"%string]} 1 (λ _, true) 1 true (E := ()) (F := ()) (Ok pair_svcs) (Ok [])
    [[]; []; []] [calm_input; calm_input] (quiet [100; 101]).
Definition serving (m : @main_outcome scripted) : bool :=
  match m with MainServing l => true | _ => false end.

Lemma manager_lifetime_witness :
  ∃ l, pair_main = MainServing l ∧ running (L := scripted_laws) ["a"%string; "b"%string] 0 (lp_svm l).
Proof.
  pose proof (manager_lifetime (L := scripted_laws) (HO := elements_order) (R := fixmap_rmp) no_defs
    {[INIT_FD_ENV := "3"%string]} 1 (λ _, true) 1 true (E := ()) (F := ()) (Ok pair_svcs) (Ok [])
    [[]; []; []] [calm_input; calm_input] (quiet [100; 101])) as H.
  fold pair_main in H. cbv zeta in H.
  assert (serving pair_main = true) as Hs by (vm_compute; reflexivity).
  destruct pair_main as [ | | | | l | ]; try discriminate Hs.
  exists l. split; [reflexivity|]. apply H.
  - vm_compute. reflexivity.
  - vm_compute. lia.
  - repeat constructor; intros t actions [= <-]; constructor.
  - repeat constructor; try (intros t actions [= <-]; constructor);
      intros ch; exists []; (split; [reflexivity|intros Hx; inversion Hx]).
Defined.
