(* ===== verification/BootEnds.v ===== *)
(** * The startup loop ends

    Boot.v shows what every round of the startup loop does; here is a bound on their
    number.  A round either starts a service, or brings the readiness trackers closer to
    their timeouts (a round sleeps for 100 ms), or does nothing but wait for a oneshot
    service to exit.  So the loop ends once more than [startup_bound] rounds were of the
    first two kinds; without oneshot services that is within [startup_bound] rounds. *)

From S2P Require Import Prelude RustStr Config Graph Cycle Frontier FrontierLoops FrontierFacts Startup.
From S2P Require Import Protocol InitChannel World Cgroup Intensity Tree Strategy Monad Manager.
From S2P Require Import ManagerFacts StopOrder Shutdown Control Readiness Svmgr SvmgrFacts Boot MainLoop SvmgrMain.

#[local] Open Scope list_scope.
#[local] Open Scope Z_scope.

(** ** Partial correctness *)

Definition wlp {S A} (m : St S A) (Q : A → S → Prop) (s : S) : Prop := ∀ a s', m s = Ret a s' → Q a s'.

Lemma wlp_ret {S A} (a : A) (Q : A → S → Prop) s : Q a s → wlp (mret a) Q s.
Proof. by intros H ? ? [= <- <-]. Qed.

Lemma wlp_bind {S A B} (m : St S A) (k : A → St S B) Q s :
  wlp m (λ a, wlp (k a) Q) s → wlp (m ≫= k) Q s.
Proof. intros H b s'. unfold mbind, St_bind. destruct (m s) eqn:E; try done. by apply H. Qed.

Lemma wlp_gets {S A B} (f : S → A) (k : A → St S B) Q s : wlp (k (f s)) Q s → wlp (gets f ≫= k) Q s.
Proof. done. Qed.

Lemma wlp_modify {S B} f (k : () → St S B) Q s : wlp (k ()) Q (f s) → wlp (modify f ≫= k) Q s.
Proof. done. Qed.

Lemma wlp_mono {S A} (m : St S A) (Q Q' : A → S → Prop) s :
  wlp m Q s → (∀ a s', Q a s' → Q' a s') → wlp m Q' s.
Proof. intros H HQ a s' E. by apply HQ, H. Qed.

Lemma wlp_zoom {S T A} (get : T → S) (put : S → T → T) (m : St S A) (Q : A → T → Prop) t :
  wlp m (λ a s, Q a (put s t)) (get t) → wlp (zoom get put m) Q t.
Proof. intros H a t'. unfold zoom. destruct (m (get t)) eqn:E; try done. intros [= <- <-]. by apply H. Qed.

Lemma wlp_total {S A} P R (m : St S A) s : total_at P R m s → wlp m (λ _ s', R s s' ∧ P s') s.
Proof. intros H a s' E. unfold total_at in H. by rewrite E in H. Qed.

Lemma wpx_mret {S A} X (a : A) (Q : A → S → Prop) s : Q a s → wpx X (mret a) Q s.
Proof. done. Qed.

Lemma wpx_wlp {S A} X (m : St S A) Q Q' s :
  wpx X m Q s → wlp m Q' s → wpx X m (λ a s', Q a s' ∧ Q' a s') s.
Proof. unfold wpx, wlp. destruct (m s); auto. Qed.

Lemma wpx_is_wlp {S A} X (m : St S A) Q s : wpx X m Q s → wlp m Q s.
Proof. unfold wpx, wlp. intros H a s' E. by rewrite E in H. Qed.

Section ends.
Context `{L : FiniteExits, HO : HashOrder, R : Rmp}.
Context (hierarchy : option CgroupHierarchy) (load_defs : os → result (list ServiceDef) ServiceLoadError).

(** ** Time passes, and no definition changes *)

Definition def_of (t : SupervisorTree) (name : string) : option ServiceDef := wn_def <$> get_worker t name.

Definition grows (s s' : Mgr) : Prop :=
  clock (mg_os s) ≤ clock (mg_os s') ∧
  ∀ name def, def_of (mg_tree s) name = Some def → def_of (mg_tree s') name = Some def.

#[export] Instance grows_preorder : PreOrder grows.
Proof.
  split.
  - intros s. split; [lia|done].
  - intros s1 s2 s3 [H1 H2] [H3 H4]. split; [lia|auto].
Qed.

Lemma shape_def t t' name : same_shape t' t → def_of t' name = def_of t name.
Proof.
  intros [_ Hn]. specialize (Hn name). unfold def_of, get_worker.
  destruct (nodes t' !! name) as [[|w']|], (nodes t !! name) as [[|w]|]; cbn in *; try done.
  by injection Hn as Hn; destruct w, w'; cbn in *; simplify_eq.
Qed.

Lemma shape_grows s s' :
  same_shape (mg_tree s') (mg_tree s) → clock (mg_os s) ≤ clock (mg_os s') → grows s s'.
Proof. intros Hs Hc. split; [done|]. intros name def. by rewrite (shape_def _ _ _ Hs). Qed.

Lemma mstep_grows s s' : mstep s s' → grows s s'.
Proof. intros (Hs & _ & Hc). by apply shape_grows. Qed.

Lemma ostep_grows s s' : ostep s s' → grows s s'.
Proof. intros [Ht (_ & _ & _ & Hc)]. split; [done|]. by rewrite Ht. Qed.

Lemma wpx_grows {A} X n W (m : M A) s s0 (Q : A → Mgr → Prop) :
  total (mgr_in n) mstep m → kept n W s → grows s0 s →
  (∀ a s', kept n W s' → grows s0 s' → Q a s') → wpx X m Q s.
Proof.
  intros Hm Hk Hg HQ. eapply wpx_mono; [apply wpx_total, Hm, Hk|]. intros a s' [Hst Hn]. cbn in *.
  apply HQ; [by eapply kept_shape|]. etrans; [exact Hg|by apply mstep_grows].
Qed.

Definition kept_since (n : nat) (W : gset string) (s0 s : Mgr) : Prop := kept n W s ∧ grows s0 s.

Lemma reload_add_grows X n W s0 existing def s :
  kept_since n W s0 s → wpx X (reload_add hierarchy existing def) (λ _, kept_since n W s0) s.
Proof.
  intros [Hk Hg]. unfold reload_add. case_decide; [by split|]. apply wpx_gets.
  destruct (add_worker def (parent_for (mg_tree s) def) (mg_tree s)) as [t'|] eqn:E; [|by split].
  apply wpx_modify. cbn beta. pose proof (add_worker_kept _ _ _ _ _ _ Hk E) as Hk'.
  apply add_worker_Ok in E as (Hf & sp & Hs & ->).
  apply wpx_bind, (wpx_grows X n W _ _ s0); [apply start_worker_total|done| |by split].
  etrans; [exact Hg|]. split; [cbn; lia|]. intros name d. unfold def_of, get_worker. cbn [mg_tree with_tree].
  rewrite add_node_lookup. repeat case_decide; subst; [by rewrite Hf|by rewrite Hs|done].
Qed.

Lemma reload_services_grows X n W s :
  kept n W s → wpx X (reload_services hierarchy load_defs) (λ _, kept_since n W s) s.
Proof.
  intros Hs. unfold reload_services. apply wpx_gets. assert (kept_since n W s s) as Hks by done.
  destruct (load_defs (mg_os s)) as [defs|e]; [|done].
  apply wpx_gets. apply wpx_bind.
  eapply wpx_mono; [apply (wpx_for_each X (λ _, kept_since n W s)); [|done]|].
  { intros a l s'. apply reload_add_grows. }
  intros [] s1 Hs1. apply (wpx_for_each X (λ _, kept_since n W s)); [|done]. intros a l s' [Hk Hg].
  unfold reload_stop. case_decide; [done|].
  apply (wpx_grows X n W _ _ s); [apply stop_worker_total|done|done|by split].
Qed.

Lemma dispatch_grows fuel n W ok g actions s :
  Forall (λ a, deadline_action a = false) actions → svm_kept n W s →
  wlp (dispatch_control_actions hierarchy load_defs fuel ok g actions)
    (λ _ s', grows (sv_mgr s) (sv_mgr s')) s.
Proof.
  intros Ha Hs. eapply (wpx_is_wlp False), wpx_mono.
  - apply (wpx_for_each False (λ l s', Forall (λ a, deadline_action a = false) l ∧
      kept_since n W (sv_mgr s) (sv_mgr s'))); [|by split].
    intros a l s' [[Ha' Hl]%Forall_cons [Hk Hg]].
    apply (wpx_mono _ _ (λ _ s'', kept_since n W (sv_mgr s) (sv_mgr s''))); [|by split].
    destruct a as [name|name|name| |kind]; cbn [dispatch_action]; try done.
    + apply wpx_bind, wpx_zoom, (wpx_grows _ n W _ _ (sv_mgr s)); [apply start_worker_total|done|done|by split].
    + apply wpx_zoom, (wpx_grows _ n W _ _ (sv_mgr s)); [apply stop_worker_total|done|done|by split].
    + apply wpx_zoom. eapply wpx_mono; [by apply (reload_services_grows _ n W)|].
      intros _ s'' [Hk' Hg']. split; [done|]. by etrans.
  - by intros _ s' [_ [_ Hg]].
Qed.

(** ** What a round does to the bookkeeping *)

Definition bmgr (b : Boot) : Mgr := sv_mgr (bt_svm b).
Definition bclock (b : Boot) : Z := clock (mg_os (bmgr b)).
Definition started (f : StartupFrontier) : gset string := pending f ∪ completed f.

(** No service is taken back, the trackers stay, and no oneshot is added. *)
Record later (b b' : Boot) : Prop := {
  lt_grows : grows (bmgr b) (bmgr b');
  lt_trackers : bt_trackers b' = bt_trackers b;
  lt_oneshots : bt_oneshots b' ⊆ bt_oneshots b;
  lt_started : started (bt_frontier b) ⊆ started (bt_frontier b');
}.

#[export] Instance later_preorder : PreOrder later.
Proof.
  split.
  - intros b. split; [reflexivity|done|done|done].
  - intros b1 b2 b3 [H1 H2 H3 H4] [H5 H6 H7 H8]. split; [by etrans|congruence|set_solver|set_solver].
Qed.

Context (g : DependencyGraph).
Hypothesis Hg : wf_graph g.

Lemma boot_ready_later name b : wlp (boot_ready g name) (λ _, later b) b.
Proof.
  intros [] b' [= <-]. split; [reflexivity|done|done|]. unfold started. cbn.
  destruct (mark_ready_sets g (bt_frontier b) name) as (_ & -> & _ & ->). intros x.
  destruct (decide (x = name)); set_solver.
Qed.

Lemma boot_failed_later todo name b :
  boot_track g [] (name :: todo) b → wlp (boot_failed g name) (λ _, later b) b.
Proof.
  intros [[[tr Hr] Hp] _ _ _] [] b'. unfold boot_failed, mbind, St_bind, gets.
  destruct (mark_failed name g (bt_frontier b)) as [f|] eqn:E; [|done]. intros [= <-].
  assert (name ∈ pending (bt_frontier b)) as Hin by (rewrite Hp; set_solver).
  destruct (mark_failed_frame g (bt_frontier b) name Hg (frun_inv _ _ _ Hg Hr) f E) as (_ & Hpf & Hc & _).
  split; [reflexivity|done|done|]. unfold started. cbn. rewrite Hpf. intros x. rewrite !elem_of_union, Hc.
  destruct (decide (x = name)); set_solver.
Qed.

(** A step of the manager alone. *)
Lemma wlp_boot {A} (m : M A) (Q : A → Boot → Prop) b :
  wlp m (λ a s, Q a (boot_with s b)) (bmgr b) → wlp (boot_mgr m) Q b.
Proof. intros H. apply wlp_zoom, wlp_zoom. exact H. Qed.

Lemma boot_with_later s b : grows (bmgr b) s → later b (boot_with s b).
Proof. intros H. by split. Qed.

Lemma wlp_ostep {A} (m : M A) s : total (λ _, True) ostep m → wlp m (λ _ s', grows s s') s.
Proof.
  intros H. eapply wlp_mono; [by apply wlp_total, H|]. intros a s' [Hs _]. by apply ostep_grows.
Qed.

Lemma finish_oneshot_later todo name e b :
  boot_track g [] (name :: todo) b → wlp (finish_oneshot hierarchy g name e) (λ _, later b) b.
Proof.
  intros Ht. unfold finish_oneshot. apply wlp_bind, wlp_boot.
  eapply (wlp_mono _ (λ _ s', grows (bmgr b) s')).
  - apply wlp_bind. intros [] s1 [= <-]. set (s1 := with_tree _ _).
    assert (grows (bmgr b) s1) as H1.
    { apply shape_grows; [by apply update_worker_shape|cbn; lia]. }
    eapply wlp_mono; [apply wlp_ostep|intros u s2 H2; by etrans].
    total_tac; [apply monitor_total|apply cleanup_cgroup_total].
  - intros _ s' Hs'. assert (boot_track g [] (name :: todo) (boot_with s' b)) as Ht' by (by destruct Ht).
    assert (later b (boot_with s' b)) as Hl by by apply boot_with_later.
    destruct (is_normal e); (apply (wlp_mono _ (λ _, later (boot_with s' b))); [|intros _ b' Hb'; by etrans]);
      [apply boot_ready_later|by eapply boot_failed_later].
Qed.

Lemma boot_exit_later fuel n todo p e b :
  (n < fuel)%nat → mgr_waited n p (bmgr b) → boot_track g [] todo b →
  wlp (boot_exit hierarchy g fuel p e) (λ _, later b) b.
Proof.
  intros Hf Hw Ht. unfold boot_exit. apply wlp_gets. unfold unregister_pid. cbn beta iota.
  set (t := mg_tree (sv_mgr (bt_svm b))). apply wlp_bind. intros [] b1 Eb1.
  assert (b1 = boot_with (with_tree (with_pids (delete p (pid_map t)) t) (bmgr b)) b) as -> by (by injection Eb1).
  clear Eb1. set (b1 := boot_with _ b).
  assert (later b b1) as H1.
  { split; [|done|done|done]. apply shape_grows; [by split|cbn; lia]. }
  destruct (pid_map t !! p) as [id|] eqn:E; [|by apply wlp_ret].
  apply wlp_gets. case_decide as Hin.
  - apply wlp_modify. cbn beta.
    eapply wlp_mono; [apply (finish_oneshot_later todo)|].
    + refine (oneshot_out g [] Hg todo b1 id _ Hin). by destruct Ht.
    + intros u b2 Hb2. destruct H1 as [Hg1 Ht1 Ho1 Hs1], Hb2 as [Hg2 Ht2 Ho2 Hs2].
      cbn in Ho2. split; [by etrans|done|set_solver|done].
  - apply wlp_boot. eapply wlp_mono.
    { eapply (wpx_is_wlp False). exact (reregistered_exit hierarchy False fuel n p id e (bmgr b) Hf Hw E). }
    intros _ s' (_ & Hsh & Hc). split; [by apply shape_grows|done|done|done].
Qed.

(** The invariant, and what has happened since [b0]. *)
Definition boot_since (n : nat) (todo : list string) (b0 b : Boot) : Prop :=
  boot_inv g [] n todo b ∧ later b0 b.

Lemma reap_since X fuel n b0 b :
  (n < fuel)%nat → boot_since n [] b0 b →
  wpx X (reap_oneshots_during_startup hierarchy g fuel) (λ _, boot_since n [] b0) b.
Proof.
  intros Hf [Hb Hl].
  apply (wpx_wlp X _ (λ _, boot_inv g [] n []) (λ _, later b0));
    [by apply (reap_oneshots_inv hierarchy g [] Hg X fuel n [])|].
  clear X. revert n b Hf Hb Hl. induction fuel as [|fuel IH]; intros n b Hf Hb Hl; [lia|].
  cbn [reap_oneshots_during_startup]. destruct Hb as [[Hm Hw] Ht].
  pose proof (wait_cases n _ Hm) as Hc. assert (Hm' := Hm). destruct Hm' as [_ He].
  destruct (os_waitpid None (mg_os (sv_mgr (bt_svm b)))) as [r o] eqn:E. destruct Hc as [Hst Hc].
  apply wlp_bind, wlp_boot. intros r' s1 Es1. unfold sys in Es1. unfold bmgr in Es1. rewrite E in Es1.
  injection Es1 as <- <-. set (b1 := boot_with _ b).
  assert (later b0 b1) as Hl1 by (etrans; [exact Hl|]; by apply boot_with_later, mstep_grows).
  assert (boot_track g [] [] b1) as Ht1 by (by destruct Ht).
  assert (∀ p e, (Nat.pred n < fuel)%nat → mgr_waited (Nat.pred n) p (bmgr b1) →
    wlp (boot_exit hierarchy g fuel p e ;; reap_oneshots_during_startup hierarchy g fuel) (λ _, later b0) b1) as Hexit.
  { intros p e Hp Hwait. apply wlp_bind. eapply wlp_mono.
    - eapply (wpx_is_wlp True), wpx_wlp.
      + exact (boot_exit_inv hierarchy g [] Hg True fuel (Nat.pred n) [] p e b1 Hp Hwait Hw Ht1).
      + exact (boot_exit_later fuel (Nat.pred n) [] p e b1 Hp Hwait Ht1).
    - intros [] b2 [Hb2 Hl2]. apply (IH (Nat.pred n)); [done|done|by etrans]. }
  destruct r as [p c|p c| | | |]; try by apply wlp_ret.
  - destruct Hc as [Hne Hc]. apply Hexit; [lia|done].
  - destruct Hc as [Hne Hc]. apply Hexit; [lia|done].
  - destruct Hc as [Hne Hc]. apply (IH (Nat.pred n)); [lia|split; [by split|done]|done].
Qed.

(** ** The timeouts *)

Definition timeout_of (def : ServiceDef) : Z :=
  match parse_duration_secs (rd_timeout (sd_readiness def)) with
  | Some secs => from_secs secs
  | None => from_secs 30
  end.

Definition is_oneshot (def : ServiceDef) : Prop := ss_service_type (sd_service def) = Oneshot.

Definition max_timeout (defs : list ServiceDef) : Z := foldr Z.max 0 (map timeout_of defs).

Lemma max_timeout_le defs def : def ∈ defs → timeout_of def ≤ max_timeout defs.
Proof.
  unfold max_timeout. induction 1 as [def l|def x l _ IH]; cbn; lia.
Qed.

(** The definitions of the services are among [D], the trackers were made in the past with
    timeouts of [D], and only oneshot services are waited for as such. *)
Record within (D : list ServiceDef) (b : Boot) : Prop := {
  wi_defs : ∀ x def, x ∈ services g → def_of (mg_tree (bmgr b)) x = Some def → def ∈ D;
  wi_trackers : ∀ x r, bt_trackers b !! x = Some r → rt_timeout r ≤ max_timeout D ∧ rt_started_at r ≤ bclock b;
  wi_oneshots : ∀ x, x ∈ bt_oneshots b → x ∈ services g ∧
    ∀ def, def_of (mg_tree (bmgr b)) x = Some def → is_oneshot def;
}.

Definition workers_of (b : Boot) : Prop := ∀ w, w ∈ services g → is_worker (mg_tree (bmgr b)) w = true.

Lemma grows_def b b' x def :
  workers_of b → grows (bmgr b) (bmgr b') → x ∈ services g →
  def_of (mg_tree (bmgr b')) x = Some def → def_of (mg_tree (bmgr b)) x = Some def.
Proof.
  intros Hw [_ Hd] Hx Hdef. apply Hw, is_worker_iff in Hx as (w & Hw'%get_worker_lookup).
  assert (def_of (mg_tree (bmgr b)) x = Some (wn_def w)) as E by (unfold def_of; by rewrite Hw').
  rewrite (Hd _ _ E) in Hdef. by injection Hdef as <-.
Qed.

Lemma later_within D b b' : workers_of b → later b b' → within D b → within D b'.
Proof.
  intros Hw [Hgr Ht Ho _] [H1 H2 H3]. split.
  - intros x def Hx Hd. apply (H1 x); [done|]. by eapply grows_def.
  - intros x r Hr. rewrite Ht in Hr. destruct (H2 x r Hr). destruct Hgr as [Hc _]. unfold bclock in *. split; lia.
  - intros x Hx. destruct (H3 x (Ho x Hx)) as [Hs Hd]. split; [done|]. intros def Hdef.
    apply Hd. by eapply grows_def.
Qed.

Lemma boot_inv_workers n todo b : boot_inv g [] n todo b → workers_of b.
Proof. by intros [[_ Hw] _]. Qed.

(** ** Starting a batch *)

Lemma tracker_new_spec c name o :
  let '(r, o') := tracker_new c name o in
  rt_timeout r = match parse_duration_secs (rd_timeout c) with Some s => from_secs s | None => from_secs 30 end ∧
  rt_started_at r ≤ clock o'.
Proof.
  unfold tracker_new. destruct (decide _).
  - destruct (os_bind_datagram _ _) as [ok o2]. pose proof (now_law o2).
    destruct (os_now o2) as [now o3]. cbn in *. split; [done|lia].
  - pose proof (now_law o). destruct (os_now o) as [now o3]. cbn in *. split; [done|lia].
Qed.

(** What starting does: trackers and oneshots may be added, within the bounds. *)
Record begun (D : list ServiceDef) (b b' : Boot) : Prop := {
  bg_grows : grows (bmgr b) (bmgr b');
  bg_started : started (bt_frontier b) ⊆ started (bt_frontier b');
  bg_within : within D b';
}.

Lemma later_begun D b b' : workers_of b → within D b → later b b' → begun D b b'.
Proof. intros Hw Hi Hl. pose proof (later_within D b b' Hw Hl Hi). by destruct Hl. Qed.

Lemma boot_start_begun D n todo name b :
  boot_inv g [] n (name :: todo) b → within D b → wlp (boot_start hierarchy g name) (λ _, begun D b) b.
Proof.
  intros Hb Hi. pose proof (boot_inv_workers _ _ _ Hb) as Hw. destruct Hb as [[Hm _] Ht].
  assert (name ∈ services g) as Hname.
  { apply (awaits_services _ _ Hg _ _ (bt_awaits _ _ _ _ Ht)). set_solver. }
  unfold boot_start. apply wlp_bind, wlp_boot.
  eapply wlp_mono; [apply wlp_total, (start_worker_total hierarchy n); exact Hm|].
  intros fd s1 [Hs1%mstep_grows _]. cbn beta. set (b1 := boot_with s1 b).
  assert (later b b1) as Hl1 by by apply boot_with_later.
  apply wlp_gets. destruct (get_worker (mg_tree (sv_mgr (bt_svm b1))) name) as [w|] eqn:Ew;
    [|by apply wlp_ret, later_begun].
  apply wlp_bind, wlp_boot. intros r s2 Es2. unfold sys in Es2.
  pose proof (tracker_new_spec (sd_readiness (wn_def w)) name (mg_os (bmgr b1))) as Hr.
  pose proof (tracker_new_frame (sd_readiness (wn_def w)) name (mg_os (bmgr b1))) as (_ & _ & _ & Hc).
  destruct (tracker_new _ _ _) as [r0 o2]. cbn [snd] in Hc. injection Es2 as -> <-. destruct Hr as [Hto Hst].
  set (b2 := boot_with _ b1).
  assert (later b b2) as Hl2.
  { etrans; [exact Hl1|]. apply boot_with_later. split; [exact Hc|done]. }
  pose proof (later_within D b b2 Hw Hl2 Hi) as Hi2.
  assert (def_of (mg_tree (bmgr b2)) name = Some (wn_def w)) as Hd.
  { change (wn_def <$> get_worker (mg_tree (sv_mgr (bt_svm b1))) name = Some (wn_def w)). by rewrite Ew. }
  set (r' := match fd with Some _ => _ | None => _ end).
  assert (rt_timeout r' ≤ max_timeout D ∧ rt_started_at r' ≤ bclock b2) as Hr'.
  { pose proof (max_timeout_le _ _ (wi_defs _ _ Hi2 name _ Hname Hd)) as HT. unfold timeout_of in HT.
    unfold r'. destruct fd; cbn; (split; [lia|exact Hst]). }
  clearbody r'. destruct (bool_decide _ && is_immediate r') eqn:Eone; [|destruct (is_immediate r')].
  - apply andb_true_iff in Eone as [Eone%bool_decide_eq_true _]. apply wlp_gets. intros [] b3 [= <-].
    destruct Hl2 as [Hgr Htr Hon Hsta]. split; [done|done|]. destruct Hi2 as [H1 H2 H3]. split; [done|done|].
    intros x Hx. cbn [bt_oneshots] in Hx.
    apply elem_of_union in Hx as [->%elem_of_singleton|Hx]; [|by apply H3]. split; [done|].
    intros def Hdef. cbn in Hdef. change (def_of (mg_tree (bmgr b2)) name = Some def) in Hdef.
    rewrite Hd in Hdef. by injection Hdef as <-.
  - eapply wlp_mono; [apply boot_ready_later|]. intros u b3 Hb3. apply later_begun; [done|done|by etrans].
  - apply wlp_gets. intros [] b3 [= <-]. destruct Hl2 as [Hgr Htr Hon Hsta]. split; [done|done|].
    destruct Hi2 as [H1 H2 H3]. split; [done| |done]. intros x rx. cbn.
    rewrite lookup_insert_Some. intros [[<- <-]|[_ Hx]]; [done|]. by apply (H2 x).
Qed.

Lemma boot_batch_begun X D n batch b :
  boot_inv g [] n batch b → within D b →
  wpx X (for_each batch (boot_start hierarchy g)) (λ _ b', boot_inv g [] n [] b' ∧ begun D b b') b.
Proof.
  intros Hb Hi. apply (wpx_for_each X (λ todo b', boot_inv g [] n todo b' ∧ begun D b b')).
  - intros name todo b1 [Hb1 [Hgr1 Hs1 Hi1]].
    apply (wpx_mono _ _ (λ _ b2, boot_inv g [] n todo b2 ∧ begun D b1 b2)).
    + apply wpx_wlp; [by apply boot_start_inv|by eapply boot_start_begun].
    + intros _ b2 [Hb2 [Hgr2 Hs2 Hi2]]. split; [done|]. split; [by etrans|set_solver|done].
  - split; [done|]. split; [reflexivity|done|done].
Qed.

(** ** Checking the trackers *)

Definition expiry (r : ReadinessTracker) : Z := rt_started_at r + rt_timeout r.

(** While the trackers in [names] are still to be checked: the others had not expired. *)
Record checking (D : list ServiceDef) (b0 : Boot) (names : list string) (b : Boot) : Prop := {
  ck_begun : begun D b0 b;
  ck_kept : ∀ x r, bt_trackers b !! x = Some r → bt_trackers b0 !! x = Some r;
  ck_left : ∀ x r, bt_trackers b !! x = Some r → x ∈ names ∨ bclock b0 ≤ expiry r;
}.

Lemma later_checking D b0 names b b' :
  workers_of b → later b b' → checking D b0 names b → checking D b0 names b'.
Proof.
  intros Hw Hl [[Hgr Hs Hi] Hk Hlf]. pose proof (later_within D b b' Hw Hl Hi). destruct Hl as [Hgr' Ht _ Hs'].
  split; [split; [by etrans|set_solver|done]|..]; by rewrite Ht.
Qed.

(** A tracker is dropped. *)
Definition drop_tracker (name : string) (b : Boot) : Boot :=
  {| bt_svm := bt_svm b; bt_frontier := bt_frontier b; bt_trackers := delete name (bt_trackers b);
     bt_oneshots := bt_oneshots b |}.

Lemma drop_checking D b0 name names b :
  checking D b0 (name :: names) b → checking D b0 names (drop_tracker name b).
Proof.
  intros [[Hgr Hs [H1 H2 H3]] Hk Hlf]. split; [split; [done|done|split; [done| |done]]| |]; cbn;
    intros x r [Hne Hx]%lookup_delete_Some; [by apply (H2 x)|by apply Hk|].
  destruct (Hlf x r Hx) as [[->|]%elem_of_cons|]; [done|by left|by right].
Qed.

Lemma boot_check_checking D n b0 name names b :
  to_check g [] n (name :: names) b → checking D b0 (name :: names) b →
  wlp (boot_check g name) (λ _, checking D b0 names) b.
Proof.
  intros (Hb & _ & Hin) Hck. pose proof (boot_inv_workers _ _ _ Hb) as Hw. destruct Hb as [_ Ht].
  unfold boot_check. apply wlp_gets. assert (name ∈ dom (bt_trackers b)) as Hdom by (apply Hin; set_solver).
  pose proof Hdom as [r Hr]%elem_of_dom. rewrite Hr. apply wlp_bind, wlp_boot. intros res s' Es'. unfold sys in Es'.
  pose proof (check_frame r (mg_os (bmgr b))) as (_ & _ & _ & Hc). pose proof (check_timed_out r (mg_os (bmgr b))) as Hto.
  destruct (check r (mg_os (bmgr b))) as [res' o]. cbn [fst snd] in *. injection Es' as -> <-.
  set (b1 := boot_with _ b).
  assert (later b b1) as Hl1 by (apply boot_with_later; by split).
  pose proof (later_checking D b0 _ b b1 Hw Hl1 Hck) as Hck1.
  assert (workers_of b1) as Hw1 by exact Hw.
  assert (∀ b3, later (drop_tracker name b1) b3 → checking D b0 names b3) as Hafter.
  { intros b3 Hl. eapply (later_checking D b0 names (drop_tracker name b1)); [exact Hw1|exact Hl|].
    by apply drop_checking. }
  assert (boot_track g [] [name] (drop_tracker name b1)) as Ht1
    by (by refine (tracker_out g [] Hg [] b1 name _ _); [destruct Ht|]).
  destruct res as [| | |msg].
  - apply wlp_bind. intros [] b2 [= <-]. change (wlp (boot_ready g name) (λ _, checking D b0 names) (drop_tracker name b1)).
    eapply wlp_mono; [apply boot_ready_later|]. intros u b3 Hl. by apply Hafter.
  - apply wlp_ret. destruct Hck1 as [Hbg Hk Hlf]. split; [done|done|]. intros x rx Hx.
    destruct (Hlf x rx Hx) as [[->|]%elem_of_cons|]; [|by left|by right]. right.
    cbn in Hx. rewrite Hr in Hx. injection Hx as <-. destruct Hck as [[[Hc0 _] _ _] _ _]. unfold bclock, expiry.
    destruct (Z.le_gt_cases (clock (mg_os (bmgr b))) (rt_started_at r + rt_timeout r)); [lia|].
    by assert (NotReady = TimedOut) by (apply Hto; lia).
  - apply wlp_bind. intros [] b2 [= <-]. change (wlp (boot_failed g name) (λ _, checking D b0 names) (drop_tracker name b1)).
    eapply wlp_mono; [by eapply boot_failed_later|]. intros u b3 Hl. by apply Hafter.
  - apply wlp_bind. intros [] b2 [= <-]. change (wlp (boot_failed g name) (λ _, checking D b0 names) (drop_tracker name b1)).
    eapply wlp_mono; [by eapply boot_failed_later|]. intros u b3 Hl. by apply Hafter.
Qed.

Lemma boot_checks X D n names b :
  to_check g [] n names b → (∀ x, x ∈ dom (bt_trackers b) → x ∈ names) → within D b →
  wpx X (for_each names (boot_check g)) (λ _ b', boot_inv g [] n [] b' ∧ checking D b [] b') b.
Proof.
  intros Hb Hall Hi. eapply (wpx_mono _ _ (λ _ b', to_check g [] n [] b' ∧ checking D b [] b')).
  - apply (wpx_for_each X (λ names b', to_check g [] n names b' ∧ checking D b names b')).
    + intros name l b1 [Hb1 Hc1]. apply wpx_wlp; [by apply boot_check_inv|by eapply boot_check_checking].
    + split; [done|]. split; [split; [reflexivity|done|done]|done|]. intros x r Hx. left. apply Hall, elem_of_dom.
      by eexists.
  - intros _ b' [(Hb' & _) Hc]. done.
Qed.

(** ** A round *)

Definition unstarted (b : Boot) : nat := size (services g ∖ started (bt_frontier b)).

Lemma unstarted_le b b' : started (bt_frontier b) ⊆ started (bt_frontier b') → (unstarted b' ≤ unstarted b)%nat.
Proof. intros H. unfold unstarted. apply subseteq_size. set_solver. Qed.

Definition set_front (f : StartupFrontier) (b : Boot) : Boot :=
  {| bt_svm := bt_svm b; bt_frontier := f; bt_trackers := bt_trackers b; bt_oneshots := bt_oneshots b |}.

Lemma batch_taken n b batch f :
  boot_inv g [] n [] b → take_ready (bt_frontier b) = (batch, f) →
  boot_inv g [] n batch (set_front f b) ∧ started (bt_frontier b) ⊆ started f ∧
  (batch ≠ [] → (unstarted (set_front f b) < unstarted b)%nat) ∧ has_ready f = false.
Proof.
  intros [Hk Ht] E. assert (Ht' := Ht). destruct Ht' as [Ha _ _ Hd].
  destruct (awaits_take g [] Hg _ _ _ _ Ha E) as (Ha' & Hnd & Hdis).
  cbn in Hdis, Ha'. rewrite (left_id_L ∅ (∪)) in Hdis, Ha'.
  assert (started f = started (bt_frontier b) ∪ list_to_set batch) as Hs.
  { pose proof (take_ready_pending (bt_frontier b)) as Hp. rewrite E in Hp. injection E as <- <-.
    unfold started. cbn in *. rewrite Hp. set_solver. }
  split; [split; [done|split; cbn; [by rewrite <-(assoc_L (∪))|done|done|done]]|].
  split; [rewrite Hs; set_solver|]. split.
  - intros Hne. destruct batch as [|x l]; [done|]. unfold unstarted. apply subset_size.
    cbn [bt_frontier set_front]. rewrite Hs.
    destruct Ha as [[tr Hr] _]. pose proof (frun_inv _ _ _ Hg Hr) as Hi.
    assert (x ∈ ready_to_start (bt_frontier b)) as Hx by (injection E as -> _; by left).
    apply (fi_queue _ _ Hi) in Hx as (Hu & Hxp & Hxc).
    assert (x ∈ services g) by (rewrite <-(fi_dom _ _ Hi); apply elem_of_dom; by eexists).
    split; [set_solver|]. unfold started. set_solver.
  - injection E as _ <-. done.
Qed.

Definition waiting (b : Boot) : bool :=
  bool_decide (bt_trackers b = ∅) && negb (has_ready (bt_frontier b)) && negb (bool_decide (bt_oneshots b = ∅)).

Definition ROUND : Z := 100 * 1000000.

(** What an unfinished round has done. *)
Record rounded (D : list ServiceDef) (b b' : Boot) : Prop := {
  rd_within : within D b';
  rd_clock : bclock b + ROUND ≤ bclock b';
  rd_case : (unstarted b' < unstarted b)%nat ∨
    (unstarted b' ≤ unstarted b)%nat ∧
    (∀ x r, bt_trackers b' !! x = Some r → bt_trackers b !! x = Some r ∧ bclock b ≤ expiry r) ∧
    (bt_trackers b = ∅ → waiting b' = true);
}.

(** The end of an unfinished round: control actions and the sleep. *)
Lemma round_tail n fuel ok conns b :
  (n < fuel)%nat → calm_conns conns → boot_inv g [] n [] b →
  wpx False (actions ← (λ s : Boot, match poll_control conns (mg_tree (sv_mgr (bt_svm s))) with
                           | Some a => Ret a s | None => OutOfFuel end);
    zoom bt_svm (λ s b, {| bt_svm := s; bt_frontier := bt_frontier b; bt_trackers := bt_trackers b;
                           bt_oneshots := bt_oneshots b |})
      (dispatch_control_actions hierarchy load_defs fuel ok g actions) ;;
    boot_mgr (sleep_millis 100) ;; mret false)
    (λ fin b', fin = false ∧ boot_inv g [] n [] b' ∧ later b b' ∧ bclock b + ROUND ≤ bclock b' ∧
       bt_frontier b' = bt_frontier b ∧ bt_oneshots b' = bt_oneshots b) b.
Proof.
  intros Hf Hc [Hk Ht]. destruct (poll_control_total conns (mg_tree (sv_mgr (bt_svm b)))) as [actions Ea].
  { destruct Hk as [[[[Hwf _] _] _] _]. done. }
  specialize (Hc _ _ Ea). apply wpx_bind. unfold wpx at 1. rewrite Ea. apply wpx_bind, wpx_zoom.
  eapply wpx_mono; [eapply wpx_wlp|].
  - apply (dispatch_kept hierarchy load_defs False fuel n (services g)); [done|done| |exact Hk].
    intros a Ha Hd. rewrite Forall_forall in Hc. specialize (Hc a Ha). congruence.
  - by apply (dispatch_grows fuel n (services g)).
  - intros [] s1 [Hs1 Hg1]. set (b1 := {| bt_svm := s1; bt_frontier := _; bt_trackers := _; bt_oneshots := _ |}).
    destruct (sleep_millis_law 100 (sv_mgr s1)) as (s2 & E2 & Ho & Hc2).
    destruct (ostep_ok n _ _ Ho (proj1 Hs1)) as [Hst Hs2].
    apply wpx_bind, wpx_boot. unfold wpx at 1. change (sv_mgr (bt_svm b1)) with (sv_mgr s1). rewrite E2.
    destruct Hg1 as [Hcl Hd]. split; [done|]. split; [split; [by eapply kept_shape|by destruct Ht]|].
    split; [|split; [unfold bclock, ROUND in *; cbn in *; unfold bmgr; lia|done]].
    split; [|done|done|done]. etrans; [split; [exact Hcl|exact Hd]|by apply ostep_grows].
Qed.

(** The second half of a round, after the batch was started. *)
Record checked (D : list ServiceDef) (b b' : Boot) : Prop := {
  cd_within : within D b';
  cd_clock : bclock b + ROUND ≤ bclock b';
  cd_started : started (bt_frontier b) ⊆ started (bt_frontier b');
  cd_trackers : ∀ x r, bt_trackers b' !! x = Some r → bt_trackers b !! x = Some r ∧ bclock b ≤ expiry r;
  cd_waiting : bt_trackers b = ∅ → has_ready (bt_frontier b) = false → waiting b' = true;
}.

Lemma checked_intro D b b3 b' :
  checking D b [] b3 → workers_of b3 → later b3 b' → bclock b3 + ROUND ≤ bclock b' →
  bt_frontier b' = bt_frontier b3 → bt_oneshots b' = bt_oneshots b3 → (bt_trackers b = ∅ → b3 = b) →
  negb (has_ready (bt_frontier b3)) && bool_decide (bt_trackers b3 = ∅) && bool_decide (bt_oneshots b3 = ∅) = false →
  checked D b b'.
Proof.
  intros [[[Hc _] Hs Hi] Hk Hlf] Hw Hl Hcl Hfr Hon Hsame Hnd. pose proof (later_within D b3 b' Hw Hl Hi).
  destruct Hl as [_ Ht _ Hs']. split; [done|unfold bclock in *; lia|by etrans| |].
  - intros x r. rewrite Ht. intros Hx. split; [by apply Hk|]. by destruct (Hlf x r Hx) as [?%elem_of_nil|].
  - intros He Hr. specialize (Hsame He). subst b3. unfold waiting. rewrite Ht, Hfr, Hon, Hr.
    rewrite He, Hr, bool_decide_eq_true_2 in Hnd by done. rewrite bool_decide_eq_true_2 by done.
    cbn in *. by rewrite Hnd.
Qed.

Lemma round_checks D fuel n ok conns b :
  (n < fuel)%nat → calm_conns conns → boot_inv g [] n [] b → within D b →
  wpx False (
    names ← gets (λ b, map fst (map_iter "trackers" (bt_trackers b)));
    for_each names (boot_check g) ;;
    d ← gets (λ b, negb (has_ready (bt_frontier b)) && bool_decide (bt_trackers b = ∅) &&
                   bool_decide (bt_oneshots b = ∅));
    if d : bool then mret true
    else
      actions ← (λ s : Boot, match poll_control conns (mg_tree (sv_mgr (bt_svm s))) with
                             | Some a => Ret a s | None => OutOfFuel end);
      zoom bt_svm (λ s b, {| bt_svm := s; bt_frontier := bt_frontier b; bt_trackers := bt_trackers b;
                             bt_oneshots := bt_oneshots b |})
        (dispatch_control_actions hierarchy load_defs fuel ok g actions) ;;
      boot_mgr (sleep_millis 100) ;;
      mret false)
    (λ fin b', boot_inv g [] n [] b' ∧ (fin = false → checked D b b')) b.
Proof.
  intros Hf Hc Hb Hi. apply wpx_gets. set (names := map fst _).
  assert (∀ x, x ∈ dom (bt_trackers b) ↔ x ∈ names) as Hn.
  { intros x. unfold names. rewrite elem_of_dom. split.
    - intros [r Hr]. apply list_elem_of_fmap. exists (x, r). split; [done|]. by apply elem_of_map_iter.
    - intros ([k r] & -> & Hkv%elem_of_map_iter)%list_elem_of_fmap. by exists r. }
  apply wpx_bind. apply (wpx_mono _ _ (λ _ b3, boot_inv g [] n [] b3 ∧ checking D b [] b3 ∧
    (bt_trackers b = ∅ → b3 = b))).
  { destruct (decide (bt_trackers b = ∅)) as [He|He].
    - assert (names = []) as ->.
      { destruct names as [|x l] eqn:El; [done|]. exfalso.
        assert (x ∈ dom (bt_trackers b)) as Hx by (apply Hn; left). rewrite He, dom_empty_L in Hx. set_solver. }
      split; [done|]. split; [|done]. split; [split; [reflexivity|done|done]|done|].
      intros x r Hx. by rewrite He, lookup_empty in Hx.
    - eapply wpx_mono; [apply (boot_checks False D n names)|].
      + split; [done|]. split; [apply NoDup_map_iter|]. intros x. by rewrite Hn.
      + intros x. by rewrite Hn.
      + done.
      + intros _ b3 [H1 H2]. split_and!; [done|done|]. by intros. }
  intros [] b3 (Hb3 & Hck & Hsame). apply wpx_gets. destruct (_ && _ && _) eqn:Ed; [by split|].
  eapply wpx_mono; [by apply (round_tail n)|].
  intros fin b4 (-> & Hb4 & Hl & Hcl & Hfr & Hon). split; [done|]. intros _.
  eapply checked_intro; try done. by eapply boot_inv_workers.
Qed.

Lemma round_rounded D fuel n ok conns b :
  (n < fuel)%nat → calm_conns conns → boot_inv g [] n [] b → within D b →
  wpx False (boot_round hierarchy load_defs g fuel ok conns)
    (λ fin b', boot_inv g [] n [] b' ∧ (fin = false → rounded D b b')) b.
Proof.
  intros Hf Hc Hb Hi. unfold boot_round. apply wpx_bind.
  eapply wpx_mono; [apply (reap_since False fuel n b b); [done|by split]|]. intros [] b1 [Hb1 Hl1].
  pose proof (later_within D b b1 (boot_inv_workers _ _ _ Hb) Hl1 Hi) as Hi1.
  destruct Hl1 as [[Hc1 _] Ht1 _ Hs1]. change (bclock b ≤ bclock b1) in Hc1. apply wpx_gets.
  destruct (take_ready (bt_frontier b1)) as [batch f] eqn:E.
  destruct (batch_taken n b1 batch f Hb1 E) as (Hbt & Hst & Hlt & Hnr).
  apply wpx_modify. cbn beta. fold (set_front f b1). apply wpx_bind.
  assert (within D (set_front f b1)) as Hif by (by destruct Hi1).
  change (bclock b1) with (bclock (set_front f b1)) in Hc1.
  destruct (decide (batch = [])) as [->|Hne].
  - cbn [for_each]. apply wpx_mret.
    eapply wpx_mono; [by apply (round_checks D fuel n)|]. intros fin b' [Hb' Hch]. split; [done|].
    intros [H1 H2 H3 H4 H5]%Hch. split; [done|lia|]. right.
    split; [apply unstarted_le; cbn in *; set_solver|]. split.
    + intros x r Hx. destruct (H4 x r Hx) as [Hx1 He]. cbn in Hx1. rewrite Ht1 in Hx1. split; [done|lia].
    + intros He. apply H5; [cbn; congruence|done].
  - eapply wpx_mono; [by apply (boot_batch_begun False D n batch)|].
    intros [] b2 [Hb2 [[Hc2 _] Hs2 Hi2]]. change (bclock (set_front f b1) ≤ bclock b2) in Hc2. eapply wpx_mono; [by apply (round_checks D fuel n)|].
    intros fin b' [Hb' Hch]. split; [done|]. intros [H1 H2 H3 _ _]%Hch.
    split; [done|lia|]. left. specialize (Hlt Hne).
    assert (unstarted b' ≤ unstarted (set_front f b1))%nat by (apply unstarted_le; set_solver).
    assert (unstarted b1 ≤ unstarted b)%nat by (by apply unstarted_le). lia.
Qed.

(** ** The rounds left *)

(** Every tracker expires within the next [k - 1] rounds; none is left when [k] is 0. *)
Definition due (k : nat) (b : Boot) : Prop :=
  bt_trackers b = ∅ ∨
  ∃ j, k = S j ∧ ∀ x r, bt_trackers b !! x = Some r → expiry r < bclock b + Z.of_nat j * ROUND.

Definition rounds_of (D : list ServiceDef) : nat := S (Z.to_nat (max_timeout D / ROUND + 1)).

Lemma within_due D b : within D b → due (rounds_of D) b.
Proof.
  intros [_ Ht _]. right. eexists. split; [reflexivity|]. intros x r Hx. destruct (Ht x r Hx) as [H1 H2].
  unfold expiry. pose proof (Z.mod_pos_bound (max_timeout D) ROUND ltac:(unfold ROUND; lia)).
  pose proof (Z.div_mod (max_timeout D) ROUND ltac:(unfold ROUND; lia)).
  assert (max_timeout D / ROUND + 1 ≤ Z.of_nat (Z.to_nat (max_timeout D / ROUND + 1))) by lia.
  unfold ROUND in *. nia.
Qed.

Definition weight (D : list ServiceDef) (k : nat) (b : Boot) : nat := unstarted b * S (rounds_of D) + k.

Lemma rounded_weight D k b b' :
  rounded D b b' → due k b → ∃ k', due k' b' ∧
    (weight D k' b' < weight D k b + (if waiting b' then 1 else 0))%nat.
Proof.
  intros [Hi Hc Hcase] Hd. unfold weight. destruct Hcase as [Hlt|(Hle & Htr & Hwt)].
  { exists (rounds_of D). split; [by apply within_due|]. nia. }
  destruct (decide (bt_trackers b = ∅)) as [He|He].
  - rewrite (Hwt He). exists k. split; [left|nia]. apply map_eq. intros x. rewrite lookup_empty.
    destruct (bt_trackers b' !! x) as [r|] eqn:E; [|done]. apply Htr in E as [E _].
    by rewrite He, lookup_empty in E.
  - destruct Hd as [|(j & -> & Hd)]; [done|]. exists j. split; [|nia]. destruct j as [|i].
    + left. apply map_eq. intros x. rewrite lookup_empty. destruct (bt_trackers b' !! x) as [r|] eqn:E; [|done].
      apply Htr in E as [E1 E2]. specialize (Hd x r E1). lia.
    + right. exists i. split; [done|]. intros x r E. apply Htr in E as [E _]. specialize (Hd x r E). lia.
Qed.

(** The rounds that only wait for oneshot services. *)
Fixpoint waiting_rounds (fuel : nat) (ok : bool) (rounds : list (list connection)) (b : Boot) : nat :=
  match rounds with
  | [] => 0
  | conns :: rounds =>
      match boot_round hierarchy load_defs g fuel ok conns b with
      | Ret false b' => (if waiting b' then 1 else 0) + waiting_rounds fuel ok rounds b'
      | _ => 0
      end
  end.

Lemma boot_loop_ends D fuel n ok rounds k b :
  (n < fuel)%nat → Forall calm_conns rounds → boot_inv g [] n [] b → within D b → due k b →
  (weight D k b + waiting_rounds fuel ok rounds b < length rounds)%nat →
  ∃ b', boot_loop hierarchy load_defs g fuel ok rounds b = Ret () b'.
Proof.
  intros Hf. revert k b. induction rounds as [|conns rounds IH]; intros k b Hc Hb Hi Hd Hw; cbn in Hw; [lia|].
  apply Forall_cons in Hc as [Hc Hcs]. cbn [boot_loop]. unfold mbind, St_bind.
  destruct (wpx_returns _ _ _ (round_rounded D fuel n ok conns b Hf Hc Hb Hi)) as (fin & b1 & E & Hb1 & Hr).
  rewrite E in *. destruct fin; [by eexists|]. destruct (rounded_weight D k b b1 (Hr eq_refl) Hd) as (k' & Hd' & Hlt).
  apply (IH k'); [done|done|by apply Hr|done|]. lia.
Qed.

Lemma no_oneshots_no_waiting D fuel n ok rounds b :
  (n < fuel)%nat → Forall calm_conns rounds → (∀ def, def ∈ D → ¬ is_oneshot def) →
  boot_inv g [] n [] b → within D b → waiting_rounds fuel ok rounds b = 0%nat.
Proof.
  intros Hf Hc Hno. revert b Hc. induction rounds as [|conns rounds IH]; intros b Hc Hb Hi; [done|].
  apply Forall_cons in Hc as [Hc Hcs]. cbn [waiting_rounds].
  destruct (wpx_returns _ _ _ (round_rounded D fuel n ok conns b Hf Hc Hb Hi)) as (fin & b1 & -> & Hb1 & Hr).
  destruct fin; [done|]. destruct (Hr eq_refl) as [Hi1 _ _]. rewrite IH by done.
  assert (waiting b1 = false) as ->; [|done]. unfold waiting.
  destruct (decide (bt_oneshots b1 = ∅)) as [He|[x Hx]%set_choose_L].
  - rewrite (bool_decide_eq_true_2 _ He). by rewrite andb_false_r.
  - exfalso. destruct Hi1 as [H1 _ H3]. destruct (H3 x Hx) as [Hs Ho].
    pose proof (boot_inv_workers _ _ _ Hb1 x Hs) as (w & Hw%get_worker_lookup)%is_worker_iff.
    assert (def_of (mg_tree (bmgr b1)) x = Some (wn_def w)) as E by (unfold def_of; by rewrite Hw).
    by apply (Hno (wn_def w)); [apply (H1 x)|apply Ho].
Qed.
End ends.

(** ** The whole startup *)

Section startup.
Context `{L : FiniteExits, HO : HashOrder, R : Rmp}.

Lemma size_list_le (l : list string) : (size (list_to_set l : gset string) ≤ length l)%nat.
Proof.
  induction l as [|x l IH]; cbn [list_to_set length]; [by rewrite size_empty|].
  rewrite size_union_alt, size_singleton.
  assert (size ((list_to_set l : gset string) ∖ {[x]}) ≤ size (list_to_set l : gset string))%nat
    by (apply subseteq_size; set_solver). lia.
Qed.

Definition startup_bound (defs : list ServiceDef) : nat := length defs * S (rounds_of defs).

Lemma start_within {E F} write_ok o chan (rs : result (list ServiceDef) E) (rp : result (list SupervisorDef) F) g b s :
  config_names_ok (loaded rp) (loaded rs) = true → svmgr_start write_ok o chan rs rp = Ret (g, b) s →
  wf_graph g ∧ boot_inv g [] (events o) [] b ∧ within g (loaded rs) b ∧ due 0 b ∧
  (weight g (loaded rs) 0 b ≤ startup_bound (loaded rs))%nat.
Proof.
  intros Hn Hs. pose proof (svmgr_start_spec write_ok o chan rs rp) as Hsp. rewrite Hs in Hsp.
  destruct Hsp as (Hb & _ & _ & -> & Ht & Ho). pose proof (build_wf _ _ Hb) as Hg.
  pose proof (boot_init_inv (loaded rp) (loaded rs) g (events o) s Hb Hn Ht ltac:(by rewrite Ho)) as Hi.
  destruct (build_represents (loaded rs)) as (g' & Hb' & Hrep). rewrite Hb in Hb'. injection Hb' as <-.
  split_and!; [done|done| |by left|].
  - destruct (build_tree_spec _ _ Hn) as (_ & _ & Hw & _). split; cbn.
    + intros x def Hx Hd. rewrite (rep_services _ _ _ _ Hrep) in Hx.
      apply elem_of_list_to_set, list_elem_of_fmap in Hx as (d & -> & Hin).
      destruct (Hw d Hin) as (w & Hw1 & Hw2 & _). unfold bmgr, def_of in Hd. cbn in Hd.
      rewrite Ht, Hw1 in Hd. cbn in Hd. injection Hd as <-. by rewrite Hw2.
    + intros x r. by rewrite lookup_empty.
    + set_solver.
  - unfold weight, startup_bound, unstarted. rewrite Nat.add_0_r. apply Nat.mul_le_mono_r.
    transitivity (size (services g)); [apply subseteq_size; set_solver|].
    rewrite (rep_services _ _ _ _ Hrep). rewrite <-(length_map sd_name (loaded rs)). apply size_list_le.
Qed.

(** C23: The startup loop that main enters ends, provided the names of the configuration are
    unambiguous (no two services and no two supervisors share a name, no service has the
    name of a supervisor or of the root, none names a service as its supervisor, and
    supervisors are listed after their parents) and finitely many exits are to come, so that
    reaping is not kept busy for ever by services that crash and come back: as long as
    nobody asks for a restart or a shutdown on the control socket, at most startup_bound
    rounds (the services times the longest readiness timeout, in rounds of 100 ms) do
    anything but wait for a oneshot service to exit, so that the loop returns once it is
    given more rounds than that; and without oneshot services no round only waits. *)
Theorem startup_ends {E F} hierarchy load_defs write_ok o chan (rs : result (list ServiceDef) E)
    (rp : result (list SupervisorDef) F) fuel rounds g b0 s :
  config_names_ok (loaded rp) (loaded rs) = true → (events o < fuel)%nat →
  svmgr_start write_ok o chan rs rp = Ret (g, b0) s → Forall calm_conns rounds →
  ((startup_bound (loaded rs) + waiting_rounds hierarchy load_defs g fuel write_ok rounds b0 < length rounds)%nat →
   ∃ b, boot_loop hierarchy load_defs g fuel write_ok rounds b0 = Ret () b) ∧
  ((∀ def, def ∈ loaded rs → ¬ is_oneshot def) →
   waiting_rounds hierarchy load_defs g fuel write_ok rounds b0 = 0%nat).
Proof.
  intros Hn He Hs Hc. destruct (start_within _ _ _ _ _ _ _ _ Hn Hs) as (Hg & Hb & Hi & Hd & Hw). split.
  - intros Hlt. eapply (boot_loop_ends hierarchy load_defs g Hg (loaded rs) fuel (events o)); [done..|]. lia.
  - intros Hno. by eapply (no_oneshots_no_waiting hierarchy load_defs g Hg (loaded rs) fuel (events o)).
Qed.
End startup.

(** ** A small startup *)

Lemma startup_ends_witness :
  startup_bound pair_svcs = 606%nat ∧
  ∃ b, boot_loop (K := scripted) (HO := elements_order) (R := fixmap_rmp) None no_defs (the_graph pair_svcs) 1
    true (replicate 607 []) pair_b0 = Ret () b.
Proof.
  assert (startup_bound pair_svcs = 606%nat) as HB by (vm_compute; reflexivity). split; [exact HB|].
  destruct (startup_ends (L := scripted_laws) (HO := elements_order) (R := fixmap_rmp) None no_defs true
    (quiet [10; 11]%Z) None (Ok pair_svcs : result _ ()) (Ok [] : result _ ()) 1 (replicate 607 [])
    (the_graph pair_svcs) pair_b0 pair_svm ltac:(vm_compute; reflexivity) ltac:(cbn; lia) pair_started)
    as [Hends Hwait].
  - apply Forall_replicate. intros t actions [= <-]. constructor.
  - apply Hends. rewrite Hwait.
    + change (loaded _) with pair_svcs. rewrite HB, length_replicate. lia.
    + intros def. change (loaded _) with pair_svcs. intros [-> | [-> | []%not_elem_of_nil]%elem_of_cons]%elem_of_cons;
        vm_compute; intros H; inversion H.
Defined.
