(* ===== verification/ProcMonitor.v ===== *)
(** * The process monitor (dynamod-svmgr/src/process/monitor.rs)

    A table of running service processes, by process id and by service.  The two
    maps stay inverse to each other as long as a service is registered only while
    it has no process; registering it over a running process leaves a stale entry. *)

From S2P Require Import Prelude Config World.

#[local] Open Scope list_scope.

Record ExitedChild := { ec_pid : Z; ec_exit_code : option Z; ec_signal : option Z }.

Record ProcessMonitor := {
  pid_to_service : gmap Z string;
  service_to_pid : gmap string Z;
  service_to_pidfd : gmap string Z;
}.

Definition pm_new : ProcessMonitor :=
  {| pid_to_service := ∅; service_to_pid := ∅; service_to_pidfd := ∅ |}.

Definition register (service_name : string) (pid : Z) (pidfd : option Z) (m : ProcessMonitor)
    : ProcessMonitor :=
  {| pid_to_service := <[pid := service_name]> (pid_to_service m);
     service_to_pid := <[service_name := pid]> (service_to_pid m);
     service_to_pidfd := match pidfd with
                         | Some fd => <[service_name := fd]> (service_to_pidfd m)
                         | None => service_to_pidfd m
                         end |}.

Definition service_for_pid (m : ProcessMonitor) (pid : Z) : option string := pid_to_service m !! pid.
Definition pid_for_service (m : ProcessMonitor) (service_name : string) : option Z :=
  service_to_pid m !! service_name.
Definition pm_is_running (m : ProcessMonitor) (service_name : string) : bool :=
  bool_decide (is_Some (service_to_pid m !! service_name)).
Definition pidfds `{HashOrder} (m : ProcessMonitor) : list (string * Z) :=
  map_iter "pidfds" (service_to_pidfd m).
Definition pm_count (m : ProcessMonitor) : nat := size (service_to_pid m).

Section reap.
Context `{K : OS}.

Definition unregister (service_name : string) (m : ProcessMonitor) (o : os) : ProcessMonitor * os :=
  ({| pid_to_service := match service_to_pid m !! service_name with
                        | Some pid => delete pid (pid_to_service m)
                        | None => pid_to_service m
                        end;
      service_to_pid := delete service_name (service_to_pid m);
      service_to_pidfd := delete service_name (service_to_pidfd m) |},
   match service_to_pidfd m !! service_name with Some fd => os_close fd o | None => o end).

(** A child that was waited for: reported when it is a registered one. *)
Definition reaped (child : ExitedChild) (m : ProcessMonitor) (o : os)
    : list (string * ExitedChild) * ProcessMonitor * os :=
  match pid_to_service m !! ec_pid child with
  | Some name => let '(m, o) := unregister name m o in ([(name, child)], m, o)
  | None => ([], m, o)
  end.

(** [reap_all]; [None] is running out of fuel. *)
Fixpoint reap_all (fuel : nat) (m : ProcessMonitor) (o : os)
    : option (list (string * ExitedChild) * ProcessMonitor * os) :=
  match fuel with
  | O => None
  | S fuel =>
      let go child o :=
        let '(exited, m, o) := reaped child m o in
        '(rest, m, o) ← reap_all fuel m o; Some (exited ++ rest, m, o) in
      match os_waitpid None o with
      | (Exited pid code, o) => go {| ec_pid := pid; ec_exit_code := Some code; ec_signal := None |} o
      | (Signaled pid sig, o) => go {| ec_pid := pid; ec_exit_code := None; ec_signal := Some sig |} o
      | (_, o) => Some ([], m, o)
      end
  end.
End reap.

(** ** The tables *)

(** The two maps are inverse to each other. *)
Definition pm_inverse (m : ProcessMonitor) : Prop :=
  ∀ p s, pid_to_service m !! p = Some s ↔ service_to_pid m !! s = Some p.

Lemma register_inverse s p fd m :
  pm_inverse m → service_to_pid m !! s = None → pid_to_service m !! p = None →
  pm_inverse (register s p fd m).
Proof.
  intros Hi Hs Hp q r. cbn. rewrite !lookup_insert. specialize (Hi q r).
  repeat case_decide; subst; [done| | |done].
  - split; [congruence|]. intros Hr. apply Hi in Hr. congruence.
  - split; [|congruence]. intros Hr. apply Hi in Hr. congruence.
Qed.

Section reap_facts.
Context `{L : FiniteExits}.

(** Unregistering removes one service and its process, nothing else. *)
Lemma unregister_spec s p m o :
  pm_inverse m → service_to_pid m !! s = Some p →
  let '(m', o') := unregister s m o in
  pm_inverse m' ∧ service_to_pid m' = delete s (service_to_pid m) ∧
  pid_to_service m' = delete p (pid_to_service m) ∧ frame o o'.
Proof.
  intros Hi Hs. unfold unregister. rewrite Hs. split; [|split; [done|split; [done|]]].
  - intros q r. cbn. rewrite !lookup_delete_Some, (Hi q r). apply (Hi p s) in Hs as Hp.
    split; (intros [Hne Hq]; split; [|done]); intros <-; [congruence|]. apply (Hi p r) in Hq. congruence.
  - destruct (service_to_pidfd m !! s); [apply close_frame|reflexivity].
Qed.

(** What a reaping reports of the services of [m], [m'] being left: each once, with
    its own process, and the others are as before. *)
Definition reports (m : ProcessMonitor) (exited : list (string * ExitedChild)) (m' : ProcessMonitor) : Prop :=
  pm_inverse m' ∧ NoDup exited.*1 ∧
  (∀ name c, (name, c) ∈ exited → pid_for_service m name = Some (ec_pid c)) ∧
  ∀ s, pid_for_service m' s = if decide (s ∈ exited.*1) then None else pid_for_service m s.

Lemma reports_cons m name c m1 rest m2 :
  pid_for_service m name = Some (ec_pid c) → service_to_pid m1 = delete name (service_to_pid m) →
  reports m1 rest m2 → reports m ((name, c) :: rest) m2.
Proof.
  intros Hn Hm1 (Hi & Hnd & Hpid & Hrest). unfold pid_for_service in *. rewrite Hm1 in *.
  assert (name ∉ rest.*1) as Hnin.
  { intros ([n' c'] & -> & Hin)%list_elem_of_fmap. apply Hpid in Hin. by rewrite lookup_delete_eq in Hin. }
  split; [done|]. split; [cbn; by constructor|]. split.
  - intros n' c' [[= -> ->]|Hin]%elem_of_cons; [done|]. apply Hpid in Hin. unfold pid_for_service. by apply lookup_delete_Some in Hin as [_ ?].
  - intros s. unfold pid_for_service. rewrite Hrest. cbn. destruct (decide (s = name)) as [->|Hne].
    + rewrite lookup_delete_eq, (decide_True (P := name ∈ name :: rest.*1)) by (by apply elem_of_cons; left).
      by case_decide.
    + rewrite lookup_delete_ne by done. apply decide_ext. rewrite elem_of_cons. naive_solver.
Qed.

Lemma reap_all_spec fuel m o :
  pm_inverse m → events o < fuel →
  ∃ exited m' o', reap_all fuel m o = Some (exited, m', o') ∧ reports m exited m'.
Proof.
  revert m o. induction fuel as [|fuel IH]; intros m o Hi He; [lia|]. cbn [reap_all].
  assert (reports m [] m) as Hnil.
  { split; [done|]. split; [constructor|]. split; [by intros ? ? ?%elem_of_nil|]. intros s.
    rewrite decide_False; [done|]. apply not_elem_of_nil. }
  pose proof (wait_law None o) as (_ & _ & Hw). destruct (os_waitpid None o) as [r o1]. cbn [fst snd] in Hw.
  assert (∀ child, events o1 < events o → ∃ exited m' o',
    (let '(exited, m0, o0) := reaped child m o1 in
     '(rest, m0, o0) ← reap_all fuel m0 o0; Some (exited ++ rest, m0, o0)) = Some (exited, m', o') ∧
    reports m exited m') as Hgo.
  { intros child Hev. unfold reaped. destruct (pid_to_service m !! ec_pid child) as [name|] eqn:E.
    - apply Hi in E as Hp. pose proof (unregister_spec name _ m o1 Hi Hp) as Hu.
      destruct (unregister name m o1) as [m1 o2]. destruct Hu as (Hi1 & Hs1 & _ & (_ & Hfe & _)).
      destruct (IH m1 o2 Hi1 ltac:(lia)) as (rest & m2 & o3 & -> & Hr). cbn.
      eexists _, _, _. split; [done|]. by eapply reports_cons.
    - destruct (IH m o1 Hi ltac:(lia)) as (rest & m2 & o3 & -> & Hr). cbn. by eexists _, _, _. }
  destruct r; deex; try (by eexists _, _, _); apply Hgo; lia.
Qed.
End reap_facts.

(** From tables that are inverse to each other, reap_all returns, reports each exited
    service once, with the process it was registered with, forgets exactly these, and leaves
    the tables inverse. *)
Theorem reap_all_reports `{L : FiniteExits} fuel m o :
  pm_inverse m → events o < fuel →
  ∃ exited m' o', reap_all fuel m o = Some (exited, m', o') ∧ reports m exited m'.
Proof. apply reap_all_spec. Qed.

(** Two services are running; an unknown child and the first of them exit. *)
Definition two_procs : ProcessMonitor := register "b" 21 (Some 5%Z) (register "a" 20 None pm_new).
Definition two_exits : script :=
  {| sc_clock := 0; sc_wait := [Exited 99 0; Signaled 20 9]; sc_pids := []; sc_live := {[20; 21; 99]}%Z;
     sc_history := []; sc_files := ∅ |}.
Definition two_reaped : option (list (string * ExitedChild) * ProcessMonitor * script) :=
  reap_all (K := scripted) 3 two_procs two_exits.
Lemma reap_all_reports_witness :
  ∃ m' o', two_reaped
    = Some ([("a", {| ec_pid := 20; ec_exit_code := None; ec_signal := Some 9%Z |})], m', o') ∧
    pid_for_service m' "b" = Some 21%Z.
Proof.
  assert (pm_inverse two_procs) as Hi.
  { unfold two_procs. apply register_inverse; [apply register_inverse| |]; try reflexivity.
    intros p s. cbn. rewrite !lookup_empty. split; discriminate. }
  destruct (reap_all_reports (L := scripted_laws) 3 two_procs two_exits Hi ltac:(cbn; lia))
    as (exited & m' & o' & E & _ & _ & _ & Hrest).
  assert (exited = [("a", {| ec_pid := 20; ec_exit_code := None; ec_signal := Some 9%Z |})]) as ->.
  { assert ((λ x, x.1.1) <$> two_reaped
      = Some [("a", {| ec_pid := 20; ec_exit_code := None; ec_signal := Some 9%Z |})]) as Hv
      by (vm_compute; reflexivity).
    unfold two_reaped in Hv. rewrite E in Hv. by injection Hv as ->. }
  exists m', o'. split; [exact E|]. rewrite Hrest. vm_compute. reflexivity.
Defined.

(** Registering a service over a running process leaves the old process pointing to it:
    when that process exits, the new one is forgotten. *)
Example stale_registration :
  let m := register "a" 31 None (register "a" 30 None pm_new) in
  let o := {| sc_clock := 0; sc_wait := [Exited 30 0]; sc_pids := []; sc_live := {[30; 31]}%Z;
              sc_history := []; sc_files := ∅ |} in
  (λ r, pid_for_service r.1.2 "a") <$> reap_all (K := scripted) 2 m o = Some None.
Proof. vm_compute. reflexivity. Qed.
