(* ===== verification/LoginConfig.v ===== *)
(** * Configuration of the login manager (rust/dynamod-logind/src/config.rs)

    The reader of logind.conf: lines of [Key=value], comments and section headers
    skipped, unknown keys and values reported and skipped.  A [Duration] is its
    number of seconds, since the file only sets whole seconds.  The theorem says
    that every field holds the value of the last valid assignment to its key. *)

From S2P Require Import Prelude RustStr.

#[local] Open Scope string_scope.
#[local] Open Scope Z_scope.

Inductive HandleAction :=
| Ignore | Poweroff | Reboot | Halt | Suspend | Hibernate | HybridSleep | Lock.
#[export] Instance HandleAction_eq_dec : EqDecision HandleAction.
Proof. solve_decision. Defined.

Definition HandleAction_parse (s : string) : option HandleAction :=
  let s := trim s in
  if bool_decide (s = "ignore") then Some Ignore
  else if bool_decide (s = "poweroff") then Some Poweroff
  else if bool_decide (s = "reboot") then Some Reboot
  else if bool_decide (s = "halt") then Some Halt
  else if bool_decide (s = "suspend") then Some Suspend
  else if bool_decide (s = "hibernate") then Some Hibernate
  else if bool_decide (s = "hybrid-sleep") then Some HybridSleep
  else if bool_decide (s = "lock") then Some Lock
  else None.

Definition inhibit_what (a : HandleAction) : string :=
  match a with
  | Poweroff | Reboot | Halt => "shutdown"
  | Suspend | HybridSleep => "sleep"
  | Hibernate => "sleep"
  | Lock | Ignore => ""
  end.

Record LogindConfig := {
  handle_power_key : HandleAction;
  handle_suspend_key : HandleAction;
  handle_hibernate_key : HandleAction;
  handle_lid_switch : HandleAction;
  handle_lid_switch_external_power : HandleAction;
  handle_lid_switch_docked : HandleAction;
  n_auto_vts : Z;
  kill_user_processes : bool;
  inhibit_delay_max : Z;
  user_stop_delay : Z;
  holdoff_timeout : Z;
  runtime_directory_size : string;
  idle_action : HandleAction;
  idle_action_sec : Z;
}.

Definition LogindConfig_default : LogindConfig := {|
  handle_power_key := Poweroff;
  handle_suspend_key := Suspend;
  handle_hibernate_key := Hibernate;
  handle_lid_switch := Suspend;
  handle_lid_switch_external_power := Suspend;
  handle_lid_switch_docked := Ignore;
  n_auto_vts := 6;
  kill_user_processes := false;
  inhibit_delay_max := 5;
  user_stop_delay := 10;
  holdoff_timeout := 30;
  runtime_directory_size := "10%";
  idle_action := Ignore;
  idle_action_sec := 30 * 60;
|}.

(** [str::to_ascii_lowercase] *)
Definition ascii_lower (c : Ascii.ascii) : Ascii.ascii :=
  let n := Ascii.N_of_ascii c in
  if ((65 <=? n) && (n <=? 90))%N then Ascii.ascii_of_N (n + 32) else c.
Fixpoint to_ascii_lowercase (s : string) : string :=
  match s with
  | "" => ""
  | String c s => String (ascii_lower c) (to_ascii_lowercase s)
  end.

Definition parse_bool (s : string) : option bool :=
  let s := to_ascii_lowercase (trim s) in
  if bool_decide (s ∈ ["yes"; "true"; "on"; "1"]) then Some true
  else if bool_decide (s ∈ ["no"; "false"; "off"; "0"]) then Some false
  else None.

(** The products wrap in the release profile. *)
Definition parse_duration_sec (s : string) : option Z :=
  let s := trim s in
  match parse_u64 s with
  | Some n => Some n
  | None =>
  match strip_suffix "min" s with
  | Some num => (λ n, wrap_u64 (n * 60)) <$> parse_u64 (trim num)
  | None =>
  match strip_suffix "h" s with
  | Some num => (λ n, wrap_u64 (n * 3600)) <$> parse_u64 (trim num)
  | None =>
  match strip_suffix "s" s with
  | Some num => parse_u64 (trim num)
  | None => None
  end end end end.

(** A field set when the value parses, kept otherwise. *)
Definition set_if {A} (v : option A) (set : A → LogindConfig → LogindConfig)
    (c : LogindConfig) : LogindConfig :=
  match v with Some a => set a c | None => c end.

Definition set_actions (p s h l e d i : HandleAction) (c : LogindConfig) : LogindConfig := {|
  handle_power_key := p; handle_suspend_key := s; handle_hibernate_key := h;
  handle_lid_switch := l; handle_lid_switch_external_power := e;
  handle_lid_switch_docked := d; n_auto_vts := n_auto_vts c;
  kill_user_processes := kill_user_processes c; inhibit_delay_max := inhibit_delay_max c;
  user_stop_delay := user_stop_delay c; holdoff_timeout := holdoff_timeout c;
  runtime_directory_size := runtime_directory_size c; idle_action := i;
  idle_action_sec := idle_action_sec c |}.

(** The assignment [self.handle_… = a] of one key. *)
Definition set_action (key : string) (a : HandleAction) (c : LogindConfig) : LogindConfig :=
  let pick (k : string) (old : HandleAction) := if bool_decide (key = k) then a else old in
  set_actions (pick "HandlePowerKey" (handle_power_key c))
    (pick "HandleSuspendKey" (handle_suspend_key c))
    (pick "HandleHibernateKey" (handle_hibernate_key c))
    (pick "HandleLidSwitch" (handle_lid_switch c))
    (pick "HandleLidSwitchExternalPower" (handle_lid_switch_external_power c))
    (pick "HandleLidSwitchDocked" (handle_lid_switch_docked c))
    (pick "IdleAction" (idle_action c)) c.

Definition set_rest (n : Z) (k : bool) (dm us ho : Z) (rs : string) (ia : Z)
    (c : LogindConfig) : LogindConfig := {|
  handle_power_key := handle_power_key c; handle_suspend_key := handle_suspend_key c;
  handle_hibernate_key := handle_hibernate_key c; handle_lid_switch := handle_lid_switch c;
  handle_lid_switch_external_power := handle_lid_switch_external_power c;
  handle_lid_switch_docked := handle_lid_switch_docked c; n_auto_vts := n;
  kill_user_processes := k; inhibit_delay_max := dm; user_stop_delay := us;
  holdoff_timeout := ho; runtime_directory_size := rs; idle_action := idle_action c;
  idle_action_sec := ia |}.

Definition set_duration (key : string) (d : Z) (c : LogindConfig) : LogindConfig :=
  let pick (k : string) (old : Z) := if bool_decide (key = k) then d else old in
  set_rest (n_auto_vts c) (kill_user_processes c)
    (pick "InhibitDelayMaxSec" (inhibit_delay_max c))
    (pick "UserStopDelaySec" (user_stop_delay c))
    (pick "HoldoffTimeoutSec" (holdoff_timeout c)) (runtime_directory_size c)
    (pick "IdleActionSec" (idle_action_sec c)) c.

Definition set_n_auto_vts (n : Z) (c : LogindConfig) : LogindConfig :=
  set_rest n (kill_user_processes c) (inhibit_delay_max c) (user_stop_delay c)
    (holdoff_timeout c) (runtime_directory_size c) (idle_action_sec c) c.
Definition set_kill_user_processes (b : bool) (c : LogindConfig) : LogindConfig :=
  set_rest (n_auto_vts c) b (inhibit_delay_max c) (user_stop_delay c)
    (holdoff_timeout c) (runtime_directory_size c) (idle_action_sec c) c.
Definition set_runtime_directory_size (s : string) (c : LogindConfig) : LogindConfig :=
  set_rest (n_auto_vts c) (kill_user_processes c) (inhibit_delay_max c) (user_stop_delay c)
    (holdoff_timeout c) s (idle_action_sec c) c.

Definition action_keys : list string :=
  ["HandlePowerKey"; "HandleSuspendKey"; "HandleHibernateKey"; "HandleLidSwitch";
   "HandleLidSwitchExternalPower"; "HandleLidSwitchDocked"; "IdleAction"].
Definition duration_keys : list string :=
  ["InhibitDelayMaxSec"; "UserStopDelaySec"; "HoldoffTimeoutSec"; "IdleActionSec"].

(** [Config::apply], less its log messages. *)
Definition apply (key value : string) (c : LogindConfig) : LogindConfig :=
  if bool_decide (key ∈ action_keys) then set_if (HandleAction_parse value) (set_action key) c
  else if bool_decide (key = "NAutoVTs") then set_if (parse_u32 value) set_n_auto_vts c
  else if bool_decide (key = "KillUserProcesses") then
    set_if (parse_bool value) set_kill_user_processes c
  else if bool_decide (key ∈ duration_keys) then
    set_if (parse_duration_sec value) (set_duration key) c
  else if bool_decide (key = "RuntimeDirectorySize") then set_runtime_directory_size value c
  else c.

(** The assignment a line of the file makes, if it makes one: the body of the
    loop of [Config::merge] up to its call of [apply]. *)
Definition line_assignment (line : string) : option (string * string) :=
  let trimmed := trim line in
  if bool_decide (trimmed = "") || starts_with "#" trimmed || starts_with ";" trimmed then None
  else if starts_with "[" trimmed && bool_decide (is_Some (strip_suffix "]" trimmed)) then None
  else match split_once "=" trimmed with
    | None => None
    | Some (key, value) => Some (trim key, trim value)
    end.

Fixpoint merge_lines (ls : list string) (c : LogindConfig) : LogindConfig :=
  match ls with
  | [] => c
  | line :: ls =>
      merge_lines ls (match line_assignment line with
                      | Some (key, value) => apply key value c
                      | None => c
                      end)
  end.

Definition merge (text : string) (c : LogindConfig) : LogindConfig := merge_lines (lines text) c.

Definition load_from (read_to_string : string → result string string) (path : string)
  : LogindConfig :=
  match read_to_string path with
  | Ok s => merge s LogindConfig_default
  | Err _ => LogindConfig_default
  end.

(** ** Examples: the unit tests of the module *)

Example merge_example :
  let c := merge (join (String newline "")
    ["# comment"; "[Login]"; "  HandleLidSwitch=ignore"; "HandlePowerKey = poweroff"; "NoEquals";
     "HandleSuspendKey=hybrid-sleep"; "HandleHibernateKey=banana"; "NAutoVTs=4"; "NotAKey=blah";
     "UserStopDelaySec=2min"; "KillUserProcesses=ON"]) LogindConfig_default in
  (handle_lid_switch c, handle_suspend_key c, handle_hibernate_key c, n_auto_vts c,
   user_stop_delay c, kill_user_processes c)
  = (Ignore, HybridSleep, Hibernate, 4, 120, true).
Proof. vm_compute. reflexivity. Qed.

Example parse_duration_sec_examples :
  map parse_duration_sec ["5"; "30s"; "2min"; "1 h"; "garbage"; "5m"; "307445734561825861min"]
  = [Some 5; Some 30; Some 120; Some 3600; None; None; Some 44].
Proof. vm_compute. reflexivity. Qed.

(** ** What a file sets *)

(** The value of the last assignment to [key] in [ls] that [parse] accepts. *)
Definition last_valid {A} (key : string) (parse : string → option A) (ls : list string) : option A :=
  last (omap (λ kv : string * string,
    if bool_decide (kv.1 = key) then parse kv.2 else None) (omap line_assignment ls)).

Lemma last_valid_cons {A} key (parse : string → option A) line ls :
  last_valid key parse (line :: ls) =
  match last_valid key parse ls with
  | Some a => Some a
  | None => '(k, v) ← line_assignment line; if bool_decide (k = key) then parse v else None
  end.
Proof.
  unfold last_valid. cbn [omap list_omap]. destruct (line_assignment line) as [[k v]|]; cbn.
  2: by destruct (last _).
  destruct (if bool_decide (k = key) then parse v else None) as [a|]; cbn.
  2: by destruct (last _).
  rewrite last_cons. done.
Qed.

(** A field [get] is driven by [key] and [parse] if [apply] sets it exactly for this key
    and a valid value. *)
Definition driven {A} (get : LogindConfig → A) (key : string) (parse : string → option A) : Prop :=
  ∀ k v c, get (apply k v c) =
    if bool_decide (k = key) then default (get c) (parse v) else get c.

Lemma driven_merge_lines {A} (get : LogindConfig → A) key parse ls c :
  driven get key parse → get (merge_lines ls c) = default (get c) (last_valid key parse ls).
Proof.
  intros Hd. revert c. induction ls as [|line ls IH]; intros c; [done|].
  cbn [merge_lines]. rewrite IH, last_valid_cons.
  destruct (last_valid key parse ls) as [a|]; [done|]. cbn.
  destruct (line_assignment line) as [[k v]|]; [|done]. cbn. rewrite Hd. by case_bool_decide.
Qed.

Definition known_keys : list string :=
  action_keys ++ duration_keys ++ ["NAutoVTs"; "KillUserProcesses"; "RuntimeDirectorySize"].

(** A key of no field changes nothing. *)
Lemma apply_unknown k v c : k ∉ known_keys → apply k v c = c.
Proof.
  unfold known_keys, apply. intros Hk. apply not_elem_of_app in Hk as [H1 Hk].
  apply not_elem_of_app in Hk as [H2 Hk]. rewrite !not_elem_of_cons in Hk.
  rewrite !bool_decide_eq_false_2 by naive_solver. done.
Qed.

(** A field is driven by its key if each of the known keys acts on it as stated. *)
Lemma driven_known {A} (get : LogindConfig → A) key parse :
  key ∈ known_keys →
  Forall (λ k, ∀ v c, get (apply k v c) =
    if bool_decide (k = key) then default (get c) (parse v) else get c) known_keys →
  driven get key parse.
Proof.
  intros Hkey Hall k v c. destruct (decide (k ∈ known_keys)) as [Hk|Hk].
  - by eapply Forall_forall in Hall.
  - rewrite apply_unknown, bool_decide_eq_false_2; [done|congruence|done].
Qed.

Ltac driven_tac :=
  apply driven_known; [by apply (bool_decide_unpack _); vm_compute|];
  unfold known_keys, action_keys, duration_keys; cbn [app];
  repeat (apply Forall_cons; split;
    [intros v []; lazy -[HandleAction_parse parse_bool parse_duration_sec parse_u32];
     try destruct (HandleAction_parse v); try destruct (parse_bool v);
     try destruct (parse_duration_sec v); try destruct (parse_u32 v); reflexivity|]);
  apply Forall_nil_2.

(** C37: Merging a configuration text into a configuration gives every option the value of
    its last line that parses, and leaves it as it was if there is none. *)
Theorem merge_last_valid text c :
  let c' := merge text c in
  let set {A} (get : LogindConfig → A) key parse :=
    get c' = default (get c) (last_valid key parse (lines text)) in
  set handle_power_key "HandlePowerKey" HandleAction_parse ∧
  set handle_suspend_key "HandleSuspendKey" HandleAction_parse ∧
  set handle_hibernate_key "HandleHibernateKey" HandleAction_parse ∧
  set handle_lid_switch "HandleLidSwitch" HandleAction_parse ∧
  set handle_lid_switch_external_power "HandleLidSwitchExternalPower" HandleAction_parse ∧
  set handle_lid_switch_docked "HandleLidSwitchDocked" HandleAction_parse ∧
  set idle_action "IdleAction" HandleAction_parse ∧
  set n_auto_vts "NAutoVTs" parse_u32 ∧
  set kill_user_processes "KillUserProcesses" parse_bool ∧
  set inhibit_delay_max "InhibitDelayMaxSec" parse_duration_sec ∧
  set user_stop_delay "UserStopDelaySec" parse_duration_sec ∧
  set holdoff_timeout "HoldoffTimeoutSec" parse_duration_sec ∧
  set idle_action_sec "IdleActionSec" parse_duration_sec ∧
  set runtime_directory_size "RuntimeDirectorySize" Some.
Proof. cbv zeta. repeat split; apply driven_merge_lines; driven_tac. Qed.
