(* ===== verification/LoginState.v ===== *)
(** * The login state (rust/dynamod-logind/src/state.rs)

    Sessions, seats, users and inhibitors, and the operations on them that every
    D-Bus handler goes through: [create_session], [remove_session],
    [activate_session].  The process-wide counters and the clocks are arguments.
    [login_inv] is the consistency of the tables; the theorems say that every
    operation keeps it, and what each of them does to a seat. *)

From S2P Require Import Prelude RustStr LoginConfig.

#[local] Open Scope string_scope.
#[local] Open Scope Z_scope.

(** ** Data *)

Inductive SessionState := SessionOnline | SessionActive | SessionClosing.
#[export] Instance SessionState_eq_dec : EqDecision SessionState.
Proof. solve_decision. Defined.

Definition SessionState_as_str (s : SessionState) : string :=
  match s with
  | SessionOnline => "online" | SessionActive => "active" | SessionClosing => "closing"
  end.

Record Session := {
  ss_id : string;
  ss_uid : Z;
  ss_user_name : string;
  ss_seat : option string;
  ss_tty : option string;
  ss_display : option string;
  ss_session_type : string;
  ss_class : string;
  ss_desktop : string;
  ss_state : SessionState;
  ss_active : bool;
  ss_leader_pid : Z;
  ss_vtnr : Z;
  ss_remote : bool;
  ss_remote_host : string;
  ss_remote_user : string;
  ss_service : string;
  ss_controller : option string;
  ss_devices : gmap (Z * Z) Z;
  ss_idle_hint : bool;
  ss_idle_since_usec : Z;
  ss_idle_since_monotonic : Z;
  ss_locked_hint : bool;
  ss_created_realtime_usec : Z;
  ss_created_monotonic : Z;
}.

Record Seat := {
  se_id : string;
  se_sessions : list string;
  se_active_session : option string;
  se_can_graphical : bool;
  se_can_tty : bool;
  se_idle_hint : bool;
  se_idle_since_usec : Z;
  se_idle_since_monotonic : Z;
}.

Inductive UserState := UserOnline | UserActive | UserLingering | UserClosing.
#[export] Instance UserState_eq_dec : EqDecision UserState.
Proof. solve_decision. Defined.

Definition UserState_as_str (s : UserState) : string :=
  match s with
  | UserOnline => "online" | UserActive => "active"
  | UserLingering => "lingering" | UserClosing => "closing"
  end.

Record LoginUser := {
  us_uid : Z;
  us_name : string;
  us_sessions : list string;
  us_display_session : option string;
  us_state : UserState;
  us_idle_hint : bool;
  us_idle_since_usec : Z;
  us_idle_since_monotonic : Z;
}.

(** inhibitor.rs; [pipe_read] is the number of the descriptor. *)
Record Inhibitor := {
  in_what : string;
  in_who : string;
  in_why : string;
  in_mode : string;
  in_uid : Z;
  in_pid : Z;
  in_cookie : Z;
  in_pipe_read : Z;
}.

(** A [JoinHandle] of a cleanup task is the number of the task. *)
Record LoginState := {
  ls_sessions : gmap string Session;
  ls_seats : gmap string Seat;
  ls_users : gmap Z LoginUser;
  ls_pid_to_session : gmap Z string;
  ls_inhibitors : list Inhibitor;
  ls_config : LogindConfig;
  ls_pending_user_cleanups : gmap Z Z;
}.

(** ** Field updates *)

Definition ss_with_active (st : SessionState) (a : bool) (s : Session) : Session := {|
  ss_id := ss_id s; ss_uid := ss_uid s; ss_user_name := ss_user_name s; ss_seat := ss_seat s;
  ss_tty := ss_tty s; ss_display := ss_display s; ss_session_type := ss_session_type s;
  ss_class := ss_class s; ss_desktop := ss_desktop s; ss_state := st; ss_active := a;
  ss_leader_pid := ss_leader_pid s; ss_vtnr := ss_vtnr s; ss_remote := ss_remote s;
  ss_remote_host := ss_remote_host s; ss_remote_user := ss_remote_user s;
  ss_service := ss_service s; ss_controller := ss_controller s; ss_devices := ss_devices s;
  ss_idle_hint := ss_idle_hint s; ss_idle_since_usec := ss_idle_since_usec s;
  ss_idle_since_monotonic := ss_idle_since_monotonic s; ss_locked_hint := ss_locked_hint s;
  ss_created_realtime_usec := ss_created_realtime_usec s;
  ss_created_monotonic := ss_created_monotonic s |}.

(** The fields a session's own D-Bus object writes. *)
Definition ss_with_control (ty : string) (c : option string) (d : gmap (Z * Z) Z)
    (i : bool) (u : Z) (s : Session) : Session := {|
  ss_id := ss_id s; ss_uid := ss_uid s; ss_user_name := ss_user_name s; ss_seat := ss_seat s;
  ss_tty := ss_tty s; ss_display := ss_display s; ss_session_type := ty;
  ss_class := ss_class s; ss_desktop := ss_desktop s; ss_state := ss_state s;
  ss_active := ss_active s; ss_leader_pid := ss_leader_pid s; ss_vtnr := ss_vtnr s;
  ss_remote := ss_remote s; ss_remote_host := ss_remote_host s;
  ss_remote_user := ss_remote_user s; ss_service := ss_service s; ss_controller := c;
  ss_devices := d; ss_idle_hint := i; ss_idle_since_usec := u;
  ss_idle_since_monotonic := ss_idle_since_monotonic s; ss_locked_hint := ss_locked_hint s;
  ss_created_realtime_usec := ss_created_realtime_usec s;
  ss_created_monotonic := ss_created_monotonic s |}.

Definition se_with (l : list string) (a : option string) (s : Seat) : Seat := {|
  se_id := se_id s; se_sessions := l; se_active_session := a;
  se_can_graphical := se_can_graphical s; se_can_tty := se_can_tty s;
  se_idle_hint := se_idle_hint s; se_idle_since_usec := se_idle_since_usec s;
  se_idle_since_monotonic := se_idle_since_monotonic s |}.

Definition us_with (l : list string) (d : option string) (st : UserState) (u : LoginUser)
  : LoginUser := {|
  us_uid := us_uid u; us_name := us_name u; us_sessions := l; us_display_session := d;
  us_state := st; us_idle_hint := us_idle_hint u; us_idle_since_usec := us_idle_since_usec u;
  us_idle_since_monotonic := us_idle_since_monotonic u |}.

Definition ls_with_tables (ss : gmap string Session) (se : gmap string Seat)
    (us : gmap Z LoginUser) (ps : gmap Z string) (st : LoginState) : LoginState := {|
  ls_sessions := ss; ls_seats := se; ls_users := us; ls_pid_to_session := ps;
  ls_inhibitors := ls_inhibitors st; ls_config := ls_config st;
  ls_pending_user_cleanups := ls_pending_user_cleanups st |}.

Definition ls_with_sessions (ss : gmap string Session) (st : LoginState) : LoginState :=
  ls_with_tables ss (ls_seats st) (ls_users st) (ls_pid_to_session st) st.

Definition ls_with_inhibitors (l : list Inhibitor) (st : LoginState) : LoginState := {|
  ls_sessions := ls_sessions st; ls_seats := ls_seats st; ls_users := ls_users st;
  ls_pid_to_session := ls_pid_to_session st; ls_inhibitors := l; ls_config := ls_config st;
  ls_pending_user_cleanups := ls_pending_user_cleanups st |}.

Definition ls_with_cleanups (m : gmap Z Z) (st : LoginState) : LoginState := {|
  ls_sessions := ls_sessions st; ls_seats := ls_seats st; ls_users := ls_users st;
  ls_pid_to_session := ls_pid_to_session st; ls_inhibitors := ls_inhibitors st;
  ls_config := ls_config st; ls_pending_user_cleanups := m |}.

(** ** Operations *)

Definition with_config (c : LogindConfig) : LoginState := {|
  ls_sessions := ∅; ls_seats := ∅; ls_users := ∅; ls_pid_to_session := ∅;
  ls_inhibitors := []; ls_config := c; ls_pending_user_cleanups := ∅ |}.

Definition LoginState_new : LoginState := with_config LogindConfig_default.

Definition create_seat0 (st : LoginState) : LoginState :=
  ls_with_tables (ls_sessions st)
    (<["seat0" := {| se_id := "seat0"; se_sessions := []; se_active_session := None;
        se_can_graphical := true; se_can_tty := true; se_idle_hint := false;
        se_idle_since_usec := 0; se_idle_since_monotonic := 0 |}]> (ls_seats st))
    (ls_users st) (ls_pid_to_session st) st.

(** [fetch_add] on the static counters: the value before, as text for a session, and
    the counter after. *)
Definition next_session_id (counter : Z) : string * Z := (to_string counter, wrap_u64 (counter + 1)).
Definition next_inhibitor_cookie (counter : Z) : Z * Z := (counter, wrap_u64 (counter + 1)).

Record session_request := {
  rq_uid : Z;
  rq_user_name : string;
  rq_leader_pid : Z;
  rq_service : string;
  rq_session_type : string;
  rq_class : string;
  rq_desktop : string;
  rq_seat_id : option string;
  rq_vtnr : Z;
  rq_tty : option string;
  rq_display : option string;
  rq_remote : bool;
  rq_remote_user : string;
  rq_remote_host : string;
}.

Definition is_first_on_seat (seat_id : option string) (st : LoginState) : bool :=
  match sid ← seat_id; ls_seats st !! sid with
  | Some s => bool_decide (se_active_session s = None)
  | None => true
  end.

Definition new_session (id : string) (now_usec now : Z) (first : bool) (rq : session_request)
  : Session := {|
  ss_id := id; ss_uid := rq_uid rq; ss_user_name := rq_user_name rq; ss_seat := rq_seat_id rq;
  ss_tty := rq_tty rq; ss_display := rq_display rq; ss_session_type := rq_session_type rq;
  ss_class := rq_class rq; ss_desktop := rq_desktop rq;
  ss_state := if first then SessionActive else SessionOnline; ss_active := first;
  ss_leader_pid := rq_leader_pid rq; ss_vtnr := rq_vtnr rq; ss_remote := rq_remote rq;
  ss_remote_host := rq_remote_host rq; ss_remote_user := rq_remote_user rq;
  ss_service := rq_service rq; ss_controller := None; ss_devices := ∅; ss_idle_hint := false;
  ss_idle_since_usec := 0; ss_idle_since_monotonic := 0; ss_locked_hint := false;
  ss_created_realtime_usec := now_usec; ss_created_monotonic := now |}.

(** The session added to its seat, if there is such a seat. *)
Definition seat_add (id : string) (first : bool) (seat_id : option string)
    (seats : gmap string Seat) : gmap string Seat :=
  match seat_id with
  | None => seats
  | Some sid =>
      match seats !! sid with
      | None => seats
      | Some seat =>
          <[sid := se_with (se_sessions seat ++ [id])
             (if first then Some id else se_active_session seat) seat]> seats
      end
  end.

(** The session added to its user, made if needed. *)
Definition user_add (id : string) (first : bool) (rq : session_request)
    (users : gmap Z LoginUser) : gmap Z LoginUser :=
  let user := default {| us_uid := rq_uid rq; us_name := rq_user_name rq; us_sessions := [];
      us_display_session := None; us_state := UserOnline; us_idle_hint := false;
      us_idle_since_usec := 0; us_idle_since_monotonic := 0 |} (users !! rq_uid rq) in
  <[rq_uid rq := us_with (us_sessions user ++ [id])
     (if first then Some id else us_display_session user)
     (if first then UserActive else us_state user) user]> users.

(** [LoginState::create_session], with the counter and the two clocks it reads. *)
Definition create_session (counter now_usec now : Z) (rq : session_request) (st : LoginState)
  : string * Z * LoginState :=
  let '(id, counter) := next_session_id counter in
  let first := is_first_on_seat (rq_seat_id rq) st in
  (id, counter,
   ls_with_tables
     (<[id := new_session id now_usec now first rq]> (ls_sessions st))
     (seat_add id first (rq_seat_id rq) (ls_seats st))
     (user_add id first rq (ls_users st))
     (<[rq_leader_pid rq := id]> (ls_pid_to_session st)) st).

(** [Vec::retain(|s| s != id)] *)
Definition retain_not (id : string) (l : list string) : list string := filter (λ s, s ≠ id) l.

(** The session taken off its seat; the first session left is activated if it was the
    foreground one. *)
Definition seat_remove (id : string) (seat_id : option string)
    (sessions : gmap string Session) (seats : gmap string Seat)
  : gmap string Session * gmap string Seat :=
  match seat_id with
  | None => (sessions, seats)
  | Some sid =>
      match seats !! sid with
      | None => (sessions, seats)
      | Some seat =>
          let rest := retain_not id (se_sessions seat) in
          if bool_decide (se_active_session seat = Some id) then
            (match head rest with
             | Some new_active => alter (ss_with_active SessionActive true) new_active sessions
             | None => sessions
             end, <[sid := se_with rest (head rest) seat]> seats)
          else (sessions, <[sid := se_with rest (se_active_session seat) seat]> seats)
      end
  end.

(** The session taken off its user, who is forgotten with the last one. *)
Definition user_remove (id : string) (uid : Z) (sessions : gmap string Session)
    (users : gmap Z LoginUser) : gmap Z LoginUser :=
  match users !! uid with
  | None => users
  | Some user =>
      let rest := retain_not id (us_sessions user) in
      let display := if bool_decide (us_display_session user = Some id) then head rest
                     else us_display_session user in
      if bool_decide (rest = []) then delete uid users
      else
        let any_active := existsb (λ sid,
          match sessions !! sid with
          | Some s => bool_decide (ss_state s = SessionActive)
          | None => false
          end) rest in
        <[uid := us_with rest display (if any_active then UserActive else UserOnline) user]> users
  end.

Definition remove_session (id : string) (st : LoginState) : LoginState :=
  match ls_sessions st !! id with
  | None => st
  | Some session =>
      let sessions := delete id (ls_sessions st) in
      let '(sessions, seats) := seat_remove id (ss_seat session) sessions (ls_seats st) in
      ls_with_tables sessions seats (user_remove id (ss_uid session) sessions (ls_users st))
        (delete (ss_leader_pid session) (ls_pid_to_session st)) st
  end.

Definition session_for_pid (pid : Z) (st : LoginState) : option string :=
  ls_pid_to_session st !! pid.

Definition activate_session (id : string) (st : LoginState) : LoginState :=
  match ls_sessions st !! id with
  | None => st
  | Some session =>
      match ss_seat session with
      | None => st
      | Some seat_id =>
          let sessions :=
            match seat ← ls_seats st !! seat_id; se_active_session seat with
            | Some old_id =>
                if bool_decide (old_id = id) then ls_sessions st
                else alter (ss_with_active SessionOnline false) old_id (ls_sessions st)
            | None => ls_sessions st
            end in
          ls_with_tables (alter (ss_with_active SessionActive true) id sessions)
            (alter (λ seat, se_with (se_sessions seat) (Some id) seat) seat_id (ls_seats st))
            (ls_users st) (ls_pid_to_session st) st
      end
  end.

Definition active_block_inhibitors (what : string) (st : LoginState) : list Inhibitor :=
  filter (λ i, contains what (in_what i) = true ∧ in_mode i = "block") (ls_inhibitors st).
Definition active_delay_inhibitors (what : string) (st : LoginState) : list Inhibitor :=
  filter (λ i, contains what (in_what i) = true ∧ in_mode i = "delay") (ls_inhibitors st).

(** ** Consistency of the tables *)

(** What never changes of a session. *)
Record identity := { i_uid : Z; i_seat : option string; i_leader_pid : Z }.
Definition ident (s : Session) : identity :=
  {| i_uid := ss_uid s; i_seat := ss_seat s; i_leader_pid := ss_leader_pid s |}.
Definition idents (sessions : gmap string Session) : gmap string identity := ident <$> sessions.

(** A seat lists exactly its sessions, once each, and has a foreground session, one of
    them, unless it has none. *)
Record seat_ok (I : gmap string identity) (k : string) (seat : Seat) : Prop := {
  so_nodup : NoDup (se_sessions seat);
  so_members : ∀ id, id ∈ se_sessions seat ↔ ∃ i, I !! id = Some i ∧ i_seat i = Some k;
  so_foreground : ∀ id, se_active_session seat = Some id → id ∈ se_sessions seat;
  so_idle : se_active_session seat = None → se_sessions seat = [];
}.
Definition seats_ok (I : gmap string identity) (seats : gmap string Seat) : Prop :=
  ∀ k seat, seats !! k = Some seat → seat_ok I k seat.

(** A session's flag says whether it is the foreground session of its seat; a session
    of no (known) seat is always active. *)
Definition flag (seats : gmap string Seat) (id : string) (s : Session) : bool :=
  match k ← ss_seat s; seats !! k with
  | Some seat => bool_decide (se_active_session seat = Some id)
  | None => true
  end.
Definition flags_ok (sessions : gmap string Session) (seats : gmap string Seat) : Prop :=
  ∀ id s, sessions !! id = Some s →
    ss_id s = id ∧ ss_active s = flag seats id s ∧
    ss_state s = (if ss_active s then SessionActive else SessionOnline).

(** A user is known exactly while one of the sessions is theirs, and lists these. *)
Record user_ok (I : gmap string identity) (uid : Z) (user : LoginUser) : Prop := {
  uo_uid : us_uid user = uid;
  uo_nodup : NoDup (us_sessions user);
  uo_members : ∀ id, id ∈ us_sessions user ↔ ∃ i, I !! id = Some i ∧ i_uid i = uid;
  uo_some : us_sessions user ≠ [];
  uo_display : ∀ id, us_display_session user = Some id → id ∈ us_sessions user;
}.
Definition users_ok (I : gmap string identity) (users : gmap Z LoginUser) : Prop :=
  (∀ uid user, users !! uid = Some user → user_ok I uid user) ∧
  (∀ id i, I !! id = Some i → is_Some (users !! i_uid i)).

Definition pids_ok (I : gmap string identity) (pids : gmap Z string) : Prop :=
  ∀ pid id, pids !! pid = Some id → ∃ i, I !! id = Some i ∧ i_leader_pid i = pid.

(** Every id in use was drawn from the counter. *)
Definition ids_ok (counter : Z) (I : gmap string identity) : Prop :=
  ∀ id i, I !! id = Some i → ∃ n, 1 ≤ n < counter ∧ id = to_string n.

Record login_inv (counter : Z) (st : LoginState) : Prop := {
  li_ids : ids_ok counter (idents (ls_sessions st));
  li_seats : seats_ok (idents (ls_sessions st)) (ls_seats st);
  li_flags : flags_ok (ls_sessions st) (ls_seats st);
  li_users : users_ok (idents (ls_sessions st)) (ls_users st);
  li_pids : pids_ok (idents (ls_sessions st)) (ls_pid_to_session st);
}.

(** ** Lemmas on the tables *)

Lemma lookup_idents sessions id :
  idents sessions !! id = ident <$> sessions !! id.
Proof. apply lookup_fmap. Qed.

Lemma lookup_idents_Some sessions id i :
  idents sessions !! id = Some i ↔ ∃ s, sessions !! id = Some s ∧ i = ident s.
Proof. rewrite lookup_idents, fmap_Some. done. Qed.

(** A part [g] of the sessions that an update of one of them keeps. *)
Lemma fmap_alter_keep {A} (g : Session → A) f id (sessions : gmap string Session) :
  (∀ s, g (f s) = g s) → g <$> alter f id sessions = g <$> sessions.
Proof.
  intros Hf. apply map_eq. intros j. rewrite !lookup_fmap.
  destruct (decide (id = j)) as [->|]; [|by rewrite lookup_alter_ne].
  rewrite lookup_alter_eq. destruct (sessions !! j); cbn; [by rewrite Hf|done].
Qed.

Lemma idents_alter f id sessions :
  (∀ s, ident (f s) = ident s) → idents (alter f id sessions) = idents sessions.
Proof. apply fmap_alter_keep. Qed.

Lemma idents_insert id s sessions :
  idents (<[id := s]> sessions) = <[id := ident s]> (idents sessions).
Proof. apply fmap_insert. Qed.

Lemma idents_delete id sessions : idents (delete id sessions) = delete id (idents sessions).
Proof. apply fmap_delete. Qed.

Lemma elem_of_retain_not id x l : x ∈ retain_not id l ↔ x ∈ l ∧ x ≠ id.
Proof. unfold retain_not. rewrite list_elem_of_filter. tauto. Qed.
Lemma NoDup_retain_not id l : NoDup l → NoDup (retain_not id l).
Proof. apply NoDup_filter. Qed.

Lemma to_string_inj n m : 0 ≤ n ≤ U64_MAX → 0 ≤ m ≤ U64_MAX → to_string n = to_string m → n = m.
Proof.
  intros Hn Hm Heq. pose proof (parse_unsigned_to_string U64_MAX n Hn) as H1.
  rewrite Heq, (parse_unsigned_to_string U64_MAX m Hm) in H1. congruence.
Qed.

(** The counter's next id is in use by no session. *)
Lemma fresh_id counter I :
  ids_ok counter I → 1 ≤ counter ≤ U64_MAX → I !! to_string counter = None.
Proof.
  intros HI Hc. destruct (I !! to_string counter) as [i|] eqn:E; [|done].
  apply HI in E as (n & Hn & Heq). apply to_string_inj in Heq; lia.
Qed.

(** *** A session appears *)

Section appear.
Context (I : gmap string identity) (id : string) (new : identity) (Hfresh : I !! id = None).

Lemma fresh_not_listed_seat k seat : seat_ok I k seat → id ∉ se_sessions seat.
Proof. intros H Hin. apply (so_members _ _ _ H) in Hin as (i & Hi & _). congruence. Qed.

Lemma seat_ok_other k seat :
  seat_ok I k seat → i_seat new ≠ Some k → seat_ok (<[id := new]> I) k seat.
Proof.
  intros H Hk. destruct H as [H1 H2 H3 H4]. split; [done| |done|done].
  intros x. rewrite H2. split; intros (i & Hi & Hs).
  - exists i. split; [|done]. rewrite lookup_insert_ne; [done|congruence].
  - apply lookup_insert_Some in Hi as [[<- <-]|[Hne Hi]]; [done|]. eauto.
Qed.

Lemma seat_ok_add k seat first :
  seat_ok I k seat → i_seat new = Some k →
  first = bool_decide (se_active_session seat = None) →
  seat_ok (<[id := new]> I) k
    (se_with (se_sessions seat ++ [id]) (if first then Some id else se_active_session seat) seat).
Proof.
  intros H Hk ->. pose proof (fresh_not_listed_seat _ _ H) as Hnew. destruct H as [H1 H2 H3 H4].
  split; cbn.
  - apply NoDup_app. split; [done|]. split; [set_solver|]. apply NoDup_singleton.
  - intros x. rewrite elem_of_app, H2, list_elem_of_singleton. split.
    + intros [(i & Hi & Hs)| ->]; [|exists new; by rewrite lookup_insert_eq].
      exists i. split; [|done]. rewrite lookup_insert_ne; [done|congruence].
    + intros (i & Hi & Hs). apply lookup_insert_Some in Hi as [[<- <-]|[Hne Hi]]; eauto.
  - intros x. case_bool_decide; [intros [= ->]; set_solver|]. intros Hx%H3. set_solver.
  - by case_bool_decide.
Qed.

Lemma seats_ok_add seats first :
  seats_ok I seats →
  first = (match k ← i_seat new; seats !! k with
           | Some s => bool_decide (se_active_session s = None) | None => true end) →
  seats_ok (<[id := new]> I) (seat_add id first (i_seat new) seats).
Proof.
  intros H Hf k seat Hk. unfold seat_add in Hk. destruct (i_seat new) as [sid|] eqn:Es.
  2: { apply seat_ok_other; [by apply H|]. by rewrite Es. }
  cbn in Hf. destruct (seats !! sid) as [seat0|] eqn:Esid.
  2: { apply seat_ok_other; [by apply H|]. rewrite Es. congruence. }
  apply lookup_insert_Some in Hk as [[<- <-]|[Hne Hk]].
  - apply seat_ok_add; [by apply H|done|done].
  - apply seat_ok_other; [by apply H|]. rewrite Es. congruence.
Qed.

Lemma pids_ok_add pids :
  pids_ok I pids → pids_ok (<[id := new]> I) (<[i_leader_pid new := id]> pids).
Proof.
  intros H pid x Hp. apply lookup_insert_Some in Hp as [[<- <-]|[Hne Hp]].
  - exists new. by rewrite lookup_insert_eq.
  - apply H in Hp as (i & Hi & Hpid). exists i. split; [|done]. rewrite lookup_insert_ne; [done|congruence].
Qed.

Lemma user_ok_other uid user :
  user_ok I uid user → i_uid new ≠ uid → user_ok (<[id := new]> I) uid user.
Proof.
  intros [H1 H2 H3 H4 H5] Hk. split; [done|done| |done|done].
  intros x. rewrite H3. split; intros (i & Hi & Hs).
  - exists i. split; [|done]. rewrite lookup_insert_ne; [done|congruence].
  - apply lookup_insert_Some in Hi as [[<- <-]|[Hne Hi]]; [done|]. eauto.
Qed.

Lemma user_ok_add old uid (first : bool) st :
  (∀ x, x ∈ us_sessions old ↔ ∃ i, I !! x = Some i ∧ i_uid i = uid) →
  us_uid old = uid → NoDup (us_sessions old) →
  (∀ x, us_display_session old = Some x → x ∈ us_sessions old) →
  i_uid new = uid →
  user_ok (<[id := new]> I) uid
    (us_with (us_sessions old ++ [id]) (if first then Some id else us_display_session old) st old).
Proof.
  intros Hm Huid Hnd Hdisp Hnew. assert (id ∉ us_sessions old) as Hnot.
  { intros (i & Hi & _)%Hm. congruence. }
  split; cbn; [done| | | |].
  - apply NoDup_app. split; [done|]. split; [set_solver|]. apply NoDup_singleton.
  - intros x. rewrite elem_of_app, Hm, list_elem_of_singleton. split.
    + intros [(i & Hi & Hs)| ->]; [|exists new; by rewrite lookup_insert_eq].
      exists i. split; [|done]. rewrite lookup_insert_ne; [done|congruence].
    + intros (i & Hi & Hs). apply lookup_insert_Some in Hi as [[<- <-]|[Hne Hi]]; eauto.
  - intros Hnil%app_eq_nil. naive_solver.
  - intros x. destruct first; [intros [= ->]; set_solver|]. intros Hx%Hdisp. set_solver.
Qed.

Lemma users_ok_add first rq users :
  users_ok I users → i_uid new = rq_uid rq →
  users_ok (<[id := new]> I) (user_add id first rq users).
Proof.
  intros [Hu He] Hnew. unfold user_add. split.
  - intros uid user Hk. apply lookup_insert_Some in Hk as [[<- <-]|[Hne Hk]].
    2: { apply user_ok_other; [by apply Hu|congruence]. }
    destruct (users !! rq_uid rq) as [old|] eqn:Eo; cbn [default].
    + destruct (Hu _ _ Eo). by apply user_ok_add.
    + apply user_ok_add; [|done|apply NoDup_nil_2|done|done].
      intros x. cbn. split; [set_solver|]. intros (i & Hi & Hs). apply He in Hi as [? Hi].
      rewrite Hs in Hi. congruence.
  - intros x i Hx. destruct (decide (i_uid i = rq_uid rq)) as [->|Hne].
    { rewrite lookup_insert_eq. eauto. }
    rewrite lookup_insert_ne by congruence.
    apply lookup_insert_Some in Hx as [[<- <-]|[_ Hx]]; [congruence|]. eauto.
Qed.
End appear.

(** *** A session goes *)

Section leave.
Context (I : gmap string identity) (id : string) (old : identity) (Hold : I !! id = Some old).

Lemma seat_ok_leave_other k seat :
  seat_ok I k seat → i_seat old ≠ Some k → seat_ok (delete id I) k seat.
Proof.
  intros [H1 H2 H3 H4] Hk. split; [done| |done|done].
  intros x. rewrite H2. split; intros (i & Hi & Hs).
  - exists i. split; [|done]. rewrite lookup_delete_ne; [done|congruence].
  - apply lookup_delete_Some in Hi as [_ Hi]. eauto.
Qed.

Lemma members_leave k (l : list string) (P : identity → Prop) :
  (∀ x, x ∈ l ↔ ∃ i, I !! x = Some i ∧ P i) →
  k ∈ retain_not id l ↔ ∃ i, delete id I !! k = Some i ∧ P i.
Proof.
  intros Hm. rewrite elem_of_retain_not, Hm. split.
  - intros [(i & Hi & Hs) Hne]. exists i. by rewrite lookup_delete_ne.
  - intros (i & Hi & Hs). apply lookup_delete_Some in Hi as [? Hi]. eauto.
Qed.

Lemma seat_ok_leave k seat :
  seat_ok I k seat →
  seat_ok (delete id I) k
    (se_with (retain_not id (se_sessions seat))
       (if bool_decide (se_active_session seat = Some id)
        then head (retain_not id (se_sessions seat)) else se_active_session seat) seat).
Proof.
  intros [H1 H2 H3 H4]. split; cbn.
  - by apply NoDup_retain_not.
  - intros x. by apply members_leave.
  - intros x. case_bool_decide as Ha.
    + intros Hx%head_Some_elem_of. done.
    + intros Hx. apply elem_of_retain_not. split; [by apply H3|]. intros ->. done.
  - case_bool_decide as Ha; [by destruct (retain_not _ _)|]. intros Hx%H4. by rewrite Hx.
Qed.

Lemma seats_ok_leave sessions seats :
  seats_ok I seats →
  seats_ok (delete id I) (seat_remove id (i_seat old) sessions seats).2.
Proof.
  intros H k seat Hk. unfold seat_remove in Hk. destruct (i_seat old) as [sid|] eqn:Es.
  2: { apply seat_ok_leave_other; [by apply H|]. by rewrite Es. }
  destruct (seats !! sid) as [seat0|] eqn:Esid.
  2: { apply seat_ok_leave_other; [by apply H|]. rewrite Es. cbn in Hk. congruence. }
  pose proof (seat_ok_leave sid seat0 (H _ _ Esid)) as Hs.
  case_bool_decide; cbn in Hk; (apply lookup_insert_Some in Hk as [[<- <-]|[Hne Hk]];
    [done|apply seat_ok_leave_other; [by apply H|rewrite Es; congruence]]).
Qed.

Lemma pids_ok_leave pids :
  pids_ok I pids → pids_ok (delete id I) (delete (i_leader_pid old) pids).
Proof.
  intros H pid x Hp. apply lookup_delete_Some in Hp as [Hne Hp].
  apply H in Hp as (i & Hi & Hpid). exists i. split; [|done]. rewrite lookup_delete_ne; [done|congruence].
Qed.

Lemma users_ok_leave sessions users :
  users_ok I users → users_ok (delete id I) (user_remove id (i_uid old) sessions users).
Proof.
  intros [Hu He]. unfold user_remove.
  destruct (He _ _ Hold) as [user Euser]. rewrite Euser. pose proof (Hu _ _ Euser) as [H1 H2 H3 H4 H5].
  assert (∀ uid u, users !! uid = Some u → uid ≠ i_uid old → user_ok (delete id I) uid u) as Hoth.
  { intros uid u [G1 G2 G3 G4 G5]%Hu Hne. split; [done|done| |done|done].
    intros x. rewrite G3. split; intros (i & Hi & Hs).
    - exists i. split; [|done]. rewrite lookup_delete_ne; [done|congruence].
    - apply lookup_delete_Some in Hi as [_ Hi]. eauto. }
  case_bool_decide as Hrest; split.
  - intros uid u Hk. apply lookup_delete_Some in Hk as [Hne Hk]. by apply Hoth.
  - intros x i Hx. assert (i_uid i ≠ i_uid old) as Hne.
    { intros Heq. assert (x ∈ retain_not id (us_sessions user)) as Hin.
      { apply (members_leave x _ _ H3). eauto. }
      rewrite Hrest in Hin. by apply not_elem_of_nil in Hin. }
    rewrite lookup_delete_ne by done. apply lookup_delete_Some in Hx as [_ Hx]. eauto.
  - intros uid u Hk. apply lookup_insert_Some in Hk as [[<- <-]|[Hne Hk]]; [|by apply Hoth].
    split; cbn; [done|by apply NoDup_retain_not|intros x; by apply members_leave|done|].
    intros x. case_bool_decide as Hd; [apply head_Some_elem_of|].
    intros Hx. apply elem_of_retain_not. split; [by apply H5|]. intros ->. done.
  - intros x i Hx. destruct (decide (i_uid i = i_uid old)) as [->|Hne].
    { rewrite lookup_insert_eq. eauto. }
    rewrite lookup_insert_ne by done. apply lookup_delete_Some in Hx as [_ Hx]. eauto.
Qed.
End leave.

(** *** The flags *)

(** A session on a seat is listed by it. *)
Lemma listed sessions seats x s k seat :
  seats_ok (idents sessions) seats → sessions !! x = Some s → ss_seat s = Some k →
  seats !! k = Some seat → x ∈ se_sessions seat.
Proof.
  intros Hs Hx Hk Hseat. apply (so_members _ _ _ (Hs _ _ Hseat)). exists (ident s).
  rewrite lookup_idents, Hx. done.
Qed.

(** The flag of a session of another seat, or of an unchanged foreground, is unchanged. *)
Lemma flag_insert seats k seat' x s :
  (ss_seat s = Some k → ∃ seat, seats !! k = Some seat ∧
     (se_active_session seat' = Some x ↔ se_active_session seat = Some x)) →
  flag (<[k := seat']> seats) x s = flag seats x s.
Proof.
  intros Hk. unfold flag. destruct (ss_seat s) as [k'|]; cbn; [|done].
  destruct (decide (k' = k)) as [->|Hne]; [|by rewrite lookup_insert_ne].
  rewrite lookup_insert_eq. destruct (Hk eq_refl) as (seat & -> & Ha). by apply bool_decide_ext.
Qed.

Lemma flags_ok_add sessions seats id now_usec now rq st :
  ls_seats st = seats → seats_ok (idents sessions) seats → flags_ok sessions seats →
  idents sessions !! id = None →
  let first := is_first_on_seat (rq_seat_id rq) st in
  flags_ok (<[id := new_session id now_usec now first rq]> sessions)
    (seat_add id first (rq_seat_id rq) seats).
Proof.
  intros <- Hs Hf Hfresh first x s Hx.
  assert (sessions !! id = None) as Hnone.
  { rewrite lookup_idents in Hfresh. by destruct (sessions !! id). }
  apply lookup_insert_Some in Hx as [[<- <-]|[Hne Hx]].
  - cbn. split; [done|]. split; [|done]. unfold flag, seat_add, first, is_first_on_seat. cbn.
    destruct (rq_seat_id rq) as [k|]; cbn; [|done].
    destruct (ls_seats st !! k) as [seat|] eqn:Ek; [|by rewrite Ek].
    rewrite lookup_insert_eq. cbn. repeat case_bool_decide; try done.
    exfalso. apply (fresh_not_listed_seat _ id Hfresh _ _ (Hs _ _ Ek)).
    by apply (so_foreground _ _ _ (Hs _ _ Ek)).
  - destruct (Hf _ _ Hx) as (Hid & Ha & Hst). split; [done|]. split; [|done]. rewrite Ha.
    unfold seat_add. destruct (rq_seat_id rq) as [k|] eqn:Erq; [|done].
    destruct (ls_seats st !! k) as [seat|] eqn:Ek; [|done]. symmetry. apply flag_insert.
    intros Hk. exists seat. split; [done|]. cbn. unfold first, is_first_on_seat. cbn. rewrite Ek.
    case_bool_decide as Hnone'; [|done].
    pose proof (listed _ _ _ _ _ _ Hs Hx Hk Ek) as Hin.
    rewrite (so_idle _ _ _ (Hs _ _ Ek) Hnone') in Hin. by apply not_elem_of_nil in Hin.
Qed.

(** The flags after sessions of one seat [k] were set to whether they are its new
    foreground session. *)
Lemma flags_ok_switch sessions sessions' seats k seat l a :
  flags_ok sessions seats → seats !! k = Some seat →
  (∀ x s', sessions' !! x = Some s' → ∃ s, sessions !! x = Some s ∧ ss_seat s' = ss_seat s ∧
     ss_id s' = ss_id s ∧
     (if decide (ss_seat s = Some k) then
        ss_active s' = bool_decide (a = Some x) ∧
        ss_state s' = if bool_decide (a = Some x) then SessionActive else SessionOnline
      else ss_active s' = ss_active s ∧ ss_state s' = ss_state s)) →
  flags_ok sessions' (<[k := se_with l a seat]> seats).
Proof.
  intros Hf Hk Hss x s' Hx. destruct (Hss _ _ Hx) as (s & Hs & Hseat & Hid & Hact).
  destruct (Hf _ _ Hs) as (Hid' & Ha & Hst). split; [congruence|].
  unfold flag. rewrite Hseat. case_decide as Hd.
  - rewrite Hd. cbn. rewrite lookup_insert_eq. cbn. destruct Hact as [-> ->]. done.
  - destruct Hact as [-> ->]. split; [|done]. rewrite Ha. unfold flag.
    destruct (ss_seat s) as [k'|]; [|done]. cbn. rewrite lookup_insert_ne; [done|congruence].
Qed.

Lemma flags_ok_leave sessions seats id old :
  seats_ok (idents sessions) seats → flags_ok sessions seats → sessions !! id = Some old →
  let r := seat_remove id (ss_seat old) (delete id sessions) seats in flags_ok r.1 r.2.
Proof.
  intros Hs Hf Hold. cbv zeta. unfold seat_remove.
  assert (flags_ok (delete id sessions) seats) as Hdel.
  { intros x s Hx. apply lookup_delete_Some in Hx as [_ Hx]. by apply Hf. }
  destruct (ss_seat old) as [k|] eqn:Ek; [|done].
  destruct (seats !! k) as [seat|] eqn:Eseat; [|done].
  set (rest := retain_not id (se_sessions seat)).
  case_bool_decide as Hact; cbn.
  2: { eapply flags_ok_switch; [exact Hdel|done|]. intros x s Hx. exists s.
       do 3 (split; [done|]). destruct (Hdel _ _ Hx) as (_ & Ha & Hst).
       case_decide as Hd; [|done]. unfold flag in Ha. rewrite Hd in Ha. cbn in Ha.
       rewrite Eseat in Ha. rewrite Hst, Ha. done. }
  eapply flags_ok_switch; [exact Hdel|done|].
  assert (∀ x s, delete id sessions !! x = Some s → ss_seat s = Some k →
    ss_active s = false ∧ ss_state s = SessionOnline) as Hoff.
  { intros x s Hx Hsk. destruct (Hdel _ _ Hx) as (_ & Ha & Hst). unfold flag in Ha.
    rewrite Hsk in Ha. cbn in Ha. rewrite Eseat, Hact in Ha.
    apply lookup_delete_Some in Hx as [Hne _].
    rewrite bool_decide_eq_false_2 in Ha by congruence. rewrite Hst, Ha. done. }
  destruct (head rest) as [new|] eqn:Ehead.
  2: { intros x s Hx. exists s. do 3 (split; [done|]). case_decide; [|done]. by apply (Hoff x). }
  intros x s' Hx. destruct (decide (x = new)) as [->|Hne].
  - rewrite lookup_alter_eq in Hx. apply fmap_Some in Hx as (s & Hx & ->). exists s.
    do 3 (split; [done|]). rewrite bool_decide_eq_true_2 by done. case_decide as Hsk; [done|].
    exfalso. apply Hsk. apply head_Some_elem_of in Ehead. apply elem_of_retain_not in Ehead as [Hin _].
    apply (so_members _ _ _ (Hs _ _ Eseat)) in Hin as (i & Hi & Hik).
    apply lookup_delete_Some in Hx as [_ Hx]. rewrite lookup_idents, Hx in Hi. cbn in Hi.
    by injection Hi as <-.
  - rewrite lookup_alter_ne in Hx by done. exists s'. do 3 (split; [done|]).
    rewrite bool_decide_eq_false_2 by congruence. case_decide; [|done]. by apply (Hoff x).
Qed.

Lemma ident_with_active st a s : ident (ss_with_active st a s) = ident s.
Proof. done. Qed.

(** The foreground session of a seat. *)
Definition foreground (seat_id : string) (st : LoginState) : option string :=
  seat ← ls_seats st !! seat_id; se_active_session seat.

Definition deactivate_old (id seat_id : string) (st : LoginState) : gmap string Session :=
  match foreground seat_id st with
  | Some old_id =>
      if bool_decide (old_id = id) then ls_sessions st
      else alter (ss_with_active SessionOnline false) old_id (ls_sessions st)
  | None => ls_sessions st
  end.

(** What [activate_session] does, once the session and its seat are found. *)
Lemma activate_session_seat id s seat_id st :
  ls_sessions st !! id = Some s → ss_seat s = Some seat_id →
  activate_session id st =
  ls_with_tables (alter (ss_with_active SessionActive true) id (deactivate_old id seat_id st))
    (alter (λ seat, se_with (se_sessions seat) (Some id) seat) seat_id (ls_seats st))
    (ls_users st) (ls_pid_to_session st) st.
Proof. intros H1 H2. unfold activate_session. by rewrite H1, H2. Qed.

Lemma fmap_activate {A} (g : Session → A) id st :
  (∀ b a s, g (ss_with_active b a s) = g s) →
  g <$> ls_sessions (activate_session id st) = g <$> ls_sessions st.
Proof.
  intros Hg. unfold activate_session. destruct (ls_sessions st !! id) as [s|]; [|done].
  destruct (ss_seat s) as [k|]; [|done]. cbn [ls_with_tables ls_sessions].
  rewrite fmap_alter_keep by auto. destruct (ls_seats st !! k ≫= se_active_session) as [o|]; [|done].
  case_bool_decide; [done|]. by apply fmap_alter_keep.
Qed.

Lemma idents_activate id st : idents (ls_sessions (activate_session id st)) = idents (ls_sessions st).
Proof. by apply fmap_activate. Qed.

(** Each session after an activation on a known seat. *)
Lemma lookup_activated id seat_id st x s' :
  alter (ss_with_active SessionActive true) id (deactivate_old id seat_id st) !! x = Some s' →
  ∃ s, ls_sessions st !! x = Some s ∧
    s' = if decide (x = id) then ss_with_active SessionActive true s
         else if decide (foreground seat_id st = Some x) then ss_with_active SessionOnline false s
         else s.
Proof.
  unfold deactivate_old. case_decide as Hx.
  - subst x. rewrite lookup_alter_eq. destruct (foreground seat_id st) as [o|].
    2: { intros (s & ? & ->)%fmap_Some. eauto. }
    case_bool_decide as Ho; [|rewrite lookup_alter_ne by done]; intros (s & ? & ->)%fmap_Some; eauto.
  - rewrite lookup_alter_ne by done. destruct (foreground seat_id st) as [o|]; [|eauto].
    case_decide as Hfg.
    + injection Hfg as ->. rewrite bool_decide_eq_false_2 by done. rewrite lookup_alter_eq.
      intros (s & ? & ->)%fmap_Some. eauto.
    + case_bool_decide; [eauto|]. rewrite lookup_alter_ne by congruence. eauto.
Qed.

Lemma flags_ok_activate counter id st :
  login_inv counter st →
  flags_ok (ls_sessions (activate_session id st)) (ls_seats (activate_session id st)).
Proof.
  intros [_ Hseats Hf _ _]. destruct (ls_sessions st !! id) as [s|] eqn:Es.
  2: { unfold activate_session. by rewrite Es. }
  destruct (ss_seat s) as [k|] eqn:Ek.
  2: { unfold activate_session. by rewrite Es, Ek. }
  rewrite (activate_session_seat id s k) by done. cbn [ls_with_tables ls_sessions ls_seats].
  destruct (ls_seats st !! k) as [seat|] eqn:Eseat.
  - rewrite (alter_alt_Some _ _ _ _ Eseat). eapply flags_ok_switch; [exact Hf|done|].
    intros x s' Hx. apply lookup_activated in Hx as (s0 & Hx & ->). exists s0.
    assert (∀ y t, ls_sessions st !! y = Some t → foreground k st = Some y → ss_seat t = Some k) as Hfg.
    { unfold foreground. rewrite Eseat. cbn. intros y t Hy Hin%(so_foreground _ _ _ (Hseats _ _ Eseat)).
      apply (so_members _ _ _ (Hseats _ _ Eseat)) in Hin as (i & Hi & Hik).
      rewrite lookup_idents, Hy in Hi. by injection Hi as <-. }
    split; [done|]. destruct (decide (x = id)) as [->|Hne].
    { do 2 (split; [done|]). rewrite decide_True by congruence.
      by rewrite bool_decide_eq_true_2. }
    rewrite bool_decide_eq_false_2 by congruence.
    destruct (decide (foreground k st = Some x)) as [Hx'|Hx'].
    { do 2 (split; [done|]). by rewrite decide_True by (by apply (Hfg x)). }
    do 2 (split; [done|]). case_decide as Hk; [|done].
    destruct (Hf _ _ Hx) as (_ & Ha & Hst). unfold flag in Ha. rewrite Hk in Ha. cbn in Ha.
    unfold foreground in Hx'. rewrite Eseat in Ha, Hx'. cbn in Hx'.
    rewrite bool_decide_eq_false_2 in Ha by done. by rewrite Hst, Ha.
  - rewrite (alter_id' _ _ _ Eseat). intros x s' Hx. apply lookup_activated in Hx as (s0 & Hx & ->).
    unfold foreground. rewrite Eseat. cbn. rewrite (decide_False (P := None = Some x)) by done.
    case_decide as Hd; [|by apply Hf]. subst x. destruct (Hf _ _ Hx) as (Hid & Ha & Hst).
    split; [done|]. split; [|done]. cbn. unfold flag. assert (s0 = s) as -> by congruence. cbn.
    rewrite Ek. cbn. by rewrite Eseat.
Qed.

(** ** Every operation keeps the tables consistent *)

Lemma login_inv_start c : login_inv 1 (create_seat0 (with_config c)).
Proof.
  split; cbn.
  - intros id i H. rewrite lookup_idents in H. done.
  - intros k seat H. apply lookup_insert_Some in H as [[<- <-]|[_ H]]; [|done].
    split; cbn; [apply NoDup_nil_2| |done|done]. intros id. rewrite elem_of_nil.
    split; [done|]. intros (i & Hi & _). rewrite lookup_idents in Hi. done.
  - done.
  - split; [done|]. intros id i H. rewrite lookup_idents in H. done.
  - done.
Qed.

Lemma login_inv_create counter now_usec now rq st :
  login_inv counter st → 1 ≤ counter < U64_MAX →
  let r := create_session counter now_usec now rq st in
  r.1.1 = to_string counter ∧ r.1.2 = counter + 1 ∧ login_inv (counter + 1) r.2.
Proof.
  intros [H1 H2 H3 H4 H5] Hc. cbv zeta. cbn [create_session next_session_id fst snd].
  split; [done|]. split.
  { unfold wrap_u64. apply Z.mod_small. unfold U64_MAX in Hc. lia. }
  assert (idents (ls_sessions st) !! to_string counter = None) as Hfresh
    by (apply (fresh_id counter); [done|lia]).
  split; cbn [ls_with_tables ls_sessions ls_seats ls_users ls_pid_to_session]; rewrite ?idents_insert.
  - intros id i Hi. apply lookup_insert_Some in Hi as [[<- <-]|[_ Hi]].
    + exists counter. split; [lia|done].
    + apply H1 in Hi as (n & Hn & ->). exists n. split; [lia|done].
  - by apply seats_ok_add.
  - by apply flags_ok_add.
  - by apply users_ok_add.
  - by apply (pids_ok_add _ _ (ident (new_session _ _ _ _ _))).
Qed.

Lemma fmap_seat_remove {A} (g : Session → A) id k sessions seats :
  (∀ b a s, g (ss_with_active b a s) = g s) →
  g <$> (seat_remove id k sessions seats).1 = g <$> sessions.
Proof.
  intros Hg. unfold seat_remove. destruct k as [k|]; [|done]. destruct (seats !! k); [|done].
  case_bool_decide; [|done]. cbn. destruct (head _); [|done]. apply fmap_alter_keep. auto.
Qed.

Lemma fmap_remove {A} (g : Session → A) id st :
  (∀ b a s, g (ss_with_active b a s) = g s) →
  g <$> ls_sessions (remove_session id st) = delete id (g <$> ls_sessions st).
Proof.
  intros Hg. unfold remove_session. destruct (ls_sessions st !! id) as [s|] eqn:E.
  - pose proof (fmap_seat_remove g id (ss_seat s) (delete id (ls_sessions st)) (ls_seats st) Hg) as HI.
    destruct (seat_remove _ _ _ _). cbn in *. by rewrite HI, fmap_delete.
  - symmetry. apply delete_id. by rewrite lookup_fmap, E.
Qed.

Lemma login_inv_remove counter id st :
  login_inv counter st → login_inv counter (remove_session id st).
Proof.
  intros [H1 H2 H3 H4 H5]. unfold remove_session.
  destruct (ls_sessions st !! id) as [old|] eqn:Eold; [|by split].
  assert (idents (ls_sessions st) !! id = Some (ident old)) as Hold by (by rewrite lookup_idents, Eold).
  pose proof (fmap_seat_remove ident id (ss_seat old) (delete id (ls_sessions st)) (ls_seats st)
    (λ _ _ _, eq_refl)) as HI.
  pose proof (seats_ok_leave _ id (ident old) Hold (delete id (ls_sessions st)) _ H2) as Hs.
  pose proof (flags_ok_leave _ _ id old H2 H3 Eold) as Hf. cbn [i_seat ident] in Hs.
  destruct (seat_remove _ _ _ _) as [sessions seats]. cbn [fst snd] in *.
  fold (idents sessions) (idents (delete id (ls_sessions st))) in HI.
  rewrite idents_delete in HI. split; cbn [ls_with_tables ls_sessions ls_seats ls_users ls_pid_to_session];
    rewrite ?HI; [|exact Hs|exact Hf| |].
  - intros x i Hx. apply lookup_delete_Some in Hx as [_ Hx]. by apply H1 in Hx.
  - by apply (users_ok_leave _ id (ident old)).
  - by apply (pids_ok_leave _ id (ident old)).
Qed.

Lemma login_inv_activate counter id st :
  login_inv counter st → login_inv counter (activate_session id st).
Proof.
  intros Hinv. pose proof (idents_activate id st) as HI.
  pose proof (flags_ok_activate counter id st Hinv) as Hf. destruct Hinv as [H1 H2 H3 H4 H5].
  split; rewrite ?HI; [done| |done| |].
  - unfold activate_session. destruct (ls_sessions st !! id) as [s|] eqn:Es; [|done].
    destruct (ss_seat s) as [k|] eqn:Ek; [|done]. cbn. intros k' seat' Hk'.
    destruct (decide (k = k')) as [<-|Hne]; [|rewrite lookup_alter_ne in Hk' by done; by apply H2].
    rewrite lookup_alter_eq in Hk'. apply fmap_Some in Hk' as (seat & Hseat & ->).
    pose proof (listed _ _ _ _ _ _ H2 Es Ek Hseat) as Hin.
    destruct (H2 _ _ Hseat) as [G1 G2 G3 G4]. split; cbn; [done|done|congruence|done].
  - unfold activate_session. destruct (ls_sessions st !! id) as [s|]; [|done].
    by destruct (ss_seat s).
  - unfold activate_session. destruct (ls_sessions st !! id) as [s|]; [|done].
    by destruct (ss_seat s).
Qed.

(** A change of the fields a session object writes. *)
Definition control_only (f : Session → Session) : Prop :=
  ∀ s, ∃ ty c d i u, f s = ss_with_control ty c d i u s.

Lemma login_inv_control counter id f st :
  control_only f → login_inv counter st →
  login_inv counter (ls_with_sessions (alter f id (ls_sessions st)) st).
Proof.
  intros Hf [H1 H2 H3 H4 H5].
  assert (idents (alter f id (ls_sessions st)) = idents (ls_sessions st)) as HI.
  { apply idents_alter. intros s. by destruct (Hf s) as (? & ? & ? & ? & ? & ->). }
  split; cbn [ls_with_sessions ls_with_tables ls_sessions ls_seats ls_users ls_pid_to_session];
    rewrite ?HI; try done. intros x s Hx.
  destruct (decide (id = x)) as [<-|Hne]; [|rewrite lookup_alter_ne in Hx by done; by apply H3].
  rewrite lookup_alter_eq in Hx. apply fmap_Some in Hx as (s0 & Hs0 & ->).
  destruct (Hf s0) as (? & ? & ? & ? & ? & ->). by apply (H3 _ _ Hs0).
Qed.

(** ** What the operations do *)

Definition seat_sessions (k : string) (st : LoginState) : list string :=
  match ls_seats st !! k with Some seat => se_sessions seat | None => [] end.

Lemma idents_remove id st :
  idents (ls_sessions (remove_session id st)) = delete id (idents (ls_sessions st)).
Proof. by apply fmap_remove. Qed.

(** Of a seat, a removal changes the list of sessions and, if the session was in the
    foreground, the foreground. *)
Lemma foreground_remove counter id k st :
  login_inv counter st → is_Some (ls_sessions st !! id) →
  foreground k (remove_session id st) =
  if decide (foreground k st = Some id) then head (retain_not id (seat_sessions k st))
  else foreground k st.
Proof.
  intros [_ H2 _ _ _] [s Es]. unfold remove_session. rewrite Es.
  unfold seat_remove, foreground, seat_sessions.
  assert (∀ seat, ls_seats st !! k = Some seat → se_active_session seat = Some id →
    ss_seat s = Some k) as Hon.
  { intros seat Hseat Ha%(so_foreground _ _ _ (H2 _ _ Hseat)).
    apply (so_members _ _ _ (H2 _ _ Hseat)) in Ha as (i & Hi & Hik).
    rewrite lookup_idents, Es in Hi. by injection Hi as <-. }
  assert (ss_seat s ≠ Some k → ls_seats st !! k ≫= se_active_session ≠ Some id) as Hoff.
  { intros Hne Ha. destruct (ls_seats st !! k) as [seat|] eqn:Ek; [|done]. by eapply Hne, Hon. }
  destruct (ss_seat s) as [k'|] eqn:Ek'.
  2: { cbn. by rewrite decide_False by (by apply Hoff). }
  destruct (decide (k' = k)) as [->|Hne].
  - destruct (ls_seats st !! k) as [seat|] eqn:Ek.
    2: { cbn. rewrite Ek. cbn. by rewrite decide_False. }
    case_bool_decide; cbn; rewrite lookup_insert_eq; cbn;
      [by rewrite decide_True|by rewrite decide_False].
  - rewrite decide_False by (apply Hoff; congruence). destruct (ls_seats st !! k') as [seat|]; [|done].
    case_bool_decide; cbn; by rewrite lookup_insert_ne.
Qed.

(** A user stays exactly as long as a session of theirs does. *)
Lemma user_known counter uid st :
  login_inv counter st →
  is_Some (ls_users st !! uid) ↔ ∃ x s, ls_sessions st !! x = Some s ∧ ss_uid s = uid.
Proof.
  intros [_ _ _ [Hu He] _]. split.
  - intros [u Hu']. destruct (Hu _ _ Hu') as [_ _ Hm Hne _].
    destruct (us_sessions u) as [|x l]; [done|].
    destruct (proj1 (Hm x)) as (i & Hi & Hiu); [left|].
    apply lookup_idents_Some in Hi as (s & Hs & ->). eauto.
  - intros (x & s & Hx & <-). apply (He x (ident s)). by rewrite lookup_idents, Hx.
Qed.

(** C22: Removing a session keeps the tables consistent, removes it and nothing else, makes
    the first remaining session of its seat the foreground one if it was, keeps the user
    exactly while another session of theirs remains, and forgets its leader process. *)
Theorem remove_session_complete counter id s st :
  login_inv counter st → ls_sessions st !! id = Some s →
  let st' := remove_session id st in
  login_inv counter st' ∧
  idents (ls_sessions st') = delete id (idents (ls_sessions st)) ∧
  (∀ k, foreground k st' =
     if decide (foreground k st = Some id) then head (retain_not id (seat_sessions k st))
     else foreground k st) ∧
  (is_Some (ls_users st' !! ss_uid s) ↔
     ∃ x t, x ≠ id ∧ ls_sessions st !! x = Some t ∧ ss_uid t = ss_uid s) ∧
  session_for_pid (ss_leader_pid s) st' = None.
Proof.
  intros Hinv Es st'. pose proof (login_inv_remove counter id st Hinv) as Hinv'.
  pose proof (idents_remove id st) as HI.
  split; [done|]. split; [done|]. split; [intros k; apply (foreground_remove counter); eauto|]. split.
  - unfold st'. rewrite (user_known counter) by done. split.
    + intros (x & t & Hx & Ht). assert (idents (ls_sessions st) !! x = Some (ident t) ∧ x ≠ id) as [Hxi Hne].
      { assert (idents (ls_sessions (remove_session id st)) !! x = Some (ident t)) as H
          by (by rewrite lookup_idents, Hx).
        rewrite HI in H. apply lookup_delete_Some in H as [? ?]. done. }
      apply lookup_idents_Some in Hxi as (t' & Ht' & Hid). exists x, t'.
      injection Hid as Hu _ _. split_and!; [done|done|congruence].
    + intros (x & t & Hne & Ht & Hu).
      assert (idents (ls_sessions (remove_session id st)) !! x = Some (ident t)) as H.
      { rewrite HI, lookup_delete_ne by done. by rewrite lookup_idents, Ht. }
      apply lookup_idents_Some in H as (t' & Ht' & Hid). exists x, t'. injection Hid as Hu' _ _.
      split; [done|congruence].
  - unfold st', remove_session, session_for_pid. rewrite Es. destruct (seat_remove _ _ _ _). cbn.
    apply lookup_delete_eq.
Qed.

(** Activating a session makes it the foreground session of its seat and the only
    active one there, leaves the sessions of other seats untouched, and changes nobody's
    identity. *)
Theorem activate_session_exclusive counter id s k st :
  login_inv counter st → ls_sessions st !! id = Some s → ss_seat s = Some k →
  is_Some (ls_seats st !! k) →
  let st' := activate_session id st in
  foreground k st' = Some id ∧
  (∀ x t, ls_sessions st' !! x = Some t → ss_seat t = Some k → ss_active t = bool_decide (x = id)) ∧
  (∀ x t, ls_sessions st !! x = Some t → ss_seat t ≠ Some k → ls_sessions st' !! x = Some t) ∧
  idents (ls_sessions st') = idents (ls_sessions st).
Proof.
  intros Hinv Es Ek [seat Eseat] st'.
  assert (foreground k st' = Some id) as Hfg.
  { unfold st', foreground. rewrite (activate_session_seat id s k) by done. cbn.
    by rewrite lookup_alter_eq, Eseat. }
  split; [done|]. split; [|split; [|by apply idents_activate]].
  - intros x t Hx Ht. pose proof (login_inv_activate counter id st Hinv) as [_ _ Hf _ _].
    destruct (Hf _ _ Hx) as (_ & -> & _). unfold flag. rewrite Ht. cbn.
    unfold foreground in Hfg. fold st'. destruct (ls_seats st' !! k) as [seat'|]; [|done].
    cbn in Hfg. rewrite Hfg. apply bool_decide_ext. naive_solver.
  - intros x t Hx Ht. unfold st'. rewrite (activate_session_seat id s k) by done. cbn [ls_with_tables ls_sessions].
    assert (x ≠ id) as Hne by congruence. rewrite lookup_alter_ne by done. unfold deactivate_old.
    destruct (foreground k st) as [o|] eqn:Eo; [|done]. case_bool_decide; [done|].
    rewrite lookup_alter_ne; [done|]. intros ->. apply Ht. destruct Hinv as [_ H2 _ _ _].
    unfold foreground in Eo. rewrite Eseat in Eo. cbn in Eo.
    apply (so_foreground _ _ _ (H2 _ _ Eseat)) in Eo.
    apply (so_members _ _ _ (H2 _ _ Eseat)) in Eo as (i & Hi & Hik).
    rewrite lookup_idents, Hx in Hi. by injection Hi as <-.
Qed.

(** ** Two users at one seat *)

Definition ex_request (uid pid vt : Z) (name : string) : session_request := {|
  rq_uid := uid; rq_user_name := name; rq_leader_pid := pid; rq_service := "login";
  rq_session_type := "tty"; rq_class := "user"; rq_desktop := ""; rq_seat_id := Some "seat0";
  rq_vtnr := vt; rq_tty := None; rq_display := None; rq_remote := false; rq_remote_user := "";
  rq_remote_host := "" |}.

Definition ex_start : LoginState := create_seat0 (with_config LogindConfig_default).
Definition ex_one : LoginState := (create_session 1 0 0 (ex_request 1000 50 1 "ann") ex_start).2.
Definition ex_two : LoginState := (create_session 2 0 0 (ex_request 1001 60 2 "bob") ex_one).2.

Lemma ex_two_inv : login_inv 3 ex_two.
Proof.
  apply (login_inv_create 2 0 0 _ ex_one); [|unfold U64_MAX; lia].
  apply (login_inv_create 1 0 0 _ ex_start); [apply login_inv_start|unfold U64_MAX; lia].
Qed.

Lemma remove_session_complete_witness :
  foreground "seat0" (remove_session "1" ex_two) = Some "2" ∧
  ls_users (remove_session "1" ex_two) !! 1000 = None.
Proof.
  destruct (remove_session_complete 3 "1" (new_session "1" 0 0 true (ex_request 1000 50 1 "ann")) ex_two
    ex_two_inv ltac:(reflexivity)) as (_ & _ & H & _).
  split; [rewrite H; reflexivity|reflexivity].
Defined.

Lemma activate_session_exclusive_witness :
  foreground "seat0" (activate_session "2" ex_two) = Some "2".
Proof.
  apply (activate_session_exclusive 3 "2" (new_session "2" 0 0 false (ex_request 1001 60 2 "bob")) "seat0"
    ex_two ex_two_inv); [reflexivity|reflexivity|eexists; reflexivity].
Defined.

(** A user's state is recomputed only when one of their own sessions is removed: after
    bob's session comes to the foreground, because ann's is removed or because it is
    activated, bob is still online and not active, and ann still active. *)
Example user_state_stale :
  let state uid st := us_state <$> ls_users st !! uid in
  state 1001 (remove_session "1" ex_two) = Some UserOnline ∧
  (ss_active <$> ls_sessions (remove_session "1" ex_two) !! "2") = Some true ∧
  state 1001 (activate_session "2" ex_two) = Some UserOnline ∧
  state 1000 (activate_session "2" ex_two) = Some UserActive.
Proof. vm_compute. done. Qed.

(** Two sessions of one leader share the entry by process id: removing the first leaves
    the second one without. *)
Example shared_leader :
  let st := (create_session 2 0 0 (ex_request 1000 50 2 "ann") ex_one).2 in
  session_for_pid 50 st = Some "2" ∧ session_for_pid 50 (remove_session "1" st) = None ∧
  is_Some (ls_sessions (remove_session "1" st) !! "2").
Proof. vm_compute. eauto. Qed.

(** The selection by substring takes "sleepy" for an inhibitor of "sleep". *)
Example substring_selection :
  let i := {| in_what := "sleepy"; in_who := ""; in_why := ""; in_mode := "block"; in_uid := 0;
              in_pid := 0; in_cookie := 1; in_pipe_read := 3 |} in
  active_block_inhibitors "sleep" (ls_with_inhibitors [i] ex_start) = [i].
Proof. reflexivity. Qed.
