(* ===== verification/LoginSys.v ===== *)
(** * What the login manager asks of the system

    [LoginOS] is the system as the login manager uses it: one operation [lo_perform]
    for every call that only succeeds or fails, the calls that return descriptors,
    and the queries.  [Login] is the state of the program: the login state behind its
    mutex, the two static counters, the system, and the list of the effects performed
    so far, on which the theorems are stated.  Descriptors closed because a removed
    session or inhibitor is dropped are not recorded.  [lo_tasks] is what the other tasks of
    the program do to the shared state and the counters while a handler sleeps.

    The modules that only talk to the system follow: runtime_dir.rs, cgroup.rs,
    device.rs, vtswitch.rs and svmgr_client.rs of rust/dynamod-logind/src. *)

From S2P Require Import Prelude RustStr Config Protocol Monad LoginConfig LoginState.

#[local] Open Scope string_scope.
#[local] Open Scope Z_scope.

Inductive effect :=
| FxKill (pid sig : Z)
| FxCreateDirAll (p : string)
| FxCreateDir (p : string)
| FxRemoveDir (p : string)
| FxWrite (p data : string)
| FxChmod (p : string) (mode : Z)
| FxChown (p : string) (uid gid : option Z)
| FxMountTmpfs (p options : string)
| FxUmountDetach (p : string)
| FxSetMaster (fd : Z)
| FxDropMaster (fd : Z)
| FxVtActivate (fd vt : Z)
| FxVtWaitActive (fd vt : Z)
| FxObjectAt (path : string)
| FxEmit (signal : string) (active : bool)
| FxSpawnCleanup (task uid delay : Z)
| FxAbort (task : Z)
| FxConnect (path : string)
| FxSetReadTimeout (secs : Z)
| FxSetWriteTimeout (secs : Z)
| FxSend (data : list Z)
| FxSetCloexec (fd : Z)
| FxClose (fd : Z).
#[export] Instance effect_eq_dec : EqDecision effect.
Proof. solve_decision. Defined.

Class LoginOS := {
  los : Type;
  lo_perform : effect → los → result unit string * los;
  lo_exists : string → los → bool;
  lo_symlink_metadata : string → los → bool;
  lo_read_to_string : string → los → result string string;
  lo_read_dir : string → los → option (list string);
  lo_canonicalize : string → los → option string;
  lo_user_from_uid : Z → los → option (string * Z);
  lo_credentials : string → los → option (option Z * option Z);
  lo_instant : los → Z * los;
  lo_realtime_usec : los → Z * los;
  lo_sleep : Z → los → los;
  lo_tasks : los → LoginState * Z * Z → LoginState * Z * Z;
  lo_poll : Z → los → Z * Z;
  lo_pipe2 : los → result (Z * Z) string * los;
  lo_dup : Z → los → result Z string * los;
  (* libc::open of the bytes of a string, with the terminator (true) or without *)
  lo_open : bool → string → los → result Z string * los;
  lo_vt_getstate : Z → los → result Z string * los;
  lo_spawn : los → Z * los;
  lo_recv : los → result (list Z) string * los;
}.

Section login_sys.
Context {K : LoginOS} {R : Rmp}.

Record Login := {
  l_state : LoginState;
  l_next_session : Z;
  l_next_cookie : Z;
  l_os : los;
  l_effects : list effect;
}.

Definition set_l_state (st : LoginState) (w : Login) : Login :=
  {| l_state := st; l_next_session := l_next_session w; l_next_cookie := l_next_cookie w;
     l_os := l_os w; l_effects := l_effects w |}.
Definition set_l_os (o : los) (w : Login) : Login :=
  {| l_state := l_state w; l_next_session := l_next_session w; l_next_cookie := l_next_cookie w;
     l_os := o; l_effects := l_effects w |}.
Definition set_l_counters (s c : Z) (w : Login) : Login :=
  {| l_state := l_state w; l_next_session := s; l_next_cookie := c;
     l_os := l_os w; l_effects := l_effects w |}.
Definition log_effect (e : effect) (w : Login) : Login :=
  {| l_state := l_state w; l_next_session := l_next_session w; l_next_cookie := l_next_cookie w;
     l_os := l_os w; l_effects := l_effects w ++ [e] |}.

Definition L (A : Type) : Type := St Login A.

Definition perform (e : effect) : L (result unit string) := λ w,
  let '(r, o) := lo_perform e (l_os w) in Ret r (log_effect e (set_l_os o w)).
(** A call whose failure is ignored or only logged. *)
Definition try_perform (e : effect) : L unit := _ ← perform e; mret ().
Definition query {A} (f : los → A) : L A := gets (λ w, f (l_os w)).
Definition call {A} (f : los → A * los) : L A := λ w,
  let '(a, o) := f (l_os w) in Ret a (set_l_os o w).

Definition get_state : L LoginState := gets l_state.
Definition put_state (st : LoginState) : L unit := modify (set_l_state st).
Definition on_state (f : LoginState → LoginState) : L unit :=
  modify (λ w, set_l_state (f (l_state w)) w).

(** The mode bits 0700 and 0660. *)
Definition MODE_0700 : Z := 7 * 64.
Definition MODE_0660 : Z := 6 * 64 + 6 * 8.

(** ** runtime_dir.rs *)

Definition path_for (uid : Z) : string := "/run/user/" ++ to_string uid.

(** [str::split_whitespace] on the bytes of a line, and the field number [n]. *)
Fixpoint words_go (fuel : nat) (s : string) : list string :=
  match fuel with
  | O => []
  | S fuel =>
      match trim_start s with
      | "" => []
      | t => let '(w, r) := (fix take_word (u : string) : string * string :=
               match u with
               | "" => ("", "")
               | String c u' =>
                   match first_strip strip_prefix whitespace u with
                   | Some r => ("", r)
                   | None => let '(w, r) := take_word u' in (String c w, r)
                   end
               end) t in
             w :: words_go fuel r
      end
  end.
Definition split_whitespace (s : string) : list string := words_go (String.length s) s.

Definition mounted_at (target mountinfo : string) : bool :=
  existsb (λ line, bool_decide (split_whitespace line !! 4%nat = Some target)) (lines mountinfo).

Definition is_mounted (path : string) : L (result bool string) :=
  target ← query (λ o, default path (lo_canonicalize path o));
  mountinfo ← query (lo_read_to_string "/proc/self/mountinfo");
  mret (match mountinfo with Ok m => Ok (mounted_at target m) | Err e => Err e end).

(** The [?] operator on a computation. *)
Definition try_bind {A B E} (m : L (result A E)) (k : A → L (result B E)) : L (result B E) :=
  r ← m; match r with Ok a => k a | Err e => mret (Err e) end.

Definition ensure (uid gid : Z) (size : string) : L (result unit string) :=
  let path := path_for uid in
  try_perform (FxCreateDirAll "/run/user") ;;
  try_bind
    (ex ← query (lo_exists path); if ex : bool then mret (Ok ()) else perform (FxCreateDir path))
    (λ _, try_bind (perform (FxChmod path MODE_0700))
    (λ _, try_bind (perform (FxChown path (Some uid) (Some gid)))
    (λ _, try_bind (is_mounted path)
    (λ mounted,
       (if mounted : bool then mret ()
        else
          let opts := "mode=0700,uid=" ++ to_string uid ++ ",gid=" ++ to_string gid
                      ++ ",size=" ++ size in
          r ← perform (FxMountTmpfs path opts);
          match r with
          | Ok _ => try_perform (FxChown path (Some uid) (Some gid)) ;;
                    try_perform (FxChmod path MODE_0700)
          | Err _ => mret ()
          end) ;;
       mret (Ok ()))))).

Definition release (uid : Z) : L unit :=
  let path := path_for uid in
  ex ← query (lo_exists path);
  if ex : bool then try_perform (FxUmountDetach path) ;; try_perform (FxRemoveDir path)
  else mret ().

(** ** cgroup.rs *)

Definition CGROUP_ROOT : string := "/sys/fs/cgroup".
Definition CONTROLLERS : list string := ["cpu"; "memory"; "io"; "pids"].

Definition session_scope_relative (uid : Z) (session_id : string) : string :=
  "/user.slice/user-" ++ to_string uid ++ ".slice/session-" ++ session_id ++ ".scope".
Definition user_slice (uid : Z) : string :=
  CGROUP_ROOT ++ "/user.slice/user-" ++ to_string uid ++ ".slice".
Definition session_scope (uid : Z) (session_id : string) : string :=
  path_join (user_slice uid) ("session-" ++ session_id ++ ".scope").

Definition ensure_dir (path : string) : L (result unit string) :=
  ex ← query (lo_exists path);
  if ex : bool then mret (Ok ()) else perform (FxCreateDirAll path).

Definition enable_controllers (path : string) : L unit :=
  let sub := path_join path "cgroup.subtree_control" in
  ex ← query (lo_exists sub);
  if ex : bool then for_each CONTROLLERS (λ ctrl, try_perform (FxWrite sub ("+" ++ ctrl)))
  else mret ().

Definition place_leader (uid : Z) (session_id : string) (leader_pid : Z) : L unit :=
  ex ← query (lo_exists CGROUP_ROOT);
  if negb ex then mret ()
  else
    enable_controllers CGROUP_ROOT ;;
    r ← ensure_dir (user_slice uid);
    match r with
    | Err _ => mret ()
    | Ok _ =>
        enable_controllers (user_slice uid) ;;
        r ← ensure_dir (session_scope uid session_id);
        match r with
        | Err _ => mret ()
        | Ok _ => try_perform (FxWrite (path_join (session_scope uid session_id) "cgroup.procs")
                    (to_string leader_pid))
        end
    end.

Definition remove_if_exists (path : string) : L unit :=
  ex ← query (lo_exists path);
  if ex : bool then try_perform (FxRemoveDir path) else mret ().

Definition release_scope (uid : Z) (session_id : string) : L unit :=
  remove_if_exists (session_scope uid session_id).
Definition release_user_slice (uid : Z) : L unit := remove_if_exists (user_slice uid).

(** ** device.rs *)

Definition DRM_MAJOR : Z := 226.
Definition is_drm_device (major : Z) : bool := major =? DRM_MAJOR.

(** The first DEVNAME line of a uevent file. *)
Definition devname (content : string) : option string :=
  head (omap (strip_prefix "DEVNAME=") (lines content)).

Definition device_id (major minor : Z) : string := to_string major ++ ":" ++ to_string minor.

Definition resolve_devname (major minor : Z) (o : los) : option string :=
  match lo_read_to_string ("/sys/dev/char/" ++ device_id major minor ++ "/uevent") o with
  | Ok content => (λ d, "/dev/" ++ d) <$> devname content
  | Err _ => None
  end.

(** [CString::new] refuses a string with a NUL byte. *)

(** The path is first passed without its terminator, then, if that open failed, as a C
    string. *)
Definition open_device (major minor : Z) : L (result Z string) :=
  let path := "/dev/char/" ++ device_id major minor in
  actual_path ← query (λ o, if lo_symlink_metadata path o then path
                            else default path (resolve_devname major minor o));
  raw ← call (lo_open false actual_path);
  match raw with
  | Ok fd => mret (Ok fd)
  | Err _ =>
      if has_nul actual_path then mret (Err "invalid path")
      else call (lo_open true actual_path)
  end.

Definition drm_set_master (fd : Z) : L (result unit string) := perform (FxSetMaster fd).
Definition drm_drop_master (fd : Z) : L (result unit string) := perform (FxDropMaster fd).

(** The entries of a directory that [keep] selects, with their mode. *)
Definition devices_in (dir : string) (keep : string → bool) (o : los) : list (string * Z) :=
  match lo_read_dir dir o with
  | None => []
  | Some names => omap (λ name, if keep name then Some (path_join dir name, MODE_0660) else None) names
  end.

Definition enumerate_session_devices (_ : string) (o : los) : list (string * Z) :=
  devices_in "/dev/dri" (λ n, starts_with "card" n || starts_with "renderD" n) o ++
  devices_in "/dev/input"
    (λ n, starts_with "event" n || starts_with "mouse" n || bool_decide (n = "mice")) o ++
  devices_in "/dev/snd" (λ _, true) o.

Definition chown_and_chmod (path : string) (uid gid : option Z) (mode : Z) : L (result unit string) :=
  try_bind (perform (FxChown path uid gid)) (λ _, perform (FxChmod path mode)).

(** [apply_session_acl] for a user, [revert_session_acl] for root. *)
Definition chown_devices (seat_id : string) (uid : Z) : L unit :=
  devices ← query (enumerate_session_devices seat_id);
  for_each devices (λ '(path, mode), _ ← chown_and_chmod path (Some uid) None mode; mret ()).
Definition apply_session_acl (seat_id : string) (uid : Z) : L unit := chown_devices seat_id uid.
Definition revert_session_acl (seat_id : string) : L unit := chown_devices seat_id 0.

(** ** vtswitch.rs *)

Inductive VtError := OpenTty (e : string) | VtIoctl (e : string).

Definition open_tty0 : L (result Z VtError) :=
  r ← call (lo_open true "/dev/tty0");
  mret (match r with Ok fd => Ok fd | Err e => Err (OpenTty e) end).

Definition vt_ioctl (e : effect) : L (result unit VtError) :=
  r ← perform e; mret (match r with Ok _ => Ok () | Err e => Err (VtIoctl e) end).

Definition switch_to_vt (vt : Z) : L (result unit VtError) :=
  try_bind open_tty0 (λ tty,
  r ← try_bind (vt_ioctl (FxVtActivate tty vt)) (λ _, vt_ioctl (FxVtWaitActive tty vt));
  try_perform (FxClose tty) ;; mret r).

Definition get_active_vt : L (result Z VtError) :=
  try_bind open_tty0 (λ tty,
  r ← call (lo_vt_getstate tty);
  try_perform (FxClose tty) ;;
  mret (match r with Ok v => Ok v | Err e => Err (VtIoctl e) end)).

(** ** svmgr_client.rs *)

Definition CONTROL_SOCK : string := "/run/dynamod/control.sock".

Inductive SvmgrError :=
| SvConnect (e : string) | SvSend (e : string) | SvRecv (e : string) | SvProtocol (e : string).

(** The answer of the service manager, from the bytes of one read. *)
Definition answer (data : list Z) : result unit SvmgrError :=
  if bool_decide (data = []) then Err (SvProtocol "empty response")
  else match decode data with
    | Err _ => Err (SvProtocol "decode")
    | Ok (resp, _) =>
        match m_body resp with
        | Ack => Ok ()
        | Error message => Err (SvProtocol message)
        | _ => Err (SvProtocol "unexpected response")
        end
    end.

Definition map_err {A E F} (f : E → F) (r : result A E) : result A F :=
  match r with Ok a => Ok a | Err e => Err (f e) end.

Definition send_command (body : MessageBody) : L (result unit SvmgrError) :=
  try_bind (r ← perform (FxConnect CONTROL_SOCK); mret (map_err SvConnect r)) (λ _,
  try_bind (r ← perform (FxSetReadTimeout 10); mret (map_err SvSend r)) (λ _,
  try_bind (r ← perform (FxSetWriteTimeout 5); mret (map_err SvSend r)) (λ _,
  match encode {| m_id := 1; m_kind := Request; m_body := body |} with
  | Err _ => mret (Err (SvProtocol "encode"))
  | Ok data =>
      try_bind (r ← perform (FxSend data); mret (map_err SvSend r)) (λ _,
      r ← call lo_recv;
      mret (match r with Err e => Err (SvRecv e) | Ok data => answer data end))
  end))).

Definition request_shutdown (kind : Protocol.ShutdownKind) : L (result unit SvmgrError) :=
  send_command (MShutdown kind).
End login_sys.

(** ** A small machine

    Every call succeeds, time passes only in sleeps, files do not change, and the
    descriptors in [dm_hup] have been closed at their other end. *)

Record demo := {
  dm_clock : Z;
  dm_next : Z;
  dm_files : gmap string string;
  dm_dirs : gmap string (list string);
  dm_hup : gset Z;
}.
Definition dm_tick (d : Z) (s : demo) : demo := {| dm_clock := dm_clock s + Z.max 0 d;
  dm_next := dm_next s; dm_files := dm_files s; dm_dirs := dm_dirs s; dm_hup := dm_hup s |}.
Definition dm_fresh (n : Z) (s : demo) : Z * demo := (dm_next s, {| dm_clock := dm_clock s;
  dm_next := dm_next s + n; dm_files := dm_files s; dm_dirs := dm_dirs s; dm_hup := dm_hup s |}).

Definition dm_fd (s : demo) : result Z string * demo := let '(fd, s) := dm_fresh 1 s in (Ok fd, s).

(** [tasks] is what the other tasks do while one sleeps, [recv] what the service manager
    answers. *)
Definition demo_with (tasks : LoginState * Z * Z → LoginState * Z * Z) (recv : list Z) : LoginOS := {|
  los := demo;
  lo_perform _ s := (Ok (), s);
  lo_exists p s := bool_decide (is_Some (dm_files s !! p)) || bool_decide (is_Some (dm_dirs s !! p));
  lo_symlink_metadata p s := bool_decide (is_Some (dm_files s !! p));
  lo_read_to_string p s := match dm_files s !! p with Some c => Ok c | None => Err "ENOENT" end;
  lo_read_dir p s := dm_dirs s !! p;
  lo_canonicalize p _ := Some p;
  lo_user_from_uid uid _ := if bool_decide (uid = 1000) then Some ("ann", 100) else None;
  lo_credentials _ _ := Some (Some 1000, Some 77);
  lo_instant s := (dm_clock s, s);
  lo_realtime_usec s := (dm_clock s / 1000, s);
  lo_sleep ms s := dm_tick (ms * 1000000) s;
  lo_tasks _ := tasks;
  lo_poll fd s := if bool_decide (fd ∈ dm_hup s) then (1, 16) else (0, 0);
  lo_pipe2 s := let '(fd, s) := dm_fresh 2 s in (Ok (fd, fd + 1), s);
  lo_dup _ := dm_fd;
  lo_open _ _ := dm_fd;
  lo_vt_getstate _ s := (Ok 1, s);
  lo_spawn := dm_fresh 1;
  lo_recv s := (Ok recv, s);
|}.
#[export] Instance demo_os : LoginOS := demo_with (λ sh, sh) [].

Definition demo_start : demo := {| dm_clock := 0; dm_next := 10;
  dm_files := {["/proc/self/mountinfo" := "1 2 0:1 / /run rw"]};
  dm_dirs := {["/dev/dri" := ["card0"; "by-path"]]}; dm_hup := ∅ |}.

(** The program on the small machine. *)
Definition demo_login (st : LoginState) (counter : Z) : @Login demo_os := {|
  l_state := st; l_next_session := counter; l_next_cookie := 1; l_os := demo_start;
  l_effects := [] |}.
