(* ===== verification/LoginPower.v ===== *)
(** * Power actions of the login manager (inhibitor.rs, power.rs, acpi.rs)

    Inhibitor locks, the handshake around sleep and shutdown, and the lid and power
    buttons.  [FxEmit] stands for handing a signal to the task that emits it.  The
    wait for delay inhibitors takes the number of polls it may make; the theorem
    [delay_wait_ends] says which number is always enough, whatever the clients and
    the other tasks do.  An [Instant] is its number of nanoseconds. *)

From S2P Require Import Prelude RustStr Protocol Monad LoginConfig LoginState LoginSys.

#[local] Open Scope string_scope.
#[local] Open Scope Z_scope.

(** ** inhibitor.rs *)

Definition POLLIN : Z := 1.
Definition POLLHUP : Z := 16.

Section login_power.
Context {K : LoginOS} {R : Rmp}.

Definition is_released (i : Inhibitor) (o : los) : bool :=
  let '(ret, revents) := lo_poll (in_pipe_read i) o in
  if 0 <? ret then negb (Z.land revents (Z.lor POLLIN POLLHUP) =? 0) else false.

(** [inhibitors.retain(|i| !i.is_released())] *)
Definition gc_inhibitors : L unit :=
  modify (λ w, set_l_state
    (ls_with_inhibitors (filter (λ i, is_released i (l_os w) = false) (ls_inhibitors (l_state w)))
       (l_state w)) w).

Definition create_inhibitor (what who why mode : string) (uid pid cookie : Z)
  : L (result (Inhibitor * Z) string) :=
  fds ← call lo_pipe2;
  mret (match fds with
  | Err e => Err e
  | Ok (read_end, write_end) =>
      Ok ({| in_what := what; in_who := who; in_why := why; in_mode := mode; in_uid := uid;
             in_pid := pid; in_cookie := cookie; in_pipe_read := read_end |}, write_end)
  end).

(** ** power.rs *)

Inductive SleepKind := SleepSuspend | SleepHibernate | SleepHybridSleep.
Definition sysfs_state (k : SleepKind) : string :=
  match k with SleepSuspend => "mem" | SleepHibernate => "disk" | SleepHybridSleep => "disk" end.

Inductive PowerShutdownKind := PowerPoweroff | PowerReboot | PowerHalt.
Definition to_protocol_kind (k : PowerShutdownKind) : Protocol.ShutdownKind :=
  match k with
  | PowerPoweroff => Protocol.Poweroff | PowerReboot => Protocol.Reboot
  | PowerHalt => Protocol.Halt
  end.

(** [i.mode == mode && i.what.split(':').any(|w| w == what)] *)
Definition inhibits (mode what : string) (i : Inhibitor) : bool :=
  bool_decide (in_mode i = mode) && bool_decide (what ∈ split ":" (in_what i)).

(** [Instant + Duration]: the seconds are a signed 64-bit number. *)
Definition NANOS : Z := 1000000000.
Definition instant_add (now secs : Z) : option Z :=
  if now / NANOS + secs <=? 2 ^ 63 - 1 then Some (now + secs * NANOS) else None.

(** A sleep of the task: time passes, and other tasks use the shared state. *)
Definition sleep_ms (ms : Z) : L unit := λ w,
  let o := lo_sleep ms (l_os w) in
  let '(st, sessions, cookies) := lo_tasks o (l_state w, l_next_session w, l_next_cookie w) in
  Ret () (set_l_state st (set_l_counters sessions cookies (set_l_os o w))).

Fixpoint delay_loop (polls : nat) (what : string) (deadline : Z) : L unit :=
  match polls with
  | O => out_of_fuel
  | S polls =>
      gc_inhibitors ;;
      st ← get_state;
      if negb (existsb (inhibits "delay" what) (ls_inhibitors st)) then mret ()
      else
        now ← call lo_instant;
        if deadline <=? now then mret ()
        else sleep_ms 100 ;; delay_loop polls what deadline
  end.

Definition wait_for_delay_inhibitors (polls : nat) (what : string) (max : Z) : L unit :=
  now ← call lo_instant;
  deadline ← unwrap (instant_add now max);
  delay_loop polls what deadline.

Definition execute_sleep (polls : nat) (kind : SleepKind) : L (result unit string) :=
  st ← get_state;
  try_perform (FxEmit "PrepareForSleep" true) ;;
  wait_for_delay_inhibitors polls "sleep" (inhibit_delay_max (ls_config st)) ;;
  result ← perform (FxWrite "/sys/power/state" (sysfs_state kind));
  try_perform (FxEmit "PrepareForSleep" false) ;;
  mret result.

Definition execute_shutdown_action (polls : nat) (kind : PowerShutdownKind)
  : L (result unit SvmgrError) :=
  st ← get_state;
  try_perform (FxEmit "PrepareForShutdown" true) ;;
  wait_for_delay_inhibitors polls "shutdown" (inhibit_delay_max (ls_config st)) ;;
  request_shutdown (to_protocol_kind kind).

Definition has_block_inhibitor (what : string) : L bool :=
  gc_inhibitors ;;
  st ← get_state;
  mret (existsb (inhibits "block" what) (ls_inhibitors st)).

(** ** acpi.rs *)

Definition EV_KEY : Z := 1.
Definition EV_SW : Z := 5.
Definition KEY_POWER : Z := 116.
Definition KEY_SLEEP : Z := 142.
Definition SW_LID : Z := 0.

Inductive AcpiEvent := PowerButton | SleepButton | LidClosed | LidOpened.

Record InputEvent := { ev_type : Z; ev_code : Z; ev_value : Z }.
Definition INPUT_EVENT_SIZE : nat := 24.

(** [read_unaligned] of the bytes of an [InputEvent], on a little-endian machine: after
    the two 64-bit words of the time. *)
Definition input_event (buf : list Z) : InputEvent := {|
  ev_type := byte_at buf 16 + 256 * byte_at buf 17;
  ev_code := byte_at buf 18 + 256 * byte_at buf 19;
  ev_value := as_i32 (from_le_bytes (byte_at buf 20) (byte_at buf 21) (byte_at buf 22) (byte_at buf 23));
|}.

Definition classify (ev : InputEvent) : option AcpiEvent :=
  let matches t c v := (ev_type ev =? t) && (ev_code ev =? c) && (ev_value ev =? v) in
  if matches EV_KEY KEY_POWER 1 then Some PowerButton
  else if matches EV_KEY KEY_SLEEP 1 then Some SleepButton
  else if matches EV_SW SW_LID 1 then Some LidClosed
  else if matches EV_SW SW_LID 0 then Some LidOpened
  else None.

(** The events sent from the results of [read_exact] on an open device, until a read
    fails; [room] is the number of events the receiver takes before it goes away. *)
Fixpoint read_loop (reads : list (option (list Z))) (room : nat) : list AcpiEvent :=
  match reads with
  | [] | None :: _ => []
  | Some buf :: reads =>
      match classify (input_event buf) with
      | None => read_loop reads room
      | Some event =>
          match room with
          | O => []
          | S room => event :: read_loop reads room
          end
      end
  end.

Definition is_ascii_whitespace (c : Ascii.ascii) : bool :=
  bool_decide (Ascii.nat_of_ascii c ∈ [32; 9; 10; 12; 13])%nat.

(** [str::split_ascii_whitespace] *)
Fixpoint ascii_words (word s : string) : list string :=
  let done := if bool_decide (word = "") then [] else [word] in
  match s with
  | "" => done
  | String c s =>
      if is_ascii_whitespace c then (done ++ ascii_words "" s)%list
      else ascii_words (word ++ String c "") s
  end.
Definition split_ascii_whitespace (s : string) : list string := ascii_words "" s.

Definition hex_val (c : Ascii.ascii) : option Z :=
  let n := Z.of_N (Ascii.N_of_ascii c) in
  if (48 <=? n) && (n <=? 57) then Some (n - 48)
  else if (97 <=? n) && (n <=? 102) then Some (n - 87)
  else if (65 <=? n) && (n <=? 70) then Some (n - 55)
  else None.

(** [u64::from_str_radix(_, 16)] *)
Fixpoint parse_hex_digits (acc : Z) (s : string) : option Z :=
  match s with
  | "" => Some acc
  | String c s =>
      d ← hex_val c;
      if acc * 16 + d <=? U64_MAX then parse_hex_digits (acc * 16 + d) s else None
  end.
Definition parse_hex (s : string) : option Z :=
  match s with
  | "" => None
  | String c "" => parse_hex_digits 0 s
  | String c r => if Ascii.eqb c plus then parse_hex_digits 0 r else parse_hex_digits 0 s
  end.

Definition has_bit (content : string) (bit : Z) : bool :=
  let words := omap parse_hex (reverse (split_ascii_whitespace content)) in
  match words !! Z.to_nat (bit / 64) with
  | Some w => Z.land (Z.shiftr w (bit mod 64)) 1 =? 1
  | None => false
  end.

Definition capability_has_bit (path : string) (bit : Z) (o : los) : bool :=
  match lo_read_to_string path o with
  | Ok content => has_bit content bit
  | Err _ => false
  end.

Definition scan_devices (o : los) : list string :=
  match lo_read_dir "/sys/class/input" o with
  | None => []
  | Some names =>
      omap (λ name,
        if starts_with "event" name then
          let caps_dir := "/sys/class/input/" ++ name ++ "/device/capabilities" in
          let key := caps_dir ++ "/key" in
          let supports_pwr_sleep :=
            capability_has_bit key KEY_POWER o || capability_has_bit key KEY_SLEEP o in
          let supports_lid := capability_has_bit (caps_dir ++ "/sw") SW_LID o in
          if supports_pwr_sleep || supports_lid then Some ("/dev/input/" ++ name) else None
        else None) names
  end.

Definition is_docked : bool := false.

Definition on_external_power (o : los) : bool :=
  match lo_read_to_string "/sys/class/power_supply/AC/online" o with
  | Ok s => bool_decide (trim s = "1")
  | Err _ => true
  end.

Definition ignore {A} (m : L A) : L unit := _ ← m; mret ().

(** The match of [run_action]. *)
Definition start_action (polls : nat) (action : HandleAction) : L unit :=
  match action with
  | Ignore | Lock => mret ()
  | Suspend => ignore (execute_sleep polls SleepSuspend)
  | Hibernate => ignore (execute_sleep polls SleepHibernate)
  | HybridSleep => ignore (execute_sleep polls SleepHybridSleep)
  | LoginConfig.Poweroff => ignore (execute_shutdown_action polls PowerPoweroff)
  | LoginConfig.Reboot => ignore (execute_shutdown_action polls PowerReboot)
  | LoginConfig.Halt => ignore (execute_shutdown_action polls PowerHalt)
  end.

Definition run_action (polls : nat) (action : HandleAction) : L unit :=
  let what := inhibit_what action in
  blocked ← (if bool_decide (what = "") then mret false else has_block_inhibitor what);
  if blocked : bool then mret () else start_action polls action.

(** The action configured for an event, and whether it is debounced. *)
Definition event_action (cfg : LogindConfig) (event : AcpiEvent) (o : los)
  : option (HandleAction * bool) :=
  match event with
  | PowerButton => Some (handle_power_key cfg, false)
  | SleepButton => Some (handle_suspend_key cfg, false)
  | LidClosed => Some (
      if bool_decide (handle_lid_switch_docked cfg ≠ Ignore) && is_docked
      then handle_lid_switch_docked cfg
      else if on_external_power o then handle_lid_switch_external_power cfg
      else handle_lid_switch cfg, true)
  | LidOpened => None
  end.

(** The body of [dispatch_loop], from the time of the last lid event to the next one. *)
Definition dispatch_event (polls : nat) (event : AcpiEvent) (last_lid_event : Z) : L Z :=
  st ← get_state;
  let cfg := ls_config st in
  ad ← query (event_action cfg event);
  match ad with
  | None => mret last_lid_event
  | Some (action, false) => run_action polls action ;; mret last_lid_event
  | Some (action, true) =>
      now ← call lo_instant;
      if Z.max 0 (now - last_lid_event) <? holdoff_timeout cfg * NANOS
      then mret last_lid_event
      else run_action polls action ;; mret now
  end.

(** [dispatch_loop], on the events received until the channel closes. *)
Fixpoint dispatch_events (polls : nat) (events : list AcpiEvent) (last_lid_event : Z) : L unit :=
  match events with
  | [] => mret ()
  | event :: events =>
      last_lid_event ← dispatch_event polls event last_lid_event;
      dispatch_events polls events last_lid_event
  end.
Definition dispatch_loop (polls : nat) (events : list AcpiEvent) : L unit :=
  now ← call lo_instant;
  dispatch_events polls events (now - 3600 * NANOS).

(** ** The clock *)

(** The monotonic clock does not go back, and a sleep lasts at least as long as asked. *)
Class LoginClock := {
  l_clock : los → Z;
  instant_law : ∀ o, l_clock o ≤ (lo_instant o).1 ∧ (lo_instant o).1 ≤ l_clock (lo_instant o).2;
  sleep_clock : ∀ ms o, l_clock o + ms * 1000000 ≤ l_clock (lo_sleep ms o);
}.

(** No effect was performed. *)
Definition quiet (w w' : Login) : Prop := l_effects w' = l_effects w.

#[local] Instance quiet_preorder : PreOrder quiet.
Proof.
  split; [done|]. intros w1 w2 w3 H1 H2. unfold quiet. by rewrite H2, H1.
Qed.

(** What the wait for delay inhibitors of [what] until [deadline] achieves. *)
Definition settled `{LoginClock} (what : string) (deadline : Z) (w : Login) : Prop :=
  existsb (inhibits "delay" what) (ls_inhibitors (l_state w)) = false ∨
  deadline ≤ l_clock (l_os w).

Section clock.
Context `{LoginClock}.

Lemma wpx_call {A B} X (f : los → A * los) (k : A → L B) Q w :
  wpx X (k (f (l_os w)).1) Q (set_l_os (f (l_os w)).2 w) → wpx X (call f ≫= k) Q w.
Proof. unfold wpx, mbind, St_bind, call. by destruct (f (l_os w)). Qed.

Lemma wpx_sleep_ms {B} X ms (k : () → L B) Q w :
  (∀ st s c, lo_tasks (lo_sleep ms (l_os w)) (l_state w, l_next_session w, l_next_cookie w) = (st, s, c) →
     wpx X (k ()) Q (set_l_state st (set_l_counters s c (set_l_os (lo_sleep ms (l_os w)) w)))) →
  wpx X (sleep_ms ms ≫= k) Q w.
Proof.
  intros Hk. unfold wpx, mbind, St_bind, sleep_ms in *.
  destruct (lo_tasks _ _) as [[st s] c] eqn:E. by apply Hk.
Qed.

(** One poll: done, or 100 ms later. *)
Lemma delay_loop_poll n what deadline w Q :
  (∀ w', quiet w w' → settled what deadline w' → Q () w') →
  (∀ w', quiet w w' → l_clock (l_os w) < deadline →
     l_clock (l_os w) + 100000000 ≤ l_clock (l_os w') →
     wpx False (delay_loop n what deadline) Q w') →
  wpx False (delay_loop (S n) what deadline) Q w.
Proof.
  intros Hdone Hnext. cbn [delay_loop]. apply wpx_modify, wpx_gets. set (w1 := set_l_state _ w).
  destruct (existsb _ (ls_inhibitors (l_state w1))) eqn:Eb; cbn [negb];
    [|apply Hdone; [done|by left]].
  apply wpx_call. pose proof (instant_law (l_os w)) as [H1 H2]. change (l_os w1) with (l_os w).
  destruct (lo_instant (l_os w)) as [now o']. cbn [fst snd] in *.
  destruct (Z.leb_spec deadline now); [apply Hdone; [done|right; cbn; lia]|].
  apply wpx_sleep_ms. intros st s c _. apply Hnext; [done|lia|]. pose proof (sleep_clock 100 o'). cbn in *. lia.
Qed.

Lemma delay_loop_spec n what deadline w :
  deadline ≤ l_clock (l_os w) + Z.of_nat n * 100000000 →
  wpx False (delay_loop (S n) what deadline) (λ _ w', quiet w w' ∧ settled what deadline w') w.
Proof.
  revert w. induction n as [|n IH]; intros w Hd; apply delay_loop_poll; try done.
  - intros w' _ Hlt. lia.
  - intros w' Hq _ Hc. eapply wpx_mono; [apply IH; lia|]. intros [] w2 [Hq' Hs].
    split; [by etrans|done].
Qed.

Lemma wait_spec polls what max w :
  0 ≤ max → (lo_instant (l_os w)).1 / NANOS + max ≤ 2 ^ 63 - 1 → 10 * max < Z.of_nat polls →
  wpx False (wait_for_delay_inhibitors polls what max)
    (λ _ w', quiet w w' ∧ settled what ((lo_instant (l_os w)).1 + max * NANOS) w') w.
Proof.
  intros Hmax Hsec Hp. unfold wait_for_delay_inhibitors. apply wpx_call.
  pose proof (instant_law (l_os w)) as [H1 H2]. destruct (lo_instant (l_os w)) as [now o].
  cbn [fst snd] in *. unfold instant_add. rewrite (proj2 (Z.leb_le _ _) Hsec).
  change (unwrap (Some ?x) ≫= ?k) with (k x). cbn beta. destruct polls as [|n]; [lia|].
  eapply wpx_mono; [apply delay_loop_spec; cbn; unfold NANOS; lia|]. done.
Qed.

Lemma wpx_perform {B} X e (k : result unit string → L B) Q w :
  wpx X (k (lo_perform e (l_os w)).1) Q (log_effect e (set_l_os (lo_perform e (l_os w)).2 w)) →
  wpx X (perform e ≫= k) Q w.
Proof. unfold wpx, mbind, St_bind, perform. by destruct (lo_perform e (l_os w)). Qed.

Lemma wpx_try_perform {B} X e (k : () → L B) Q w :
  wpx X (k ()) Q (log_effect e (set_l_os (lo_perform e (l_os w)).2 w)) →
  wpx X (try_perform e ≫= k) Q w.
Proof. unfold wpx, try_perform, mbind, St_bind, perform. by destruct (lo_perform e (l_os w)). Qed.

(** The premises of a wait that starts on a system [o]: the deadline is a time, and
    there are polls enough. *)
Definition can_wait (polls : nat) (w : Login) (o : los) : Prop :=
  let max := inhibit_delay_max (ls_config (l_state w)) in
  0 ≤ max ∧ 10 * max < Z.of_nat polls ∧ (lo_instant o).1 / NANOS + max ≤ 2 ^ 63 - 1.

(** The system after a signal was handed to its task. *)
Definition emitted (s : string) (w : Login) : los := (lo_perform (FxEmit s true) (l_os w)).2.

(** [w1] is a state after the signal [s] was emitted and the wait for [what] was over. *)
Definition prepared (s what : string) (w w1 : Login) : Prop :=
  l_effects w1 = (l_effects w ++ [FxEmit s true])%list ∧
  settled what ((lo_instant (emitted s w)).1 + inhibit_delay_max (ls_config (l_state w)) * NANOS) w1.

Lemma wpx_prepare {B} polls s what (k : () → L B) Q w :
  can_wait polls w (emitted s w) →
  (∀ w1, prepared s what w w1 → wpx False (k ()) Q w1) →
  wpx False (try_perform (FxEmit s true) ;;
             wait_for_delay_inhibitors polls what (inhibit_delay_max (ls_config (l_state w))) ≫= k) Q w.
Proof.
  intros (Hmax & Hp & Ho) Hk. apply wpx_try_perform, wpx_bind.
  eapply wpx_mono; [by apply wait_spec|]. cbn [l_os log_effect set_l_os]. intros [] w1 [Hq Hs].
  apply Hk. split; [done|]. exact Hs.
Qed.


(** [w'] is what performing the effects [es] from [w] gives. *)
Fixpoint performs (es : list effect) (w w' : Login) : Prop :=
  match es with
  | [] => w' = w
  | e :: es => performs es (log_effect e (set_l_os (lo_perform e (l_os w)).2 w)) w'
  end.

Lemma performs_effects es w w' : performs es w w' → l_effects w' = (l_effects w ++ es)%list.
Proof.
  revert w. induction es as [|e es IH]; intros w; cbn; [intros ->; by rewrite app_nil_r|].
  intros ->%IH. cbn. by rewrite <-app_assoc.
Qed.

(** What is written for a kind of sleep. *)
Definition sleep_word (kind : SleepKind) : string :=
  match kind with SleepSuspend => "mem" | SleepHibernate | SleepHybridSleep => "disk" end.

Lemma execute_sleep_spec polls kind w :
  can_wait polls w (emitted "PrepareForSleep" w) →
  wpx False (execute_sleep polls kind) (λ r w',
    let write := FxWrite "/sys/power/state" (sleep_word kind) in
    ∃ w1, prepared "PrepareForSleep" "sleep" w w1 ∧ r = (lo_perform write (l_os w1)).1 ∧
      performs [write; FxEmit "PrepareForSleep" false] w1 w') w.
Proof.
  intros Hw. unfold execute_sleep. apply wpx_gets, wpx_prepare; [done|]. intros w1 Hp.
  apply wpx_perform, wpx_try_perform. exists w1. split; [done|]. by destruct kind.
Qed.

(** C19: Going to sleep, provided the maximum delay does not overflow the clock:
    PrepareForSleep(true) is handed to the task that emits it; the state in which the write
    is made is one in which no delay inhibitor for sleep is held or the maximum delay has
    passed; from exactly that state the word of the kind of sleep is written once,
    PrepareForSleep(false) is handed over whether the write succeeded or not, and the result
    is the result of the write. *)
Theorem sleep_handshake polls kind w :
  can_wait polls w (emitted "PrepareForSleep" w) →
  let write := FxWrite "/sys/power/state" (sleep_word kind) in
  ∃ r w1 w', execute_sleep polls kind w = Ret r w' ∧
    prepared "PrepareForSleep" "sleep" w w1 ∧ r = (lo_perform write (l_os w1)).1 ∧
    performs [write; FxEmit "PrepareForSleep" false] w1 w'.
Proof.
  intros Hw. destruct (wpx_returns _ _ _ (execute_sleep_spec polls kind w Hw))
    as (r & w' & ? & w1 & ? & ? & ?). by exists r, w1, w'.
Qed.

(** ** Requests to the service manager *)

(** The effects of a command sent to the service manager. *)
Definition command_effects (data : list Z) : list effect :=
  [FxConnect CONTROL_SOCK; FxSetReadTimeout 10; FxSetWriteTimeout 5; FxSend data].
Definition command_message (body : MessageBody) : Message :=
  {| m_id := 1; m_kind := Request; m_body := body |}.

(** The calls of a command, in order; nothing is sent of a message that cannot be encoded. *)
Definition command_calls (body : MessageBody) : list effect :=
  match encode (command_message body) with
  | Ok data => command_effects data
  | Err _ => [FxConnect CONTROL_SOCK; FxSetReadTimeout 10; FxSetWriteTimeout 5]
  end.

(** The calls [es] were made in order, all of them or up to one that the system refused. *)
Definition attempted (es made : list effect) : Prop :=
  made = es ∨ ∃ n e o err, es !! n = Some e ∧ made = take (S n) es ∧ (lo_perform e o).1 = Err err.

(** A step that fails ends the command. *)
Lemma wpx_step {B E} e (f : string → E) (k : () → L (result B E)) (Q : result B E → Login → Prop) w :
  (∀ err err' w', (lo_perform e (l_os w)).1 = Err err' → l_effects w' = (l_effects w ++ [e])%list →
     Q (Err err) w') →
  (∀ w', l_effects w' = (l_effects w ++ [e])%list → wpx False (k ()) Q w') →
  wpx False (try_bind (r ← perform e; mret (map_err f r)) k) Q w.
Proof.
  intros Hf Hk. unfold try_bind. apply wpx_bind, wpx_perform.
  destruct (lo_perform e (l_os w)) as [[[]|err] o]; cbn; [by apply Hk|by eapply Hf].
Qed.

Lemma send_command_spec body w :
  wpx False (send_command body) (λ r w',
    ∃ l, l_effects w' = (l_effects w ++ l)%list ∧ attempted (command_calls body) l ∧
    (r = Ok () → ∃ data ans, encode (command_message body) = Ok data ∧
      l = command_effects data ∧ answer ans = Ok ())) w.
Proof.
  assert (∃ rest, command_calls body =
    ([FxConnect CONTROL_SOCK; FxSetReadTimeout 10; FxSetWriteTimeout 5] ++ rest)%list) as [rest Hc].
  { unfold command_calls. destruct (encode _) as [data|e]; [by exists [FxSend data]|by exists []]. }
  unfold send_command. apply wpx_step.
  { intros err err' w1 He H1. eexists. split; [exact H1|]. split; [|done]. right.
    exists 0%nat, (FxConnect CONTROL_SOCK), (l_os w), err'. by rewrite Hc. }
  intros w1 H1. apply wpx_step.
  { intros err err' w2 He H2. rewrite H1, <-app_assoc in H2. eexists. split; [exact H2|]. split; [|done].
    right. exists 1%nat, (FxSetReadTimeout 10), (l_os w1), err'. by rewrite Hc. }
  intros w2 H2. rewrite H1, <-app_assoc in H2. apply wpx_step.
  { intros err err' w3 He H3. rewrite H2, <-app_assoc in H3. eexists. split; [exact H3|]. split; [|done].
    right. exists 2%nat, (FxSetWriteTimeout 5), (l_os w2), err'. by rewrite Hc. }
  intros w3 H3. rewrite H2, <-app_assoc in H3. fold (command_message body). clear rest Hc.
  destruct (encode (command_message body)) as [data|e] eqn:E.
  2: { eexists. split; [exact H3|]. split; [|done]. left. unfold command_calls. by rewrite E. }
  apply wpx_step.
  { intros err err' w4 He H4. rewrite H3, <-app_assoc in H4. eexists. split; [exact H4|]. split; [|done].
    right. exists 3%nat, (FxSend data), (l_os w3), err'. unfold command_calls. by rewrite E. }
  intros w4 H4. rewrite H3, <-app_assoc in H4. apply wpx_call.
  destruct (lo_recv (l_os w4)) as [[ans|err] o]; cbn; eexists; (split; [exact H4|]);
    (split; [left; unfold command_calls; by rewrite E|]); [|done].
  intros Ha. by exists data, ans.
Qed.

(** The kinds of shutdown of the two programs. *)
Inductive same_kind : PowerShutdownKind → Protocol.ShutdownKind → Prop :=
| same_poweroff : same_kind PowerPoweroff Protocol.Poweroff
| same_reboot : same_kind PowerReboot Protocol.Reboot
| same_halt : same_kind PowerHalt Protocol.Halt.

(** [w1] is the state in which the request is made: [w'] is what making it there gives. *)
Lemma shutdown_action_spec polls kind w :
  can_wait polls w (emitted "PrepareForShutdown" w) →
  wpx False (execute_shutdown_action polls kind) (λ r w',
    ∃ pk w1 l, same_kind kind pk ∧ prepared "PrepareForShutdown" "shutdown" w w1 ∧
      request_shutdown pk w1 = Ret r w' ∧
      l_effects w' = (l_effects w1 ++ l)%list ∧ attempted (command_calls (MShutdown pk)) l ∧
      (r = Ok () → ∃ data ans, encode (command_message (MShutdown pk)) = Ok data ∧
         l = command_effects data ∧ answer ans = Ok ())) w.
Proof.
  intros Hw. unfold execute_shutdown_action. apply wpx_gets, wpx_prepare; [done|]. intros w1 Hp.
  destruct (wpx_returns _ _ _ (send_command_spec (MShutdown (to_protocol_kind kind)) w1))
    as (r & w' & E & l & He & Ha & Hr).
  unfold wpx, request_shutdown. rewrite E. exists (to_protocol_kind kind), w1, l.
  split_and!; try done. by destruct kind; constructor.
Qed.

(** Shutting down announces PrepareForShutdown(true), waits for the delay inhibitors, and
    succeeds only when the service manager acknowledged the request it was sent. *)
Theorem shutdown_handshake polls kind w :
  can_wait polls w (emitted "PrepareForShutdown" w) →
  ∃ r pk w1 w', execute_shutdown_action polls kind w = Ret r w' ∧ same_kind kind pk ∧
    prepared "PrepareForShutdown" "shutdown" w w1 ∧ request_shutdown pk w1 = Ret r w' ∧
    (r = Ok () → ∃ data ans, encode (command_message (MShutdown pk)) = Ok data ∧
       l_effects w' = (l_effects w ++ FxEmit "PrepareForShutdown" true :: command_effects data)%list ∧
       answer ans = Ok ()).
Proof.
  intros Hw. destruct (wpx_returns _ _ _ (shutdown_action_spec polls kind w Hw))
    as (r & w' & ? & pk & w1 & l & ? & Hp & ? & He & _ & Hr). exists r, pk, w1, w'. split_and!; try done.
  intros Hok. destruct (Hr Hok) as (data & ans & Henc & -> & Ha). exists data, ans. split_and!; try done.
  destruct Hp as [He1 _]. by rewrite He, He1, <-app_assoc.
Qed.

(** ** The buttons *)

(** A block inhibitor for [what] whose client has not let go. *)
Definition blocked (what : string) (w : Login) : bool :=
  existsb (λ i, negb (is_released i (l_os w)) && inhibits "block" what i) (ls_inhibitors (l_state w)).

Lemma existsb_filter {A} (P : A → Prop) `{!∀ x, Decision (P x)} (q : A → bool) (l : list A) :
  existsb q (filter P l) = existsb (λ x, bool_decide (P x) && q x) l.
Proof.
  induction l as [|x l IH]; [done|]. rewrite filter_cons. cbn. case_decide as HP; cbn.
  - by rewrite IH, bool_decide_eq_true_2.
  - by rewrite IH, bool_decide_eq_false_2.
Qed.

Definition collected (w : Login) : Login :=
  set_l_state (ls_with_inhibitors (filter (λ i, is_released i (l_os w) = false)
    (ls_inhibitors (l_state w))) (l_state w)) w.

Lemma has_block_inhibitor_eq what w :
  has_block_inhibitor what w = Ret (blocked what w) (collected w).
Proof.
  unfold has_block_inhibitor, gc_inhibitors, get_state, gets, modify, mbind, St_bind, mret, St_ret.
  fold (collected w). f_equal. unfold blocked. cbn. rewrite existsb_filter.
  induction (ls_inhibitors (l_state w)) as [|i l IH]; [done|]. cbn. rewrite IH. f_equal.
  destruct (is_released i (l_os w)); [by rewrite bool_decide_eq_false_2|by rewrite bool_decide_eq_true_2].
Qed.

(** The effects an action must have when nothing blocks it. *)
Definition acts (action : HandleAction) (before after : list effect) : Prop :=
  let slept s := after = (before ++ [FxEmit "PrepareForSleep" true; FxWrite "/sys/power/state" s;
                                     FxEmit "PrepareForSleep" false])%list in
  let shut_down kind := ∃ l, attempted (command_calls (MShutdown kind)) l ∧
    after = (before ++ FxEmit "PrepareForShutdown" true :: l)%list in
  match action with
  | Ignore | Lock => after = before
  | Suspend => slept "mem"
  | Hibernate | HybridSleep => slept "disk"
  | LoginConfig.Poweroff => shut_down Protocol.Poweroff
  | LoginConfig.Reboot => shut_down Protocol.Reboot
  | LoginConfig.Halt => shut_down Protocol.Halt
  end.

Lemma wpx_sleep_acts polls kind w Q :
  can_wait polls w (emitted "PrepareForSleep" w) →
  (∀ w', l_effects w' = (l_effects w ++ [FxEmit "PrepareForSleep" true;
      FxWrite "/sys/power/state" (sleep_word kind); FxEmit "PrepareForSleep" false])%list → Q () w') →
  wpx False (ignore (execute_sleep polls kind)) Q w.
Proof.
  intros Hw HQ. unfold ignore. apply wpx_bind. eapply wpx_mono; [by apply execute_sleep_spec|].
  cbv beta zeta. intros r w' (w1 & [He1 _] & _ & He%performs_effects). apply HQ.
  by rewrite He, He1, <-app_assoc.
Qed.

Lemma wpx_shutdown_acts polls kind w Q :
  can_wait polls w (emitted "PrepareForShutdown" w) →
  (∀ w' pk l, same_kind kind pk → attempted (command_calls (MShutdown pk)) l →
     l_effects w' = (l_effects w ++ FxEmit "PrepareForShutdown" true :: l)%list → Q () w') →
  wpx False (ignore (execute_shutdown_action polls kind)) Q w.
Proof.
  intros Hw HQ. unfold ignore. apply wpx_bind. eapply wpx_mono; [by apply shutdown_action_spec|].
  cbn. intros r w' (pk & w1 & l & Hk & [He1 _] & _ & He & Ha & _). eapply HQ; [exact Hk|exact Ha|].
  by rewrite He, He1, <-app_assoc.
Qed.

(** Whichever signal an action emits, it can wait. *)
Definition can_act (polls : nat) (w : Login) : Prop :=
  can_wait polls w (emitted "PrepareForSleep" w) ∧
  can_wait polls w (emitted "PrepareForShutdown" w).

Lemma start_action_spec polls action w Q :
  can_act polls w → (∀ w', acts action (l_effects w) (l_effects w') → Q () w') →
  wpx False (start_action polls action) Q w.
Proof.
  intros [H1 H2] HQ. destruct action; cbn [start_action];
    try (apply wpx_sleep_acts; [done|]; intros w' He; by apply HQ);
    try (apply wpx_shutdown_acts; [done|]; intros w' pk l Hk; inversion Hk; subst; intros Ha He; apply HQ; by exists l);
    by apply HQ.
Qed.

(** What an inhibitor must name to block an action. *)
Definition covered_by (action : HandleAction) : option string :=
  match action with
  | Suspend | Hibernate | HybridSleep => Some "sleep"
  | LoginConfig.Poweroff | LoginConfig.Reboot | LoginConfig.Halt => Some "shutdown"
  | Ignore | Lock => None
  end.

(** An action that is to run: nothing happens but the collection of released inhibitors when
    one blocks it, and otherwise its effects follow. *)
Definition handled (action : HandleAction) (w w' : Login) : Prop :=
  if match covered_by action with Some what => blocked what w | None => false end
  then w' = collected w else acts action (l_effects w) (l_effects w').

Lemma run_action_spec polls action w :
  can_act polls w → wpx False (run_action polls action) (λ _ w', handled action w w') w.
Proof.
  intros Hw. unfold run_action. apply wpx_bind.
  assert ((if bool_decide (inhibit_what action = "") then None else Some (inhibit_what action))
          = covered_by action) as Hc by (by destruct action).
  unfold handled. rewrite <-Hc. case_bool_decide as Hne; [by apply start_action_spec|].
  unfold wpx at 1. rewrite has_block_inhibitor_eq. destruct (blocked _ w); [done|].
  by apply (start_action_spec _ _ (collected w)).
Qed.

(** The state after a look at the clock. *)
Definition looked (w : Login) : Login := set_l_os (lo_instant (l_os w)).2 w.

(** C21: What an ACPI event does, provided the inhibitor delay does not overflow the clock:
    the power and suspend buttons run the action configured for each, an opened lid does
    nothing, a closed lid is ignored within the hold-off time of the last one handled and
    otherwise runs the action configured for it on external power or on battery. An action
    that a block inhibitor covers does nothing but collect released inhibitors. Otherwise
    its effects follow and no others: nothing for ignore and lock; the announcement, the
    write of mem (suspend) or disk (hibernate, hybrid sleep) and the second announcement for
    sleep; for power off, reboot and halt the announcement and the calls of the request of
    that kind in their order, all of them or up to one the system refused. *)
Theorem button_action polls event last w :
  can_act polls w → can_act polls (looked w) →
  let cfg := ls_config (l_state w) in
  let now := (lo_instant (l_os w)).1 in
  ∃ last' w', dispatch_event polls event last w = Ret last' w' ∧
    match event with
    | PowerButton => last' = last ∧ handled (handle_power_key cfg) w w'
    | SleepButton => last' = last ∧ handled (handle_suspend_key cfg) w w'
    | LidOpened => last' = last ∧ w' = w
    | LidClosed =>
        if Z.max 0 (now - last) <? holdoff_timeout cfg * NANOS then last' = last ∧ w' = looked w
        else last' = now ∧
          handled (if on_external_power (l_os w) then handle_lid_switch_external_power cfg
                   else handle_lid_switch cfg) (looked w) w'
    end.
Proof.
  intros H1 H2 cfg now. unfold dispatch_event, get_state, query, gets. unfold mbind at 1 2, St_bind at 1 2.
  destruct event; cbn [event_action].
  - destruct (wpx_returns _ _ _ (run_action_spec polls (handle_power_key cfg) w H1)) as ([] & w' & E & Hh).
    unfold mbind, St_bind. fold cfg. rewrite E. by exists last, w'.
  - destruct (wpx_returns _ _ _ (run_action_spec polls (handle_suspend_key cfg) w H1)) as ([] & w' & E & Hh).
    unfold mbind, St_bind. fold cfg. rewrite E. by exists last, w'.
  - unfold is_docked. rewrite andb_false_r. fold cfg. set (action := if on_external_power _ then _ else _).
    destruct (wpx_returns _ _ _ (run_action_spec polls action (looked w) H2)) as ([] & w' & E & Hh).
    unfold mbind at 1, St_bind at 1, call. unfold looked in *. subst now.
    destruct (lo_instant (l_os w)) as [now o]. cbn [fst snd] in *.
    destruct (_ <? _); [by eexists _, _|]. unfold mbind, St_bind. rewrite E. by exists now, w'.
  - by exists last, w.
Qed.
End clock.
End login_power.

(** ** On the small machine *)

Definition demo_with_clock tasks recv : @LoginClock (demo_with tasks recv).
Proof.
  refine {| l_clock := dm_clock : @los (demo_with tasks recv) → Z |}; cbn.
  - intros o. lia.
  - intros ms o. cbn. lia.
Defined.
#[export] Instance demo_clock : @LoginClock demo_os := demo_with_clock (λ sh, sh) [].

Definition ex_inhibitor (what mode : string) : Inhibitor := {|
  in_what := what; in_who := "editor"; in_why := "saving"; in_mode := mode; in_uid := 1000;
  in_pid := 77; in_cookie := 1; in_pipe_read := 3 |}.

(** A state with one inhibitor. *)
Definition ex_inhibited (what mode : string) : @Login demo_os :=
  demo_login (ls_with_inhibitors [ex_inhibitor what mode] ex_two) 3.


(** A delay inhibitor holds the write back for the five seconds of the configuration. *)
Lemma sleep_handshake_witness :
  ∃ r w1 w', @execute_sleep demo_os 51 SleepSuspend (ex_inhibited "idle:sleep" "delay") = Ret r w' ∧
    settled "sleep" (5 * NANOS) w1 ∧
    l_effects w' = [FxEmit "PrepareForSleep" true; FxWrite "/sys/power/state" "mem";
                    FxEmit "PrepareForSleep" false].
Proof.
  destruct (@sleep_handshake demo_os demo_clock 51 SleepSuspend (ex_inhibited "idle:sleep" "delay"))
    as (r & w1 & w' & Hw & [Hp Hs] & _ & He).
  { split; [vm_compute; done|]. split; vm_compute; done. }
  exists r, w1, w'. split; [exact Hw|]. split; [exact Hs|].
  apply performs_effects in He. rewrite He, Hp. reflexivity.
Defined.

Lemma shutdown_handshake_witness :
  ∃ r w', @execute_shutdown_action demo_os fixmap_rmp 51 PowerHalt (ex_inhibited "idle" "delay") = Ret r w'.
Proof.
  destruct (@shutdown_handshake demo_os fixmap_rmp demo_clock 51 PowerHalt (ex_inhibited "idle" "delay"))
    as (r & pk & w1 & w' & Hw & _).
  { split; [vm_compute; done|]. split; vm_compute; done. }
  eauto.
Defined.

(** Closing the lid suspends, unless a block inhibitor for sleep is held. *)
Lemma button_action_witness :
  ∃ last', @dispatch_event demo_os fixmap_rmp 51 LidClosed (- 3600 * NANOS) (ex_inhibited "sleep" "block")
    = Ret last' (collected (looked (ex_inhibited "sleep" "block"))).
Proof.
  destruct (@button_action demo_os fixmap_rmp demo_clock 51 LidClosed (- 3600 * NANOS) (ex_inhibited "sleep" "block"))
    as (last' & w' & Hw & Hb).
  { split; (split; [vm_compute; done|]; split; vm_compute; done). }
  { split; (split; [vm_compute; done|]; split; vm_compute; done). }
  cbv zeta in Hb. replace (Z.max 0 _ <? _) with false in Hb by (vm_compute; reflexivity).
  destruct Hb as [_ Hh]. unfold handled in Hh.
  replace (match covered_by _ with Some _ => _ | None => _ end) with true in Hh by (vm_compute; reflexivity).
  exists last'. rewrite Hw, Hh. reflexivity.
Defined.
