(* ===== verification/LoginPaths.v ===== *)
(** * Object paths of the login manager (the helpers of manager.rs)

    The D-Bus object paths of sessions, seats and users and the two escapings they
    use.  Paths are checked by the library zvariant, a parameter: the class [ZPath]
    with its documented law, that a path of the D-Bus specification is accepted.  The
    theorems: every path the program builds is one, the escaping of session ids can be
    undone, and two sessions never share a path. *)

From S2P Require Import Prelude RustStr LoginState.

#[local] Open Scope string_scope.
#[local] Open Scope Z_scope.

(** ** Escaping *)

Definition hex_digit (d : Z) : Ascii.ascii :=
  Ascii.ascii_of_N (Z.to_N (if d <? 10 then 48 + d else 87 + d)).
Definition byte_val (c : Ascii.ascii) : Z := Z.of_N (Ascii.N_of_ascii c).

Definition underscore : Ascii.ascii := Ascii.ascii_of_nat 95.

(** [format!("_{:02x}", b)] *)
Definition escape_byte (c : Ascii.ascii) : string :=
  String underscore
    (String (hex_digit (byte_val c / 16)) (String (hex_digit (byte_val c mod 16)) "")).

Fixpoint escape_bytes (s : string) : string :=
  match s with
  | "" => ""
  | String c s => escape_byte c ++ escape_bytes s
  end.
Definition systemd_escape (s : string) : string :=
  if bool_decide (s = "") then "_" else escape_bytes s.

Definition is_ascii_alphanumeric (c : Ascii.ascii) : bool :=
  let n := byte_val c in
  ((48 <=? n) && (n <=? 57)) || ((65 <=? n) && (n <=? 90)) || ((97 <=? n) && (n <=? 122)).
Definition is_underscore (c : Ascii.ascii) : bool := byte_val c =? 95.

Fixpoint escape_light (s : string) : string :=
  match s with
  | "" => ""
  | String c s =>
      (if is_ascii_alphanumeric c || is_underscore c then String c "" else escape_byte c)
      ++ escape_light s
  end.
Definition escape_object_path_component (s : string) : string :=
  if bool_decide (s = "") then "_" else escape_light s.

Definition session_object_path (id : string) : string :=
  "/org/freedesktop/login1/session/" ++ systemd_escape id.
Definition seat_object_path (id : string) : string :=
  "/org/freedesktop/login1/seat/" ++ escape_object_path_component id.
Definition user_object_path (uid : Z) : string :=
  "/org/freedesktop/login1/user/" ++ systemd_escape (to_string uid).

Example paths_example :
  (session_object_path "1", seat_object_path "seat-0", user_object_path 1000) =
  ("/org/freedesktop/login1/session/_31", "/org/freedesktop/login1/seat/seat_2d0",
   "/org/freedesktop/login1/user/_31_30_30_30").
Proof. reflexivity. Qed.

(** The light escaping is not injective: it keeps underscores. *)
Example escape_light_collides :
  escape_object_path_component "seat-0" = escape_object_path_component "seat_2d0".
Proof. reflexivity. Qed.

(** ** The paths of the D-Bus specification *)

Definition path_char (c : Ascii.ascii) : bool := is_ascii_alphanumeric c || is_underscore c.

(** Elements of path characters, none empty, separated by slashes. *)
Fixpoint elements_ok (fresh : bool) (s : string) : bool :=
  match s with
  | "" => negb fresh
  | String c s => if byte_val c =? 47 then negb fresh && elements_ok true s
                  else path_char c && elements_ok false s
  end.
Definition valid_object_path (p : string) : bool :=
  match p with
  | "" => false
  | String c r => (byte_val c =? 47) && (bool_decide (r = "") || elements_ok true r)
  end.

(** zvariant's [OwnedObjectPath::try_from]. *)
Class ZPath := object_path_try_from : string → result string string.
Class ZPathLaw (Z : ZPath) :=
  object_path_accepts : ∀ p, valid_object_path p = true → object_path_try_from p = Ok p.

(** A library that checks paths by the specification. *)
Definition spec_zpath : ZPath := λ p, if valid_object_path p then Ok p else Err "invalid".
#[export] Instance spec_zpath_law : ZPathLaw spec_zpath.
Proof. intros p Hp. unfold object_path_try_from, spec_zpath. by rewrite Hp. Qed.

(** ** Undoing the escaping *)

Definition unhex (c : Ascii.ascii) : option Z :=
  let n := byte_val c in
  if (48 <=? n) && (n <=? 57) then Some (n - 48)
  else if (97 <=? n) && (n <=? 102) then Some (n - 87) else None.

Fixpoint unescape_bytes (s : string) : option string :=
  match s with
  | "" => Some ""
  | String u (String h (String l s)) =>
      h ← unhex h; l ← unhex l; r ← unescape_bytes s;
      if is_underscore u then Some (String (Ascii.ascii_of_N (Z.to_N (16 * h + l))) r) else None
  | _ => None
  end.
Definition systemd_unescape (s : string) : option string :=
  if bool_decide (s = "_") then Some "" else unescape_bytes s.

Lemma byte_val_range c : 0 ≤ byte_val c < 256.
Proof. unfold byte_val. pose proof (Ascii.N_ascii_bounded c). lia. Qed.

Lemma byte_val_of_Z z : 0 ≤ z < 256 → byte_val (Ascii.ascii_of_N (Z.to_N z)) = z.
Proof. intros Hz. unfold byte_val. rewrite Ascii.N_ascii_embedding by lia. lia. Qed.

Lemma of_byte_val c : Ascii.ascii_of_N (Z.to_N (byte_val c)) = c.
Proof. unfold byte_val. rewrite N2Z.id. apply Ascii.ascii_N_embedding. Qed.

Lemma byte_val_hex d : 0 ≤ d < 16 → byte_val (hex_digit d) = if d <? 10 then 48 + d else 87 + d.
Proof. intros Hd. unfold hex_digit. apply byte_val_of_Z. destruct (Z.ltb_spec d 10); lia. Qed.

Lemma unhex_digit d : 0 ≤ d < 16 → unhex (hex_digit d) = Some d.
Proof.
  intros Hd. unfold unhex. rewrite byte_val_hex by done. destruct (Z.ltb_spec d 10).
  - destruct (Z.leb_spec 48 (48 + d)), (Z.leb_spec (48 + d) 57); cbn; f_equal; lia.
  - destruct (Z.leb_spec 48 (87 + d)), (Z.leb_spec (87 + d) 57), (Z.leb_spec 97 (87 + d)),
      (Z.leb_spec (87 + d) 102); cbn; f_equal; lia.
Qed.

Lemma path_char_hex d : 0 ≤ d < 16 → path_char (hex_digit d) = true.
Proof.
  intros Hd. unfold path_char, is_ascii_alphanumeric. rewrite byte_val_hex by done.
  destruct (Z.ltb_spec d 10); apply orb_true_iff; left; rewrite !orb_true_iff, !andb_true_iff, !Z.leb_le; lia.
Qed.

Lemma unescape_escape_bytes s : unescape_bytes (escape_bytes s) = Some s.
Proof.
  induction s as [|c s IH]; [done|]. cbn -[hex_digit Z.div Z.modulo]. pose proof (byte_val_range c) as Hc.
  assert (0 ≤ byte_val c / 16 < 16) as Hh by (split; [apply Z.div_pos|apply Z.div_lt_upper_bound]; lia).
  pose proof (Z.mod_pos_bound (byte_val c) 16) as Hl.
  rewrite !unhex_digit, IH by lia. cbn -[Z.div Z.modulo]. rewrite <-Z.div_mod by lia. by rewrite of_byte_val.
Qed.

Lemma systemd_unescape_escape s : systemd_unescape (systemd_escape s) = Some s.
Proof.
  unfold systemd_escape. case_bool_decide as Hs; [by subst|]. unfold systemd_unescape.
  destruct s as [|c s]; [done|]. rewrite bool_decide_eq_false_2; [apply unescape_escape_bytes|done].
Qed.

#[export] Instance systemd_escape_inj : Inj (=) (=) systemd_escape.
Proof.
  intros s t Heq. pose proof (systemd_unescape_escape s) as Hs.
  rewrite Heq, systemd_unescape_escape in Hs. congruence.
Qed.

(** The path of a session determines its id: the escaping can be undone, and two sessions
    have the same path only if they have the same id. *)
Theorem session_path_roundtrip id id' :
  (∃ e, strip_prefix "/org/freedesktop/login1/session/" (session_object_path id) = Some e ∧
        systemd_unescape e = Some id) ∧
  (session_object_path id = session_object_path id' ↔ id = id').
Proof.
  split.
  - exists (systemd_escape id). split; [apply strip_prefix_app|apply systemd_unescape_escape].
  - split; [|by intros ->]. unfold session_object_path. intros Heq. apply (inj systemd_escape).
    apply (f_equal (strip_prefix "/org/freedesktop/login1/session/")) in Heq.
    rewrite !strip_prefix_app in Heq. congruence.
Qed.

(** ** Every path is valid *)

Definition all_path_chars : string → bool := str_all path_char.

Lemma elements_ok_chars b s :
  all_path_chars s = true → s ≠ "" → elements_ok b s = true.
Proof.
  revert b. induction s as [|c s IH]; intros b Hall Hne; [done|].
  cbn in Hall. apply andb_true_iff in Hall as [Hc Hall]. cbn [elements_ok].
  destruct (Z.eqb_spec (byte_val c) 47) as [E|_].
  { exfalso. unfold path_char, is_ascii_alphanumeric, is_underscore in Hc. rewrite E in Hc. done. }
  rewrite Hc. cbn. destruct s as [|d s]; [done|]. by apply IH.
Qed.

Lemma escape_byte_chars c : all_path_chars (escape_byte c) = true.
Proof.
  unfold all_path_chars, escape_byte. cbn -[hex_digit Z.div Z.modulo path_char].
  pose proof (byte_val_range c) as Hc.
  rewrite !path_char_hex; [done| |]; [apply Z.mod_pos_bound; lia|].
  split; [apply Z.div_pos|apply Z.div_lt_upper_bound]; lia.
Qed.

Lemma systemd_escape_chars s : all_path_chars (systemd_escape s) = true ∧ systemd_escape s ≠ "".
Proof.
  unfold systemd_escape. case_bool_decide as Hs; [done|]. split; [|by destruct s].
  clear Hs. induction s as [|c s IH]; [done|]. cbn [escape_bytes]. unfold all_path_chars.
  rewrite str_all_app. apply andb_true_iff. split; [apply escape_byte_chars|done].
Qed.

Lemma escape_light_chars s :
  all_path_chars (escape_object_path_component s) = true ∧ escape_object_path_component s ≠ "".
Proof.
  unfold escape_object_path_component. case_bool_decide as Hs; [done|]. split.
  - clear Hs. induction s as [|c s IH]; [done|]. cbn [escape_light]. unfold all_path_chars.
    rewrite str_all_app. apply andb_true_iff. split; [|done].
    destruct (is_ascii_alphanumeric c || is_underscore c) eqn:E; [|apply escape_byte_chars].
    cbn. unfold path_char. by rewrite E.
  - destruct s as [|c s]; [done|]. cbn [escape_light]. by destruct (_ || _).
Qed.

(** A path of a kind of object and an element. *)
Lemma valid_login_path kind e :
  all_path_chars kind = true ∧ kind ≠ "" → all_path_chars e = true ∧ e ≠ "" →
  valid_object_path ("/org/freedesktop/login1/" ++ kind ++ "/" ++ e) = true.
Proof.
  intros [Hk Hne] [He Hne']. change (elements_ok true (kind ++ "/" ++ e) = true).
  generalize true at 1. revert Hne. induction kind as [|c k IH]; intros Hne b; [done|].
  cbn in Hk. apply andb_true_iff in Hk as [Hc Hk]. cbn [String.append elements_ok].
  destruct (Z.eqb_spec (byte_val c) 47) as [E|_].
  { exfalso. unfold path_char, is_ascii_alphanumeric, is_underscore in Hc. rewrite E in Hc. done. }
  rewrite Hc. cbn [andb]. destruct k as [|d k]; [|by apply IH].
  cbn. by apply elements_ok_chars.
Qed.

(** C40: Every object path the login manager builds, for any session id, seat name or user
    id, is a path of the D-Bus specification. *)
Theorem object_paths_valid id uid :
  valid_object_path (session_object_path id) = true ∧
  valid_object_path (seat_object_path id) = true ∧
  valid_object_path (user_object_path uid) = true.
Proof.
  split_and!; [apply (valid_login_path "session")|apply (valid_login_path "seat")
    |apply (valid_login_path "user")]; try done;
    [apply systemd_escape_chars|apply escape_light_chars|apply systemd_escape_chars].
Qed.
