(* ===== verification/LoginManager.v ===== *)
(** * The Manager object of the login manager (rust/dynamod-logind/src/manager.rs)

    One definition per D-Bus method and property.  A handler runs without
    interleaving here, except where it sleeps; the interleavings of the cleanup task
    that [finalize_session_removal] starts are the subject of LoginCleanup.v. *)

From S2P Require Import Prelude RustStr Protocol Monad LoginConfig LoginState LoginSys.
From S2P Require Import LoginPower LoginPaths.

#[local] Open Scope string_scope.
#[local] Open Scope Z_scope.

(** [zbus::fdo::Error], the two variants used. *)
Inductive fdo_error := Failed (m : string) | InvalidArgs (m : string).

(** The order of a loop over the users. *)
Class UidOrder := {
  uid_iter : ∀ {V : Type}, gmap Z V → list (Z * V);
  uid_iter_perm : ∀ V (m : gmap Z V), uid_iter m ≡ₚ map_to_list m;
}.
Definition uid_elements_order : UidOrder.
Proof. refine {| uid_iter := λ V m, map_to_list m |}; done. Defined.

Definition SIGTERM : Z := 15.

(** auth.rs *)
Definition check_power_action (_ : Z) (_ : string) : string := "yes".
Definition check_session_action (_ _ : Z) : bool := true.

Section login_manager.
Context {K : LoginOS} {R : Rmp} {ZP : ZPath} {HO : HashOrder} {UO : UidOrder}.

#[local] Abbreviation F A := (L (result A fdo_error)).
Definition fail {A} (e : fdo_error) : F A := mret (Err e).
Definition object_path (p : string) : result string fdo_error :=
  map_err Failed (object_path_try_from p).

Definition kill_leader (pid : Z) : L unit := try_perform (FxKill (as_i32 pid) SIGTERM).

(** ** Creating sessions *)

Record create_args := {
  ca_uid : Z; ca_pid : Z; ca_service : string; ca_session_type : string; ca_class : string;
  ca_desktop : string; ca_seat_id : string; ca_vtnr : Z; ca_tty : string; ca_display : string;
  ca_remote : bool; ca_remote_user : string; ca_remote_host : string;
}.

Definition non_empty (s : string) : option string := if bool_decide (s = "") then None else Some s.

Definition choose_seat (seat_id : string) (st : LoginState) : result (option string) fdo_error :=
  if bool_decide (seat_id = "") then
    Ok (if bool_decide (is_Some (ls_seats st !! "seat0")) then Some "seat0" else None)
  else if bool_decide (is_Some (ls_seats st !! seat_id)) then Ok (Some seat_id)
  else Err (InvalidArgs ("seat '" ++ seat_id ++ "' does not exist")).

Definition request_of (a : create_args) (user_name : string) (seat : option string)
  : session_request := {|
  rq_uid := ca_uid a; rq_user_name := user_name; rq_leader_pid := ca_pid a;
  rq_service := ca_service a; rq_session_type := default "tty" (non_empty (ca_session_type a));
  rq_class := default "user" (non_empty (ca_class a)); rq_desktop := ca_desktop a;
  rq_seat_id := seat; rq_vtnr := ca_vtnr a; rq_tty := non_empty (ca_tty a);
  rq_display := non_empty (ca_display a); rq_remote := ca_remote a;
  rq_remote_user := ca_remote_user a; rq_remote_host := ca_remote_host a |}.

(** A login within the grace period cancels the cleanup of the user's directory. *)
Definition cancel_cleanup (uid : Z) : L unit :=
  st ← get_state;
  match ls_pending_user_cleanups st !! uid with
  | None => mret ()
  | Some task =>
      on_state (λ st, ls_with_cleanups (delete uid (ls_pending_user_cleanups st)) st) ;;
      try_perform (FxAbort task)
  end.

(** [st.create_session(...)] with the clocks and the counter of the program. *)
Definition add_session (now_usec now : Z) (rq : session_request) : L string := λ w,
  let '(id, counter, st) := create_session (l_next_session w) now_usec now rq (l_state w) in
  Ret id (set_l_state st (set_l_counters counter (l_next_cookie w) w)).

Definition register_session (rq : session_request) : L string :=
  now_usec ← call lo_realtime_usec;
  now ← call lo_instant;
  add_session now_usec now rq.

(** [has_server]: whether main has stored the object server yet. *)
Definition register_objects (has_server : bool) (id : string) (uid : Z) : L unit :=
  if has_server then
    try_perform (FxObjectAt (session_object_path id)) ;;
    try_perform (FxObjectAt (user_object_path uid))
  else mret ().

Definition manager_create_session (has_server : bool) (a : create_args)
  : F (string * string * string * string * Z * bool) :=
  st ← get_state;
  match choose_seat (ca_seat_id a) st with
  | Err e => fail e
  | Ok seat =>
      info ← query (lo_user_from_uid (ca_uid a));
      let '(user_name, gid) := default ("uid" ++ to_string (ca_uid a), ca_uid a) info in
      cancel_cleanup (ca_uid a) ;;
      id ← register_session (request_of a user_name seat);
      st ← get_state;
      let runtime_size := runtime_directory_size (ls_config st) in
      let is_active := match ls_sessions st !! id with Some s => ss_active s | None => false end in
      _ ← ensure (ca_uid a) gid runtime_size;
      place_leader (ca_uid a) id (ca_pid a) ;;
      (match seat with
       | Some s => if is_active then apply_session_acl s (ca_uid a) else mret ()
       | None => mret ()
       end) ;;
      register_objects has_server id (ca_uid a) ;;
      mret (p <-? object_path (session_object_path id);
            Ok (id, p, path_for (ca_uid a), default "" seat, ca_vtnr a, false))
  end.

(** ** Looking up and listing *)

Definition get_session (session_id : string) : F string :=
  st ← get_state;
  if bool_decide (is_Some (ls_sessions st !! session_id))
  then mret (object_path (session_object_path session_id))
  else fail (Failed ("no session '" ++ session_id ++ "'")).

Definition get_session_by_pid (pid : Z) : F string :=
  st ← get_state;
  match session_for_pid pid st with
  | Some id => mret (object_path (session_object_path id))
  | None => fail (Failed ("no session for PID " ++ to_string pid))
  end.

Definition get_seat (seat_id : string) : F string :=
  st ← get_state;
  if bool_decide (is_Some (ls_seats st !! seat_id))
  then mret (object_path (seat_object_path seat_id))
  else fail (Failed ("no seat '" ++ seat_id ++ "'")).

Definition get_user (uid : Z) : F string :=
  st ← get_state;
  if bool_decide (is_Some (ls_users st !! uid))
  then mret (object_path (user_object_path uid))
  else fail (Failed ("no user with UID " ++ to_string uid)).

(** A loop that pushes one entry per element and stops at the first error. *)
Fixpoint collect {A B} (f : A → result B fdo_error) (l : list A) : result (list B) fdo_error :=
  match l with
  | [] => Ok []
  | a :: l => b <-? f a; bs <-? collect f l; Ok (b :: bs)
  end.

Definition list_sessions : F (list (string * Z * string * string * string)) :=
  st ← get_state;
  mret (collect (λ '(_, s),
    p <-? object_path (session_object_path (ss_id s));
    Ok (ss_id s, ss_uid s, ss_user_name s, default "" (ss_seat s), p))
    (map_iter "sessions" (ls_sessions st))).

Definition list_seats : F (list (string * string)) :=
  st ← get_state;
  mret (collect (λ '(_, s), p <-? object_path (seat_object_path (se_id s)); Ok (se_id s, p))
    (map_iter "seats" (ls_seats st))).

Definition list_users : F (list (Z * string * string)) :=
  st ← get_state;
  mret (collect (λ '(_, u),
    p <-? object_path (user_object_path (us_uid u)); Ok (us_uid u, us_name u, p))
    (uid_iter (ls_users st))).

(** ** Inhibitors *)

Definition caller_credentials (sender : option string) : L (Z * Z) :=
  match sender with
  | None => mret (0, 0)
  | Some s =>
      creds ← query (lo_credentials s);
      mret (match creds with
            | None => (0, 0)
            | Some (uid, pid) => (default 0 uid, default 0 pid)
            end)
  end.

Definition draw_cookie : L Z := λ w,
  let '(cookie, c) := next_inhibitor_cookie (l_next_cookie w) in
  Ret cookie (set_l_counters (l_next_session w) c w).

Definition inhibit (what who why mode : string) (sender : option string) : F Z :=
  '(uid, pid) ← caller_credentials sender;
  cookie ← draw_cookie;
  r ← create_inhibitor what who why mode uid pid cookie;
  match r with
  | Err e => fail (Failed e)
  | Ok (inh, client_fd) =>
      on_state (λ st, ls_with_inhibitors (ls_inhibitors st ++ [inh]) st) ;;
      mret (Ok client_fd)
  end.

Definition list_inhibitors : F (list (string * string * string * string * Z * Z)) :=
  gc_inhibitors ;;
  st ← get_state;
  mret (Ok (map (λ i, (in_what i, in_who i, in_why i, in_mode i, in_uid i, in_pid i))
              (ls_inhibitors st))).

(** ** Activation and the hand-over of devices *)

Record AclHandover := {
  ah_seat : option string;
  ah_old_uid : option Z;
  ah_new_uid : option Z;
}.

Definition activate_with_acl_handover (session_id : string) (st : LoginState)
  : AclHandover * LoginState :=
  match ls_sessions st !! session_id with
  | None => ({| ah_seat := None; ah_old_uid := None; ah_new_uid := None |}, st)
  | Some s =>
      let old_uid :=
        sid ← ss_seat s; seat ← ls_seats st !! sid; id ← se_active_session seat;
        if bool_decide (id = session_id) then None else ss_uid <$> ls_sessions st !! id in
      ({| ah_seat := ss_seat s; ah_old_uid := old_uid; ah_new_uid := Some (ss_uid s) |},
       activate_session session_id st)
  end.

Definition run_acl_handover (h : AclHandover) : L unit :=
  match ah_seat h with
  | None => mret ()
  | Some seat =>
      (match ah_old_uid h with
       | Some old => if bool_decide (ah_new_uid h ≠ Some old) then revert_session_acl seat else mret ()
       | None => mret ()
       end) ;;
      match ah_new_uid h with Some new => apply_session_acl seat new | None => mret () end
  end.

Definition activate_and_hand_over (session_id : string) : L unit :=
  st ← get_state;
  let '(h, st) := activate_with_acl_handover session_id st in
  put_state st ;; run_acl_handover h.

Definition manager_activate_session (session_id : string) : F unit :=
  st ← get_state;
  if bool_decide (is_Some (ls_sessions st !! session_id))
  then activate_and_hand_over session_id ;; mret (Ok ())
  else fail (Failed ("no session '" ++ session_id ++ "'")).

Definition activate_session_on_seat (session_id seat_id : string) : F unit :=
  st ← get_state;
  match ls_sessions st !! session_id with
  | None => fail (Failed ("no session '" ++ session_id ++ "'"))
  | Some s =>
      if bool_decide (ss_seat s = Some seat_id)
      then activate_and_hand_over session_id ;; mret (Ok ())
      else fail (Failed ("session '" ++ session_id ++ "' is not on seat '" ++ seat_id ++ "'"))
  end.

(** ** Ending sessions *)

(** The cleanup of a user's directory and slice, scheduled after the last session. *)
Definition schedule_cleanup (uid : Z) : L unit :=
  st ← get_state;
  let user_stop_delay := user_stop_delay (ls_config st) in
  if bool_decide (ls_users st !! uid = None) then
    task ← call lo_spawn;
    try_perform (FxSpawnCleanup task uid user_stop_delay) ;;
    on_state (λ st, ls_with_cleanups (<[uid := task]> (ls_pending_user_cleanups st)) st)
  else mret ().

(** The user of the foreground session of a seat. *)
Definition foreground_uid (seat : option string) (st : LoginState) : option Z :=
  sid ← seat; se ← ls_seats st !! sid; id ← se_active_session se;
  ss_uid <$> ls_sessions st !! id.

Definition finalize_session_removal (session_id : string) : L unit :=
  st ← get_state;
  match ls_sessions st !! session_id with
  | None => mret ()
  | Some session =>
      let uid := ss_uid session in
      let seat := ss_seat session in
      on_state (remove_session session_id) ;;
      release_scope uid session_id ;;
      schedule_cleanup uid ;;
      st ← get_state;
      let new_active_uid := foreground_uid seat st in
      match seat with
      | Some s =>
          if ss_active session then
            (if bool_decide (Some uid ≠ new_active_uid) then revert_session_acl s else mret ()) ;;
            match new_active_uid with
            | Some new => if bool_decide (new ≠ uid) then apply_session_acl s new else mret ()
            | None => mret ()
            end
          else mret ()
      | None => mret ()
      end
  end.

Definition release_session (session_id : string) : F unit :=
  st ← get_state;
  if bool_decide (is_Some (ls_sessions st !! session_id))
  then finalize_session_removal session_id ;; mret (Ok ())
  else fail (Failed ("no session '" ++ session_id ++ "'")).

Definition kill_session (session_id : string) : L unit :=
  st ← get_state;
  match ls_sessions st !! session_id with
  | Some s => kill_leader (ss_leader_pid s)
  | None => mret ()
  end.

Definition terminate_session (session_id : string) : F unit :=
  st ← get_state;
  match ls_sessions st !! session_id with
  | None => fail (Failed ("no session '" ++ session_id ++ "'"))
  | Some s =>
      kill_leader (ss_leader_pid s) ;;
      finalize_session_removal session_id ;; mret (Ok ())
  end.

Definition terminate_user (uid : Z) : F unit :=
  st ← get_state;
  let session_ids := match ls_users st !! uid with Some u => us_sessions u | None => [] end in
  for_each session_ids kill_session ;;
  for_each session_ids finalize_session_removal ;;
  mret (Ok ()).

Definition terminate_seat (seat_id : string) : F unit :=
  st ← get_state;
  match ls_seats st !! seat_id with
  | None => fail (Failed ("no seat '" ++ seat_id ++ "'"))
  | Some seat =>
      for_each (se_sessions seat) (λ sid, kill_session sid ;; finalize_session_removal sid) ;;
      mret (Ok ())
  end.

(** ** Power *)

Definition run_sleep (polls : nat) (kind : SleepKind) : F unit :=
  r ← execute_sleep polls kind; mret (map_err Failed r).

Definition svmgr_error_text (e : SvmgrError) : string :=
  match e with
  | SvConnect e => "failed to connect to control socket: " ++ e
  | SvSend e => "failed to send message: " ++ e
  | SvRecv e => "failed to read response: " ++ e
  | SvProtocol e => "protocol error: " ++ e
  end.

Definition run_shutdown (polls : nat) (kind : PowerShutdownKind) : F unit :=
  r ← execute_shutdown_action polls kind; mret (map_err (λ e, Failed (svmgr_error_text e)) r).

Definition power_off (polls : nat) (interactive : bool) : F unit := run_shutdown polls PowerPoweroff.
Definition reboot (polls : nat) (interactive : bool) : F unit := run_shutdown polls PowerReboot.
Definition halt (polls : nat) (interactive : bool) : F unit := run_shutdown polls PowerHalt.
Definition suspend (polls : nat) (interactive : bool) : F unit := run_sleep polls SleepSuspend.
Definition hibernate (polls : nat) (interactive : bool) : F unit := run_sleep polls SleepHibernate.
Definition hybrid_sleep (polls : nat) (interactive : bool) : F unit := run_sleep polls SleepHybridSleep.

Definition can_power_off : F string := mret (Ok (check_power_action 0 "poweroff")).
Definition can_reboot : F string := mret (Ok (check_power_action 0 "reboot")).
Definition can_halt : F string := mret (Ok (check_power_action 0 "halt")).

(** Whether a file can be read and contains a word. *)
Definition file_contains (path word : string) (o : los) : bool :=
  match lo_read_to_string path o with Ok s => contains word s | Err _ => false end.
Definition yes_na (b : bool) : string := if b then "yes" else "na".

Definition can_suspend : F string :=
  can ← query (file_contains "/sys/power/state" "mem"); mret (Ok (yes_na can)).
Definition can_hibernate : F string :=
  can ← query (file_contains "/sys/power/state" "disk"); mret (Ok (yes_na can)).
Definition can_hybrid_sleep : F string := can_hibernate.

(** ** Properties *)

Definition manager_idle_hint : L bool :=
  st ← get_state; mret (forallb (λ '(_, s), ss_idle_hint s) (map_iter "sessions" (ls_sessions st))).

(** The distinct names inhibited in a mode, in the order of their first mention. *)
Fixpoint push_new (ws acc : list string) : list string :=
  match ws with
  | [] => acc
  | w :: ws => push_new ws (if bool_decide (w ∈ acc) then acc else acc ++ [w])
  end.
Fixpoint inhibited_whats (mode : string) (l : list Inhibitor) (acc : list string) : list string :=
  match l with
  | [] => acc
  | i :: l => inhibited_whats mode l
      (if bool_decide (in_mode i = mode) then push_new (split ":" (in_what i)) acc else acc)
  end.
Definition block_inhibited : L string :=
  st ← get_state; mret (join ":" (inhibited_whats "block" (ls_inhibitors st) [])).
Definition delay_inhibited : L string :=
  st ← get_state; mret (join ":" (inhibited_whats "delay" (ls_inhibitors st) [])).

Definition manager_n_auto_vts : L Z := st ← get_state; mret (n_auto_vts (ls_config st)).
Definition manager_kill_user_processes : L bool :=
  st ← get_state; mret (kill_user_processes (ls_config st)).
Definition docked : bool := false.
Definition lid_closed : L bool :=
  query (file_contains "/proc/acpi/button/lid/LID0/state" "closed").
Definition manager_on_external_power : L bool := query on_external_power.

(** [Duration::as_micros() as u64] of a number of seconds. *)
Definition as_micros_u64 (secs : Z) : Z := wrap_u64 (secs * 1000000).
Definition inhibit_delay_max_u_sec : L Z :=
  st ← get_state; mret (as_micros_u64 (inhibit_delay_max (ls_config st))).
Definition user_stop_delay_u_sec : L Z :=
  st ← get_state; mret (as_micros_u64 (user_stop_delay (ls_config st))).
End login_manager.
