(* ===== verification/LoginObjects.v ===== *)
(** * The Session, Seat and User objects (session.rs, seat.rs, user.rs)

    One definition per D-Bus method and property of the objects the login manager
    serves, each of which names its session, seat or user.  A handler holds the lock of the
    login state from its first use of it to its last. *)

From S2P Require Import Prelude RustStr Protocol Monad LoginConfig LoginState LoginSys.
From S2P Require Import LoginPower LoginPaths LoginManager.

#[local] Open Scope string_scope.
#[local] Open Scope Z_scope.

Section login_objects.
Context {K : LoginOS} {R : Rmp} {ZP : ZPath} {HO : HashOrder} {UO : UidOrder}.
#[local] Abbreviation F A := (L (result A fdo_error)).

(** ** session.rs *)

Definition session_not_found : fdo_error := Failed "session not found".

(** [st.sessions.get(&self.session_id).ok_or_else(...)?] *)
Definition with_session {A} (id : string) (k : Session → F A) : F A :=
  st ← get_state;
  match ls_sessions st !! id with None => fail session_not_found | Some s => k s end.

(** A write through [st.sessions.get_mut(&self.session_id)]. *)
Definition update_session (id : string) (f : Session → Session) : L unit :=
  on_state (λ st, ls_with_sessions (alter f id (ls_sessions st)) st).

Definition set_controller (c : option string) (d : gmap (Z * Z) Z) (s : Session) : Session :=
  ss_with_control (ss_session_type s) c d (ss_idle_hint s) (ss_idle_since_usec s) s.
Definition set_devices (d : gmap (Z * Z) Z) (s : Session) : Session :=
  set_controller (ss_controller s) d s.
Definition set_session_type (ty : string) (s : Session) : Session :=
  ss_with_control ty (ss_controller s) (ss_devices s) (ss_idle_hint s) (ss_idle_since_usec s) s.
Definition set_idle (idle : bool) (since : Z) (s : Session) : Session :=
  ss_with_control (ss_session_type s) (ss_controller s) (ss_devices s) idle since s.

Definition take_control (id : string) (force : bool) (sender : option string) : F unit :=
  with_session id (λ s,
    if bool_decide (is_Some (ss_controller s)) && negb force
    then fail (Failed "session already has a controller")
    else update_session id (λ s, set_controller (Some (default "" sender)) (ss_devices s) s) ;;
         mret (Ok ())).

(** Dropping the descriptors closes them. *)
Definition close_all (fds : list Z) : L unit := for_each fds (λ fd, try_perform (FxClose fd)).

Definition release_control (id : string) : F unit :=
  with_session id (λ s,
    update_session id (set_controller None ∅) ;;
    close_all (map snd (map_to_list (ss_devices s))) ;;
    mret (Ok ())).

Definition dup_fd (fd : Z) : F Z :=
  r ← call (lo_dup fd);
  match r with
  | Err e => fail (Failed ("dup failed: " ++ e))
  | Ok new_fd => try_perform (FxSetCloexec new_fd) ;; mret (Ok new_fd)
  end.

(** The error of a failed [dup_fd] returns before the device is recorded; its descriptor
    is dropped. *)
Definition take_device (id : string) (major minor : Z) : F (Z * bool) :=
  with_session id (λ s,
    if bool_decide (ss_controller s = None)
    then fail (Failed "caller is not the session controller")
    else if bool_decide (is_Some (ss_devices s !! (major, minor)))
    then fail (Failed ("device " ++ to_string major ++ ":" ++ to_string minor ++ " already taken"))
    else
      opened ← open_device major minor;
      match opened with
      | Err e => fail (Failed e)
      | Ok fd =>
          (if is_drm_device major && ss_active s then ignore (drm_set_master fd) else mret ()) ;;
          r ← dup_fd fd;
          match r with
          | Err e => try_perform (FxClose fd) ;; fail e
          | Ok caller_fd =>
              update_session id (λ s, set_devices (<[(major, minor) := fd]> (ss_devices s)) s) ;;
              mret (Ok (caller_fd, negb (ss_active s)))
          end
      end).

Definition release_device (id : string) (major minor : Z) : F unit :=
  with_session id (λ s,
    match ss_devices s !! (major, minor) with
    | Some fd =>
        update_session id (λ s, set_devices (delete (major, minor) (ss_devices s)) s) ;;
        try_perform (FxClose fd) ;;
        mret (Ok ())
    | None => fail (Failed ("device " ++ to_string major ++ ":" ++ to_string minor ++ " not taken"))
    end).

Definition pause_device_complete (id : string) (major minor : Z) : F unit := mret (Ok ()).

Definition session_types : list string := ["tty"; "x11"; "wayland"; "mir"; "unspecified"].

Definition set_type (id session_type : string) : F unit :=
  with_session id (λ s,
    if bool_decide (session_type ∈ session_types) then
      update_session id (set_session_type session_type) ;;
      mret (Ok ())
    else fail (InvalidArgs ("unknown session type '" ++ session_type ++ "'"))).

Definition session_activate (id : string) : F unit :=
  on_state (activate_session id) ;; mret (Ok ()).

Definition set_idle_hint (id : string) (idle : bool) : F unit :=
  with_session id (λ s,
    since ← (if idle then call lo_realtime_usec else mret 0);
    update_session id (set_idle idle since) ;;
    mret (Ok ())).

Definition session_terminate (id : string) : F unit :=
  with_session id (λ s,
    kill_leader (ss_leader_pid s) ;;
    on_state (remove_session id) ;;
    mret (Ok ())).

(** The read-only properties. *)
Definition session_prop {A} (id : string) (f : Session → A) : F A :=
  with_session id (λ s, mret (Ok (f s))).
Definition session_user (id : string) : F (Z * string) :=
  with_session id (λ s, mret (p <-? object_path (user_object_path (ss_uid s)); Ok (ss_uid s, p))).
Definition session_name (id : string) : F string := session_prop id ss_user_name.
Definition session_timestamp (id : string) : F Z := session_prop id ss_created_realtime_usec.
(** [created_monotonic.elapsed().as_micros() as u64] *)
Definition session_timestamp_monotonic (id : string) : F Z :=
  with_session id (λ s,
    now ← call lo_instant;
    mret (Ok (wrap_u64 (Z.max 0 (now - ss_created_monotonic s) / 1000)))).
Definition session_vtnr (id : string) : F Z := session_prop id ss_vtnr.
Definition session_seat (id : string) : F (string * string) :=
  with_session id (λ s,
    let seat_id := default "" (ss_seat s) in
    mret (p <-? object_path (if bool_decide (seat_id = "") then "/" else seat_object_path seat_id);
          Ok (seat_id, p))).
Definition session_tty (id : string) : F string := session_prop id (λ s, default "" (ss_tty s)).
Definition session_display (id : string) : F string := session_prop id (λ s, default "" (ss_display s)).
Definition session_remote (id : string) : F bool := session_prop id ss_remote.
Definition session_remote_host (id : string) : F string := session_prop id ss_remote_host.
Definition session_remote_user (id : string) : F string := session_prop id ss_remote_user.
Definition session_service (id : string) : F string := session_prop id ss_service.
Definition session_desktop (id : string) : F string := session_prop id ss_desktop.
Definition session_scope_prop (id : string) : F string :=
  session_prop id (λ s, session_scope_relative (ss_uid s) id).
Definition session_leader (id : string) : F Z := session_prop id ss_leader_pid.
Definition session_type_prop (id : string) : F string := session_prop id ss_session_type.
Definition session_class (id : string) : F string := session_prop id ss_class.
Definition session_active (id : string) : F bool := session_prop id ss_active.
Definition session_state (id : string) : F string :=
  session_prop id (λ s, SessionState_as_str (ss_state s)).
Definition session_idle_hint (id : string) : F bool := session_prop id ss_idle_hint.
Definition session_idle_since_hint (id : string) : F Z := session_prop id ss_idle_since_usec.
Definition session_idle_since_hint_monotonic (id : string) : F Z :=
  session_prop id ss_idle_since_monotonic.
Definition session_locked_hint (id : string) : F bool := session_prop id ss_locked_hint.

(** ** seat.rs *)

Definition with_seat {A} (id : string) (k : Seat → F A) : F A :=
  st ← get_state;
  match ls_seats st !! id with None => fail (Failed "seat not found") | Some s => k s end.

Definition seat_activate_session (seat_id session_id : string) : F unit :=
  with_seat seat_id (λ seat,
    if bool_decide (session_id ∈ se_sessions seat)
    then on_state (activate_session session_id) ;; mret (Ok ())
    else fail (Failed ("session '" ++ session_id ++ "' is not on seat '" ++ seat_id ++ "'"))).

Definition vt_error_text (e : VtError) : string :=
  match e with
  | OpenTty e => "failed to open /dev/tty0: " ++ e
  | VtIoctl e => "VT ioctl failed: " ++ e
  end.
Definition vt_failed {A} (r : result A VtError) : result A fdo_error :=
  map_err (λ e, Failed (vt_error_text e)) r.

Definition switch_to (vtnr : Z) : F unit := r ← switch_to_vt vtnr; mret (vt_failed r).
Definition switch_to_next : F unit :=
  try_bind (r ← get_active_vt; mret (vt_failed r)) (λ current, switch_to (current + 1)).
Definition switch_to_previous : F unit :=
  try_bind (r ← get_active_vt; mret (vt_failed r)) (λ current,
    if 1 <? current then switch_to (current - 1) else mret (Ok ())).

Definition seat_terminate (seat_id : string) : F unit :=
  with_seat seat_id (λ seat,
    for_each (se_sessions seat) (λ sid, kill_session sid ;; on_state (remove_session sid)) ;;
    mret (Ok ())).

Definition seat_prop {A} (id : string) (f : Seat → A) : F A := with_seat id (λ s, mret (Ok (f s))).

(** A session and its path, or nothing and the root path. *)
Definition session_and_path (sid : option string) : result (string * string) fdo_error :=
  match sid with
  | Some sid => p <-? object_path (session_object_path sid); Ok (sid, p)
  | None => p <-? object_path "/"; Ok ("", p)
  end.
Definition seat_active_session (id : string) : F (string * string) :=
  with_seat id (λ s, mret (session_and_path (se_active_session s))).
Definition seat_sessions_prop (id : string) : F (list (string * string)) :=
  with_seat id (λ s, mret (collect (λ sid, session_and_path (Some sid)) (se_sessions s))).
Definition seat_can_graphical (id : string) : F bool := seat_prop id se_can_graphical.
Definition seat_can_tty (id : string) : F bool := seat_prop id se_can_tty.
Definition seat_idle_hint (id : string) : F bool := seat_prop id se_idle_hint.
Definition seat_idle_since_hint (id : string) : F Z := seat_prop id se_idle_since_usec.
Definition seat_idle_since_hint_monotonic (id : string) : F Z := seat_prop id se_idle_since_monotonic.

(** ** user.rs *)

Definition sessions_of_user (uid : Z) (st : LoginState) : list string :=
  match ls_users st !! uid with Some u => us_sessions u | None => [] end.

Definition user_terminate (uid : Z) : F unit :=
  st ← get_state;
  let session_ids := sessions_of_user uid st in
  for_each session_ids kill_session ;;
  for_each session_ids (λ sid, on_state (remove_session sid)) ;;
  mret (Ok ()).

(** [Signal::try_from]: the signals of Linux, 1 to 31. *)
Definition valid_signal (n : Z) : bool := (1 <=? n) && (n <=? 31).

Definition user_kill (uid signal_number : Z) : F unit :=
  st ← get_state;
  if negb (valid_signal signal_number) then fail (InvalidArgs "invalid signal number")
  else
    for_each (sessions_of_user uid st) (λ sid,
      match ls_sessions st !! sid with
      | Some s => try_perform (FxKill (as_i32 (ss_leader_pid s)) signal_number)
      | None => mret ()
      end) ;;
    mret (Ok ()).

Definition with_user {A} (uid : Z) (k : LoginUser → F A) : F A :=
  st ← get_state;
  match ls_users st !! uid with None => fail (Failed "user not found") | Some u => k u end.
Definition user_prop {A} (uid : Z) (f : LoginUser → A) : F A := with_user uid (λ u, mret (Ok (f u))).
Definition user_gid (uid : Z) : L Z :=
  query (λ o, match lo_user_from_uid uid o with Some (_, gid) => gid | None => uid end).
Definition user_name (uid : Z) : F string := user_prop uid us_name.
Definition user_runtime_path (uid : Z) : string := "/run/user/" ++ to_string uid.
Definition user_display (uid : Z) : F (string * string) :=
  with_user uid (λ u, mret (session_and_path (us_display_session u))).
Definition user_sessions (uid : Z) : F (list (string * string)) :=
  with_user uid (λ u, mret (collect (λ sid, session_and_path (Some sid)) (us_sessions u))).
Definition user_state (uid : Z) : F string := user_prop uid (λ u, UserState_as_str (us_state u)).
Definition user_idle_hint (uid : Z) : F bool := user_prop uid us_idle_hint.
Definition user_idle_since_hint (uid : Z) : F Z := user_prop uid us_idle_since_usec.
Definition user_idle_since_hint_monotonic (uid : Z) : F Z := user_prop uid us_idle_since_monotonic.
Definition user_linger (uid : Z) : bool := false.
End login_objects.
