(* ===== verification/LoginFacts.v ===== *)
(** * The login manager's calls and the shared state

    [handle_call] is the interface of the login manager as one function: every D-Bus
    method of its objects that changes the shared state, the periodic collection of
    inhibitors, the reload of the configuration and the end of a cleanup task.
    [section_step] is what may happen to the shared state between taking its lock and
    giving it back.  The lemmas: every call returns and is made of such sections
    ([keeps_call]), and no sequence of sections, whichever tasks they belong to, breaks
    the consistency of the tables ([sections_ok]).  LoginDaemon.v puts them together. *)

From stdpp Require Import relations.
From S2P Require Import Prelude RustStr Protocol Monad LoginConfig LoginState LoginSys.
From S2P Require Import LoginPower LoginPaths LoginManager LoginObjects.

#[local] Open Scope string_scope.
#[local] Open Scope Z_scope.

Inductive login_call :=
| CallCreateSession (has_server : bool) (a : create_args)
| CallInhibit (what who why mode : string) (sender : option string)
| CallListInhibitors
| CallReleaseSession (id : string)
| CallActivateSession (id : string)
| CallActivateSessionOnSeat (id seat : string)
| CallTerminateSession (id : string)
| CallTerminateUser (uid : Z)
| CallTerminateSeat (seat : string)
| SessionTakeControl (id : string) (force : bool) (sender : option string)
| SessionReleaseControl (id : string)
| SessionTakeDevice (id : string) (major minor : Z)
| SessionReleaseDevice (id : string) (major minor : Z)
| SessionSetType (id ty : string)
| SessionActivate (id : string)
| SessionSetIdleHint (id : string) (idle : bool)
| SessionTerminate (id : string)
| SeatActivateSession (seat id : string)
| SeatSwitchTo (vt : Z)
| SeatSwitchToNext
| SeatSwitchToPrevious
| SeatTerminate (seat : string)
| UserTerminate (uid : Z)
| UserKill (uid sig : Z)
| TaskGc
| TaskReload (c : LogindConfig)
| TaskCleanupDone (uid : Z).

Definition ls_with_config (c : LogindConfig) (st : LoginState) : LoginState := {|
  ls_sessions := ls_sessions st; ls_seats := ls_seats st; ls_users := ls_users st;
  ls_pid_to_session := ls_pid_to_session st; ls_inhibitors := ls_inhibitors st; ls_config := c;
  ls_pending_user_cleanups := ls_pending_user_cleanups st |}.

Section login_facts.
Context {K : LoginOS} {R : Rmp} {ZP : ZPath} {HO : HashOrder} {UO : UidOrder}.

Definition handle_call (c : login_call) : L unit :=
  match c with
  | CallCreateSession has_server a => ignore (manager_create_session has_server a)
  | CallInhibit what who why mode sender => ignore (inhibit what who why mode sender)
  | CallListInhibitors => ignore list_inhibitors
  | CallReleaseSession id => ignore (release_session id)
  | CallActivateSession id => ignore (manager_activate_session id)
  | CallActivateSessionOnSeat id seat => ignore (activate_session_on_seat id seat)
  | CallTerminateSession id => ignore (terminate_session id)
  | CallTerminateUser uid => ignore (terminate_user uid)
  | CallTerminateSeat seat => ignore (terminate_seat seat)
  | SessionTakeControl id force sender => ignore (take_control id force sender)
  | SessionReleaseControl id => ignore (release_control id)
  | SessionTakeDevice id major minor => ignore (take_device id major minor)
  | SessionReleaseDevice id major minor => ignore (release_device id major minor)
  | SessionSetType id ty => ignore (set_type id ty)
  | SessionActivate id => ignore (session_activate id)
  | SessionSetIdleHint id idle => ignore (set_idle_hint id idle)
  | SessionTerminate id => ignore (session_terminate id)
  | SeatActivateSession seat id => ignore (seat_activate_session seat id)
  | SeatSwitchTo vt => ignore (switch_to vt)
  | SeatSwitchToNext => ignore switch_to_next
  | SeatSwitchToPrevious => ignore switch_to_previous
  | SeatTerminate seat => ignore (seat_terminate seat)
  | UserTerminate uid => ignore (user_terminate uid)
  | UserKill uid sig => ignore (user_kill uid sig)
  | TaskGc => gc_inhibitors
  | TaskReload c => on_state (ls_with_config c)
  | TaskCleanupDone uid =>
      on_state (λ st, ls_with_cleanups (delete uid (ls_pending_user_cleanups st)) st)
  end.

(** ** The system does not touch the tables *)

Definition same_tables (w w' : Login) : Prop :=
  l_state w' = l_state w ∧ l_next_session w' = l_next_session w.
#[local] Instance same_tables_preorder : PreOrder same_tables.
Proof. split; [done|]. intros w1 w2 w3 [? ?] [? ?]. split; congruence. Qed.

(** A computation that returns and leaves the tables alone. *)
Definition steady {A} (m : L A) : Prop := ∀ w, wpx False m (λ _ w', same_tables w w') w.

Lemma steady_ret {A} (a : A) : steady (mret a).
Proof. done. Qed.
Lemma steady_query {A} (f : los → A) : steady (query f).
Proof. done. Qed.
Lemma steady_gets {A} (f : Login → A) : steady (gets f).
Proof. done. Qed.
Lemma steady_call {A} (f : los → A * los) : steady (call f).
Proof. intros w. unfold wpx, call. by destruct (f (l_os w)). Qed.
Lemma steady_perform e : steady (perform e).
Proof. intros w. unfold wpx, perform. by destruct (lo_perform e (l_os w)). Qed.
Lemma steady_bind {A B} (m : L A) (k : A → L B) : steady m → (∀ a, steady (k a)) → steady (m ≫= k).
Proof.
  intros Hm Hk w. apply wpx_bind. eapply wpx_mono; [apply Hm|]. intros a w' Hw. cbn.
  eapply wpx_mono; [apply Hk|]. intros b w'' Hw'. etrans; [exact Hw|exact Hw'].
Qed.
Lemma wpx_steady {A B} (m : L A) (k : A → L B) Q w :
  steady m → (∀ a w', same_tables w w' → wpx False (k a) Q w') → wpx False (m ≫= k) Q w.
Proof. intros Hm Hk. apply wpx_bind. eapply wpx_mono; [apply Hm|exact Hk]. Qed.
Lemma steady_for_each {A} (l : list A) body : (∀ a, steady (body a)) → steady (for_each l body).
Proof.
  intros Hb. induction l as [|a l IH]; cbn [for_each]; [apply steady_ret|]. by apply steady_bind.
Qed.
Lemma steady_try_perform e : steady (try_perform e).
Proof. apply steady_bind; [apply steady_perform|]. intros r. apply steady_ret. Qed.
Lemma steady_draw_cookie : steady draw_cookie.
Proof. done. Qed.

Ltac steady_tac :=
  repeat match goal with
    | |- steady (mret _) => apply steady_ret
    | |- steady (query _) => apply steady_query
    | |- steady (gets _) => apply steady_gets
    | |- steady (call _) => apply steady_call
    | |- steady (perform _) => apply steady_perform
    | |- steady (_ ≫= _) => apply steady_bind; [|intros ?]
    | |- steady (for_each _ _) => apply steady_for_each; intros ?
    | |- steady (match ?x with _ => _ end) => destruct x
    | H : steady ?m |- steady ?m => exact H
    | |- steady _ => progress unfold try_perform, try_bind, get_state, fail, ignore
    end.

Lemma steady_ensure uid gid size : steady (ensure uid gid size).
Proof. unfold ensure, is_mounted. steady_tac. Qed.
Lemma steady_place_leader uid id pid : steady (place_leader uid id pid).
Proof. unfold place_leader, enable_controllers, ensure_dir. steady_tac. Qed.
Lemma steady_remove_if_exists p : steady (remove_if_exists p).
Proof. unfold remove_if_exists. steady_tac. Qed.
Lemma steady_chown_devices seat uid : steady (chown_devices seat uid).
Proof. unfold chown_devices, chown_and_chmod. steady_tac. Qed.
Lemma steady_register_objects b id uid : steady (register_objects b id uid).
Proof. unfold register_objects. steady_tac. Qed.
Lemma steady_run_acl_handover h : steady (run_acl_handover h).
Proof. unfold run_acl_handover, apply_session_acl, revert_session_acl. steady_tac;
  apply steady_chown_devices. Qed.
Lemma steady_open_device major minor : steady (open_device major minor).
Proof. unfold open_device. steady_tac. Qed.
Lemma steady_switch_to vt : steady (switch_to vt).
Proof. unfold switch_to, switch_to_vt, open_tty0, vt_ioctl. steady_tac. Qed.
Lemma steady_get_active_vt : steady get_active_vt.
Proof. unfold get_active_vt, open_tty0. steady_tac. Qed.
Lemma steady_kill_session id : steady (kill_session id).
Proof. unfold kill_session, kill_leader. steady_tac. Qed.

(** ** Consistent states *)

(** A session without a controller holds no device. *)
Definition control (s : Session) : option string * gmap (Z * Z) Z := (ss_controller s, ss_devices s).
Definition control_ok (c : option string * gmap (Z * Z) Z) : Prop := c.1 = None → c.2 = ∅.
Definition devices_ok (sessions : gmap string Session) : Prop :=
  map_Forall (λ _, control_ok) (control <$> sessions).

Definition state_ok (counter : Z) (st : LoginState) : Prop :=
  login_inv counter st ∧ devices_ok (ls_sessions st).

Lemma state_ok_remove counter id st : state_ok counter st → state_ok counter (remove_session id st).
Proof.
  intros [Hi Hd]. split; [by apply login_inv_remove|]. unfold devices_ok.
  rewrite (fmap_remove control) by done. by apply map_Forall_delete.
Qed.

Lemma state_ok_activate counter id st : state_ok counter st → state_ok counter (activate_session id st).
Proof.
  intros [Hi Hd]. split; [by apply login_inv_activate|]. unfold devices_ok.
  by rewrite (fmap_activate control).
Qed.

Lemma state_ok_control counter id f st :
  control_only f →
  (∀ s, ls_sessions st !! id = Some s → control_ok (control s) → control_ok (control (f s))) →
  state_ok counter st → state_ok counter (ls_with_sessions (alter f id (ls_sessions st)) st).
Proof.
  intros Hf Hc [Hi Hd]. split; [by apply login_inv_control|]. cbn.
  intros x c Hx. rewrite lookup_fmap in Hx. destruct (decide (id = x)) as [<-|Hne].
  - rewrite lookup_alter_eq in Hx. destruct (ls_sessions st !! id) as [s|] eqn:Es; [|done].
    cbn in Hx. injection Hx as <-. apply Hc; [done|]. apply (Hd id). by rewrite lookup_fmap, Es.
  - rewrite lookup_alter_ne in Hx by done. apply (Hd x). by rewrite lookup_fmap.
Qed.

(** A change of the inhibitors, the cleanups or the configuration. *)
Lemma state_ok_same_tables counter st st' :
  ls_sessions st' = ls_sessions st → ls_seats st' = ls_seats st → ls_users st' = ls_users st →
  ls_pid_to_session st' = ls_pid_to_session st → state_ok counter st → state_ok counter st'.
Proof.
  intros H1 H2 H3 H4 [[] Hd]. split; [split|]; rewrite ?H1, ?H2, ?H3, ?H4; done.
Qed.

(** ** The sections of the lock

    What the tasks do to the shared state between taking its lock and giving it back, one
    rule per kind of section, with any arguments: a task may have decided on them from a
    state that has changed since.  The first component is the counter of the ids. *)

Definition tables : Type := Z * LoginState.
Definition tables_of (w : Login) : tables := (l_next_session w, l_state w).

Inductive section_step : tables → tables → Prop :=
| sec_create n us now rq st :
    section_step (n, st) ((create_session n us now rq st).1.2, (create_session n us now rq st).2)
| sec_remove n id st : section_step (n, st) (n, remove_session id st)
| sec_activate n id st : section_step (n, st) (n, activate_session id st)
| sec_set_controller n id c st :
    section_step (n, st) (n, ls_with_sessions
      (alter (λ s, set_controller (Some c) (ss_devices s) s) id (ls_sessions st)) st)
| sec_clear_controller n id st :
    section_step (n, st) (n, ls_with_sessions (alter (set_controller None ∅) id (ls_sessions st)) st)
| sec_take_device n id k fd s st :
    ls_sessions st !! id = Some s → ss_controller s ≠ None →
    section_step (n, st) (n, ls_with_sessions
      (alter (λ s, set_devices (<[k := fd]> (ss_devices s)) s) id (ls_sessions st)) st)
| sec_release_device n id k st :
    section_step (n, st) (n, ls_with_sessions
      (alter (λ s, set_devices (delete k (ss_devices s)) s) id (ls_sessions st)) st)
| sec_set_type n id ty st :
    section_step (n, st) (n, ls_with_sessions (alter (set_session_type ty) id (ls_sessions st)) st)
| sec_set_idle n id idle since st :
    section_step (n, st) (n, ls_with_sessions (alter (set_idle idle since) id (ls_sessions st)) st)
| sec_inhibitors n l st : section_step (n, st) (n, ls_with_inhibitors l st)
| sec_cleanups n m st : section_step (n, st) (n, ls_with_cleanups m st)
| sec_config n c st : section_step (n, st) (n, ls_with_config c st).

Definition tables_ok (x : tables) : Prop := state_ok x.1 x.2 ∧ 1 ≤ x.1.
Definition login_ok (w : Login) : Prop := tables_ok (tables_of w).

Lemma control_only_with ty c d i u :
  control_only (λ s, ss_with_control (ty s) (c s) (d s) (i s) (u s) s).
Proof. intros s. by eexists _, _, _, _, _. Qed.

Lemma state_ok_create n us now rq st :
  state_ok n st → 1 ≤ n < U64_MAX →
  state_ok (n + 1) (create_session n us now rq st).2 ∧ (create_session n us now rq st).1.2 = n + 1.
Proof.
  intros [Hi Hd] Hn. pose proof (login_inv_create n us now rq st Hi Hn) as (_ & H2 & H3).
  split; [|exact H2]. split; [exact H3|]. cbn. unfold devices_ok. rewrite fmap_insert.
  by apply map_Forall_insert_2.
Qed.

(** A section keeps the tables consistent, and draws at most one id. *)
Lemma section_ok x y :
  section_step x y → tables_ok x → x.1 < U64_MAX → tables_ok y ∧ x.1 ≤ y.1 ≤ x.1 + 1.
Proof.
  intros Hstep [Hok Hn] Hlt.
  destruct Hstep as [n us now rq st|n id st|n id st|n id c st|n id st|n id k fd s st Hs Hc
    |n id k st|n id ty st|n id idle since st|n l st|n m st|n c st]; cbn [fst snd] in *.
  { destruct (state_ok_create n us now rq st Hok) as [H1 H2]; [lia|]. rewrite H2.
    split; [split; [exact H1|cbn; lia]|lia]. }
  all: split; [split; [|done]|lia]; cbn [fst snd].
  all: try by apply (state_ok_same_tables _ st).
  - by apply state_ok_remove.
  - by apply state_ok_activate.
  - apply state_ok_control; [apply control_only_with|done|done].
  - apply state_ok_control; [apply control_only_with|done|done].
  - apply state_ok_control; [apply control_only_with| |done]. intros s' Hs' _ Hnone. cbn in Hnone.
    rewrite Hs in Hs'. injection Hs' as <-. by destruct Hc.
  - apply state_ok_control; [apply control_only_with| |done]. intros s' _ Hs' Hnone.
    change (delete k (ss_devices s') = ∅). rewrite (Hs' Hnone : ss_devices s' = ∅). apply delete_empty.
  - apply state_ok_control; [apply control_only_with|done|done].
  - apply state_ok_control; [apply control_only_with|done|done].
Qed.

(** Fewer than 2^64 - 1 sections, in any order and with any arguments. *)
Lemma sections_ok n x y :
  nsteps section_step n x y → tables_ok x → x.1 + Z.of_nat n ≤ U64_MAX → tables_ok y.
Proof.
  induction 1 as [x|n x y z Hs _ IH]; intros Hx Hn; [done|].
  destruct (section_ok _ _ Hs Hx) as [Hy Hd]; [lia|]. apply IH; [done|lia].
Qed.

(** ** Computations made of sections *)

Definition keeps {A} (m : L A) : Prop :=
  ∀ w, wpx False m (λ _ w', rtc section_step (tables_of w) (tables_of w')) w.

Lemma keeps_steady {A} (m : L A) : steady m → keeps m.
Proof.
  intros Hm w. eapply wpx_mono; [apply Hm|]. intros a w' [H1 H2]. unfold tables_of. rewrite H1, H2. apply rtc_refl.
Qed.

Lemma keeps_bind {A B} (m : L A) (k : A → L B) : keeps m → (∀ a, keeps (k a)) → keeps (m ≫= k).
Proof.
  intros Hm Hk w. apply wpx_bind. eapply wpx_mono; [by apply Hm|]. intros a w' Hw.
  eapply wpx_mono; [by apply Hk|]. intros b w'' Hw'. exact (transitivity Hw Hw').
Qed.

Lemma keeps_for_each {A} (l : list A) body : (∀ a, keeps (body a)) → keeps (for_each l body).
Proof.
  intros Hb. induction l as [|a l IH]; cbn [for_each]; [by apply keeps_steady, steady_ret|].
  by apply keeps_bind.
Qed.

Lemma keeps_on_state f : (∀ n st, section_step (n, st) (n, f st)) → keeps (on_state f).
Proof. intros Hf w. apply rtc_once, Hf. Qed.

Lemma keeps_gets {A B} (f : Login → A) (k : A → L B) :
  (∀ w, wpx False (k (f w)) (λ _ w', rtc section_step (tables_of w) (tables_of w')) w) →
  keeps (gets f ≫= k).
Proof. intros Hk w. apply wpx_gets. by apply Hk. Qed.

Lemma keeps_remove id : keeps (on_state (remove_session id)).
Proof. apply keeps_on_state. constructor. Qed.
Lemma keeps_activate id : keeps (on_state (activate_session id)).
Proof. apply keeps_on_state. constructor. Qed.
Lemma keeps_cleanups f :
  keeps (on_state (λ st, ls_with_cleanups (f (ls_pending_user_cleanups st)) st)).
Proof. apply keeps_on_state. constructor. Qed.
Lemma keeps_inhibitors f :
  keeps (on_state (λ st, ls_with_inhibitors (f (ls_inhibitors st)) st)).
Proof. apply keeps_on_state. constructor. Qed.
Lemma keeps_config c : keeps (on_state (ls_with_config c)).
Proof. apply keeps_on_state. constructor. Qed.
Lemma keeps_gc : keeps gc_inhibitors.
Proof. intros w. apply rtc_once. apply (sec_inhibitors _ _ (l_state w)). Qed.
Lemma keeps_set_controller id (c : string) :
  keeps (update_session id (λ s, set_controller (Some c) (ss_devices s) s)).
Proof. apply keeps_on_state. constructor. Qed.
Lemma keeps_clear_controller id : keeps (update_session id (set_controller None ∅)).
Proof. apply keeps_on_state. constructor. Qed.
Lemma keeps_delete_device id k :
  keeps (update_session id (λ s, set_devices (delete k (ss_devices s)) s)).
Proof. apply keeps_on_state. constructor. Qed.
Lemma keeps_set_session_type id ty : keeps (update_session id (set_session_type ty)).
Proof. apply keeps_on_state. constructor. Qed.
Lemma keeps_set_idle id idle since : keeps (update_session id (set_idle idle since)).
Proof. apply keeps_on_state. constructor. Qed.

Create HintDb login.
Hint Resolve steady_ensure steady_place_leader steady_remove_if_exists steady_chown_devices
  steady_register_objects steady_run_acl_handover steady_open_device steady_switch_to
  steady_get_active_vt steady_kill_session steady_draw_cookie steady_ret steady_query steady_gets
  steady_call steady_perform : login.
Hint Resolve keeps_remove keeps_activate keeps_cleanups keeps_inhibitors keeps_config keeps_gc
  keeps_set_controller keeps_clear_controller keeps_delete_device keeps_set_session_type
  keeps_set_idle : login.

(** Compose the cases; what is left is what the databases do not know. *)
Ltac keeps_tac :=
  repeat match goal with
    | |- keeps (_ ≫= _) => apply keeps_bind; [|intros ?]
    | |- keeps (for_each _ _) => apply keeps_for_each; intros ?
    | |- keeps (match ?x with _ => _ end) => destruct x
    | |- keeps _ => solve [auto with login | apply keeps_steady; auto with login]
    | |- keeps _ => progress unfold try_perform, try_bind, get_state, fail, ignore, kill_leader
    end.

Lemma keeps_cancel_cleanup uid : keeps (cancel_cleanup uid).
Proof. unfold cancel_cleanup. keeps_tac. Qed.
(** Calling off a cleanup draws no id. *)
Lemma cancel_cleanup_ok uid w :
  login_ok w →
  wpx False (cancel_cleanup uid) (λ _ w', login_ok w' ∧ l_next_session w' = l_next_session w) w.
Proof.
  intros [Hw Hn]. unfold cancel_cleanup, get_state. apply wpx_gets.
  destruct (_ !! uid); [|by split; [split|]]. apply wpx_modify.
  eapply wpx_mono; [assert (steady (try_perform (FxAbort z))) as Hst by steady_tac; apply Hst|].
  intros [] w' [H1 H2]. split; [|exact H2]. unfold login_ok, tables_of. rewrite H1, H2.
  split; [|done]. by apply (state_ok_same_tables _ (l_state w)).
Qed.
Lemma keeps_schedule_cleanup uid : keeps (schedule_cleanup uid).
Proof. unfold schedule_cleanup. keeps_tac. Qed.
Lemma keeps_finalize id : keeps (finalize_session_removal id).
Proof.
  unfold finalize_session_removal, release_scope, revert_session_acl, apply_session_acl.
  keeps_tac; apply keeps_schedule_cleanup.
Qed.
Hint Resolve keeps_finalize keeps_cancel_cleanup : login.

Lemma keeps_hand_over id : keeps (activate_and_hand_over id).
Proof.
  unfold activate_and_hand_over, get_state. apply keeps_gets. intros w.
  assert ((activate_with_acl_handover id (l_state w)).2 = activate_session id (l_state w)) as Hst.
  { unfold activate_with_acl_handover, activate_session. by destruct (ls_sessions (l_state w) !! id). }
  destruct (activate_with_acl_handover id (l_state w)) as [h st]. cbn in Hst. subst st.
  apply wpx_modify. eapply wpx_mono; [apply keeps_steady, steady_run_acl_handover|].
  intros [] w' Hs. eapply rtc_l; [|exact Hs]. constructor.
Qed.
Hint Resolve keeps_hand_over : login.

Lemma keeps_dup_fd fd : steady (dup_fd fd).
Proof. unfold dup_fd. steady_tac. Qed.

(** A device is recorded only for a session that has a controller, under one lock. *)
Lemma keeps_take_device id major minor : keeps (take_device id major minor).
Proof.
  intros w. unfold take_device, with_session, get_state. apply wpx_gets.
  destruct (ls_sessions (l_state w) !! id) as [s|] eqn:Es; [|exact (rtc_refl _ _)].
  case_bool_decide as Hc; [exact (rtc_refl _ _)|]. case_bool_decide; [exact (rtc_refl _ _)|].
  assert (∀ w', same_tables w w' → rtc section_step (tables_of w) (tables_of w')) as Hsame.
  { intros w' [H1 H2]. unfold tables_of. rewrite H1, H2. apply rtc_refl. }
  apply wpx_bind. eapply wpx_mono; [apply steady_open_device|]. intros [fd|e] w1 H1; [|by apply Hsame].
  apply wpx_bind. eapply wpx_mono.
  { assert (steady (if is_drm_device major && ss_active s then ignore (drm_set_master fd) else mret ()))
      as Hst by (unfold drm_set_master; steady_tac). apply Hst. }
  intros [] w2 H2. apply wpx_bind. eapply wpx_mono; [apply keeps_dup_fd|].
  intros [caller|e] w3 H3; pose proof (transitivity (transitivity H1 H2) H3) as H13.
  - refine (transitivity (Hsame _ H13) (rtc_once _ _ _)).
    eapply sec_take_device; [|exact Hc]. destruct H13 as [H13 _]. cbn. rewrite H13. exact Es.
  - apply wpx_bind. eapply wpx_mono; [apply keeps_steady; unfold try_perform; steady_tac|].
    intros [] w4 H4. exact (transitivity (Hsame _ H13) H4).
Qed.
Hint Resolve keeps_take_device : login.

Lemma keeps_register_session rq : keeps (register_session rq).
Proof.
  intros w. unfold register_session. apply wpx_call, wpx_call.
  destruct (lo_realtime_usec (l_os w)) as [us o1]. cbn [fst snd l_os set_l_os].
  destruct (lo_instant o1) as [now o2]. cbn [fst snd]. unfold wpx, add_session.
  cbn [l_next_session l_state set_l_os].
  pose proof (sec_create (l_next_session w) us now rq (l_state w)) as Hs.
  destruct (create_session _ _ _ _ _) as [[id n] st]. by apply rtc_once.
Qed.
Hint Resolve keeps_register_session : login.

(** ** Every call *)

Lemma keeps_call c : keeps (handle_call c).
Proof.
  destruct c; cbn [handle_call];
    unfold manager_create_session, apply_session_acl, inhibit, caller_credentials, create_inhibitor,
      list_inhibitors, release_session,
      manager_activate_session, activate_session_on_seat, terminate_session, terminate_user,
      terminate_seat, take_control, release_control, close_all, release_device, set_type,
      session_activate, set_idle_hint, session_terminate, seat_activate_session,
      switch_to_next, switch_to_previous, seat_terminate, user_terminate, user_kill, with_session,
      with_seat;
    keeps_tac.
  apply keeps_on_state. constructor.
Qed.

(** ** Handing devices over *)

(** The owners set by a list of effects. *)
Definition chowns (l : list effect) : list (string * option Z) :=
  omap (λ e, match e with FxChown p u _ => Some (p, u) | _ => None end) l.

Lemma chowns_app l l' : chowns (l ++ l') = (chowns l ++ chowns l')%list.
Proof. apply omap_app. Qed.

(** [m] appends effects whose owners satisfy [Q]. *)
Definition chowning (m : L unit) (Q : los → list (string * option Z) → Prop) (w : Login) : Prop :=
  wpx False m (λ _ w', l_state w' = l_state w ∧
    ∃ l, l_effects w' = (l_effects w ++ l)%list ∧ Q (l_os w) (chowns l)) w.

Lemma chown_and_chmod_effects path uid mode w :
  wpx False (chown_and_chmod path (Some uid) None mode) (λ _ w', l_state w' = l_state w ∧
    ∃ l, l_effects w' = (l_effects w ++ l)%list ∧ chowns l = [(path, Some uid)]) w.
Proof.
  unfold chown_and_chmod, try_bind. apply wpx_perform.
  destruct (lo_perform _ (l_os w)) as [[[]|e] o]; cbn [fst].
  - unfold wpx, perform. destruct (lo_perform (FxChmod path mode) _) as [r o']. cbn.
    split; [done|]. eexists. rewrite <-app_assoc. done.
  - split; [done|]. eexists. split; [done|]. done.
Qed.

Lemma chown_devices_effects seat uid w :
  chowning (chown_devices seat uid)
    (λ o c, c = map (λ d, (d.1, Some uid)) (enumerate_session_devices seat o)) w.
Proof.
  unfold chowning, chown_devices. apply wpx_gets.
  set (devices := enumerate_session_devices seat (l_os w)).
  assert (∀ w0, wpx False (for_each devices (λ '(path, mode),
      _ ← chown_and_chmod path (Some uid) None mode; mret ())) (λ _ w', l_state w' = l_state w0 ∧
      ∃ l, l_effects w' = (l_effects w0 ++ l)%list ∧
        chowns l = map (λ d, (d.1, Some uid)) devices) w0) as Hall; [|apply Hall].
  induction devices as [|[path mode] ds IH]; intros w0; cbn [for_each map].
  - split; [done|]. exists []. by rewrite app_nil_r.
  - apply wpx_bind, wpx_bind. eapply wpx_mono; [apply chown_and_chmod_effects|].
    intros r w1 [Hs1 (l1 & H1 & C1)]. refine (wpx_mono _ _ _ _ _ (IH w1) _).
    intros [] w2 [Hs2 (l2 & H2 & C2)]. split; [congruence|]. exists (l1 ++ l2)%list.
    rewrite H2, H1, <-app_assoc, chowns_app, C1, C2. done.
Qed.

(** The user of another session in the foreground of a seat. *)
Definition displaced_uid (id seat : string) (st : LoginState) : option Z :=
  old ← foreground seat st;
  if bool_decide (old = id) then None else ss_uid <$> ls_sessions st !! old.

Lemma handover_eq id s seat st :
  ls_sessions st !! id = Some s → ss_seat s = Some seat →
  activate_with_acl_handover id st =
  ({| ah_seat := Some seat; ah_old_uid := displaced_uid id seat st; ah_new_uid := Some (ss_uid s) |},
   activate_session id st).
Proof.
  intros Es Ek. unfold activate_with_acl_handover, displaced_uid, foreground. rewrite Es, Ek. cbn.
  by destruct (ls_seats st !! seat).
Qed.

(** What is handed back to root before a session of [uid] comes to the foreground. *)
Lemma revert_effects id seat uid st w :
  chowning (match displaced_uid id seat st with
      | Some old => if bool_decide (Some uid ≠ Some old) then revert_session_acl seat else mret ()
      | None => mret ()
      end)
    (λ o c, c = [] ∨ c = map (λ d, (d.1, Some 0)) (enumerate_session_devices seat o) ∧
       ∃ old, displaced_uid id seat st = Some old ∧ old ≠ uid) w.
Proof.
  assert (chowning (mret ()) (λ o c, c = [] ∨ c = map (λ d, (d.1, Some 0))
    (enumerate_session_devices seat o) ∧
    ∃ old, displaced_uid id seat st = Some old ∧ old ≠ uid) w) as Hnone.
  { split; [done|]. exists []. rewrite app_nil_r. split; [done|]. by left. }
  destruct (displaced_uid id seat st) as [old|]; [|done].
  case_bool_decide as Hne; [|done]. unfold chowning, revert_session_acl.
  eapply wpx_mono; [apply chown_devices_effects|]. intros [] w' [Hs (l & Hl & Hc)].
  split; [done|]. exists l. split; [done|]. right. split; [done|]. exists old. split; congruence.
Qed.

Lemma activation_spec id s seat w :
  ls_sessions (l_state w) !! id = Some s → ss_seat s = Some seat →
  wpx False (manager_activate_session id) (λ r w', r = Ok () ∧ ∃ l pre o,
    l_state w' = activate_session id (l_state w) ∧
    l_effects w' = (l_effects w ++ l)%list ∧
    chowns l = (pre ++ map (λ d, (d.1, Some (ss_uid s))) (enumerate_session_devices seat o))%list ∧
    (pre = [] ∨ pre = map (λ d, (d.1, Some 0)) (enumerate_session_devices seat (l_os w)) ∧
       ∃ old, displaced_uid id seat (l_state w) = Some old ∧ old ≠ ss_uid s)) w.
Proof.
  intros Es Ek. unfold manager_activate_session, activate_and_hand_over, get_state. apply wpx_gets.
  rewrite bool_decide_eq_true_2 by eauto. apply wpx_bind, wpx_gets. rewrite (handover_eq id s seat) by done.
  apply wpx_modify. unfold run_acl_handover. cbn [ah_seat ah_old_uid ah_new_uid]. apply wpx_bind.
  set (w1 := set_l_state _ w). eapply wpx_mono; [apply revert_effects|].
  intros [] w2 [Hs2 (l2 & H2 & C2)]. unfold apply_session_acl.
  eapply wpx_mono; [apply chown_devices_effects|]. intros [] w3 [Hs3 (l3 & H3 & C3)].
  split; [done|]. exists (l2 ++ l3)%list, (chowns l2), (l_os w2).
  split; [by rewrite Hs3, Hs2|]. split; [by rewrite H3, H2, <-app_assoc|].
  split; [by rewrite chowns_app, C3|exact C2].
Qed.

(** Activating a session through the manager hands the devices of its seat to its user:
    they are reverted to root first only when the displaced session belongs to another user,
    and end owned by the activated user. *)
Theorem activation_hands_over id s seat w :
  ls_sessions (l_state w) !! id = Some s → ss_seat s = Some seat →
  ∃ w' l pre o, manager_activate_session id w = Ret (Ok ()) w' ∧
    l_state w' = activate_session id (l_state w) ∧
    l_effects w' = (l_effects w ++ l)%list ∧
    chowns l = (pre ++ map (λ d, (d.1, Some (ss_uid s))) (enumerate_session_devices seat o))%list ∧
    (pre = [] ∨ pre = map (λ d, (d.1, Some 0)) (enumerate_session_devices seat (l_os w)) ∧
       ∃ old, displaced_uid id seat (l_state w) = Some old ∧ old ≠ ss_uid s).
Proof.
  intros Es Ek. destruct (wpx_returns _ _ _ (activation_spec id s seat w Es Ek))
    as (r & w' & Hr & -> & l & pre & o & H). by exists w', l, pre, o.
Qed.
End login_facts.

Ltac steady_leaf := repeat case_match; first [apply steady_ret | apply steady_chown_devices].

(** ** On the small machine *)

Definition ex_create (uid pid : Z) : login_call := CallCreateSession true {|
  ca_uid := uid; ca_pid := pid; ca_service := "login"; ca_session_type := "wayland"; ca_class := "";
  ca_desktop := ""; ca_seat_id := ""; ca_vtnr := 1; ca_tty := ""; ca_display := "";
  ca_remote := false; ca_remote_user := ""; ca_remote_host := "" |}.
Definition ex_calls : list login_call :=
  [ex_create 1000 50; ex_create 1001 60; SessionTakeControl "1" false (Some ":1.5");
   SessionTakeDevice "1" 226 0; CallActivateSession "2"; CallReleaseSession "1"; TaskGc].

Lemma activation_hands_over_witness :
  ∃ w', @manager_activate_session demo_os "2" (demo_login ex_two 3) = Ret (Ok ()) w' ∧
    foreground "seat0" (l_state w') = Some "2".
Proof.
  destruct (@activation_hands_over demo_os "2" (new_session "2" 0 0 false (ex_request 1001 60 2 "bob"))
    "seat0" (demo_login ex_two 3)) as (w' & l & pre & o & H1 & H2 & _); [reflexivity|reflexivity|].
  exists w'. split; [exact H1|]. rewrite H2. reflexivity.
Defined.

(** The Activate method of a session's own object moves the foreground without handing
    the devices over. *)
Example session_activate_hands_nothing :
  ∃ w', session_activate "2" (demo_login ex_two 3) = Ret (Ok ()) w' ∧
    foreground "seat0" (l_state w') = Some "2" ∧ l_effects w' = [].
Proof. eexists. split; [reflexivity|]. split; reflexivity. Qed.

(** Any caller may take a device once the session has a controller. *)
Example take_device_any_caller :
  ∃ w', @take_device demo_os "1" 13 64
      (demo_login (ls_with_sessions
         (alter (set_controller (Some ":1.5") ∅) "1" (ls_sessions ex_two)) ex_two) 3)
    = Ret (Ok (11, false)) w'.
Proof. eexists. reflexivity. Qed.

(** Terminate of a session's own object removes the session, but neither its scope nor
    its user's runtime directory is cleaned up. *)
Example session_terminate_no_cleanup :
  ∃ w', session_terminate "1" (demo_login ex_two 3) = Ret (Ok ()) w' ∧
    ls_users (l_state w') !! 1000 = None ∧ ls_pending_user_cleanups (l_state w') = ∅ ∧
    l_effects w' = [FxKill 50 15].
Proof. eexists. split; [reflexivity|]. split_and!; reflexivity. Qed.

(** A leader process id of 0, or one above 2^31, makes Terminate signal a group. *)
Example terminate_signals_group :
  let st := (create_session 1 0 0 (ex_request 1000 0 1 "ann") ex_start).2 in
  ∃ w', session_terminate "1" (demo_login st 2) = Ret (Ok ()) w' ∧ l_effects w' = [FxKill 0 15].
Proof. eexists. split; reflexivity. Qed.

(** The Suspend method sleeps in spite of a block inhibitor, which the buttons respect. *)
Example suspend_ignores_block_inhibitor :
  match @suspend demo_os 51 false (ex_inhibited "sleep" "block") with
  | Ret r w' => r = Ok () ∧ blocked "sleep" w' = true ∧
      FxWrite "/sys/power/state" "mem" ∈ l_effects w'
  | _ => False
  end.
Proof. vm_compute. split_and!; [done|done|]. right. left. Qed.
