(* ===== verification/LoginHandover.v ===== *)
(** * Handing devices over, interleaved (manager.rs)

    An activation changes the tables under the lock and hands the devices over after
    releasing it, so two activations can overlap.  The steps of such tasks: the activation
    itself, and each change of an owner.  Every seat has the same devices
    ([enumerate_session_devices] does not look at the seat).

    The theorem: activations that do not overlap leave every device with the user of the
    last activated session; the example: two that do can leave them with the other user. *)

From stdpp Require Import relations.
From S2P Require Import Prelude RustStr Protocol Monad LoginConfig LoginState LoginSys.
From S2P Require Import LoginPower LoginPaths LoginManager LoginObjects LoginFacts.

#[local] Open Scope string_scope.
#[local] Open Scope Z_scope.
#[local] Open Scope list_scope.

Section handover.
Context (devices : list string).

(** The owners a handover sets, in order. *)
Definition handover_chowns (h : AclHandover) : list (string * Z) :=
  match ah_seat h with
  | None => []
  | Some _ =>
      match ah_old_uid h with
      | Some old => if bool_decide (ah_new_uid h ≠ Some old) then map (λ d, (d, 0)) devices else []
      | None => []
      end ++
      match ah_new_uid h with Some new => map (λ d, (d, new)) devices | None => [] end
  end.

(** The tables, the owners, the handovers under way, and the session activated last. *)
Record handover_state := {
  hs_login : LoginState;
  hs_owner : gmap string Z;
  hs_tasks : list (list (string * Z));
  hs_last : option string;
}.

Inductive handover_step : handover_state → handover_state → Prop :=
| hs_activate s id :
    is_Some (ls_sessions (hs_login s) !! id) →
    handover_step s {| hs_login := (activate_with_acl_handover id (hs_login s)).2;
      hs_owner := hs_owner s;
      hs_tasks := hs_tasks s ++ [handover_chowns (activate_with_acl_handover id (hs_login s)).1];
      hs_last := Some id |}
| hs_chown s l1 d uid rest l2 :
    hs_tasks s = l1 ++ ((d, uid) :: rest) :: l2 →
    handover_step s {| hs_login := hs_login s; hs_owner := <[d := uid]> (hs_owner s);
      hs_tasks := l1 ++ rest :: l2; hs_last := hs_last s |}
| hs_done s l1 l2 :
    hs_tasks s = l1 ++ [] :: l2 →
    handover_step s {| hs_login := hs_login s; hs_owner := hs_owner s;
      hs_tasks := l1 ++ l2; hs_last := hs_last s |}.

(** No activation while another is handing over. *)
Definition serial_step (s s' : handover_state) : Prop :=
  handover_step s s' ∧ (hs_last s' ≠ hs_last s ∨ length (hs_tasks s') > length (hs_tasks s) → hs_tasks s = [])%nat.

(** The owners once the handovers under way are done, one after the other. *)
Definition replay (l : list (string * Z)) (owner : gmap string Z) : gmap string Z :=
  foldl (λ o c, <[c.1 := c.2]> o) owner l.

Lemma replay_owns l owner d uid :
  d ∈ l → replay (map (λ d, (d, uid)) l) owner !! d = Some uid.
Proof.
  unfold replay. revert owner. induction l as [|x l IH]; intros owner Hd; [by apply elem_of_nil in Hd|].
  cbn. destruct (decide (d ∈ l)) as [Hl|Hl]; [by apply IH|].
  apply elem_of_cons in Hd as [<-|Hd]; [|done]. clear IH.
  assert (∀ o : gmap string Z, o !! d = Some uid →
    foldl (λ o c, <[c.1 := c.2]> o) o (map (λ d, (d, uid)) l) !! d = Some uid) as H.
  { clear owner. induction l as [|y l IH]; intros o Ho; [done|]. cbn.
    apply not_elem_of_cons in Hl as [Hy Hl]. apply IH; [done|]. by rewrite lookup_insert_ne. }
  apply H, lookup_insert_eq.
Qed.

(** The session activated last, its user, and that the devices are or will be theirs. *)
Definition handed_over (s : handover_state) : Prop :=
  (length (hs_tasks s) ≤ 1)%nat ∧
  ∀ id x, hs_last s = Some id → ls_sessions (hs_login s) !! id = Some x → is_Some (ss_seat x) →
    ∀ d, d ∈ devices → replay (concat (hs_tasks s)) (hs_owner s) !! d = Some (ss_uid x).

Lemma handover_chowns_own id x st owner d :
  ls_sessions st !! id = Some x → is_Some (ss_seat x) → d ∈ devices →
  replay (handover_chowns (activate_with_acl_handover id st).1) owner !! d = Some (ss_uid x).
Proof.
  intros Hx [seat Hs] Hd. unfold activate_with_acl_handover. rewrite Hx. cbn [fst].
  unfold handover_chowns. cbn [ah_seat ah_old_uid ah_new_uid]. rewrite Hs. unfold replay.
  rewrite foldl_app. by apply replay_owns.
Qed.

Lemma activate_same_user id st y z :
  ls_sessions (activate_with_acl_handover id st).2 !! y = Some z →
  ∃ x, ls_sessions st !! y = Some x ∧ ss_uid x = ss_uid z ∧ ss_seat x = ss_seat z.
Proof.
  assert ((activate_with_acl_handover id st).2 = activate_session id st) as ->.
  { unfold activate_with_acl_handover, activate_session. by destruct (ls_sessions st !! id). }
  intros Hz. pose proof (fmap_activate (λ s, (ss_uid s, ss_seat s)) id st) as Hf.
  assert (((λ s, (ss_uid s, ss_seat s)) <$> ls_sessions (activate_session id st)) !! y
    = Some (ss_uid z, ss_seat z)) as H by (by rewrite lookup_fmap, Hz).
  rewrite Hf, lookup_fmap in H by done. destruct (ls_sessions st !! y) as [x|]; [|done].
  exists x. injection H as -> ->. done.
Qed.

Lemma serial_keeps s s' : serial_step s s' → handed_over s → handed_over s'.
Proof.
  intros [Hstep Hser] [Hlen Hown]. destruct Hstep as [s id Hid|s l1 d uid rest l2 Ht|s l1 l2 Ht].
  - assert (hs_tasks s = []) as Ht by (apply Hser; right; cbn; rewrite length_app; cbn; lia).
    split; cbn; [rewrite Ht; cbn; lia|]. intros id' z [= <-] Hz Hseat d Hd. rewrite Ht. cbn. rewrite app_nil_r.
    destruct (activate_same_user _ _ _ _ Hz) as (x & Hx & Hu & Hs). rewrite <-Hu.
    apply (handover_chowns_own _ x); [done|by rewrite Hs|done].
  - rewrite Ht, length_app in Hlen. cbn in Hlen. destruct l1, l2; cbn in Hlen; try lia.
    split; cbn; [lia|]. intros id x Hl Hx Hs e He. specialize (Hown id x Hl Hx Hs e He).
    rewrite Ht in Hown. cbn in Hown. rewrite app_nil_r in *. exact Hown.
  - rewrite Ht, length_app in Hlen. cbn in Hlen. destruct l1, l2; cbn in Hlen; try lia.
    split; cbn; [lia|]. intros id x Hl Hx Hs e He. specialize (Hown id x Hl Hx Hs e He).
    rewrite Ht in Hown. exact Hown.
Qed.

(** Activations that do not overlap leave every device with the user of the session
    activated last. *)
Theorem serial_handover st owner s id x :
  rtc serial_step {| hs_login := st; hs_owner := owner; hs_tasks := []; hs_last := None |} s →
  hs_tasks s = [] → hs_last s = Some id → ls_sessions (hs_login s) !! id = Some x → is_Some (ss_seat x) →
  ∀ d, d ∈ devices → hs_owner s !! d = Some (ss_uid x).
Proof.
  intros Hrun. assert (handed_over s) as [_ Hown].
  { revert s Hrun. apply rtc_ind_r; [by split; [cbn; lia|]|]. intros y z _ Hs. by apply serial_keeps. }
  intros Ht Hl Hx Hs d Hd. specialize (Hown id x Hl Hx Hs d Hd). by rewrite Ht in Hown.
Qed.

(** The owners of this model are those [run_acl_handover] sets. *)
Lemma run_handover_chowns `{K : LoginOS} h w :
  (∀ seat o, map fst (enumerate_session_devices seat o) = devices) →
  chowning (run_acl_handover h) (λ _ c, c = map (λ x, (x.1, Some x.2)) (handover_chowns h)) w.
Proof.
  intros Hdev. unfold run_acl_handover, handover_chowns. destruct (ah_seat h) as [seat|].
  2:{ split; [done|]. exists []. by rewrite app_nil_r. }
  assert (∀ uid w0, chowning (chown_devices seat uid)
    (λ _ c, c = map (λ x, (x.1, Some x.2)) (map (λ d, (d, uid)) devices)) w0) as Hc.
  { intros uid w0. eapply wpx_mono; [apply chown_devices_effects|].
    intros [] w' [Hs (l & Hl & Hq)]. split; [done|]. exists l. split; [done|]. rewrite Hq.
    rewrite <-(Hdev seat (l_os w0)), !map_map. reflexivity. }
  assert (∀ w0, chowning (mret ()) (λ _ c, c = map (λ x : string * Z, (x.1, Some x.2)) []) w0) as Hnone.
  { intros w0. split; [done|]. exists []. by rewrite app_nil_r. }
  unfold chowning. apply wpx_bind. eapply (wpx_mono _ _ (λ _ w', l_state w' = l_state w ∧ ∃ l,
    l_effects w' = l_effects w ++ l ∧ chowns l = map (λ x, (x.1, Some x.2))
      match ah_old_uid h with
      | Some old => if bool_decide (ah_new_uid h ≠ Some old) then map (λ d, (d, 0)) devices else []
      | None => []
      end)).
  { destruct (ah_old_uid h); [case_bool_decide|]; [apply Hc|apply Hnone..]. }
  intros [] w1 [Hs1 (l1 & H1 & C1)]. rewrite map_app, <-C1.
  eapply (wpx_mono _ _ (λ _ w', l_state w' = l_state w1 ∧ ∃ l,
    l_effects w' = l_effects w1 ++ l ∧ chowns l = map (λ x, (x.1, Some x.2))
      match ah_new_uid h with Some new => map (λ d, (d, new)) devices | None => [] end)).
  { destruct (ah_new_uid h); [apply Hc|apply Hnone]. }
  intros [] w2 [Hs2 (l2 & H2 & C2)]. split; [congruence|]. exists (l1 ++ l2).
  by rewrite H2, H1, <-app_assoc, chowns_app, C2.
Qed.
End handover.

(** Two sessions of different users are activated at the same time: the second is in the
    foreground, the device is the first one's. *)
Example handover_race :
  ∃ s, rtc (handover_step ["/dev/dri/card0"])
         {| hs_login := ex_two; hs_owner := ∅; hs_tasks := []; hs_last := None |} s ∧
    hs_tasks s = [] ∧ foreground "seat0" (hs_login s) = Some "2" ∧
    ss_uid <$> ls_sessions (hs_login s) !! "2" = Some 1001 ∧ hs_owner s !! "/dev/dri/card0" = Some 1000.
Proof.
  pose (t1 := [("/dev/dri/card0", 1000)]).
  pose (o1 := <["/dev/dri/card0" := 0]> (∅ : gmap string Z)).
  pose (o2 := <["/dev/dri/card0" := 1001]> o1).
  pose (st1 := (activate_with_acl_handover "1" ex_two).2).
  pose (st2 := (activate_with_acl_handover "2" st1).2).
  exists {| hs_login := st2; hs_owner := <["/dev/dri/card0" := 1000]> o2; hs_tasks := []; hs_last := Some "2" |}.
  split; [|repeat split; vm_compute; reflexivity].
  eapply rtc_l; [apply (hs_activate _ _ "1"); vm_compute; by eexists|].
  eapply rtc_l; [apply (hs_activate _ _ "2"); vm_compute; by eexists|].
  cbn [hs_tasks hs_login hs_owner hs_last app]. fold st1. fold st2.
  replace (handover_chowns ["/dev/dri/card0"] (activate_with_acl_handover "1" ex_two).1) with t1
    by (vm_compute; reflexivity).
  replace (handover_chowns ["/dev/dri/card0"] (activate_with_acl_handover "2" st1).1)
    with [("/dev/dri/card0", 0); ("/dev/dri/card0", 1001)] by (vm_compute; reflexivity).
  eapply rtc_l; [by apply (hs_chown _ _ [t1] "/dev/dri/card0" 0 [("/dev/dri/card0", 1001)] [])|].
  eapply rtc_l; [by apply (hs_chown _ _ [t1] "/dev/dri/card0" 1001 [] [])|].
  eapply rtc_l; [by apply (hs_done _ _ [t1] [])|].
  eapply rtc_l; [by apply (hs_chown _ _ [] "/dev/dri/card0" 1000 [] [])|].
  eapply rtc_l; [by apply (hs_done _ _ [] [])|]. apply rtc_refl.
Qed.
