(* ===== verification/LoginCleanup.v ===== *)
(** * The cleanup of a user's runtime directory, interleaved

    When the last session of a user goes, [finalize_session_removal] of manager.rs
    starts a task that sleeps, looks whether the user is still gone, removes
    /run/user/UID without holding the lock, and then takes the lock again to drop its
    entry; [create_session] aborts that task under the lock and makes the directory
    after releasing it, if it can.  Terminate of a session, seat or user object removes
    sessions without starting a task.  An aborted task stops at its next await.  This file
    has the steps of all these tasks for one user as a transition system, each step what
    runs between two awaits or two uses of the lock, and shows that the calls of the login
    manager take such steps. *)

From S2P Require Import Prelude RustStr Monad LoginConfig LoginState LoginSys LoginPower LoginPaths.
From S2P Require Import LoginManager LoginObjects LoginFacts.

(** Where a cleanup task stands: asleep, or waiting for the lock to look; past the look,
    removing the directory; waiting for the lock to drop its entry. *)
Inductive task_pc := Asleep | Removing | Removed.
#[export] Instance task_pc_eq_dec : EqDecision task_pc.
Proof. solve_decision. Defined.

(** [cs_ensures] counts the logins that are yet to make the directory; [cs_failed] says that
    the last one that tried reported an error. *)
Record cleanup_state := {
  cs_sessions : nat;
  cs_ensures : nat;
  cs_failed : bool;
  cs_directory : bool;
  cs_tasks : gmap Z task_pc;
  cs_pending : option Z;
}.

(** Aborting a task ends it where it awaits; it goes on where it does not. *)
Definition abort (task : option Z) (tasks : gmap Z task_pc) : gmap Z task_pc :=
  match task with
  | None => tasks
  | Some t => if decide (tasks !! t = Some Removing) then tasks else delete t tasks
  end.

Inductive cleanup_step : cleanup_state → cleanup_state → Prop :=
(** create_session under the lock: the session, and the abort *)
| step_login s :
    cleanup_step s {| cs_sessions := S (cs_sessions s); cs_ensures := S (cs_ensures s);
      cs_failed := cs_failed s; cs_directory := cs_directory s;
      cs_tasks := abort (cs_pending s) (cs_tasks s); cs_pending := None |}
(** create_session after the lock: runtime_dir::ensure *)
| step_ensure s k : cs_ensures s = S k →
    cleanup_step s {| cs_sessions := cs_sessions s; cs_ensures := k; cs_failed := false;
      cs_directory := true; cs_tasks := cs_tasks s; cs_pending := cs_pending s |}
(** an error of ensure, which is only logged: the directory may have been made before it *)
| step_ensure_failed s k d : cs_ensures s = S k → (cs_directory s = true → d = true) →
    cleanup_step s {| cs_sessions := cs_sessions s; cs_ensures := k; cs_failed := true;
      cs_directory := d; cs_tasks := cs_tasks s; cs_pending := cs_pending s |}
(** finalize_session_removal of a session that is not the last *)
| step_logout s n : cs_sessions s = S (S n) →
    cleanup_step s {| cs_sessions := S n; cs_ensures := cs_ensures s; cs_failed := cs_failed s;
      cs_directory := cs_directory s; cs_tasks := cs_tasks s; cs_pending := cs_pending s |}
(** finalize_session_removal of the last session: a new task *)
| step_last_logout s t : cs_sessions s = 1 → cs_tasks s !! t = None →
    cleanup_step s {| cs_sessions := 0; cs_ensures := cs_ensures s; cs_failed := cs_failed s;
      cs_directory := cs_directory s; cs_tasks := <[t := Asleep]> (cs_tasks s);
      cs_pending := Some t |}
(** Terminate of a session, seat or user object: no task, also for the last session *)
| step_terminate s n : cs_sessions s = S n →
    cleanup_step s {| cs_sessions := n; cs_ensures := cs_ensures s; cs_failed := cs_failed s;
      cs_directory := cs_directory s; cs_tasks := cs_tasks s; cs_pending := cs_pending s |}
(** the task looks under the lock: the user is back, or still gone *)
| step_look_back s t n : cs_tasks s !! t = Some Asleep → cs_sessions s = S n →
    cleanup_step s {| cs_sessions := cs_sessions s; cs_ensures := cs_ensures s; cs_failed := cs_failed s;
      cs_directory := cs_directory s; cs_tasks := delete t (cs_tasks s); cs_pending := cs_pending s |}
| step_look_gone s t : cs_tasks s !! t = Some Asleep → cs_sessions s = 0 →
    cleanup_step s {| cs_sessions := cs_sessions s; cs_ensures := cs_ensures s; cs_failed := cs_failed s;
      cs_directory := cs_directory s; cs_tasks := <[t := Removing]> (cs_tasks s);
      cs_pending := cs_pending s |}
(** runtime_dir::release and release_user_slice, without the lock; a busy directory stays *)
| step_remove s t d : cs_tasks s !! t = Some Removing → (d = true → cs_directory s = true) →
    cleanup_step s {| cs_sessions := cs_sessions s; cs_ensures := cs_ensures s; cs_failed := cs_failed s;
      cs_directory := d; cs_tasks := <[t := Removed]> (cs_tasks s);
      cs_pending := cs_pending s |}
(** the entry dropped under the lock, and the end of an aborted task *)
| step_done s t : cs_tasks s !! t = Some Removed →
    cleanup_step s {| cs_sessions := cs_sessions s; cs_ensures := cs_ensures s; cs_failed := cs_failed s;
      cs_directory := cs_directory s; cs_tasks := delete t (cs_tasks s); cs_pending := None |}
| step_aborted s t : cs_tasks s !! t = Some Removed → cs_pending s ≠ Some t →
    cleanup_step s {| cs_sessions := cs_sessions s; cs_ensures := cs_ensures s; cs_failed := cs_failed s;
      cs_directory := cs_directory s; cs_tasks := delete t (cs_tasks s); cs_pending := cs_pending s |}.

Definition cleanup_start : cleanup_state :=
  {| cs_sessions := 0; cs_ensures := 0; cs_failed := false; cs_directory := false; cs_tasks := ∅;
     cs_pending := None |}.

(** No task is between its look and the removal. *)
Definition no_removal (s : cleanup_state) : Prop := ∀ t, cs_tasks s !! t ≠ Some Removing.

(** The steps, but no login while a task is removing the directory. *)
Definition calm_step (s s' : cleanup_state) : Prop :=
  cleanup_step s s' ∧ (cs_sessions s < cs_sessions s' → no_removal s).

(** A user who is logged in has the directory, or a login that will make it, or the last
    login could not make it. *)
Record cleanup_inv (s : cleanup_state) : Prop := {
  ci_directory : 0 < cs_sessions s → cs_directory s = true ∨ 0 < cs_ensures s ∨ cs_failed s = true;
  ci_removal : 0 < cs_sessions s → no_removal s;
}.

Lemma no_removal_abort p s : no_removal s → ∀ t, abort p (cs_tasks s) !! t ≠ Some Removing.
Proof.
  intros Hs t. unfold abort. destruct p as [p|]; [|apply Hs]. case_decide; [apply Hs|].
  intros Ht. apply lookup_delete_Some in Ht as [_ Ht]. by apply (Hs t).
Qed.

Lemma no_removal_delete s t t' : no_removal s → delete t (cs_tasks s) !! t' ≠ Some Removing.
Proof. intros Hs Ht. apply lookup_delete_Some in Ht as [_ Ht]. by apply (Hs t'). Qed.

Lemma cleanup_inv_step s s' : cleanup_inv s → calm_step s s' → cleanup_inv s'.
Proof.
  intros [H1 H2] [Hstep Hcalm].
  destruct Hstep as [s|s k Hk|s k d Hk Hd|s n Hn|s t Hn Ht|s n Hn|s t n Ht Hn|s t Ht Hn|s t d Ht Hd|s t Ht|s t Ht Hp];
    split; cbn in *; intros Hpos; try lia; auto.
  - intros t. apply no_removal_abort, Hcalm. lia.
  - apply H1. lia.
  - intros t. apply H2. lia.
  - apply H1. lia.
  - intros t. apply H2. lia.
  - intros t'. apply no_removal_delete. auto.
  - by destruct (H2 Hpos t).
  - by destruct (H2 Hpos t).
  - intros t'. apply no_removal_delete. auto.
  - intros t'. apply no_removal_delete. auto.
Qed.

Lemma cleanup_run_inv s : rtc calm_step cleanup_start s → cleanup_inv s.
Proof.
  apply (rtc_ind_r (λ s, cleanup_inv s)).
  - split; cbn; lia.
  - intros s1 s2 _ Hstep Hi. by eapply cleanup_inv_step.
Qed.

(** The directory of a user who is logged in is not taken away. *)
Lemma directory_kept s s' :
  cleanup_inv s → calm_step s s' → 0 < cs_sessions s' → cs_directory s = true → cs_directory s' = true.
Proof.
  intros [_ H2] [Hstep _]. destruct Hstep; cbn; auto. intros Hn. exfalso. by eapply H2.
Qed.

(** ** The calls of the login manager *)

Definition sessions_of (uid : Z) (st : LoginState) : nat :=
  match ls_users st !! uid with Some u => length (us_sessions u) | None => 0 end.

(** What the tables say of a user, as the transition system has it; a user who is logged in
    has no task that is due. *)
Record sees (uid : Z) (st : LoginState) (s : cleanup_state) : Prop := {
  see_sessions : cs_sessions s = sessions_of uid st;
  see_pending : cs_pending s = ls_pending_user_cleanups st !! uid;
  see_due : 0 < cs_sessions s → cs_pending s = None;
}.

Lemma create_counts counter us now rq st :
  let st' := (create_session counter us now rq st).2 in
  sessions_of (rq_uid rq) st' = S (sessions_of (rq_uid rq) st) ∧
  ls_pending_user_cleanups st' = ls_pending_user_cleanups st.
Proof.
  unfold create_session, sessions_of. destruct (next_session_id counter) as [id c]. cbn. split; [|done].
  unfold user_add. rewrite lookup_insert_eq. cbn. rewrite length_app. cbn.
  destruct (ls_users st !! rq_uid rq); cbn; lia.
Qed.

Lemma length_retain_not id l : NoDup l → id ∈ l → length l = S (length (retain_not id l)).
Proof.
  unfold retain_not. induction l as [|x l IH]; [by intros _ ?%elem_of_nil|]. intros [Hx Hnd]%NoDup_cons.
  rewrite filter_cons. intros [->|Hin]%elem_of_cons.
  - rewrite decide_False by (intros Hne; by apply Hne). cbn. f_equal. f_equal. symmetry. clear IH Hnd.
    induction l as [|y l IH]; [done|]. apply not_elem_of_cons in Hx as [Hne Hx]. rewrite filter_cons, decide_True by done.
    by rewrite IH.
  - rewrite decide_True by (by intros ->). cbn. f_equal. by apply IH.
Qed.

Lemma remove_counts counter id se st :
  login_inv counter st → ls_sessions st !! id = Some se →
  let st' := remove_session id st in
  sessions_of (ss_uid se) st = S (sessions_of (ss_uid se) st') ∧
  (ls_users st' !! ss_uid se = None ↔ sessions_of (ss_uid se) st' = 0) ∧
  ls_pending_user_cleanups st' = ls_pending_user_cleanups st.
Proof.
  intros Hi Hs st'. destruct (li_users _ _ Hi) as [Hu He].
  assert (idents (ls_sessions st) !! id = Some (ident se)) as Hid by (by rewrite lookup_idents, Hs).
  destruct (He _ _ Hid) as [u Hlk]. change (i_uid (ident se)) with (ss_uid se) in Hlk.
  destruct (Hu _ _ Hlk) as [_ Hnd Hm _ _].
  assert (id ∈ us_sessions u) as Hin by (apply Hm; eauto).
  pose proof (length_retain_not id _ Hnd Hin) as Hlen.
  unfold st', remove_session, sessions_of. rewrite Hs.
  destruct (seat_remove _ _ _ _) as [ss seats]. cbn. unfold user_remove. rewrite Hlk.
  case_bool_decide as Hr.
  - rewrite lookup_delete_eq. rewrite Hr in Hlen. done.
  - rewrite lookup_insert_eq. cbn. split; [done|]. split; [|done]. split; [done|].
    by intros Hz%length_zero_iff_nil.
Qed.

Section calls.
Context {K : LoginOS} {Z_ : ZPath}.

(** A call from [w], as steps of the transition system: it returns, and what it leaves of the
    user is what some steps leave, where the number of a task it starts is that of no other. *)
Definition takes_steps (uid : Z) {A} (m : L A) (w : Login) : Prop :=
  ∀ s, sees uid (l_state w) s →
  wpx False m (λ _ w',
    (∀ t, ls_pending_user_cleanups (l_state w') !! uid = Some t → cs_pending s = None →
       cs_tasks s !! t = None) →
    ∃ s', rtc cleanup_step s s' ∧ sees uid (l_state w') s') w.

(** CreateSession is a login. *)
Lemma create_takes_steps has_server a w : takes_steps (ca_uid a) (manager_create_session has_server a) w.
Proof.
  intros s Hs. unfold manager_create_session, get_state. apply wpx_gets.
  destruct (choose_seat _ _) as [seat|e]; [|intros _; by exists s; split; [apply rtc_refl|]].
  apply wpx_gets. destruct (default _ _) as [name gid]. apply wpx_bind.
  assert (wpx False (cancel_cleanup (ca_uid a)) (λ _ w',
    ls_users (l_state w') = ls_users (l_state w) ∧
    ls_pending_user_cleanups (l_state w') !! ca_uid a = None) w) as Hc.
  { unfold cancel_cleanup, get_state. apply wpx_gets. destruct (_ !! _) as [t|] eqn:Et; [|by split].
    apply wpx_modify. eapply wpx_mono; [apply steady_try_perform|]. intros [] w' [-> _]. cbn.
    by rewrite lookup_delete_eq. }
  eapply wpx_mono; [exact Hc|]. clear Hc. intros [] w1 [Hu Hp]. apply wpx_bind.
  unfold register_session. apply wpx_call, wpx_call. unfold wpx at 1, add_session.
  cbn [l_next_session set_l_os l_state].
  match goal with |- context [create_session ?c ?us ?now ?rq ?st] =>
    pose proof (create_counts c us now rq st) as Hcount; destruct (create_session c us now rq st) as [[id c'] st'] eqn:Ec end.
  cbn in Hcount. destruct Hcount as [Hn Hp'].
  apply wpx_gets. cbn [l_state set_l_state set_l_counters].
  apply wpx_steady; [apply steady_ensure|]. intros _ w3 [H3 _].
  apply wpx_steady; [apply steady_place_leader|]. intros _ w4 [H4 _].
  apply wpx_steady; [steady_leaf|]. intros _ w5 [H5 _].
  apply wpx_steady; [apply steady_register_objects|]. intros _ w6 [H6 _]. cbn in H3. intros _.
  eexists. split; [eapply rtc_once, step_login|]. rewrite H6, H5, H4, H3. split; cbn; [|by rewrite Hp'|done].
  rewrite Hn. f_equal. rewrite (see_sessions _ _ _ Hs). unfold sessions_of. by rewrite Hu.
Qed.

(** The last steps of a logout leave the tables alone. *)
Lemma handover_after uid s :
  steady (st ← get_state;
    let new_active_uid := foreground_uid (ss_seat s) st in
    match ss_seat s with
    | Some seat =>
        if ss_active s then
          (if bool_decide (Some uid ≠ new_active_uid) then revert_session_acl seat else mret ()) ;;
          match new_active_uid with
          | Some new => if bool_decide (new ≠ uid) then apply_session_acl seat new else mret ()
          | None => mret ()
          end
        else mret ()
    | None => mret ()
    end).
Proof.
  apply steady_bind; [apply steady_gets|]. intros st. cbn zeta.
  destruct (ss_seat s); [|apply steady_ret]. destruct (ss_active s); [|apply steady_ret].
  apply steady_bind; [steady_leaf|]. intros []. steady_leaf.
Qed.

(** A session that ends by itself, or through ReleaseSession or a Terminate call of the manager
    object, is a logout, of the last session or not. *)
Lemma finalize_takes_steps counter id se w :
  login_inv counter (l_state w) → ls_sessions (l_state w) !! id = Some se →
  takes_steps (ss_uid se) (finalize_session_removal id) w.
Proof.
  intros Hi Hid s [Hn Hp Hdue]. unfold finalize_session_removal, get_state. apply wpx_gets. rewrite Hid.
  apply wpx_modify. destruct (remove_counts _ _ _ _ Hi Hid) as (Hs & Hgone & Hp').
  set (st' := remove_session id (l_state w)) in *.
  apply wpx_steady; [apply steady_remove_if_exists|]. intros _ w1 [H1 _]. cbn in H1.
  assert (cs_pending s = None) as Hpn by (apply Hdue; lia).
  apply wpx_bind. unfold schedule_cleanup, get_state. apply wpx_gets. rewrite H1.
  case_bool_decide as Hu.
  - apply wpx_call. apply wpx_steady; [apply steady_try_perform|]. intros _ w2 [H2 _]. cbn in H2.
    unfold on_state, wpx at 1, modify. eapply wpx_mono; [apply handover_after|].
    intros [] w3 [H3 _] Hfresh. cbn in H3. rewrite H2, H1 in H3. rewrite H3 in Hfresh |- *.
    set (t := (lo_spawn _).1) in *. cbn in Hfresh.
    eexists. split; [eapply rtc_once, (step_last_logout _ t)|].
    + rewrite Hn, Hs. f_equal. by apply Hgone.
    + apply Hfresh; [apply lookup_insert_eq|done].
    + split; cbn; [|by rewrite lookup_insert_eq|lia]. symmetry. by apply Hgone.
  - unfold wpx at 1. cbn. eapply wpx_mono; [apply handover_after|]. intros [] w3 [H3 _] _. rewrite H3, H1.
    destruct (sessions_of (ss_uid se) st') as [|n] eqn:En; [by destruct Hu; apply Hgone|].
    eexists. split; [eapply rtc_once, step_logout; by rewrite Hn, Hs|].
    split; cbn; [done| |auto]. by rewrite Hp, Hp'.
Qed.

(** Terminate of a session object removes a session and starts no task. *)
Lemma terminate_takes_steps counter id se w :
  login_inv counter (l_state w) → ls_sessions (l_state w) !! id = Some se →
  takes_steps (ss_uid se) (session_terminate id) w.
Proof.
  intros Hi Hid s [Hn Hp Hdue]. unfold session_terminate, with_session, get_state. apply wpx_gets. rewrite Hid.
  apply wpx_steady; [apply steady_try_perform|]. intros _ w1 [H1 _]. apply wpx_modify. intros _.
  destruct (remove_counts _ _ _ _ Hi Hid) as (Hs & _ & Hp'). rewrite H1. cbn.
  eexists. split; [eapply rtc_once, step_terminate; by rewrite Hn, Hs|].
  split; cbn; [done|by rewrite Hp, Hp'|]. intros _. apply Hdue. lia.
Qed.


End calls.

(** ** Examples *)

(** A login between the look of a cleanup task and its removal loses the directory. *)
Example cleanup_race_reachable : ∃ s,
  rtc cleanup_step cleanup_start s ∧ cs_sessions s = 1 ∧ cs_ensures s = 0 ∧ cs_failed s = false ∧
  cs_directory s = false.
Proof.
  eexists. split.
  - eapply rtc_l; [apply step_login|]. eapply rtc_l; [by eapply step_ensure|].
    eapply rtc_l; [by apply (step_last_logout _ 7)|]. eapply rtc_l; [by apply (step_look_gone _ 7)|].
    eapply rtc_l; [apply step_login|]. eapply rtc_l; [by eapply step_ensure|].
    eapply rtc_l; [by apply (step_remove _ 7 false)|]. apply rtc_refl.
  - by split_and!.
Qed.

(** A user whose directory could not be made is logged in without one. *)
Example login_without_directory : ∃ s,
  rtc calm_step cleanup_start s ∧ cs_sessions s = 1 ∧ cs_ensures s = 0 ∧ cs_directory s = false.
Proof.
  eexists. split.
  - eapply rtc_l; [split; [apply step_login|]; intros _ t; cbn; by rewrite lookup_empty|].
    eapply rtc_l; [split; [by apply (step_ensure_failed _ 0 false)|cbn; lia]|]. apply rtc_refl.
  - by split_and!.
Qed.

Definition logged_in : cleanup_state :=
  {| cs_sessions := 1; cs_ensures := 0; cs_failed := false; cs_directory := true; cs_tasks := ∅;
     cs_pending := None |}.

Lemma logged_in_reachable : rtc calm_step cleanup_start logged_in.
Proof.
  eapply rtc_l; [split; [apply (step_login cleanup_start)|]; intros _ t; cbn; by rewrite lookup_empty|].
  eapply rtc_l; [split; [by eapply (step_ensure _ 0)|cbn; lia]|]. apply rtc_refl.
Qed.

