(* ===== verification/LoginAcpi.v ===== *)
(** * Reading the capabilities of input devices (acpi.rs)

    The bit masks of sysfs are hexadecimal 64-bit words, the most significant first.
    The theorem: on the text the kernel prints for a mask, [has_bit] answers whether
    the bit is set. *)

From S2P Require Import Prelude RustStr LoginPaths LoginState LoginSys LoginPower.

#[local] Open Scope string_scope.
#[local] Open Scope Z_scope.

(** The kernel's %lx: the hexadecimal digits of a number below [16 ^ fuel]. *)
Fixpoint hex_go (fuel : nat) (n : Z) (acc : string) : string :=
  match fuel with
  | O => acc
  | S fuel =>
      if n <? 16 then String (hex_digit n) acc
      else hex_go fuel (n / 16) (String (hex_digit (n mod 16)) acc)
  end.
Definition to_hex (n : Z) : string := hex_go 16 n "".

(** The text of a mask, from its words, the least significant first. *)
Definition bitmap_text (ws : list Z) : string :=
  join " " (reverse (map to_hex ws)) ++ String newline "".

Example bitmap_example :
  (bitmap_text [0; 2 ^ 52; 2 ^ 14], has_bit (bitmap_text [0; 2 ^ 52; 2 ^ 14]) KEY_POWER,
   has_bit (bitmap_text [0; 2 ^ 52; 2 ^ 14]) KEY_SLEEP, has_bit (bitmap_text [0; 2 ^ 52; 2 ^ 14]) 200)
  = ("4000 10000000000000 0" ++ String newline "", true, true, false).
Proof. vm_compute. reflexivity. Qed.

(** ** Hexadecimal *)

Lemma hex_val_digit d : 0 ≤ d < 16 → hex_val (hex_digit d) = Some d.
Proof.
  intros Hd. assert (d ∈ [0;1;2;3;4;5;6;7;8;9;10;11;12;13;14;15]) as H.
  { rewrite !elem_of_cons. lia. }
  rewrite !elem_of_cons in H. repeat (destruct H as [->|H]; [reflexivity|]). by apply elem_of_nil in H.
Qed.

Lemma parse_hex_go fuel n acc :
  0 ≤ n ≤ U64_MAX → n < 16 ^ Z.of_nat fuel →
  parse_hex_digits 0 (hex_go fuel n acc) = parse_hex_digits n acc.
Proof.
  revert n acc. induction fuel as [|fuel IH]; intros n acc Hn Hf.
  { cbn in Hf. by assert (n = 0) as -> by lia. }
  cbn [hex_go]. destruct (Z.ltb_spec n 16).
  - cbn [parse_hex_digits]. rewrite hex_val_digit by lia. cbn [mbind option_bind].
    rewrite (proj2 (Z.leb_le _ _)) by (unfold U64_MAX; lia). done.
  - assert (0 ≤ n / 16 ≤ n) by (split; [apply Z.div_pos|apply Z.div_le_upper_bound]; lia).
    rewrite Nat2Z.inj_succ, Z.pow_succ_r in Hf by lia.
    rewrite IH by (try apply Z.div_lt_upper_bound; lia). cbn [parse_hex_digits].
    pose proof (Z.mod_pos_bound n 16 ltac:(lia)). rewrite hex_val_digit by lia. cbn [mbind option_bind].
    replace (n / 16 * 16 + n mod 16) with n by (rewrite (Z.div_mod n 16) at 1; lia).
    by rewrite (proj2 (Z.leb_le _ _)) by lia.
Qed.

Definition is_hex_byte (c : Ascii.ascii) : bool := bool_decide (is_Some (hex_val c)).

Lemma hex_go_bytes fuel n acc :
  0 ≤ n → str_all is_hex_byte acc = true → (0 < fuel)%nat →
  ∃ c r, hex_go fuel n acc = String c r ∧ str_all is_hex_byte (String c r) = true.
Proof.
  assert (∀ d r, 0 ≤ d < 16 → str_all is_hex_byte r = true →
    str_all is_hex_byte (String (hex_digit d) r) = true) as Hcons.
  { intros d r Hd Hr. cbn [str_all]. unfold is_hex_byte at 1. rewrite hex_val_digit by done. done. }
  revert n acc. induction fuel as [|fuel IH]; intros n acc Hn Ha Hf; [lia|].
  cbn [hex_go]. destruct (Z.ltb_spec n 16).
  - eexists _, _. split; [done|]. by apply Hcons.
  - pose proof (Z.mod_pos_bound n 16 ltac:(lia)). destruct fuel as [|fuel].
    + eexists _, _. split; [done|]. by apply Hcons.
    + apply IH; [apply Z.div_pos; lia|by apply Hcons|lia].
Qed.

Lemma to_hex_bytes n : 0 ≤ n → ∃ c r, to_hex n = String c r ∧ str_all is_hex_byte (String c r) = true.
Proof. intros Hn. by apply hex_go_bytes; [| |lia]. Qed.

Lemma hex_byte_not_space c : is_hex_byte c = true → is_ascii_whitespace c = false ∧ Ascii.eqb c plus = false.
Proof.
  destruct c as [[] [] [] [] [] [] [] []]; vm_compute; intros H; try done; discriminate H.
Qed.

Lemma parse_to_hex n : 0 ≤ n ≤ U64_MAX → parse_hex (to_hex n) = Some n.
Proof.
  intros Hn. destruct (to_hex_bytes n ltac:(lia)) as (c & r & Heq & Hb).
  assert (parse_hex_digits 0 (to_hex n) = Some n) as Hp.
  { unfold to_hex. rewrite parse_hex_go; [done|done|]. change (16 ^ Z.of_nat 16) with (2 ^ 64).
    unfold U64_MAX in Hn. lia. }
  rewrite Heq in *. cbn [str_all] in Hb. apply andb_true_iff in Hb as [Hc _].
  apply hex_byte_not_space in Hc as [_ Hc]. unfold parse_hex. rewrite Hc. by destruct r.
Qed.

(** ** Words *)

Lemma ascii_words_word word w s :
  str_all is_hex_byte w = true → ascii_words word (w ++ s) = ascii_words (word ++ w) s.
Proof.
  revert word. induction w as [|c w IH]; intros word Hw; [by rewrite app_nil_r_str|].
  cbn [str_all] in Hw. apply andb_true_iff in Hw as [Hc Hw]. cbn [String.append ascii_words].
  rewrite (proj1 (hex_byte_not_space c Hc)), IH, app_assoc_str by done. done.
Qed.

Lemma ascii_words_join (ws : list string) :
  Forall (λ w, w ≠ "" ∧ str_all is_hex_byte w = true) ws →
  split_ascii_whitespace (join " " ws ++ String newline "") = ws.
Proof.
  unfold split_ascii_whitespace. induction 1 as [|w ws [Hne Hw] Hall IH]; [done|].
  destruct ws as [|w' ws].
  - cbn [join]. rewrite ascii_words_word by done. cbn. by rewrite bool_decide_eq_false_2.
  - change (join " " (w :: w' :: ws)) with (w ++ (" " ++ join " " (w' :: ws))).
    rewrite app_assoc_str, ascii_words_word by done. cbn [String.append ascii_words].
    rewrite bool_decide_eq_false_2 by done. cbn [app]. f_equal. exact IH.
Qed.

Lemma land_shiftr_testbit w o : 0 ≤ o → (Z.land (Z.shiftr w o) 1 =? 1) = Z.testbit w o.
Proof.
  intros Ho. change 1 with (Z.ones 1). rewrite Z.land_ones by lia. change (2 ^ 1) with 2.
  rewrite <-(Z.add_0_l o) at 2. rewrite <-Z.shiftr_spec by lia. rewrite <-Z.bit0_mod.
  by destruct (Z.testbit (Z.shiftr w o) 0).
Qed.

(** A capability bitmap as the kernel prints it (hexadecimal words, the most significant
    first) is read back bit by bit. *)
Theorem capability_bits_read ws bit :
  Forall (λ w, 0 ≤ w ≤ U64_MAX) ws → 0 ≤ bit →
  has_bit (bitmap_text ws) bit =
  match ws !! Z.to_nat (bit / 64) with Some w => Z.testbit w (bit mod 64) | None => false end.
Proof.
  intros Hws Hbit. unfold has_bit, bitmap_text. rewrite ascii_words_join, reverse_involutive.
  - assert (omap parse_hex (map to_hex ws) = ws) as ->.
    { induction Hws as [|w ws Hw _ IH]; [done|]. unfold omap in *. cbn [map list_omap].
      rewrite parse_to_hex by done. by f_equal. }
    destruct (ws !! _); [|done]. apply land_shiftr_testbit, Z.mod_pos_bound. lia.
  - apply Forall_reverse. apply Forall_map. eapply Forall_impl; [exact Hws|]. intros w [Hw _].
    destruct (to_hex_bytes w Hw) as (c & r & -> & Hb). done.
Qed.
Lemma capability_bits_read_witness : has_bit (bitmap_text [0; 2 ^ 52]) KEY_POWER = true.
Proof.
  rewrite (capability_bits_read [0; 2 ^ 52] KEY_POWER).
  - reflexivity.
  - repeat constructor; unfold U64_MAX; lia.
  - unfold KEY_POWER. lia.
Defined.
