(* ===== verification/AcpiPipe.v ===== *)
(** * From the input devices to the actions (acpi.rs, [spawn])

    One thread per input device reads its events and sends the keys among them over a
    channel of sixteen places; one task takes them from the channel and runs the configured
    actions.  The threads and the task interleave as [acpi_step]; what other tasks do to the
    tables while an action waits is part of the system, as in LoginPower.v.

    The theorem: every schedule is finite, none deadlocks, the channel never holds more than
    sixteen events, and when nothing is left to do every key of every device was acted upon
    once, those of a device in their order. *)

From stdpp Require Import relations.
From S2P Require Import Prelude RustStr Protocol Monad LoginConfig LoginState LoginSys LoginPower.

#[local] Open Scope Z_scope.
#[local] Open Scope list_scope.

(** What a device answers to [read_exact]: the bytes of an event, or an error. *)
Definition input : Type := list (option (list Z)).

Inductive dispatcher := DRecv | DHandle (dev : nat) (event : AcpiEvent) | DEnded.

Definition of_device (i : nat) (l : list (nat * AcpiEvent)) : list AcpiEvent :=
  (filter (λ x, x.1 = i) l).*2.

Definition CHANNEL_SIZE : nat := 16.

Section acpi.
Context {K : LoginOS} {R : Rmp} (polls : nat).

(** The threads ([None] when one has returned), the channel, the task with the time of its
    last lid event, and the events it has handled. *)
Record Acpi := {
  ac_readers : list (option input);
  ac_queue : list (nat * AcpiEvent);
  ac_dispatch : dispatcher;
  ac_last : Z;
  ac_login : Login;
  ac_handled : list (nat * AcpiEvent);
}.

Definition ac_with (rs : list (option input)) (q : list (nat * AcpiEvent)) (d : dispatcher) (a : Acpi) : Acpi :=
  {| ac_readers := rs; ac_queue := q; ac_dispatch := d; ac_last := ac_last a;
     ac_login := ac_login a; ac_handled := ac_handled a |}.
Definition ac_handle (x : nat * AcpiEvent) (last : Z) (w : Login) (a : Acpi) : Acpi :=
  {| ac_readers := ac_readers a; ac_queue := ac_queue a; ac_dispatch := DRecv; ac_last := last;
     ac_login := w; ac_handled := ac_handled a ++ [x] |}.

(** [spawn]: a thread for each device found, and the task, which looks at the clock first. *)
Definition acpi_spawn (opens : string → bool) (reads : string → input) (w : Login) : Acpi :=
  let '(now, o) := lo_instant (l_os w) in
  {| ac_readers := map (λ dev, if opens dev then Some (reads dev) else None) (scan_devices (l_os w));
     ac_queue := []; ac_dispatch := DRecv; ac_last := now - 3600 * NANOS; ac_login := set_l_os o w;
     ac_handled := [] |}.

Inductive acpi_step : Acpi → Acpi → Prop :=
| read_other a l1 buf rest l2 :
    ac_readers a = l1 ++ Some (Some buf :: rest) :: l2 → classify (input_event buf) = None →
    acpi_step a (ac_with (l1 ++ Some rest :: l2) (ac_queue a) (ac_dispatch a) a)
| read_key a l1 buf rest l2 e :
    ac_readers a = l1 ++ Some (Some buf :: rest) :: l2 → classify (input_event buf) = Some e →
    ac_dispatch a ≠ DEnded → (length (ac_queue a) < CHANNEL_SIZE)%nat →
    acpi_step a (ac_with (l1 ++ Some rest :: l2) (ac_queue a ++ [(length l1, e)]) (ac_dispatch a) a)
| read_closed a l1 buf rest l2 e :
    ac_readers a = l1 ++ Some (Some buf :: rest) :: l2 → classify (input_event buf) = Some e →
    ac_dispatch a = DEnded →
    acpi_step a (ac_with (l1 ++ None :: l2) (ac_queue a) (ac_dispatch a) a)
| read_failed a l1 rest l2 :
    ac_readers a = l1 ++ Some (None :: rest) :: l2 →
    acpi_step a (ac_with (l1 ++ None :: l2) (ac_queue a) (ac_dispatch a) a)
| receive a dev e q :
    ac_dispatch a = DRecv → ac_queue a = (dev, e) :: q →
    acpi_step a (ac_with (ac_readers a) q (DHandle dev e) a)
| all_gone a :
    ac_dispatch a = DRecv → ac_queue a = [] → Forall (λ r, r = None) (ac_readers a) →
    acpi_step a (ac_with (ac_readers a) [] DEnded a)
| handled a dev e last w :
    ac_dispatch a = DHandle dev e → dispatch_event polls e (ac_last a) (ac_login a) = Ret last w →
    acpi_step a (ac_handle (dev, e) last w a).

(** ** Nothing is lost *)

Definition in_hand (d : dispatcher) : list (nat * AcpiEvent) :=
  match d with DHandle dev e => [(dev, e)] | _ => [] end.

(** The keys a thread has still to send, were the channel never closed. *)
Definition to_come (r : option input) : list AcpiEvent :=
  match r with Some reads => read_loop reads (length reads) | None => [] end.

(** What device [i] has pressed, wherever its events are. *)
Definition pressed (i : nat) (a : Acpi) : list AcpiEvent :=
  of_device i (ac_handled a ++ in_hand (ac_dispatch a) ++ ac_queue a) ++
  from_option to_come [] (ac_readers a !! i).

Lemma read_loop_room reads n m :
  (length reads ≤ n)%nat → (length reads ≤ m)%nat → read_loop reads n = read_loop reads m.
Proof.
  revert n m. induction reads as [|[buf|] reads IH]; intros n m Hn Hm; cbn in *; [done| |done].
  destruct (classify _); [|apply IH; lia]. destruct n, m; try lia. f_equal. apply IH; lia.
Qed.

Lemma to_come_cons buf rest :
  to_come (Some (Some buf :: rest)) = option_list (classify (input_event buf)) ++ to_come (Some rest).
Proof.
  cbn. destruct (classify _); [done|]. apply read_loop_room; lia.
Qed.

Lemma of_device_app i l k : of_device i (l ++ k) = of_device i l ++ of_device i k.
Proof. unfold of_device. by rewrite filter_app, fmap_app. Qed.

Lemma readers_at a l1 r r' l2 i :
  ac_readers a = l1 ++ r :: l2 → i ≠ length l1 → (l1 ++ r' :: l2) !! i = ac_readers a !! i.
Proof. intros -> Hi. by apply lookup_middle_ne. Qed.

(** The task only ends once the threads have returned and the channel is empty. *)
Definition quiet_end (a : Acpi) : Prop :=
  ac_dispatch a = DEnded → ac_queue a = [] ∧ Forall (λ r, r = None) (ac_readers a).

Lemma not_all_gone {A} (l1 : list (option A)) x l2 : ¬ Forall (λ r, r = None) (l1 ++ Some x :: l2).
Proof. intros [_ H]%Forall_app. by apply Forall_cons in H as [? _]. Qed.

Lemma quiet_end_step a a' : acpi_step a a' → quiet_end a → quiet_end a'.
Proof.
  unfold quiet_end. intros Hstep Hq.
  destruct Hstep as [a l1 buf rest l2 Er _|a l1 buf rest l2 e Er _ Hd _|a l1 buf rest l2 e Er _ Hd
    |a l1 rest l2 Er|a dev e q Hd Eq|a Hd Eq Hall|a dev e last w Hd Hev]; cbn; try done; try congruence;
    intros H; destruct (Hq ltac:(done)) as [_ Hn]; rewrite Er in Hn; by apply not_all_gone in Hn.
Qed.

Lemma pressed_step a a' i : quiet_end a → acpi_step a a' → pressed i a' = pressed i a.
Proof.
  intros Hq Hstep.
  destruct Hstep as [a l1 buf rest l2 Er Ec|a l1 buf rest l2 e Er Ec Hd _|a l1 buf rest l2 e Er Ec Hd
    |a l1 rest l2 Er|a dev e q Hd Eq|a Hd Eq Hall|a dev e last w Hd Hev]; unfold pressed; cbn [ac_with ac_handle
      ac_readers ac_queue ac_dispatch ac_handled in_hand].
  1,2,4: destruct (decide (i = length l1)) as [->|Hne];
    [rewrite Er, !list_lookup_middle by done; cbn [from_option]
    |rewrite (readers_at a l1 _ _ l2 i Er) by done].
  - by rewrite to_come_cons, Ec.
  - done.
  - rewrite to_come_cons, Ec, !(assoc_L (++)), of_device_app. cbn [option_list].
    unfold of_device at 2. rewrite filter_cons_True by done. by rewrite <-!app_assoc.
  - rewrite !(assoc_L (++)), of_device_app. unfold of_device at 2.
    rewrite filter_cons_False by done. by rewrite app_nil_r.
  - done.
  - done.
  - destruct (Hq Hd) as [_ Hn]. rewrite Er in Hn. by apply not_all_gone in Hn.
  - by rewrite Hd, Eq.
  - by rewrite Hd, Eq.
  - by rewrite Hd, <-app_assoc.
Qed.

(** The task's own view: it has run [dispatch_events] on what it has handled. *)
Fixpoint dispatch_run (events : list AcpiEvent) (last : Z) : L Z :=
  match events with
  | [] => mret last
  | e :: events => last ← dispatch_event polls e last; dispatch_run events last
  end.

Lemma dispatch_run_snoc events e last w last1 w1 last2 w2 :
  dispatch_run events last w = Ret last1 w1 → dispatch_event polls e last1 w1 = Ret last2 w2 →
  dispatch_run (events ++ [e]) last w = Ret last2 w2.
Proof.
  revert last w. induction events as [|x events IH]; intros last w; cbn [dispatch_run app].
  - intros [= -> ->] He. unfold mbind, St_bind. by rewrite He.
  - unfold mbind, St_bind. destruct (dispatch_event polls x last w); try done. apply IH.
Qed.

Lemma dispatch_run_events events last w last' w' :
  dispatch_run events last w = Ret last' w' → dispatch_events polls events last w = Ret () w'.
Proof.
  revert last w. induction events as [|x events IH]; intros last w; cbn [dispatch_run dispatch_events].
  - by intros [= _ ->].
  - unfold mbind, St_bind. destruct (dispatch_event polls x last w); try done. apply IH.
Qed.

Record acpi_inv (last0 : Z) (w0 : Login) (a : Acpi) : Prop := {
  inv_end : quiet_end a;
  inv_room : (length (ac_queue a) ≤ CHANNEL_SIZE)%nat;
  inv_run : dispatch_run (ac_handled a).*2 last0 w0 = Ret (ac_last a) (ac_login a);
}.

Lemma acpi_inv_step last0 w0 a a' : acpi_step a a' → acpi_inv last0 w0 a → acpi_inv last0 w0 a'.
Proof.
  intros Hstep [H1 H2 H3]. split; [by eapply quiet_end_step| |]; destruct Hstep; cbn in *; try done.
  - rewrite length_app. cbn. lia.
  - rewrite H0 in H2. cbn in H2. lia.
  - lia.
  - rewrite fmap_app. by eapply dispatch_run_snoc.
Qed.

(** ** Every schedule ends *)

Definition dispatch_weight (d : dispatcher) : nat := match d with DRecv => 1 | DHandle _ _ => 2 | DEnded => 0 end.
Definition reader_weight (r : option input) : nat := match r with Some reads => 1 + length reads | None => 0 end.
Definition acpi_weight (a : Acpi) : nat :=
  dispatch_weight (ac_dispatch a) + 2 * length (ac_queue a) + 3 * sum_list_with reader_weight (ac_readers a).

Lemma acpi_step_weight a a' : acpi_step a a' → (acpi_weight a' < acpi_weight a)%nat.
Proof.
  intros Hstep. unfold acpi_weight. destruct Hstep as [a l1 buf rest l2 Er _|a l1 buf rest l2 e Er _ _ _
    |a l1 buf rest l2 e Er _ _|a l1 rest l2 Er|a dev e q Hd Eq|a Hd Eq Hall|a dev e last w Hd Hev];
    cbn [ac_with ac_handle ac_readers ac_queue ac_dispatch]; rewrite ?Er, ?Hd, ?Eq, ?sum_list_with_app; cbn;
    rewrite ?length_app; cbn; lia.
Qed.

Lemma acpi_run_bounded n a a' : nsteps acpi_step n a a' → (n + acpi_weight a' ≤ acpi_weight a)%nat.
Proof. induction 1 as [|n a1 a2 a3 Hstep _ IH]; [lia|]. apply acpi_step_weight in Hstep. lia. Qed.

(** ** No schedule deadlocks *)

(** Every action returns, which the conditions in [Ready] are to ensure. *)
Context (Ready : Login → Prop).
Context (Hready : ∀ e last w, Ready w → ∃ last' w', dispatch_event polls e last w = Ret last' w' ∧ Ready w').

Lemma ready_run events last w last' w' : Ready w → dispatch_run events last w = Ret last' w' → Ready w'.
Proof.
  revert last w. induction events as [|e events IH]; intros last w Hw; cbn [dispatch_run].
  - by intros [= _ <-].
  - destruct (Hready e last w Hw) as (last1 & w1 & He & Hw1). unfold mbind, St_bind. rewrite He. by apply IH.
Qed.

(** Nothing is left to do: the threads wait for input or have returned. *)
Definition at_rest (a : Acpi) : Prop :=
  ac_queue a = [] ∧ in_hand (ac_dispatch a) = [] ∧ Forall (λ r, to_come r = []) (ac_readers a).

Lemma stuck_at_rest last0 w0 a :
  acpi_inv last0 w0 a → Ready w0 → (∀ a', ¬ acpi_step a a') → at_rest a.
Proof.
  intros [Hend _ Hrun] Hw Hstuck. pose proof (ready_run _ _ _ _ _ Hw Hrun) as Hr.
  assert (ac_dispatch a = DEnded ∨ ac_dispatch a = DRecv) as Hd.
  { destruct (ac_dispatch a) as [|dev e|] eqn:Ed; [by right|exfalso|by left].
    destruct (Hready e (ac_last a) _ Hr) as (last & w & He & _). by eapply Hstuck, handled. }
  destruct Hd as [Hd|Hd].
  { destruct (Hend Hd) as [Hq Hn]. unfold at_rest. rewrite Hd. split_and!; [done..|].
    eapply Forall_impl; [exact Hn|]. by intros r ->. }
  assert (ac_queue a = []) as Hq.
  { destruct (ac_queue a) as [|[dev e] q] eqn:Eq; [done|]. exfalso. by eapply Hstuck, receive. }
  unfold at_rest. rewrite Hd. split_and!; [done..|]. apply Forall_forall.
  intros r (l1 & l2 & Er)%list_elem_of_split. destruct r as [[|[buf|] rest]|]; [done| |done..]. exfalso.
  destruct (classify (input_event buf)) as [e|] eqn:Ec; [|by eapply Hstuck, read_other].
  eapply Hstuck, read_key; [done|done|congruence|]. rewrite Hq. unfold CHANNEL_SIZE. cbn. lia.
Qed.

(** The keys device [i] sends before its thread returns. *)
Definition keys_of (opens : string → bool) (reads : string → input) (w : Login) (i : nat) : list AcpiEvent :=
  match scan_devices (l_os w) !! i with
  | Some dev => if opens dev then read_loop (reads dev) (length (reads dev)) else []
  | None => []
  end.

Lemma pressed_spawn opens reads w i : pressed i (acpi_spawn opens reads w) = keys_of opens reads w i.
Proof.
  unfold pressed, acpi_spawn, keys_of. destruct (lo_instant (l_os w)) as [now o]. cbn.
  rewrite list_lookup_fmap. destruct (scan_devices _ !! i) as [dev|]; [|done]. cbn. by destruct (opens dev).
Qed.

Lemma acpi_reach opens reads w a :
  let a0 := acpi_spawn opens reads w in
  rtc acpi_step a0 a →
  acpi_inv (ac_last a0) (ac_login a0) a ∧ ∀ i, pressed i a = keys_of opens reads w i.
Proof.
  intros a0. revert a. apply rtc_ind_r.
  - split; [|by intros i; apply pressed_spawn]. unfold a0, acpi_spawn.
    destruct (lo_instant (l_os w)) as [now o]. split; [done|cbn; lia|done].
  - intros a1 a2 _ Hs [Hi Hp]. split; [by eapply acpi_inv_step|]. intros i.
    rewrite (pressed_step a1 a2 i (inv_end _ _ _ Hi) Hs). apply Hp.
Qed.

(** Every schedule of the device threads and the dispatching task is finite, keeps at most
    sixteen events in the channel and the events of a device in their order, and ends with
    every key handled once by [dispatch_loop]. *)
Theorem every_key_handled opens reads w :
  let a0 := acpi_spawn opens reads w in
  Ready (ac_login a0) →
  (∀ n a, nsteps acpi_step n a0 a → (n ≤ acpi_weight a0)%nat) ∧
  ∀ a, rtc acpi_step a0 a →
    (length (ac_queue a) ≤ CHANNEL_SIZE)%nat ∧
    (∀ i, of_device i (ac_handled a) `prefix_of` keys_of opens reads w i) ∧
    dispatch_loop polls (ac_handled a).*2 w = Ret () (ac_login a) ∧
    ((∀ a', ¬ acpi_step a a') → at_rest a ∧ ∀ i, of_device i (ac_handled a) = keys_of opens reads w i).
Proof.
  intros a0 Hw. split.
  { intros n a Hn. apply acpi_run_bounded in Hn. lia. }
  intros a Hrun. destruct (acpi_reach _ _ _ _ Hrun) as [Hi Hp]. pose proof Hi as [_ Hroom Hr].
  split_and!; [done| | |].
  - intros i. rewrite <-Hp. unfold pressed. rewrite of_device_app, <-app_assoc. by apply prefix_app_r.
  - apply dispatch_run_events in Hr. unfold dispatch_loop, call, mbind, St_bind. revert Hr. unfold a0, acpi_spawn.
    by destruct (lo_instant (l_os w)) as [now o].
  - intros Hstuck. pose proof (stuck_at_rest _ _ _ Hi Hw Hstuck) as Hrest. split; [done|].
    destruct Hrest as (Hq & Hh & Hrs). intros i. rewrite <-Hp. unfold pressed. rewrite Hq, Hh, !app_nil_r.
    destruct (ac_readers a !! i) as [r|] eqn:Er; cbn; [|by rewrite app_nil_r].
    apply (proj1 (Forall_lookup _ _) Hrs) in Er. by rewrite Er, app_nil_r.
Qed.
End acpi.

(** ** A power button that is pressed and released *)

#[local] Open Scope string_scope.
#[local] Open Scope list_scope.

Definition ignoring : LogindConfig := {|
  handle_power_key := Ignore; handle_suspend_key := Ignore; handle_hibernate_key := Ignore;
  handle_lid_switch := Ignore; handle_lid_switch_external_power := Ignore;
  handle_lid_switch_docked := Ignore; n_auto_vts := 6; kill_user_processes := false;
  inhibit_delay_max := 5; user_stop_delay := 10; holdoff_timeout := 30; runtime_directory_size := "10%";
  idle_action := Ignore; idle_action_sec := 1800 |}.

Definition ex_key (code value : Z) : option (list Z) :=
  Some (replicate 16 0 ++ [1; 0; code; 0; value; 0; 0; 0]).
Definition ex_buttons : demo := {| dm_clock := 0; dm_next := 10;
  dm_files := {["/sys/class/input/event0/device/capabilities/key" := "10000000000000 0"]};
  dm_dirs := {["/sys/class/input" := ["event0"; "mice"]]}; dm_hup := ∅ |}.
Definition ex_login : @Login demo_os := @Build_Login demo_os
  (create_seat0 (with_config ignoring)) 1 1 ex_buttons [].
Definition ex_reads (_ : string) : input := [ex_key 116 1; ex_key 116 0; ex_key 142 1].

Lemma every_key_handled_witness `{R : Rmp} :
  let a0 := acpi_spawn (λ _, true) ex_reads ex_login in
  keys_of (λ _, true) ex_reads ex_login 0 = [PowerButton; SleepButton] ∧
  ∀ a, rtc (acpi_step 0) a0 a → (∀ a', ¬ acpi_step 0 a a') →
    of_device 0 (ac_handled a) = [PowerButton; SleepButton].
Proof.
  intros a0. split; [vm_compute; reflexivity|]. intros a Hrun Hstuck.
  destruct (every_key_handled 0 (λ w : @Login demo_os, ls_config (l_state w) = ignoring)) with
    (opens := λ _ : string, true) (reads := ex_reads) (w := ex_login) as [_ H].
  - intros e last w Hw. unfold dispatch_event, get_state, gets, query, call, mbind, St_bind, mret, St_ret.
    cbn. rewrite Hw. destruct e; cbn; [by eexists _, _..| |by eexists _, _].
    case_match; [by eexists _, _|]. destruct (on_external_power (l_os w)); by eexists _, _.
  - reflexivity.
  - destruct (H a Hrun) as (_ & _ & _ & Hend). apply Hend, Hstuck.
Defined.
