(* ===== verification/LoginDaemon.v ===== *)
(** * The login manager as a concurrent program

    Every D-Bus call and every background task of the login manager runs as a task of its
    own; they share the state behind one mutex, and a task that waits leaves the others
    running.  [LoginRely] is what a task relies on: what the others do while it sleeps is a
    sequence of the sections of LoginFacts.v.  The theorem is the guarantee and its
    consequence: every task, the power actions included, returns and is itself such a
    sequence, so that under every interleaving of the sections the tables are consistent.

    The signals around sleep and shutdown are emitted by tasks of their own
    ([prepare_for_sleep_emitter] spawns one per signal), so their order on the bus is not
    the order of the calls: [emit_step]. *)

From stdpp Require Import relations.
From S2P Require Import Prelude RustStr Protocol Monad LoginConfig LoginState LoginSys.
From S2P Require Import LoginPower LoginPaths LoginManager LoginObjects LoginFacts.

#[local] Open Scope string_scope.
#[local] Open Scope Z_scope.

Class LoginRely (K : LoginOS) := {
  tasks_rely : ∀ o st n c st' n' c',
    lo_tasks o (st, n, c) = (st', n', c') → rtc section_step (n, st) (n', st');
}.

Inductive login_task :=
| TaskCall (c : login_call)
| TaskSleep (kind : SleepKind)
| TaskShutdown (kind : PowerShutdownKind)
| TaskButton (action : HandleAction).

Section daemon.
Context {K : LoginOS} {R : Rmp} {ZP : ZPath} {HO : HashOrder} {UO : UidOrder}.
Context {LC : @LoginClock K} {RELY : LoginRely K}.

Definition run_task (polls : nat) (t : login_task) : L unit :=
  match t with
  | TaskCall c => handle_call c
  | TaskSleep kind => ignore (run_sleep polls kind)
  | TaskShutdown kind => ignore (run_shutdown polls kind)
  | TaskButton action => run_action polls action
  end.

(** ** The guarantee *)

(** What a task that returned did to the tables. *)
Definition guar {A} (m : L A) : Prop :=
  ∀ w a w', m w = Ret a w' → rtc section_step (tables_of w) (tables_of w').

Lemma guar_keeps {A} (m : L A) : keeps m → guar m.
Proof. intros Hm w a w' Hr. exact (wpx_Ret _ _ _ _ _ _ (Hm w) Hr). Qed.

Lemma guar_bind {A B} (m : L A) (k : A → L B) : guar m → (∀ a, guar (k a)) → guar (m ≫= k).
Proof.
  intros Hm Hk w b w'' Hr. unfold mbind, St_bind in Hr. destruct (m w) as [a w'| | |] eqn:E; try done.
  exact (transitivity (Hm _ _ _ E) (Hk _ _ _ _ Hr)).
Qed.

Lemma guar_sleep_ms ms : guar (sleep_ms ms).
Proof.
  intros w a w' Hr. unfold sleep_ms in Hr. destruct (lo_tasks _ _) as [[st s] c] eqn:E.
  injection Hr as _ <-. exact (tasks_rely _ _ _ _ _ _ _ E).
Qed.

Lemma guar_delay_loop polls what deadline : guar (delay_loop polls what deadline).
Proof.
  induction polls as [|polls IH]; [done|]. cbn [delay_loop].
  apply guar_bind; [apply guar_keeps, keeps_gc|]. intros _.
  apply guar_bind; [by apply guar_keeps, keeps_steady|]. intros st.
  destruct (negb _); [by apply guar_keeps, keeps_steady|].
  apply guar_bind; [apply guar_keeps, keeps_steady, steady_call|]. intros now.
  destruct (_ <=? _); [by apply guar_keeps, keeps_steady|].
  apply guar_bind; [apply guar_sleep_ms|]. intros _. exact IH.
Qed.

Lemma guar_wait polls what max : guar (wait_for_delay_inhibitors polls what max).
Proof.
  unfold wait_for_delay_inhibitors. apply guar_bind; [apply guar_keeps, keeps_steady, steady_call|].
  intros now. apply guar_bind; [|intros deadline; apply guar_delay_loop].
  destruct (instant_add now max); [by apply guar_keeps, keeps_steady|done].
Qed.

Lemma guar_try_perform e : guar (try_perform e).
Proof.
  apply guar_keeps, keeps_steady. unfold try_perform. apply steady_bind; [apply steady_perform|].
  intros. apply steady_ret.
Qed.

Lemma guar_execute_sleep polls kind : guar (execute_sleep polls kind).
Proof.
  unfold execute_sleep. apply guar_bind; [by apply guar_keeps, keeps_steady|]. intros st.
  apply guar_bind; [apply guar_try_perform|]. intros _. apply guar_bind; [apply guar_wait|]. intros _.
  apply guar_bind; [apply guar_keeps, keeps_steady, steady_perform|]. intros r.
  apply guar_bind; [apply guar_try_perform|]. intros _. by apply guar_keeps, keeps_steady.
Qed.

Lemma guar_execute_shutdown polls kind : guar (execute_shutdown_action polls kind).
Proof.
  unfold execute_shutdown_action. apply guar_bind; [by apply guar_keeps, keeps_steady|]. intros st.
  apply guar_bind; [apply guar_try_perform|]. intros _. apply guar_bind; [apply guar_wait|]. intros _.
  apply guar_keeps, keeps_steady. unfold request_shutdown, send_command, try_bind.
  repeat first [apply steady_bind; [|intros ?] | apply steady_perform | apply steady_call | apply steady_ret
    | progress case_match].
Qed.

Lemma guar_run_action polls action : guar (run_action polls action).
Proof.
  unfold run_action. apply guar_bind.
  - case_bool_decide; [by apply guar_keeps, keeps_steady|]. unfold has_block_inhibitor.
    apply guar_keeps, keeps_bind; [apply keeps_gc|]. intros _. by apply keeps_steady.
  - intros [|]; [by apply guar_keeps, keeps_steady|].
    destruct action; cbn [start_action]; unfold ignore; try (by apply guar_keeps, keeps_steady);
      apply guar_bind; try apply guar_execute_sleep; try apply guar_execute_shutdown; intros ?;
      by apply guar_keeps, keeps_steady.
Qed.

Lemma guar_task polls t : guar (run_task polls t).
Proof.
  destruct t as [c|kind|kind|action]; cbn [run_task].
  - apply guar_keeps, keeps_call.
  - unfold ignore, run_sleep. apply guar_bind; [|intros; by apply guar_keeps, keeps_steady].
    apply guar_bind; [apply guar_execute_sleep|intros; by apply guar_keeps, keeps_steady].
  - unfold ignore, run_shutdown. apply guar_bind; [|intros; by apply guar_keeps, keeps_steady].
    apply guar_bind; [apply guar_execute_shutdown|intros; by apply guar_keeps, keeps_steady].
  - apply guar_run_action.
Qed.

(** ** Every task returns *)

(** A power action has to be able to wait: its deadline is a time, and there are polls
    enough for it. *)
Definition able (polls : nat) (t : login_task) (w : Login) : Prop :=
  match t with TaskCall _ => True | _ => can_act polls w end.

Lemma wpx_ignore {A} (m : L A) P w : wpx False m P w → wpx False (ignore m) (λ _ _, True) w.
Proof. intros Hm. unfold ignore. apply wpx_bind. eapply wpx_mono; [exact Hm|]. done. Qed.

Lemma task_returns polls t w : able polls t w → wpx False (run_task polls t) (λ _ _, True) w.
Proof.
  destruct t as [c|kind|kind|action]; cbn [able run_task].
  - intros _. eapply wpx_mono; [apply keeps_call|]. done.
  - intros [Hw _]. eapply (wpx_ignore _ (λ _ _, True)). unfold run_sleep. apply wpx_bind.
    eapply wpx_mono; [by apply execute_sleep_spec|]. done.
  - intros [_ Hw]. eapply (wpx_ignore _ (λ _ _, True)). unfold run_shutdown. apply wpx_bind.
    eapply wpx_mono; [by apply shutdown_action_spec|]. done.
  - intros Hw. eapply wpx_mono; [by apply run_action_spec|]. done.
Qed.

(** C7: Every task of the login manager (each D-Bus call, sleep, shutdown, button,
    background task), with the other tasks changing the tables while it waits, returns,
    provided the configured inhibitor delay does not overflow the clock, and all it did to
    the tables is a sequence of sections under the lock; after any interleaving of fewer
    than 2^64-1 such sections seats list exactly their sessions and have one foreground
    session, users list exactly theirs, ids are fresh, and a session without a controller
    holds no device. *)
Theorem login_daemon_consistent polls :
  (∀ t w, able polls t w →
     ∃ w', run_task polls t w = Ret () w' ∧ rtc section_step (tables_of w) (tables_of w')) ∧
  (∀ config n x, nsteps section_step n (1, create_seat0 (with_config config)) x →
     Z.of_nat n < U64_MAX →
     login_inv x.1 x.2 ∧
     ∀ id s, ls_sessions x.2 !! id = Some s → ss_controller s = None → ss_devices s = ∅).
Proof.
  split.
  - intros t w Ht. destruct (wpx_returns _ _ _ (task_returns polls t w Ht)) as ([] & w' & Hr & _).
    exists w'. split; [exact Hr|]. exact (guar_task polls t w () w' Hr).
  - intros config n x Hn Hlt. destruct (sections_ok _ _ _ Hn) as [[Hi Hd] _].
    + split; [split; [apply login_inv_start|done]|cbn; lia].
    + cbn. lia.
    + split; [exact Hi|]. intros id s Hs. apply (Hd id (control s)). by rewrite lookup_fmap, Hs.
Qed.
End daemon.

(** ** The signals *)

#[local] Open Scope list_scope.

(** Each signal is emitted by a task spawned for it: the effects the caller still has to
    perform, the signals whose task has not run yet, and what has happened. *)
Record emission := { em_todo : list effect; em_tasks : list (string * bool); em_trace : list effect }.

(** The closures of manager.rs and main.rs: they spawn a task and return at once. *)
Definition prepare_emitter (signal : string) (active : bool) (e : emission) : emission :=
  {| em_todo := em_todo e; em_tasks := em_tasks e ++ [(signal, active)]; em_trace := em_trace e |}.

Definition manager_prepare_for_sleep_emitter := prepare_emitter "PrepareForSleep".
Definition manager_prepare_for_shutdown_emitter := prepare_emitter "PrepareForShutdown".
Definition main_prepare_for_sleep_emitter := prepare_emitter "PrepareForSleep".
Definition main_prepare_for_shutdown_emitter := prepare_emitter "PrepareForShutdown".

Definition advance (todo : list effect) (e : emission) : emission :=
  {| em_todo := todo; em_tasks := em_tasks e; em_trace := em_trace e |}.

Inductive emit_step : emission → emission → Prop :=
| emit_spawn e s b rest :
    em_todo e = FxEmit s b :: rest → emit_step e (advance rest (prepare_emitter s b e))
| emit_effect e fx rest :
    em_todo e = fx :: rest → (∀ s b, fx ≠ FxEmit s b) →
    emit_step e {| em_todo := rest; em_tasks := em_tasks e; em_trace := em_trace e ++ [fx] |}
| emit_task e l1 s b l2 :
    em_tasks e = l1 ++ (s, b) :: l2 →
    emit_step e {| em_todo := em_todo e; em_tasks := l1 ++ l2; em_trace := em_trace e ++ [FxEmit s b] |}.

Definition caller (l : list effect) : emission := {| em_todo := l; em_tasks := []; em_trace := [] |}.

Definition all_of (e : emission) : list effect :=
  em_trace e ++ map (λ '(s, b), FxEmit s b) (em_tasks e) ++ em_todo e.

Lemma emit_step_perm e e' : emit_step e e' → all_of e' ≡ₚ all_of e.
Proof.
  intros [e0 s b rest Ht|e0 fx rest Ht _|e0 l1 s b l2 Ht]; unfold all_of; cbn; rewrite Ht.
  - rewrite map_app. cbn. rewrite <-!app_assoc. done.
  - rewrite <-!app_assoc. cbn. by rewrite Permutation_middle.
  - rewrite !map_app. cbn. rewrite <-!app_assoc. cbn. f_equiv. rewrite <-Permutation_middle. done.
Qed.

(** Every signal is emitted once, and every other effect happens once, in some order. *)
Lemma signals_once l e :
  rtc emit_step (caller l) e → em_todo e = [] → em_tasks e = [] → em_trace e ≡ₚ l.
Proof.
  intros Hrun Ht Hk. assert (all_of e ≡ₚ l) as Hp.
  { revert e Hrun Ht Hk. assert (∀ e, rtc emit_step (caller l) e → all_of e ≡ₚ l) as H; [|auto].
    apply rtc_ind_r; [done|]. intros y z _ Hs IH. by rewrite (emit_step_perm _ _ Hs). }
  unfold all_of in Hp. rewrite Ht, Hk in Hp. by rewrite !app_nil_r in Hp.
Qed.

(** The announcement that the system goes to sleep can be the last thing on the bus: after
    the sleep itself, and after the announcement that it is over. *)
Example announced_too_late kind :
  let write := FxWrite "/sys/power/state" (sysfs_state kind) in
  ∃ e, rtc emit_step (caller [FxEmit "PrepareForSleep" true; write; FxEmit "PrepareForSleep" false]) e ∧
    em_todo e = [] ∧ em_tasks e = [] ∧
    em_trace e = [write; FxEmit "PrepareForSleep" false; FxEmit "PrepareForSleep" true].
Proof.
  intros write. eexists. split; [|split; [|split]].
  - eapply rtc_l; [by eapply emit_spawn|]. eapply rtc_l; [by eapply emit_effect|].
    eapply rtc_l; [by eapply emit_spawn|].
    eapply rtc_l; [by eapply (emit_task _ [("PrepareForSleep", true)])|].
    eapply rtc_l; [by eapply (emit_task _ [])|]. apply rtc_refl.
  - done.
  - done.
  - done.
Qed.

(** ** A machine on which somebody logs in during the wait *)

Definition late_login : LoginState * Z * Z → LoginState * Z * Z := λ '(st, n, c),
  let '(_, n', st') := create_session n 0 0 (ex_request 1001 60 2 "bob") st in (st', n', c).
Definition busy_os : LoginOS := demo_with late_login [].

#[local] Instance busy_clock : @LoginClock busy_os := demo_with_clock late_login [].
#[local] Instance busy_rely : LoginRely busy_os.
Proof.
  split. intros o st n c st' n' c' E. apply rtc_once.
  change (late_login (st, n, c) = (st', n', c')) in E.
  pose proof (sec_create n 0 0 (ex_request 1001 60 2 "bob") st) as Hs. revert E Hs.
  unfold late_login. destruct (create_session n 0 0 _ st) as [[id m] st1].
  intros [= <- <- <-] Hs. exact Hs.
Defined.

Definition busy_login : @Login busy_os :=
  @Build_Login busy_os (ls_with_inhibitors [ex_inhibitor "sleep" "delay"] ex_two) 3 1 demo_start [].

Lemma login_daemon_consistent_witness :
  ∃ w', run_task (K := busy_os) (R := fixmap_rmp) (ZP := spec_zpath) 51 (TaskSleep SleepSuspend) busy_login
          = Ret () w' ∧
    rtc section_step (tables_of busy_login) (tables_of w').
Proof.
  destruct (login_daemon_consistent (K := busy_os) (R := fixmap_rmp) (ZP := spec_zpath)
    (LC := busy_clock) (RELY := busy_rely) 51) as [Htask _].
  apply Htask. split; (split; [vm_compute; done|]; split; vm_compute; done).
Defined.
