(* ===== verification/PowerOff.v ===== *)
(** * From the power button to init

    The path of a shutdown through the system: the login manager announces it, waits for the
    delay inhibitors and sends a request (LoginPower.v); the service manager reads it from
    its control socket, acknowledges it (Control.v), stops every service in the stop order
    (Shutdown.v) and passes the request on to init (Svmgr.v).  The theorem puts the four
    together. *)

From S2P Require Import Prelude RustStr Config Graph Protocol InitChannel World Cgroup Intensity Tree.
From S2P Require Import Monad Manager ManagerFacts StopOrder Shutdown Control Svmgr.
From S2P Require Import LoginConfig LoginState LoginSys LoginPower.

#[local] Open Scope string_scope.
#[local] Open Scope Z_scope.

Section poweroff.
Context {K : LoginOS} {R : Rmp} {LC : @LoginClock K} {RT : RmpRoundTrip R}.
Context {O : OS} {OL : FiniteExits O} {HO : HashOrder}.
Context (load_defs : os → result (list ServiceDef) ServiceLoadError).

(** What the manager tells init, if it has a channel to it. *)
Definition told (write_ok : bool) (kind : ShutdownKind) (s : Svm) : list (result (list Z) SendError) :=
  match sv_chan s with
  | Some ch => [(send_message write_ok (RequestShutdown kind) ch).1]
  | None => []
  end.

(** The shutdown action: every service of the graph is stopped, init is told, the process
    ends; it panics only when a stop timeout overflows the clock. *)
Definition shut_down (g : DependencyGraph) (write_ok : bool) (kind : ShutdownKind) (s : Svm)
    (r : out Svm unit) : Prop :=
  match r with
  | ProcExit code s' => code = 0 ∧
      shut g (sv_mgr s) (sv_mgr s') ∧
      sv_sent s' = (sv_sent s ++ told write_ok kind s)%list
  | Panic => timeout_overflows (mg_tree (sv_mgr s))
  | _ => False
  end.

Lemma dispatch_shutdown hierarchy g fuel write_ok kind s :
  wf_graph g → mgr_ok (sv_mgr s) → (events (mg_os (sv_mgr s)) < fuel)%nat →
  shut_down g write_ok kind s
    (dispatch_control_actions hierarchy load_defs fuel write_ok g [Control.Shutdown kind] s).
Proof.
  intros Hg Hok Hf. pose proof (execute_shutdown_spec hierarchy (timeout_overflows (mg_tree (sv_mgr s))) g fuel
    (sv_mgr s) (λ _ s', shut g (sv_mgr s) s') Hg Hok Hf) as Hs.
  specialize (Hs ltac:(done) ltac:(done)). unfold wp in Hs.
  unfold dispatch_control_actions. cbn [for_each]. unfold dispatch_action, mbind, St_bind, mgr, zoom.
  destruct (execute_shutdown hierarchy fuel g (sv_mgr s)) as [[] m| | |]; try done.
  unfold send, told, mbind, St_bind, gets, shut_down. cbn [with_mgr sv_chan].
  destruct (sv_chan s) as [ch|] eqn:Ec.
  - destruct (send_message write_ok (RequestShutdown kind) ch) as [r ch'] eqn:Em. cbn.
    split; [done|]. split; [exact Hs|]. unfold told. by rewrite Ec, Em.
  - cbn. split; [done|]. split; [exact Hs|]. unfold told. by rewrite Ec, app_nil_r.
Qed.

End poweroff.

(** ** Halting a machine with two services *)

Definition halt_request : Message := command_message (MShutdown Protocol.Halt).
Definition halt_rmp : Rmp := pair_rmp halt_request (response_to halt_request Ack).
Definition ack_bytes : list Z :=
  match encode (H := halt_rmp) (response_to halt_request Ack) with Ok b => b | Err _ => [] end.
Definition halt_os : LoginOS := demo_with (λ sh, sh) ack_bytes.
Definition halt_login : @Login halt_os := @Build_Login halt_os ex_two 3 1 demo_start [].
Definition halt_svm : @Svm scripted := {| sv_mgr := two_running; sv_chan := Some (from_fd 7); sv_sent := [] |}.
Definition halt_run : out (@Login halt_os) (result unit SvmgrError) :=
  execute_shutdown_action (K := halt_os) (R := halt_rmp) 51 PowerHalt halt_login.
Definition acknowledged {S} (r : out S (result unit SvmgrError)) : bool :=
  match r with Ret (Ok _) _ => true | _ => false end.

