(* ===== verification/Sd1Bridge.v ===== *)
(** * The systemd1 bridge (dynamod-sd1bridge)

    [org.freedesktop.systemd1] on top of the control socket: mapping.rs (names, states
    and paths), main.rs (the client of the service manager), manager.rs and unit.rs (the
    D-Bus interfaces).  Every method sends at most one command; what the socket does
    during it is the argument [bridge_conn].  D-Bus itself is the library zbus: a method
    is a function from its arguments to its reply, and the object server a map from
    paths to units. *)

From S2P Require Import Prelude RustStr Config Protocol Intensity Tree Control LoginPaths.

#[local] Open Scope string_scope.

(** ** mapping.rs *)

Definition unit_to_service (unit_name : string) : string :=
  default unit_name (strip_suffix ".service" unit_name).

Definition ends_with (suf s : string) : bool := bool_decide (is_Some (strip_suffix suf s)).

Definition service_to_unit (service_name : string) : string :=
  if ends_with ".service" service_name then service_name else service_name ++ ".service".

Definition map_status (dynamod_status : string) : string * string :=
  let is_ s := bool_decide (dynamod_status = s) in
  if is_ "running" then ("active", "running")
  else if is_ "stopped" then ("inactive", "dead")
  else if is_ "starting" then ("activating", "start")
  else if is_ "waiting-ready" then ("activating", "start")
  else if is_ "stopping" then ("deactivating", "stop")
  else if is_ "failed" then ("failed", "failed")
  else if is_ "abandoned" then ("failed", "abandoned")
  else ("inactive", "dead").

Definition load_state (_ : string) : string := "loaded".

(** The bytes kept, and the others as [_] and two hexadecimal digits. *)
Definition escape_unit_path (unit_name : string) : string :=
  let out := escape_light unit_name in
  if bool_decide (out = "") then "_" else out.

Definition unit_object_path (unit_name : string) : string :=
  "/org/freedesktop/systemd1/unit/" ++ escape_unit_path unit_name.

(** ** main.rs: the client *)

Record SvmgrClient := { next_id : Z }.
Definition client_new : SvmgrClient := {| next_id := 1 |}.

Definition take_id (c : SvmgrClient) : Z * SvmgrClient :=
  (next_id c, {| next_id := wrap_u64 (next_id c + 1) |}).

(** What a connection to the control socket does. *)
Record bridge_conn := {
  bc_connect : result unit string;
  bc_read_timeout : result unit string;
  bc_write_timeout : result unit string;
  bc_write : result unit string;
  bc_read : result (list Z) string;     (** the single read: no bytes at the end of the stream *)
  bc_join : result unit string;         (** the blocking task is joined *)
}.

Record service_info := {
  si_name : string; si_status : string; si_pid : option Z; si_supervisor : string;
}.

Section bridge.
Context `{R : Rmp, ZP : ZPath}.

Definition tagged {A} (tag : string) (r : result A string) : result A string :=
  match r with Ok a => Ok a | Err e => Err (tag ++ e) end.

(** The blocking exchange: one write, one read of at most 65536 bytes. *)
Definition exchange (c : bridge_conn) (msg : Message) : result MessageBody string :=
  _ <-? tagged "connect: " (bc_connect c);
  _ <-? tagged "timeout: " (bc_read_timeout c);
  _ <-? tagged "timeout: " (bc_write_timeout c);
  data <-? match encode msg with Ok d => Ok d | Err e => Err ("encode: " ++ encode_error_text e) end;
  _ <-? tagged "write: " (bc_write c);
  buf <-? tagged "read: " (bc_read c);
  let buf := take (Z.to_nat 65536) buf in
  if bool_decide (buf = []) then Err "empty response"
  else match decode buf with
       | Ok (resp, _) => Ok (m_body resp)
       | Err e => Err ("decode: " ++ decode_error_text e)
       end.

Definition bridge_request (id : Z) (body : MessageBody) : Message :=
  {| m_id := id; m_kind := Request; m_body := body |}.

Definition send_command (c : bridge_conn) (body : MessageBody) (cl : SvmgrClient)
    : result MessageBody string * SvmgrClient :=
  let '(id, cl) := take_id cl in
  (match bc_join c with
   | Err e => Err ("spawn: " ++ e)
   | Ok _ => exchange c (bridge_request id body)
   end, cl).

(** The branches every command ends with. *)
Definition bad_response {A} (body : MessageBody) : result A string :=
  match body with Error message => Err message | _ => Err "unexpected response" end.

Definition command {A} (body : MessageBody) (expect : MessageBody → option A)
    (c : bridge_conn) (cl : SvmgrClient) : result A string * SvmgrClient :=
  let '(r, cl) := send_command c body cl in
  (match r with
   | Err e => Err e
   | Ok body => match expect body with Some a => Ok a | None => bad_response body end
   end, cl).

Definition is_ack (body : MessageBody) : option unit := match body with Ack => Some () | _ => None end.

Definition start_service (name : string) := command (MStartService name) is_ack.
Definition stop_service (name : string) := command (MStopService name) is_ack.
Definition restart_service (name : string) := command (MRestartService name) is_ack.
Definition service_status (name : string) :=
  command (MServiceStatus name) (λ body,
    match body with
    | ServiceInfo name status pid supervisor =>
        Some {| si_name := name; si_status := status; si_pid := pid; si_supervisor := supervisor |}
    | _ => None
    end).
Definition list_services :=
  command ListServices (λ body, match body with ServiceList services => Some services | _ => None end).
Definition service_by_pid (pid : Z) :=
  command (GetServiceByPid pid) (λ body, match body with ServiceByPid name _ => Some name | _ => None end).
Definition reload := command MReload is_ack.
Definition shutdown (kind : ShutdownKind) := command (MShutdown kind) is_ack.

(** ** manager.rs and unit.rs *)

Record SystemdManager := {
  sm_client : SvmgrClient;
  sm_server : bool;                    (** the object server has been handed over *)
  sm_objects : gmap string string;     (** the units registered, by path *)
}.
Definition set_client (cl : SvmgrClient) (m : SystemdManager) : SystemdManager :=
  {| sm_client := cl; sm_server := sm_server m; sm_objects := sm_objects m |}.

(** Run a command of the client. *)
Definition with_client {A} (f : SvmgrClient → result A string * SvmgrClient) (m : SystemdManager)
    : result A string * SystemdManager :=
  let '(r, cl) := f (sm_client m) in (r, set_client cl m).

(** A command, then the path of a unit. *)
Definition unit_command (cmd : string → bridge_conn → SvmgrClient → result unit string * SvmgrClient)
    (name : string) (c : bridge_conn) (m : SystemdManager) : result string string * SystemdManager :=
  let '(r, m) := with_client (cmd (unit_to_service name) c) m in
  (_ <-? r; object_path_try_from (unit_object_path name), m).

Definition start_unit := unit_command start_service.
Definition stop_unit := unit_command stop_service.
Definition restart_unit := unit_command restart_service.

(** [ObjectServer::at] keeps what is registered already. *)
Definition register_unit (path unit_name : string) (m : SystemdManager) : SystemdManager :=
  if sm_server m then
    {| sm_client := sm_client m; sm_server := true;
       sm_objects := match sm_objects m !! path with
                     | Some _ => sm_objects m
                     | None => <[path := unit_name]> (sm_objects m)
                     end |}
  else m.

Definition get_unit (name : string) (c : bridge_conn) (m : SystemdManager)
    : result string string * SystemdManager :=
  let service := unit_to_service name in
  match with_client (service_status service c) m with
  | (Err e, m) => (Err e, m)
  | (Ok _, m) =>
      let unit_name := service_to_unit service in
      let path := unit_object_path unit_name in
      (object_path_try_from path, register_unit path unit_name m)
  end.

Definition get_unit_by_pid (pid : Z) (c : bridge_conn) (m : SystemdManager)
    : result string string * SystemdManager :=
  let '(r, m) := with_client (service_by_pid (as_i32 pid) c) m in
  (match r with
   | Err e => Err e
   | Ok (Some n) => object_path_try_from (unit_object_path (service_to_unit n))
   | Ok None => Err ("no unit for PID " ++ to_string pid)
   end, m).

Record unit_entry := {
  ue_name : string; ue_description : string; ue_load_state : string; ue_active_state : string;
  ue_sub_state : string; ue_following : string; ue_path : string; ue_job_id : Z;
  ue_job_type : string; ue_job_path : string;
}.

Definition list_unit (job_path : string) (svc : ServiceEntry) : result unit_entry string :=
  let unit_name := service_to_unit (se_name svc) in
  let '(active, sub) := map_status (se_status svc) in
  path <-? object_path_try_from (unit_object_path unit_name);
  Ok {| ue_name := unit_name; ue_description := "dynamod service: " ++ se_name svc;
        ue_load_state := "loaded"; ue_active_state := active; ue_sub_state := sub;
        ue_following := ""; ue_path := path; ue_job_id := 0; ue_job_type := ""; ue_job_path := job_path |}.

Fixpoint list_unit_entries (job_path : string) (services : list ServiceEntry)
    : result (list unit_entry) string :=
  match services with
  | [] => Ok []
  | svc :: services =>
      e <-? list_unit job_path svc; es <-? list_unit_entries job_path services; Ok (e :: es)
  end.

Definition list_units (c : bridge_conn) (m : SystemdManager)
    : result (list unit_entry) string * SystemdManager :=
  let '(r, m) := with_client (list_services c) m in
  (services <-? r; job_path <-? object_path_try_from "/"; list_unit_entries job_path services, m).

Definition manager_reload (c : bridge_conn) := with_client (reload c).
Definition power_off (c : bridge_conn) := with_client (shutdown Poweroff c).
Definition reboot (c : bridge_conn) := with_client (shutdown Reboot c).
Definition halt (c : bridge_conn) := with_client (shutdown Halt c).

(** [len() as u32] *)
Definition as_u32 (n : nat) : Z := wrap_u32 (Z.of_nat n).

Definition n_names (c : bridge_conn) (m : SystemdManager) : result Z string * SystemdManager :=
  let '(r, m) := with_client (list_services c) m in
  (services <-? r; Ok (as_u32 (length services)), m).

Definition n_failed_units (c : bridge_conn) (m : SystemdManager) : result Z string * SystemdManager :=
  let '(r, m) := with_client (list_services c) m in
  (services <-? r; Ok (as_u32 (length (filter (λ s, se_status s = "failed") services))), m).

Definition version : string := "dynamod 0.1.0".
Definition features : string := "+systemd-mimic".
Definition control_group : string := "/sys/fs/cgroup/dynamod".
Definition system_state : string := "running".
Definition default_target : string := "multi-user.target".

(** [std::env::consts::ARCH] is fixed when the program is built. *)
Definition architecture (ARCH : string) : string := ARCH.

(** [to_lowercase], as far as ASCII words are concerned: the only other character whose
    lower case is an ASCII letter is the Kelvin sign (the dotted capital I becomes an i
    followed by a combining dot, which is in none of the words). *)
Definition ascii_lower (c : Ascii.ascii) : Ascii.ascii :=
  let n := Ascii.nat_of_ascii c in
  if ((65 <=? n) && (n <=? 90))%nat then Ascii.ascii_of_nat (n + 32) else c.
Definition kelvin : string := bytes_str [226; 132; 170]%nat.
Fixpoint lowercase (s : string) : string :=
  match s with
  | "" => ""
  | String a r =>
      match r with
      | String b (String c r') =>
          if bool_decide (String a (String b (String c "")) = kelvin)
          then String (Ascii.ascii_of_nat 107) (lowercase r')
          else String (ascii_lower a) (lowercase r)
      | _ => String (ascii_lower a) (lowercase r)
      end
  end.

(** From the text of /sys/class/dmi/id/product_name, if it can be read. *)
Definition virtualization (product_name : option string) : string :=
  match product_name with
  | None => ""
  | Some text =>
      let s := lowercase (trim text) in
      if contains "virtualbox" s then "oracle"
      else if contains "vmware" s then "vmware"
      else if contains "qemu" s || contains "kvm" s then "kvm"
      else if contains "hyper-v" s then "microsoft"
      else ""
  end.

Example virtualization_examples :
  map virtualization [Some ("VirtualBox" ++ nl); Some "VMware7,1"; Some "Standard PC (QEMU)";
    Some (kelvin ++ "VM"); Some "ThinkPad"; None]
  = ["oracle"; "vmware"; "kvm"; "kvm"; ""; ""].
Proof. vm_compute. reflexivity. Qed.
Definition n_installed_jobs : Z := 0.
Definition n_failed_jobs : Z := 0.

(** The [Unit] interface of the object registered for [unit_name]. *)
Definition unit_start := start_unit.
Definition unit_stop := stop_unit.
Definition unit_restart := restart_unit.

Definition unit_id (unit_name : string) : string := unit_name.
Definition unit_names (unit_name : string) : list string := [unit_name].
Definition unit_description (unit_name : string) : string :=
  "dynamod service: " ++ unit_to_service unit_name.

(** The status of the unit's service. *)
Definition unit_info {A} (f : service_info → A) (unit_name : string) (c : bridge_conn)
    (m : SystemdManager) : result A string * SystemdManager :=
  let '(r, m) := with_client (service_status (unit_to_service unit_name) c) m in
  (info <-? r; Ok (f info), m).

Definition active_state := unit_info (λ info, (map_status (si_status info)).1).
Definition sub_state := unit_info (λ info, (map_status (si_status info)).2).
(** [unwrap_or(0) as u32] *)
Definition main_pid := unit_info (λ info, wrap_u32 (default 0%Z (si_pid info))).
Definition fragment_path (unit_name : string) : string :=
  "/etc/dynamod/services/" ++ unit_to_service unit_name ++ ".toml".
Definition unit_load_state : string := "loaded".
Definition can_start : bool := true.
Definition can_stop : bool := true.
Definition can_restart : bool := true.
Definition can_reload : bool := false.
Definition can_isolate : bool := false.
End bridge.

(** ** Names, states and paths *)

Lemma unit_service_roundtrip s :
  ends_with ".service" s = false → unit_to_service (service_to_unit s) = s.
Proof.
  intros Hs. unfold unit_to_service, service_to_unit. rewrite Hs. by rewrite strip_suffix_app.
Qed.

(** A service whose own name ends in [.service] shares its unit with the shorter one. *)
Example unit_names_collide : service_to_unit "a" = service_to_unit "a.service".
Proof. reflexivity. Qed.

(** The unit state of every state the service manager reports. *)
Definition unit_states (st : ServiceState) : string * string :=
  match st with
  | Stopped => ("inactive", "dead")
  | Starting => ("activating", "start")
  | Running => ("active", "running")
  | Stopping _ => ("deactivating", "stop")
  | Failed _ _ => ("failed", "failed")
  | Abandoned => ("failed", "abandoned")
  end.
Lemma map_status_states st : map_status (display_name st) = unit_states st.
Proof. by destruct st. Qed.

Lemma escape_light_nonempty s : escape_light s = "" ↔ s = "".
Proof. split; [|by intros ->]. destruct s as [|c s]; [done|]. cbn. by destruct (_ || _). Qed.

Lemma escape_unit_path_eq s : escape_unit_path s = escape_object_path_component s.
Proof.
  unfold escape_unit_path, escape_object_path_component.
  repeat case_bool_decide; rewrite ?escape_light_nonempty in *; done.
Qed.

Lemma unit_path_valid u : valid_object_path (unit_object_path u) = true.
Proof.
  unfold unit_object_path. rewrite escape_unit_path_eq.
  destruct (escape_light_chars u) as [Hc Hne].
  change (elements_ok true (escape_object_path_component u) = true). by apply elements_ok_chars.
Qed.

(** *** Undoing the escaping of a name without underscores *)

Fixpoint unescape_light (s : string) : option string :=
  match s with
  | "" => Some ""
  | String c s =>
      if is_underscore c then
        match s with
        | String h (String l s) =>
            h ← unhex h; l ← unhex l; r ← unescape_light s;
            Some (String (Ascii.ascii_of_N (Z.to_N (16 * h + l))) r)
        | _ => None
        end
      else String c <$> unescape_light s
  end.

Definition no_underscore : string → bool := str_all (λ c, negb (is_underscore c)).

Lemma unescape_light_escape s :
  no_underscore s = true → unescape_light (escape_light s) = Some s.
Proof.
  induction s as [|c s IH]; intros Hs; [done|]. cbn in Hs. apply andb_true_iff in Hs as [Hc Hs].
  specialize (IH Hs). apply negb_true_iff in Hc. cbn [escape_light]. rewrite Hc, orb_false_r.
  destruct (is_ascii_alphanumeric c) eqn:Ea.
  - cbn. by rewrite Hc, IH.
  - unfold escape_byte. cbn -[hex_digit unhex Z.div Z.modulo].
    pose proof (byte_val_range c) as Hr. rewrite !unhex_digit; cbn -[Z.div Z.modulo].
    + rewrite IH. cbn -[Z.div Z.modulo]. rewrite <-Z.div_mod by done. by rewrite of_byte_val.
    + split; [apply Z.div_pos|apply Z.div_lt_upper_bound]; lia.
    + apply Z.mod_pos_bound. lia.
Qed.

Lemma unescape_unit_path u :
  no_underscore u = true → default "" (unescape_light (escape_unit_path u)) = u.
Proof.
  intros Hu. unfold escape_unit_path. case_bool_decide as He.
  - by apply escape_light_nonempty in He as ->.
  - by rewrite unescape_light_escape.
Qed.

Lemma unit_path_inj u u' :
  no_underscore u = true → no_underscore u' = true →
  unit_object_path u = unit_object_path u' → u = u'.
Proof.
  intros Hu Hu' He. unfold unit_object_path in He.
  apply (f_equal (strip_prefix "/org/freedesktop/systemd1/unit/")) in He.
  rewrite !strip_prefix_app in He. injection He as He.
  rewrite <-(unescape_unit_path u Hu), <-(unescape_unit_path u' Hu'). by rewrite He.
Qed.

(** The escaping keeps underscores, so names with them can collide. *)
Example unit_paths_collide : unit_object_path "a-b.service" = unit_object_path "a_2db.service".
Proof. reflexivity. Qed.

(** ** The bridge and the service manager together *)

Section served.
Context `{R : Rmp, RT : !RmpRoundTrip R, HO : HashOrder, ZP : ZPath, ZL : !ZPathLaw ZP}.

(** The service manager, holding tree [t], serves the request for [body] and is left with
    [action]; its answer reaches the bridge in one read. *)
Definition served (cl : SvmgrClient) (body : MessageBody) (t : SupervisorTree)
    (action : option ControlAction) (c : bridge_conn) : Prop :=
  ∃ bytes chunks data,
    encode (bridge_request (next_id cl) body) = Ok bytes ∧
    concat chunks = bytes ∧ Forall (λ b, b ≠ []) chunks ∧
    handle_connection {| cn_setup := true; cn_reads := map Some chunks; cn_write := true |} t
      = Some (Ok action, data) ∧
    (len data ≤ 65536)%Z ∧
    c = {| bc_connect := Ok (); bc_read_timeout := Ok (); bc_write_timeout := Ok ();
           bc_write := Ok (); bc_read := Ok data; bc_join := Ok () |}.

(** A served command has the manager's answer, whatever it is. *)
Lemma send_command_served cl body t action c :
  served cl body t action c →
  ∃ answer, handle_request body t = Some (answer, action) ∧
    send_command c body cl = (Ok answer, {| next_id := wrap_u64 (next_id cl + 1) |}).
Proof.
  intros (bytes & chunks & data & Henc & Hcat & Hne & Hconn & Hlen & ->).
  unfold handle_connection in Hconn. cbn [cn_setup cn_reads cn_write negb] in Hconn.
  rewrite <-(app_nil_r (map Some chunks)) in Hconn.
  rewrite (read_request_chunks (bridge_request (next_id cl) body) bytes) in Hconn; try done.
  2: { intros rest. eexists. by apply decode_encode. }
  2: { intros ->. cbn in Hcat. subst bytes. by apply encode_fits in Henc as [? _]. }
  pose proof (decode_encode _ bytes [] Henc) as Hd. rewrite app_nil_r in Hd. rewrite Hd in Hconn.
  cbn [m_body bridge_request] in Hconn.
  destruct (handle_request body t) as [[answer a]|]; [|done]. cbn in Hconn.
  destruct (encode (response_to _ answer)) as [d|] eqn:Eresp; [|done]. injection Hconn as -> ->.
  exists answer. split; [done|]. unfold send_command, exchange. cbn. rewrite Henc.
  pose proof (encode_fits _ _ Eresp) as [Hpos _]. unfold len in *.
  rewrite take_ge by lia. rewrite bool_decide_false by (intros ->; cbn in Hpos; lia).
  pose proof (decode_encode _ data [] Eresp) as Hd'. rewrite app_nil_r in Hd'. by rewrite Hd'.
Qed.

(** What a unit command does to the tree's service. *)
Lemma unit_command_served cmd body act u t action c m :
  (∀ s c cl, cmd s c cl = command (body s) is_ack c cl) →
  (∀ s, handle_request (body s) t = Some (match get_worker t s with
     | Some _ => (Ack, Some (act s)) | None => (unknown_service s, None) end)) →
  served (sm_client m) (body (unit_to_service u)) t action c →
  let known := get_worker t (unit_to_service u) in
  action = (λ _, act (unit_to_service u)) <$> known ∧
  unit_command cmd u c m =
    (match known with
     | Some _ => Ok (unit_object_path u)
     | None => Err ("unknown service: " ++ unit_to_service u)
     end, set_client {| next_id := wrap_u64 (next_id (sm_client m) + 1) |} m).
Proof.
  intros Hcmd Hreq (answer & Ha & Hs)%send_command_served. rewrite Hreq in Ha.
  unfold unit_command, with_client. rewrite Hcmd. unfold command. rewrite Hs.
  destruct (get_worker t (unit_to_service u)); cbn in Ha; injection Ha as <- <-; split; try done.
  cbn. by rewrite (object_path_accepts (unit_object_path u) (unit_path_valid u)).
Qed.

(** When the service manager serves the request, StartUnit, StopUnit and RestartUnit leave
    it with the action on the service of that unit and answer the unit's path, or report an
    unknown service and leave no action. *)
Theorem unit_commands_act u t c m :
  let s := unit_to_service u in
  let known := get_worker t s in
  let reply := match known with
               | Some _ => Ok (unit_object_path u) | None => Err ("unknown service: " ++ s) end in
  let m' := set_client {| next_id := wrap_u64 (next_id (sm_client m) + 1) |} m in
  (∀ action, served (sm_client m) (MStartService s) t action c →
     action = (λ _, StartService s) <$> known ∧ start_unit u c m = (reply, m')) ∧
  (∀ action, served (sm_client m) (MStopService s) t action c →
     action = (λ _, StopService s) <$> known ∧ stop_unit u c m = (reply, m')) ∧
  (∀ action, served (sm_client m) (MRestartService s) t action c →
     action = (λ _, RestartService s) <$> known ∧ restart_unit u c m = (reply, m')).
Proof.
  intros s known reply m'. split_and!; intros action Hs;
    [apply (unit_command_served start_service MStartService StartService)
    |apply (unit_command_served stop_service MStopService StopService)
    |apply (unit_command_served restart_service MRestartService RestartService)]; done.
Qed.

(** The unit a worker is shown as. *)
Definition unit_of (name : string) (w : WorkerNode) : unit_entry :=
  let '(active, sub) := unit_states (wn_state w) in
  {| ue_name := service_to_unit name; ue_description := "dynamod service: " ++ name;
     ue_load_state := "loaded"; ue_active_state := active; ue_sub_state := sub; ue_following := "";
     ue_path := unit_object_path (service_to_unit name); ue_job_id := 0; ue_job_type := "";
     ue_job_path := "/" |}.

Lemma list_unit_entries_total job_path l :
  ∃ es, list_unit_entries job_path l = Ok es ∧
    Forall2 (λ svc e, list_unit job_path svc = Ok e) l es.
Proof.
  induction l as [|svc l (es & Hes & Hall)]; [by exists []|]. cbn [list_unit_entries].
  assert (∃ e, list_unit job_path svc = Ok e) as [e He].
  { unfold list_unit. destruct (map_status (se_status svc)).
    rewrite (object_path_accepts _ (unit_path_valid _)). by eexists. }
  rewrite He, Hes. eexists. split; [done|]. by constructor.
Qed.

Lemma list_unit_of job_path name w svc e :
  list_unit job_path svc = Ok e → job_path = "/" → se_name svc = name →
  se_status svc = display_name (wn_state w) → e = unit_of name w.
Proof.
  unfold list_unit, unit_of. intros He -> <- Hst. rewrite Hst, map_status_states in He.
  destruct (unit_states (wn_state w)) as [active sub].
  rewrite (object_path_accepts _ (unit_path_valid _)) in He. by injection He as <-.
Qed.

(** C35: When the service manager serves the bridge's request, ListUnits answers one unit
    per worker of the tree, with the unit name, the states its service state stands for and
    a valid path, and nothing else. *)
Theorem unit_listing_exact t c m action :
  served (sm_client m) ListServices t action c →
  ∃ es, list_units c m = (Ok es, set_client {| next_id := wrap_u64 (next_id (sm_client m) + 1) |} m) ∧
    NoDup (map ue_description es) ∧
    ∀ e, e ∈ es ↔ ∃ name w, get_worker t name = Some w ∧ e = unit_of name w.
Proof.
  intros (answer & Ha & Hs)%send_command_served.
  destruct (list_services_spec t) as (entries & He & Hnd & Hin). rewrite Ha in He. injection He as -> ->.
  unfold list_units, with_client, list_services, command. rewrite Hs. cbn.
  rewrite (object_path_accepts "/" eq_refl).
  destruct (list_unit_entries_total "/" entries) as (es & Hes & Hall). rewrite Hes.
  exists es. split; [done|].
  assert (Forall2 (λ svc e, ∃ w, get_worker t (se_name svc) = Some w ∧ e = unit_of (se_name svc) w)
    entries es) as Hof.
  { assert (Forall (λ svc, ∃ w, get_worker t (se_name svc) = Some w ∧
      se_status svc = display_name (wn_state w)) entries) as Hw
      by (apply Forall_forall; intros svc (w & ? & ? & _)%Hin; eauto).
    clear -Hall Hw ZL. induction Hall as [|svc e l es Hl _ IH]; [done|].
    apply Forall_cons in Hw as [(w & Hw & Hst) Hl']. constructor; [|by apply IH].
    exists w. split; [done|]. by eapply list_unit_of. }
  clear Hall Hes Ha Hs. split.
  - assert (map ue_description es = map (String.append "dynamod service: ") (map se_name entries)) as ->.
    { clear -Hof. induction Hof as [|svc e l es (w & _ & ->) _ IH]; [done|]. cbn [map]. rewrite IH.
      f_equal. unfold unit_of. by destruct (unit_states _). }
    apply (NoDup_fmap_2_strong _); [|done]. intros a b _ _ Hab. by injection Hab.
  - intros e. split.
    + intros (i & He)%list_elem_of_lookup.
      destruct (Forall2_lookup_r _ _ _ _ _ Hof He) as (svc & _ & w & ? & ?). eauto.
    + intros (name & w & Hw & ->).
      assert ({| se_name := name; se_status := display_name (wn_state w); se_pid := wn_pid w |} ∈ entries)
        as (i & Hs)%list_elem_of_lookup by (apply Hin; eauto).
      destruct (Forall2_lookup_l _ _ _ _ _ Hof Hs) as (e & Hes & w' & Hw' & ->). cbn in *. simplify_eq.
      by eapply list_elem_of_lookup_2.
Qed.
End served.

(** ** On a small tree *)

Definition one_service : SupervisorTree :=
  match add_worker (minimal_service "web" ["/bin/web"]) "root"
          (tree_new "root" OneForOne (intensity_new 1 0)) with
  | Ok t => t | Err _ => tree_new "root" OneForOne (intensity_new 1 0)
  end.
Definition fresh_manager : SystemdManager :=
  {| sm_client := client_new; sm_server := true; sm_objects := ∅ |}.
Definition answered (data : list Z) : bridge_conn :=
  {| bc_connect := Ok (); bc_read_timeout := Ok (); bc_write_timeout := Ok ();
     bc_write := Ok (); bc_read := Ok data; bc_join := Ok () |}.

#[local] Abbreviation data := [0x44; 0x4D; 2; 0; 0; 0; 2; 3]%Z.

(** The manager with one service serves a request of a fresh bridge. *)
Lemma served_example body answer action :
  @handle_request elements_order body one_service = Some (answer, action) →
  let req := bridge_request 1 body in
  @served (pair_rmp req (response_to req answer)) elements_order client_new body one_service action
    (answered data).
Proof.
  intros Hreq req.
  assert (@encode (pair_rmp req (response_to req answer)) req = Ok [0x44; 0x4D; 1; 0; 0; 0; 1]%Z) as Henc.
  { unfold encode. cbn [rmp_serialize pair_rmp]. by rewrite decide_True. }
  exists [0x44; 0x4D; 1; 0; 0; 0; 1]%Z, [[0x44; 0x4D; 1]%Z; [0; 0; 0; 1]%Z], data.
  split_and!; [done|done|repeat constructor; discriminate| |vm_compute; discriminate|done].
  rewrite <-(app_nil_r (map Some _)).
  apply (@request_served _ (pair_rmp_roundtrip _ _) elements_order req [0x44; 0x4D; 1; 0; 0; 0; 1]%Z
    _ [] one_service answer); try done; [repeat constructor; discriminate|].
  unfold encode. cbn [rmp_serialize pair_rmp]. by rewrite decide_False, decide_True.
Qed.

Lemma unit_commands_act_witness :
  let req := bridge_request 1 (MRestartService "web") in
  (@restart_unit (pair_rmp req (response_to req Ack)) spec_zpath "web.service" (answered data) fresh_manager).1
  = Ok "/org/freedesktop/systemd1/unit/web_2eservice".
Proof.
  intros req.
  destruct (@unit_commands_act _ (pair_rmp_roundtrip req (response_to req Ack)) elements_order spec_zpath _
    "web.service" one_service (answered data) fresh_manager) as (_ & _ & H).
  destruct (H (Some (RestartService "web"))) as [_ He]; [|exact (f_equal fst He)].
  apply (served_example (MRestartService "web") Ack). reflexivity.
Defined.

Lemma unit_listing_exact_witness :
  let req := bridge_request 1 ListServices in
  let resp := response_to req (ServiceList [{| se_name := "web"; se_status := "stopped"; se_pid := None |}]) in
  ∃ es, (@list_units (pair_rmp req resp) spec_zpath (answered data) fresh_manager).1 = Ok es ∧
    ∀ e, e ∈ es ↔ ∃ name w, get_worker one_service name = Some w ∧ e = unit_of name w.
Proof.
  intros req resp.
  destruct (@unit_listing_exact _ (pair_rmp_roundtrip req resp) elements_order spec_zpath _ one_service
    (answered data) fresh_manager None) as (es & He & _ & Hin).
  - apply (served_example ListServices). reflexivity.
  - exists es. rewrite He. split; [reflexivity|exact Hin].
Defined.
