(* ===== verification/LogRoll.v ===== *)
(** * The rolling log that the store implements

    The specification: a text being written and an archive of at most five finished
    texts, oldest first.  The refinement: while the calls of the system succeed and
    rotations happen in different seconds, the files of [LogStore] are exactly the
    rendering of that log, and the bytes lost are those of the oldest files. *)

From stdpp Require Import sorting.
From S2P Require Import Prelude RustStr Utf8 LogStore.

#[local] Open Scope string_scope.
#[local] Open Scope Z_scope.

(** ** The order of the names of rotated files

    The names sort by their bytes; numbers with the same count of digits sort by value. *)

Lemma compare_refl_str s : String.compare s s = Eq.
Proof. induction s as [|c s IH]; [done|]. cbn. unfold Ascii.compare. by rewrite N.compare_refl. Qed.

Lemma compare_app_str a b x y :
  String.length a = String.length b →
  String.compare (a ++ x) (b ++ y) =
  match String.compare a b with Eq => String.compare x y | c => c end.
Proof.
  revert b. induction a as [|c a IH]; intros [|d b] Hl; try done. cbn.
  injection Hl as Hl. destruct (Ascii.compare c d); [by apply IH|done..].
Qed.

(** The last [k] digits. *)
Fixpoint fixed (k : nat) (n : Z) : string :=
  match k with O => "" | S k => fixed k (n / 10) ++ String (digit_char (n mod 10)) "" end.

Lemma length_fixed k n : String.length (fixed k n) = k.
Proof.
  revert n. induction k as [|k IH]; intros n; [done|]. cbn [fixed]. rewrite length_app_str, IH. cbn. lia.
Qed.

Lemma digit_char_compare a b :
  0 ≤ a < 10 → 0 ≤ b < 10 → a < b → Ascii.compare (digit_char a) (digit_char b) = Lt.
Proof.
  intros Ha Hb Hab. unfold Ascii.compare, digit_char.
  rewrite !Ascii.N_ascii_embedding by lia. apply N.compare_lt_iff. lia.
Qed.

Lemma fixed_compare k n m :
  0 ≤ n → n < m → m < 10 ^ Z.of_nat k → String.compare (fixed k n) (fixed k m) = Lt.
Proof.
  revert n m. induction k as [|k IH]; intros n m Hn Hnm Hm; [cbn in Hm; lia|].
  cbn [fixed]. rewrite compare_app_str by (by rewrite !length_fixed).
  rewrite Nat2Z.inj_succ, Z.pow_succ_r in Hm by lia.
  assert (n / 10 ≤ m / 10) as Hle by (apply Z.div_le_mono; lia).
  destruct (Z.eq_dec (n / 10) (m / 10)) as [He|Hne].
  - rewrite He, compare_refl_str. cbn -[digit_char Z.modulo]. rewrite digit_char_compare; [done|..].
    + apply Z.mod_pos_bound. lia.
    + apply Z.mod_pos_bound. lia.
    + rewrite (Z.div_mod n 10), (Z.div_mod m 10) in Hnm by lia. lia.
  - rewrite IH; [done|apply Z.div_pos; lia|lia|]. apply Z.div_lt_upper_bound; lia.
Qed.

(** A number of [k] digits prints as its last [k] digits. *)
Lemma dec_go_fixed fuel k n acc :
  (0 < k)%nat → 10 ^ (Z.of_nat k - 1) ≤ n < 10 ^ Z.of_nat k → n < 2 ^ Z.of_nat fuel →
  dec_go fuel n acc = fixed k n ++ acc.
Proof.
  revert k n acc. induction fuel as [|fuel IH]; intros k n acc Hk Hn Hf.
  { assert (0 < 10 ^ (Z.of_nat k - 1)) by (apply Z.pow_pos_nonneg; lia). cbn in Hf. lia. }
  destruct k as [|k]; [lia|]. cbn [dec_go fixed].
  rewrite Nat2Z.inj_succ in Hn. replace (Z.succ (Z.of_nat k) - 1) with (Z.of_nat k) in Hn by lia.
  destruct (Z.ltb_spec n 10) as [Hlt|Hge].
  - destruct k as [|k].
    + cbn [fixed]. by rewrite Z.mod_small by lia.
    + exfalso. rewrite Nat2Z.inj_succ, Z.pow_succ_r in Hn by lia.
      assert (0 < 10 ^ Z.of_nat k) by (apply Z.pow_pos_nonneg; lia). lia.
  - rewrite Z.pow_succ_r in Hn by lia. destruct k as [|k]; [cbn in Hn; lia|].
    rewrite (IH (S k)); [by rewrite app_assoc_str|lia| |].
    + rewrite Nat2Z.inj_succ in *. replace (Z.succ (Z.of_nat k) - 1) with (Z.of_nat k) by lia. split.
      * apply Z.div_le_lower_bound; [lia|]. rewrite <-Z.pow_succ_r by lia. lia.
      * apply Z.div_lt_upper_bound; lia.
    + rewrite Nat2Z.inj_succ, Z.pow_succ_r in Hf by lia. apply Z.div_lt_upper_bound; lia.
Qed.

(** Seconds since the epoch with ten digits: from 2001 to 2286. *)
Definition ten_digits (n : Z) : Prop := 10 ^ 9 ≤ n < 10 ^ 10.

Lemma to_string_fixed n : ten_digits n → to_string n = fixed 10 n.
Proof.
  intros Hn. unfold ten_digits in Hn. unfold to_string. destruct (Z.ltb_spec n 0); [lia|].
  rewrite (dec_go_fixed _ 10); [apply app_nil_r_str|lia|exact Hn|]. apply log2_fuel. lia.
Qed.

Lemma rotated_name_lt a b :
  ten_digits a → ten_digits b → a < b → String.compare (rotated_name a) (rotated_name b) = Lt.
Proof.
  intros Ha Hb Hab. unfold rotated_name. rewrite compare_app_str, compare_refl_str by done.
  rewrite !to_string_fixed by done. rewrite compare_app_str by (by rewrite !length_fixed).
  rewrite fixed_compare; [done|unfold ten_digits in *; lia|done|]. unfold ten_digits in *. cbn. lia.
Qed.

Lemma rotated_name_inj a b : ten_digits a → ten_digits b → rotated_name a = rotated_name b → a = b.
Proof.
  intros Ha Hb He. destruct (Z.lt_trichotomy a b) as [H|[H|H]]; [|done|];
    apply rotated_name_lt in H; try done; rewrite He, compare_refl_str in H; done.
Qed.

Lemma rotated_is_log_file a : is_log_file (rotated_name a) = true.
Proof.
  unfold is_log_file, starts_with, rotated_name. rewrite strip_prefix_app.
  rewrite <-app_assoc_str, strip_suffix_app. done.
Qed.

(** ** The specification *)

Record rolling := {
  ro_archive : list (Z * string);   (** the second each text was finished in, oldest first *)
  ro_current : string;
}.

Definition roll_append (max now : Z) (line : string) (r : rolling) : rolling :=
  let text := ro_current r ++ line in
  if max <=? len text
  then {| ro_archive := last_n 5 (ro_archive r ++ [(now, text)])%list; ro_current := "" |}
  else {| ro_archive := ro_archive r; ro_current := text |}.

(** Everything the log holds, in the order it was written. *)
Definition contents (r : rolling) : string := cat (ro_archive r).*2 ++ ro_current r.

(** Appending loses whole texts of the full archive only. *)
Lemma roll_append_contents max now line r :
  ∃ lost, contents r ++ line = lost ++ contents (roll_append max now line r) ∧
    ((length (ro_archive r) < 5)%nat → lost = "").
Proof.
  unfold contents, roll_append. rewrite app_assoc_str. destruct (_ <=? _).
  - set (a := (_ ++ _)%list). exists (cat (take (length a - 5) a).*2). cbn [ro_archive ro_current]. split.
    + unfold last_n. rewrite app_nil_r_str, <-cat_app, <-fmap_app, take_drop.
      unfold a. rewrite fmap_app, cat_app. cbn. by rewrite app_nil_r_str.
    + intros Hl. replace (length a - 5)%nat with 0%nat; [done|]. unfold a. rewrite length_app. cbn. lia.
  - exists "". cbn. split; [by rewrite ?app_assoc_str|done].
Qed.

(** ** The rendering *)

Definition archive_files (a : list (Z * string)) : gmap string string :=
  list_to_map (map (λ x, (rotated_name x.1, x.2)) a).

(** The files of the log, and the others of the directory. *)
Definition render (others : gmap string string) (r : rolling) : gmap string string :=
  <["current.log" := ro_current r]> (archive_files (ro_archive r) ∪ others).

(** No other file looks like one of the log. *)
Definition foreign (others : gmap string string) : Prop :=
  ∀ n, n ∈ dom others → n ≠ "current.log" ∧ is_log_file n = false.

(** The archive is in the order of its seconds. *)
Definition archive_ok (a : list (Z * string)) : Prop :=
  StronglySorted Z.lt a.*1 ∧ Forall ten_digits a.*1.

Lemma archive_files_dom a n : n ∈ dom (archive_files a) ↔ ∃ s, s ∈ a.*1 ∧ n = rotated_name s.
Proof.
  unfold archive_files. rewrite dom_list_to_map, elem_of_list_to_set, list_elem_of_fmap. split.
  - intros ([n' c'] & -> & ([s c] & [= -> ->] & Hx)%list_elem_of_fmap). exists s. split; [|done].
    apply list_elem_of_fmap. by exists (s, c).
  - intros (s & ([s' c] & -> & Hx)%list_elem_of_fmap & ->). exists (rotated_name s', c).
    split; [done|]. apply list_elem_of_fmap. by exists (s', c).
Qed.

Lemma archive_files_none a s :
  Forall ten_digits a.*1 → ten_digits s → s ∉ a.*1 → archive_files a !! rotated_name s = None.
Proof.
  intros Ha Hs Hin. apply not_elem_of_dom. rewrite archive_files_dom. intros (s' & Hs' & He).
  apply rotated_name_inj in He; [by subst|done|]. by eapply Forall_forall in Hs'.
Qed.

Lemma archive_files_snoc a s c :
  Forall ten_digits a.*1 → ten_digits s → s ∉ a.*1 →
  archive_files (a ++ [(s, c)])%list = <[rotated_name s := c]> (archive_files a).
Proof.
  intros Ha Hs Hin. unfold archive_files. rewrite map_app. cbn [map].
  apply list_to_map_snoc. rewrite list_elem_of_fmap. intros ([n c'] & Hn & Hx).
  apply list_elem_of_fmap in Hx as ([s' c''] & [= -> ->] & Hx). cbn in Hn.
  apply Hin, list_elem_of_fmap. exists (s', c''). split; [|done]. cbn.
  apply rotated_name_inj; try done. eapply Forall_forall; [exact Ha|]. apply list_elem_of_fmap. by exists (s', c'').
Qed.

Lemma current_not_archived a : archive_files a !! "current.log" = None.
Proof.
  apply not_elem_of_dom. rewrite archive_files_dom. intros (s & _ & He).
  apply (f_equal is_log_file) in He. by rewrite rotated_is_log_file in He.
Qed.

Lemma archive_ok_snoc a s c :
  archive_ok a → ten_digits s → Forall (λ x, x < s) a.*1 → archive_ok (a ++ [(s, c)])%list.
Proof.
  intros [Hs Ht] Hten Hlt. unfold archive_ok. rewrite fmap_app. cbn. split.
  - clear Ht. induction a as [|[x y] a IH]; cbn in *; [repeat constructor|].
    inversion Hs; subst. inversion Hlt; subst. constructor; [by apply IH|].
    apply Forall_app. split; [done|by apply Forall_singleton].
  - apply Forall_app. split; [done|by apply Forall_singleton].
Qed.

Lemma archive_ok_drop k a : archive_ok a → archive_ok (drop k a).
Proof.
  revert k. induction a as [|x a IH]; intros [|k] Ha; try done. apply IH. destruct Ha as [Hs Ht].
  split; [by inversion Hs|by inversion Ht].
Qed.

(** ** Rotation *)

Section rolling.
Context `{IO : LogIO}.

(** The calls of the system succeed, writes are complete, and a listing names every file. *)
Class LogLaws := {
  law_open : ∀ o, (io_open o).1 = true;
  law_metadata : ∀ o, (io_metadata o).1 = true;
  law_write : ∀ line o, (io_write line o).1 = Some (String.length line);
  law_rename : ∀ o, (io_rename o).1 = true;
  law_remove : ∀ o, (io_remove o).1 = true;
  law_read_dir : ∀ X o, (io_read_dir X o).1 ≡ₚ elements X;
}.
Context `{!LogLaws}.

Lemma delete_oldest others s c a cur :
  foreign others → archive_ok ((s, c) :: a) →
  delete (rotated_name s) (render others {| ro_archive := (s, c) :: a; ro_current := cur |}) =
  render others {| ro_archive := a; ro_current := cur |}.
Proof.
  intros Ho [Hs Ht]. cbn in Hs, Ht. inversion Hs as [|? ? Hs' Hlt]; subst. inversion Ht; subst.
  unfold render. cbn [ro_archive ro_current].
  rewrite delete_insert_ne.
  2: { intros He%(f_equal is_log_file). by rewrite rotated_is_log_file in He. }
  f_equal. change (archive_files ((s, c) :: a)) with (<[rotated_name s := c]> (archive_files a)).
  rewrite <-insert_union_l, delete_insert_id; [done|]. apply lookup_union_None. split.
  - apply archive_files_none; try done. intros Hin. eapply Forall_forall in Hlt; [|exact Hin]. lia.
  - apply not_elem_of_dom. intros [_ Hl]%Ho. by rewrite rotated_is_log_file in Hl.
Qed.

Lemma remove_old_last others a cur o :
  foreign others → archive_ok a →
  (remove_old (map rotated_name a.*1) (render others {| ro_archive := a; ro_current := cur |}) o).1 =
  render others {| ro_archive := last_n 5 a; ro_current := cur |}.
Proof.
  intros Ho. revert o. induction a as [|[s c] a IH]; intros o Ha; [done|].
  cbn [fmap list_fmap map remove_old fst length]. rewrite length_map, length_fmap.
  destruct (Nat.ltb_spec 5 (S (length a))) as [Hlt|Hge].
  - pose proof (law_remove o) as Hr. destruct (io_remove o) as [ok o']. cbn in Hr. subst ok.
    rewrite delete_oldest by done. rewrite IH by (by apply (archive_ok_drop 1 _ Ha)).
    f_equal. f_equal. unfold last_n. cbn [length].
    by replace (S (length a) - 5)%nat with (S (length a - 5)) by lia.
  - unfold last_n. cbn [length]. by replace (S (length a) - 5)%nat with 0%nat by lia.
Qed.

Lemma archive_names_sorted a : archive_ok a → Sorted String.le (map rotated_name a.*1).
Proof.
  intros [Hs Ht]. apply StronglySorted_Sorted. induction Hs as [|s l Hs IH Hlt]; [constructor|].
  apply Forall_cons in Ht as [Hd Ht]. cbn [map]. constructor; [by apply IH|].
  apply Forall_map, Forall_forall. intros x Hx.
  pose proof (proj1 (Forall_forall _ _) Hlt x Hx) as Hx'. pose proof (proj1 (Forall_forall _ _) Ht x Hx) as Hxd.
  unfold String.le, String.leb. by rewrite rotated_name_lt.
Qed.

Lemma log_files_listed others r o :
  foreign others → archive_ok (ro_archive r) →
  merge_sort String.le (filter (λ n, is_log_file n = true)
    (io_read_dir (dom (render others r)) o).1) = map rotated_name (ro_archive r).*1.
Proof.
  intros Ho Ha. apply (Sorted_unique String.le); [apply Sorted_merge_sort, _|by apply archive_names_sorted|].
  rewrite merge_sort_Permutation, law_read_dir. apply NoDup_Permutation.
  - apply NoDup_filter, NoDup_elements.
  - destruct Ha as [Hs Ht]. clear -Hs Ht. induction Hs as [|s l Hs IH Hlt]; [constructor|].
    apply Forall_cons in Ht as [Hd Ht]. cbn [map]. constructor; [|by apply IH].
    intros (x & He & Hx)%list_elem_of_fmap. apply rotated_name_inj in He as ->; [|done|].
    + eapply Forall_forall in Hlt; [|exact Hx]. lia.
    + by eapply Forall_forall in Hx.
  - intros n. rewrite list_elem_of_filter, elem_of_elements. unfold render.
    rewrite dom_insert, elem_of_union, elem_of_singleton, dom_union, elem_of_union, archive_files_dom.
    rewrite list_elem_of_fmap. split.
    + intros [Hl [->|[(s & Hs & ->)|Hn]]]; [done|eauto|]. apply Ho in Hn as [_ Hn]. congruence.
    + intros (s & -> & Hs). split; [apply rotated_is_log_file|]. right. left. eauto.
Qed.

(** ** The refinement *)

(** The files are those of the rolling log [r], next to [others]. *)
Record stored (others : gmap string string) (r : rolling) (files : gmap string string) : Prop := {
  im_files : files = render others r;
  im_archive : archive_ok (ro_archive r);
  im_kept : (length (ro_archive r) ≤ 5)%nat;
  im_foreign : foreign others;
}.

(** The store [d] is the rolling log [r]: its file is open and its size known. *)
Record implements (others : gmap string string) (r : rolling) (d : Logd) : Prop := {
  im_open : current_file (ld_store d) = true;
  im_size : current_size (ld_store d) = len (ro_current r);
  im_stored : stored others r (ld_files d);
}.

(** The second in which a rotation after writing [line] happens. *)
Definition rotation_second (line : string) (o : lio) : Z :=
  epoch_secs (io_now (io_write line o).2).1.

Lemma render_moved others r s :
  foreign others → archive_ok (ro_archive r) → ten_digits s → Forall (λ x, x < s) (ro_archive r).*1 →
  let files := <[rotated_name s := ro_current r]> (delete "current.log" (render others r)) in
  files !! "current.log" = None ∧
  <["current.log" := ""]> files =
  render others {| ro_archive := (ro_archive r ++ [(s, ro_current r)])%list; ro_current := "" |}.
Proof.
  intros Ho [_ Ha] Hs Hlt. unfold render. cbn [ro_archive ro_current].
  assert ((archive_files (ro_archive r) ∪ others) !! "current.log" = None) as Hnone.
  { apply lookup_union_None. split; [apply current_not_archived|].
    apply not_elem_of_dom. by intros [? _]%Ho. }
  rewrite delete_insert_id by done. split.
  - rewrite lookup_insert_ne; [done|]. intros He%(f_equal is_log_file).
    by rewrite rotated_is_log_file in He.
  - f_equal. rewrite archive_files_snoc, insert_union_l; try done. intros Hin.
    eapply Forall_forall in Hlt; [|exact Hin]. lia.
Qed.

Lemma rotate_implements others r d :
  let now := epoch_secs (io_now (ld_io d)).1 in
  stored others r (ld_files d) → ten_digits now → Forall (λ s, s < now) (ro_archive r).*1 →
  implements others {| ro_archive := last_n 5 (ro_archive r ++ [(now, ro_current r)])%list;
                       ro_current := "" |} (rotate d).
Proof.
  intros now [Hf Ha Hlen Ho] Hten Hlt.
  set (r' := {| ro_archive := (ro_archive r ++ [(now, ro_current r)])%list; ro_current := "" |}).
  assert (archive_ok (ro_archive r')) as Ha' by (by apply archive_ok_snoc).
  destruct (render_moved others r now Ho Ha Hten Hlt) as [Hnone Hmoved]. fold r' in Hmoved.
  unfold rotate, rename, open_current, cleanup_old_logs. subst now. destruct (io_now (ld_io d)) as [now o].
  cbn [fst] in *. set (secs := epoch_secs now) in *.
  pose proof (law_rename o) as Hren. destruct (io_rename o) as [ok o1]. cbn in Hren. subst ok.
  assert (render others r !! "current.log" = Some (ro_current r)) as Hcur by apply lookup_insert_eq.
  rewrite Hf, Hcur.
  pose proof (law_open o1) as Hop. destruct (io_open o1) as [ok o2]. cbn in Hop. subst ok.
  rewrite Hnone, Hmoved. destruct (io_read_dir _ o2) as [names o3] eqn:E.
  pose proof (log_files_listed others r' o2 Ho Ha') as Hl. rewrite E in Hl. cbn [fst] in Hl. rewrite Hl.
  pose proof (remove_old_last others (ro_archive r') "" o3 Ho Ha') as Hrem. fold r' in Hrem.
  destruct (remove_old _ _ o3) as [files o4]. cbn [fst] in Hrem. subst files.
  split; [done|done|]. split; cbn [ro_archive]; [done|by apply archive_ok_drop| |done].
  unfold last_n. rewrite length_drop. lia.
Qed.

Lemma write_line_stored others r line d :
  implements others r d → len (ro_current r ++ line) ≤ U64_MAX →
  let r' := {| ro_archive := ro_archive r; ro_current := ro_current r ++ line |} in
  let d' := write_line line d in
  implements others r' d' ∧ max_size (ld_store d') = max_size (ld_store d) ∧
  ld_io d' = (io_write line (ld_io d)).2.
Proof.
  intros [Ho Hsz [Hf Ha Hk Hfo]] Hmax. unfold write_line.
  pose proof (law_write line (ld_io d)) as Hw. destruct (io_write line (ld_io d)) as [n o]. cbn in Hw. subst n.
  split; [|done]. cbn. split; cbn; [done| |].
  - rewrite Hsz. unfold len in *. rewrite length_app_str in *. unfold wrap_u64, U64_MAX in *.
    rewrite Z.mod_small; lia.
  - split; cbn; try done. rewrite Hf. unfold render. cbn [ro_archive ro_current].
    by rewrite alter_insert_eq, take_str_short.
Qed.

(** A store opened on the files of an earlier one takes up its log. *)
Lemma log_new_implements others r files max o :
  stored others r files → implements others r (log_new max files o).
Proof.
  intros Hs. unfold log_new, open_current. pose proof (law_open o) as Hop. destruct (io_open o) as [ok o1].
  cbn in Hop. subst ok. pose proof (law_metadata o1) as Hm. destruct (io_metadata o1) as [ok o2].
  cbn in Hm. subst ok. assert (files !! "current.log" = Some (ro_current r)) as Hc.
  { destruct Hs as [-> _ _ _]. apply lookup_insert_eq. }
  rewrite Hc. cbn. rewrite Hc. by split.
Qed.

(** C24: While the system's calls succeed and rotations fall in different seconds, appending
    to the log store implements a rolling log: the directory holds the current text and the
    last five finished ones, every other file is untouched, and the only bytes lost are
    whole files dropped from a full archive. *)
Theorem log_store_refines others r d source message :
  let '(now, o) := io_now (ld_io d) in
  let line := log_line now source message in
  let second := rotation_second line o in
  let r' := roll_append (max_size (ld_store d)) second line r in
  implements others r d → len (ro_current r ++ line) ≤ U64_MAX →
  ten_digits second → Forall (λ s, s < second) (ro_archive r).*1 →
  implements others r' (append source message d) ∧
  ∃ lost, contents r ++ line = lost ++ contents r' ∧ ((length (ro_archive r) < 5)%nat → lost = "").
Proof.
  destruct (io_now (ld_io d)) as [now o] eqn:Enow. intros line second r' Hd Hmax Hten Hlt.
  split; [|apply roll_append_contents].
  unfold append. rewrite Enow. cbn [ld_store]. rewrite (im_open _ _ _ Hd).
  set (d0 := {| ld_store := ld_store d; ld_files := ld_files d; ld_io := o |}).
  assert (implements others r d0) as Hd0 by (by destruct Hd; split).
  destruct (write_line_stored others r line d0 Hd0 Hmax) as (Hw & Hms & Hio). fold line.
  rewrite Hms, (im_size _ _ _ Hw). cbn [ld_store d0 ro_current]. subst r'. unfold roll_append.
  destruct (_ <=? _).
  - assert (epoch_secs (io_now (ld_io (write_line line d0))).1 = second) as Hsec by (by rewrite Hio).
    pose proof (rotate_implements others _ (write_line line d0) (im_stored _ _ _ Hw)) as Hr.
    cbn zeta in Hr. rewrite Hsec in Hr. destruct (Hr Hten Hlt). by split.
  - by destruct Hw; split.
Qed.
End rolling.

(** ** On a small machine *)

(** Every call succeeds, and the clock gains [step] nanoseconds whenever it is read. *)
Definition clock_io (step : Z) : LogIO := {|
  lio := Z; io_now t := (t, t + step); io_open t := (true, t); io_metadata t := (true, t);
  io_write line t := (Some (String.length line), t); io_rename t := (true, t);
  io_remove t := (true, t); io_read_dir X t := (elements X, t) |}.
Lemma clock_laws step : @LogLaws (clock_io step).
Proof. by split. Qed.

Definition start_time : Z := 1500000000 * 1000000000.
Definition empty_log : rolling := {| ro_archive := []; ro_current := "" |}.
Definition fresh_store (step : Z) : @Logd (clock_io step) :=
  @log_new (clock_io step) 20 {["current.log" := ""]} start_time.

Lemma fresh_store_implements : @implements (clock_io (2 * 10 ^ 9)) ∅ empty_log (fresh_store (2 * 10 ^ 9)).
Proof.
  apply (@log_new_implements _ (clock_laws _)). split; [done| |cbn; lia|].
  - split; constructor.
  - intros n Hn. by rewrite dom_empty in Hn.
Qed.

Lemma log_store_refines_witness :
  @implements (clock_io (2 * 10 ^ 9)) ∅
    {| ro_archive := [(1500000002, "02:40:00 [web] started" ++ nl)]; ro_current := "" |}
    (@append (clock_io (2 * 10 ^ 9)) "web" "started" (fresh_store (2 * 10 ^ 9))).
Proof.
  refine (proj1 (@log_store_refines (clock_io (2 * 10 ^ 9)) (clock_laws _) ∅ empty_log
    (fresh_store (2 * 10 ^ 9)) "web" "started" fresh_store_implements _ _ _)).
  - vm_compute. discriminate.
  - vm_compute. split; [discriminate|reflexivity].
  - constructor.
Defined.

(** Two rotations in one second: the second file replaces the first, whose line is lost. *)
Example same_second_overwrites :
  ld_files (@append (clock_io 0) "web" "second" (@append (clock_io 0) "web" "first line" (fresh_store 0)))
  = {["current.log" := ""; "log-1500000000.log" := "02:40:00 [web] second" ++ nl]}.
Proof. vm_compute. reflexivity. Qed.
