(* ===== verification/LogPipe.v ===== *)
(** * The way of a log line (spawn.rs relay_logs, dynamod-logd: main.rs, collector.rs)

    A service writes to a pipe; a thread of the service manager relays every line as a
    datagram to the log daemon, where the collector thread and the main thread, which
    reads the standard input, share the store under a mutex.  The threads are the state
    machine [pipe_step]: one rule per blocking operation, with the mutex, the socket and
    its queue between them, so that every schedule is a run.  The kernel is the class
    [PipeSys]: how many datagrams a socket queues and which ones it takes.

    The theorems: whatever the schedule and the faults, the store is the result of
    appending one entry after the other, and each source is heard in order, with nothing
    twice; when the socket is bound, every schedule comes to rest.  Where the standard
    input has ended, all that the socket took is then in the store, as far as the
    collector's buffer holds it; where it stays open, the main thread has the lock and
    the datagrams wait. *)

From stdpp Require Import relations.
From S2P Require Import Prelude RustStr Utf8 LogStore LogRoll.

#[local] Open Scope string_scope.
#[local] Open Scope Z_scope.

(** ** Reading lines *)

(** [BufRead::lines] over what a descriptor delivers until its end, or until a read fails:
    a line that is not UTF-8 is an error, and what was read of a line that a failing read
    ends is dropped. *)
Definition utf8_line (line : string) : result string string :=
  if valid_utf8 line then Ok line else Err "stream did not contain valid UTF-8".
Definition buf_lines (data : string) (stop : option string) : list (result string string) :=
  let pieces := split_byte newline data in
  let terminated := removelast pieces in
  let final := List.last pieces "" in
  (map (λ l, utf8_line (default l (strip_suffix carriage_return l))) terminated ++
   match stop with
   | Some e => [Err e]
   | None => if bool_decide (final = "") then [] else [utf8_line final]
   end)%list.

(** The lines a loop that leaves at the first error goes through, empty ones skipped. *)
Fixpoint spoken (lines : list (result string string)) : list string :=
  match lines with
  | [] | Err _ :: _ => []
  | Ok line :: lines => if bool_decide (line = "") then spoken lines else line :: spoken lines
  end.

(** ** relay_logs *)

Definition relay_message (service_name line : string) : string := service_name ++ tab ++ line.

(** The messages [relay_logs] hands to [send_to], in order. *)
Definition relay_logs (sock : bool) (service_name : string) (lines : list (result string string))
    : list string :=
  if sock then map (relay_message service_name) (spoken lines) else [].

(** ** The threads *)

Class PipeSys := {
  capacity : nat;                (** datagrams the socket queues *)
  fits : string → bool;          (** a datagram the socket takes *)
  recv_fails : bool;             (** receiving may fail *)
}.

(** A relay thread: its service, whether it has a socket, and the lines to come. *)
Record relay := { rl_name : string; rl_sock : bool; rl_lines : list (result string string) }.
Definition rl_with_lines (l : list (result string string)) (r : relay) : relay :=
  {| rl_name := rl_name r; rl_sock := rl_sock r; rl_lines := l |}.

Inductive main_pc :=
| MLock (input : list (result string string))      (** waits for the lock *)
| MStdin (input : list (result string string))     (** [collect_stdin], with the lock *)
| MParked.
Inductive sock_pc :=
| SBind
| SRecv
| SWait (from : nat) (data : string)    (** has a datagram and waits for the lock *)
| SHold (from : nat) (data : string)    (** has the lock *)
| SDead.
Inductive thread := MainThread | SocketThread.

(** Where an entry came from. *)
Inductive origin := Stdin | Service (i : nat).
#[export] Instance origin_eq_dec : EqDecision origin.
Proof. solve_decision. Defined.

Section pipe.
Context `{IO : LogIO} `{SYS : PipeSys}.

(** Whether the standard input ends after what it delivers, as /dev/null does, or stays open
    so that the next read blocks; the threads, the mutex, the queue of the socket (each
    datagram with its sender), the store, and the history of what was appended. *)
Record Pipe := {
  p_eof : bool;
  p_main : main_pc;
  p_sock : sock_pc;
  p_lock : option thread;
  p_queue : list (nat * string);
  p_relays : list relay;
  p_store : Logd;
  p_history : list (origin * (string * string));
}.

Definition p_set_main (m : main_pc) (l : option thread) (p : Pipe) : Pipe :=
  {| p_eof := p_eof p; p_main := m; p_sock := p_sock p; p_lock := l; p_queue := p_queue p;
     p_relays := p_relays p; p_store := p_store p; p_history := p_history p |}.
Definition p_set_sock (s : sock_pc) (l : option thread) (q : list (nat * string)) (p : Pipe) : Pipe :=
  {| p_eof := p_eof p; p_main := p_main p; p_sock := s; p_lock := l; p_queue := q;
     p_relays := p_relays p; p_store := p_store p; p_history := p_history p |}.
Definition p_set_relays (rs : list relay) (q : list (nat * string)) (p : Pipe) : Pipe :=
  {| p_eof := p_eof p; p_main := p_main p; p_sock := p_sock p; p_lock := p_lock p; p_queue := q;
     p_relays := rs; p_store := p_store p; p_history := p_history p |}.
Definition p_say (o : origin) (e : string * string) (p : Pipe) : Pipe :=
  {| p_eof := p_eof p; p_main := p_main p; p_sock := p_sock p; p_lock := p_lock p; p_queue := p_queue p;
     p_relays := p_relays p; p_store := append e.1 e.2 (p_store p);
     p_history := (p_history p ++ [(o, e)])%list |}.

Definition listening (s : sock_pc) : bool := match s with SBind | SDead => false | _ => true end.

(** main: the store and its directory, the collector thread, then the standard input. *)
Definition logd_main (files : gmap string string) (o : lio) (eof : bool)
    (input : list (result string string)) (relays : list relay) : Pipe :=
  {| p_eof := eof; p_main := MLock input; p_sock := SBind; p_lock := None; p_queue := []; p_relays := relays;
     p_store := log_new (10 * 1024 * 1024) files o; p_history := [] |}.

(** A step of a relay thread: the line it read, and the datagram it sends for it. *)
Inductive relay_step (i : nat) (s : sock_pc) : relay → list (nat * string) → relay → list (nat * string) → Prop :=
| relay_end r q e rest :      (** a read error: the thread ends and closes the pipe *)
    rl_lines r = Err e :: rest → relay_step i s r q (rl_with_lines [] r) q
| relay_skip r q line rest :
    rl_lines r = Ok line :: rest → line = "" ∨ rl_sock r = false →
    relay_step i s r q (rl_with_lines rest r) q
| relay_sent r q line rest :
    rl_lines r = Ok line :: rest → line ≠ "" → rl_sock r = true →
    listening s = true → fits (relay_message (rl_name r) line) = true → (length q < capacity)%nat →
    relay_step i s r q (rl_with_lines rest r) (q ++ [(i, relay_message (rl_name r) line)])%list
| relay_lost r q line rest :  (** nobody listens, or the datagram is too long: [send_to] fails *)
    rl_lines r = Ok line :: rest → line ≠ "" → rl_sock r = true →
    listening s = false ∨ fits (relay_message (rl_name r) line) = false →
    relay_step i s r q (rl_with_lines rest r) q.

Inductive pipe_step : Pipe → Pipe → Prop :=
| step_main_lock p input :
    p_main p = MLock input → p_lock p = None →
    pipe_step p (p_set_main (MStdin input) (Some MainThread) p)
| step_main_line p line input :
    p_main p = MStdin (Ok line :: input) →
    pipe_step p (p_set_main (MStdin input) (p_lock p)
                   (if bool_decide (line = "") then p else p_say Stdin ("stdin", line) p))
| step_main_done p input :    (** the end of the input, or an error: the guard is dropped *)
    p_main p = MStdin input → (input = [] ∧ p_eof p = true) ∨ (∃ e rest, input = Err e :: rest) →
    pipe_step p (p_set_main MParked None p)
| step_sock_bind p :
    p_sock p = SBind → pipe_step p (p_set_sock SRecv (p_lock p) [] p)
| step_sock_bind_failed p :
    p_sock p = SBind → recv_fails = true → pipe_step p (p_set_sock SDead (p_lock p) [] p)
| step_sock_recv p i data rest :
    p_sock p = SRecv → p_queue p = (i, data) :: rest →
    pipe_step p (p_set_sock (match datagram_entry data with Some _ => SWait i data | None => SRecv end) (p_lock p) rest p)
| step_sock_error p :
    p_sock p = SRecv → recv_fails = true → pipe_step p (p_set_sock SDead (p_lock p) [] p)
| step_sock_lock p i data :
    p_sock p = SWait i data → p_lock p = None →
    pipe_step p (p_set_sock (SHold i data) (Some SocketThread) (p_queue p) p)
| step_sock_append p i data e :
    p_sock p = SHold i data → datagram_entry data = Some e →
    pipe_step p (p_set_sock SRecv None (p_queue p) (p_say (Service i) e p))
| step_relay p l1 r l2 r' q :
    p_relays p = (l1 ++ r :: l2)%list → relay_step (length l1) (p_sock p) r (p_queue p) r' q →
    pipe_step p (p_set_relays (l1 ++ r' :: l2)%list q p).

(** ** What is said *)

Definition of_origin (o : origin) (h : list (origin * (string * string))) : list (string * string) :=
  (filter (λ x, x.1 = o) h).*2.

Definition queued (i : nat) (q : list (nat * string)) : list string := (filter (λ x, x.1 = i) q).*2.

(** The datagram the collector has in its hands. *)
Definition in_hand (i : nat) (s : sock_pc) : list string :=
  match s with
  | SWait j data | SHold j data => if decide (j = i) then [data] else []
  | _ => []
  end.

Definition to_send (r : relay) : list string := relay_logs (rl_sock r) (rl_name r) (rl_lines r).

(** Those of them that the socket takes. *)
Definition accepted (r : relay) : list string := filter (λ m, fits m = true) (to_send r).

(** What of a service is on its way: in the collector's hands, queued, or to come. *)
Definition waiting (i : nat) (p : Pipe) : list string :=
  (in_hand i (p_sock p) ++ queued i (p_queue p) ++ default [] (accepted <$> p_relays p !! i))%list.
(** All of it, with what has arrived in the store. *)
Definition carried (i : nat) (p : Pipe) : list (string * string) :=
  (of_origin (Service i) (p_history p) ++ omap datagram_entry (waiting i p))%list.

Definition stdin_left (m : main_pc) : list string :=
  match m with MLock input | MStdin input => spoken input | MParked => [] end.
Definition stdin_carried (p : Pipe) : list (string * string) :=
  (of_origin Stdin (p_history p) ++ map (λ l, ("stdin", l)) (stdin_left (p_main p)))%list.

(** ** Whatever the schedule *)

(** The mutex is held by the thread that is inside its critical section, and by no two. *)
Definition lock_ok (m : main_pc) (s : sock_pc) (l : option thread) : Prop :=
  match m, s with
  | MStdin _, SHold _ _ => False
  | MStdin _, _ => l = Some MainThread
  | _, SHold _ _ => l = Some SocketThread
  | _, _ => l = None
  end.

(** The store is what the history gives, and a datagram in hand says something. *)
Record pipe_inv (d0 : Logd) (p : Pipe) : Prop := {
  inv_lock : lock_ok (p_main p) (p_sock p) (p_lock p);
  inv_store : p_store p = append_all (p_history p).*2 d0;
  inv_hand : ∀ i, Forall (λ data, is_Some (datagram_entry data)) (in_hand i (p_sock p));
}.

Lemma append_all_snoc es e d : append_all (es ++ [e])%list d = append e.1 e.2 (append_all es d).
Proof. unfold append_all. by rewrite foldl_app. Qed.

Lemma of_origin_snoc o h x :
  of_origin o (h ++ [x])%list = (of_origin o h ++ (if decide (x.1 = o) then [x.2] else []))%list.
Proof. unfold of_origin. rewrite filter_app, fmap_app. f_equal. rewrite filter_cons. by repeat case_decide. Qed.

Lemma queued_snoc i q x :
  queued i (q ++ [x])%list = (queued i q ++ (if decide (x.1 = i) then [x.2] else []))%list.
Proof. unfold queued. rewrite filter_app, fmap_app. f_equal. rewrite filter_cons. by repeat case_decide. Qed.

Lemma queued_cons i j data q :
  queued i ((j, data) :: q) = ((if decide (j = i) then [data] else []) ++ queued i q)%list.
Proof. unfold queued. rewrite filter_cons. by repeat case_decide. Qed.

Lemma say_store o e d0 p :
  p_store p = append_all (p_history p).*2 d0 →
  p_store (p_say o e p) = append_all (p_history (p_say o e p)).*2 d0.
Proof. cbn. intros ->. rewrite fmap_app. symmetry. apply (append_all_snoc _ e). Qed.

Lemma pipe_inv_step d0 p p' : pipe_inv d0 p → pipe_step p p' → pipe_inv d0 p'.
Proof.
  intros [Hl Hst Hh] Hstep. destruct Hstep as
    [p input Em El|p line input Em|p input Em He|p Es|p Es _|p i data rest Es Eq|p Es _
    |p i data Es El|p i data e Es Ee|p l1 r l2 r' q Er Hr]; split; cbn [p_set_main p_set_sock p_set_relays
      p_main p_sock p_lock p_store p_history]; try rewrite Em in Hl; try rewrite Es in Hl, Hh;
    try done; try (by case_bool_decide; [|apply say_store]); try (by apply say_store).
  - rewrite El in Hl. by destruct (p_sock p).
  - by case_bool_decide.
  - by case_bool_decide.
  - by destruct (p_sock p).
  - by destruct (datagram_entry data), (p_main p).
  - intros j. destruct (datagram_entry data) eqn:Ed; [|constructor]. cbn. case_decide; [|constructor].
    constructor; [by rewrite Ed|constructor].
  - rewrite El in Hl. by destruct (p_main p).
  - by cbn; destruct (p_main p).
Qed.

Lemma in_hand_queued_cons i j data q :
  omap datagram_entry (in_hand i (match datagram_entry data with Some _ => SWait j data | None => SRecv end)
                       ++ queued i q)%list =
  omap datagram_entry (queued i ((j, data) :: q)).
Proof.
  rewrite queued_cons, !omap_app. f_equal.
  destruct (datagram_entry data) eqn:Ed; cbn; repeat case_decide; cbn; by rewrite ?Ed.
Qed.

(** ** In order and once *)

Lemma to_send_step r line rest :
  rl_lines r = Ok line :: rest →
  to_send r = ((if bool_decide (line = "") then [] else
                if rl_sock r then [relay_message (rl_name r) line] else []) ++
               to_send (rl_with_lines rest r))%list.
Proof.
  intros Hr. unfold to_send, relay_logs. rewrite Hr. destruct r as [n b l]. cbn.
  destruct b; repeat case_bool_decide; done.
Qed.

Lemma accepted_step r line rest :
  rl_lines r = Ok line :: rest →
  accepted r = ((if bool_decide (line = "") then [] else
                 if rl_sock r && fits (relay_message (rl_name r) line)
                 then [relay_message (rl_name r) line] else []) ++ accepted (rl_with_lines rest r))%list.
Proof.
  intros Hr. unfold accepted. rewrite (to_send_step r line rest Hr), filter_app. f_equal.
  case_bool_decide; [done|]. destruct (rl_sock r); [|done]. rewrite filter_cons. by case_decide as Hf; destruct (fits _).
Qed.

(** What a step of a relay does to its own lines and to those of the others. *)
Lemma relay_step_queued i s r q r' q' :
  relay_step i s r q r' q' →
  (∀ j, j ≠ i → queued j q' = queued j q) ∧
  (queued i q' ++ accepted r' `sublist_of` queued i q ++ accepted r)%list ∧
  (listening s = true → (queued i q' ++ accepted r' = queued i q ++ accepted r)%list).
Proof.
  intros [r0 q0 e rest Hr|r0 q0 line rest Hr Hskip|r0 q0 line rest Hr Hne Hs _ Hfit _
         |r0 q0 line rest Hr Hne Hs Hlost].
  - assert (accepted r0 = []) as -> by (unfold accepted, to_send, relay_logs; rewrite Hr; by destruct (rl_sock r0)).
    assert (accepted (rl_with_lines [] r0) = []) as ->
      by (unfold accepted, to_send, relay_logs; cbn; by destruct (rl_sock r0)). done.
  - rewrite (accepted_step r0 line rest Hr).
    assert ((if bool_decide (line = "") then [] else
             if rl_sock r0 && fits (relay_message (rl_name r0) line)
             then [relay_message (rl_name r0) line] else []) = []) as ->.
    { destruct Hskip as [-> | ->]; [done|by case_bool_decide]. }
    done.
  - rewrite (accepted_step r0 line rest Hr), bool_decide_eq_false_2, Hs, Hfit by done. cbn [app andb].
    split; [|split].
    + intros j Hj. rewrite queued_snoc. cbn [fst snd]. rewrite decide_False by done. apply app_nil_r.
    + rewrite queued_snoc. cbn [fst snd]. rewrite decide_True, <-app_assoc by done. reflexivity.
    + intros _. rewrite queued_snoc. cbn [fst snd]. by rewrite decide_True, <-app_assoc by done.
  - rewrite (accepted_step r0 line rest Hr), bool_decide_eq_false_2, Hs by done. cbn [andb].
    split; [done|]. split.
    + apply sublist_app; [reflexivity|]. by apply sublist_inserts_l.
    + intros Hl. destruct Hlost as [Hlost|Hlost]; [congruence|]. by rewrite Hlost.
Qed.

(** Nothing that the socket takes is lost while somebody listens. *)
Definition lossless (p : Pipe) : Prop := recv_fails = false ∧ listening (p_sock p) = true.

Lemma sublist_omap {A B} (f : A → option B) (l k : list A) :
  l `sublist_of` k → omap f l `sublist_of` omap f k.
Proof.
  unfold omap. induction 1 as [|x l k _ IH|x l k _ IH]; cbn; [done|..]; destruct (f x);
    by try constructor.
Qed.

(** Closing the socket drops its queue. *)
Lemma carried_drop i s p :
  in_hand i s = [] → in_hand i (p_sock p) = [] →
  carried i (p_set_sock s (p_lock p) [] p) `sublist_of` carried i p.
Proof.
  intros H1 H2. unfold carried, waiting. cbn. rewrite H1, H2. apply sublist_app; [done|]. apply sublist_omap.
  cbn [app]. by apply sublist_inserts_l.
Qed.

(** A step keeps what each source still has to say or has said, up to what is lost. *)
Lemma carried_step p p' i :
  pipe_step p p' →
  (carried i p' `sublist_of` carried i p) ∧
  (lossless p → carried i p' = carried i p).
Proof.
  assert (∀ l k : list (string * string), l = k → (l `sublist_of` k) ∧ (lossless p → l = k)) as Heq
    by (intros l k ->; done).
  intros Hstep. destruct Hstep as
    [p input Em El|p line input Em|p input Em He|p Es|p Es Ef|p j data rest Es Eq|p Es Ef
    |p j data Es El|p j data e Es Ee|p l1 r l2 r' q Er Hr].
  - by apply Heq.
  - apply Heq. unfold carried, waiting. case_bool_decide; [done|]. cbn [p_say p_set_main p_history p_sock p_queue p_relays].
    rewrite of_origin_snoc. cbn [fst]. rewrite decide_False by done. by rewrite app_nil_r.
  - by apply Heq.
  - split; [by apply carried_drop; [|rewrite Es]|]. intros [_ Hl]. by rewrite Es in Hl.
  - split; [by apply carried_drop; [|rewrite Es]|]. intros [Hf _]. congruence.
  - apply Heq. unfold carried, waiting. cbn [p_set_sock p_history p_sock p_queue p_relays]. rewrite Es, Eq.
    f_equal. rewrite !(assoc_L (++)), !omap_app. f_equal. rewrite <-omap_app. by rewrite in_hand_queued_cons.
  - split; [by apply carried_drop; [|rewrite Es]|]. intros [Hf _]. congruence.
  - apply Heq. unfold carried, waiting. cbn [p_set_sock p_history p_sock p_queue p_relays]. by rewrite Es.
  - apply Heq. unfold carried, waiting. cbn [p_set_sock p_say p_history p_sock p_queue p_relays]. rewrite Es.
    rewrite of_origin_snoc. cbn [fst snd in_hand]. destruct (decide (j = i)) as [->|Hne].
    + rewrite decide_True by done. rewrite <-app_assoc. cbn. by rewrite Ee.
    + rewrite decide_False by congruence. by rewrite app_nil_r.
  - destruct (relay_step_queued _ _ _ _ _ _ Hr) as (Ho & Hsub & Hall). unfold carried, waiting.
    cbn [p_set_relays p_history p_sock p_queue p_relays]. rewrite Er.
    destruct (decide (i = length l1)) as [->|Hne].
    + rewrite !list_lookup_middle by done. cbn [fmap option_fmap option_map from_option id].
      split; [by apply sublist_app, sublist_omap, sublist_app|]. intros [_ Hl].
      by rewrite (Hall Hl).
    + rewrite Ho, (lookup_middle_ne l1 r r') by done. done.
Qed.

Lemma lossless_step p p' : lossless p → pipe_step p p' → lossless p'.
Proof.
  intros [Hf Hl] Hstep. split; [done|]. destruct Hstep as
    [p input Em El|p line input Em|p input Em He|p Es|p Es Ef|p j data rest Es Eq|p Es Ef
    |p j data Es El|p j data e Es Ee|p l1 r l2 r' q Er Hs]; cbn; try done; try congruence.
  - by case_bool_decide.
  - by destruct (datagram_entry data).
Qed.

Lemma stdin_step p p' : pipe_step p p' → stdin_carried p' = stdin_carried p.
Proof.
  intros Hstep. destruct Hstep as
    [p input Em El|p line input Em|p input Em He|p Es|p Es Ef|p j data rest Es Eq|p Es Ef
    |p j data Es El|p j data e Es Ee|p l1 r l2 r' q Er Hs]; unfold stdin_carried; try done.
  - cbn. by rewrite Em.
  - rewrite Em. cbn [stdin_left spoken]. case_bool_decide as Hl; [done|].
    cbn [p_set_main p_say p_history p_main stdin_left]. rewrite of_origin_snoc. cbn [fst snd].
    by rewrite decide_True, <-app_assoc by done.
  - cbn. rewrite Em. by destruct He as [[-> _] | (e & rest & ->)].
  - cbn [p_set_sock p_say p_history p_main]. rewrite of_origin_snoc. cbn [fst].
    by rewrite decide_False, app_nil_r by done.
Qed.
(** ** Every schedule ends *)

Definition main_weight (m : main_pc) : nat :=
  match m with MLock input => 2 + length input | MStdin input => 1 + length input | MParked => 0 end.
Definition sock_weight (s : sock_pc) : nat :=
  match s with SBind => 2 | SRecv => 1 | SWait _ _ => 3 | SHold _ _ => 2 | SDead => 0 end.
Definition pipe_weight (p : Pipe) : nat :=
  main_weight (p_main p) + sock_weight (p_sock p) + 4 * length (p_queue p) +
  5 * sum_list_with (λ r, length (rl_lines r)) (p_relays p).

Lemma relay_weight i s r q r' q' :
  relay_step i s r q r' q' →
  (4 * length q' + 5 * length (rl_lines r') < 4 * length q + 5 * length (rl_lines r))%nat.
Proof.
  intros [r0 q0 e rest Hr|r0 q0 line rest Hr _|r0 q0 line rest Hr _ _ _ _ _|r0 q0 line rest Hr _ _ _];
    rewrite Hr; cbn; rewrite ?length_app; cbn; lia.
Qed.

Lemma step_weight p p' : pipe_step p p' → (pipe_weight p' < pipe_weight p)%nat.
Proof.
  intros Hstep. unfold pipe_weight. destruct Hstep as
    [p input Em El|p line input Em|p input Em He|p Es|p Es Ef|p j data rest Es Eq|p Es Ef
    |p j data Es El|p j data e Es Ee|p l1 r l2 r' q Er Hs];
    cbn [p_set_main p_set_sock p_set_relays p_say p_main p_sock p_queue p_relays];
    rewrite ?Em, ?Es, ?Eq, ?Er; cbn [main_weight sock_weight length]; try lia.
  - case_bool_decide; cbn; lia.
  - destruct (datagram_entry data); cbn; lia.
  - apply relay_weight in Hs. rewrite !sum_list_with_app. cbn. lia.
Qed.

Lemma run_bounded n p p' : nsteps pipe_step n p p' → (n + pipe_weight p' ≤ pipe_weight p)%nat.
Proof.
  induction 1 as [|n p1 p2 p3 Hstep _ IH]; [lia|]. apply step_weight in Hstep. lia.
Qed.

(** ** No schedule deadlocks *)

Definition idle (p : Pipe) : Prop :=
  p_main p = MParked ∧ p_sock p = SRecv ∧ p_queue p = [] ∧ Forall (λ r, rl_lines r = []) (p_relays p).

Lemma relay_can_step i s r q :
  rl_lines r ≠ [] → listening s = true → (length q < capacity)%nat → ∃ r' q', relay_step i s r q r' q'.
Proof.
  intros Hne Hl Hq. destruct (rl_lines r) as [|[line|e] rest] eqn:E; [done| |].
  - destruct (decide (line = "" ∨ rl_sock r = false)) as [Hs|Hs].
    + eexists _, _. by eapply relay_skip.
    + assert (line ≠ "" ∧ rl_sock r = true) as [H1 H2] by (destruct (rl_sock r); naive_solver).
      destruct (fits (relay_message (rl_name r) line)) eqn:Ef; eexists _, _.
      * by eapply relay_sent.
      * eapply relay_lost; eauto.
  - eexists _, _. by eapply relay_end.
Qed.

Definition stuck (p : Pipe) : Prop := ∀ p', ¬ pipe_step p p'.

Lemma stuck_no_hold d0 p : pipe_inv d0 p → stuck p → ∀ i data, p_sock p ≠ SHold i data.
Proof.
  intros [_ _ Hh] Hstuck i data Es. specialize (Hh i). rewrite Es in Hh. cbn in Hh.
  rewrite decide_True in Hh by done. apply Forall_inv in Hh as [e He]. eapply Hstuck, step_sock_append; eauto.
Qed.

(** The main thread rests when it is parked, or in a read of an input that stays open. *)
Lemma stuck_main d0 p :
  pipe_inv d0 p → stuck p → p_main p = MParked ∨ (p_main p = MStdin [] ∧ p_eof p = false).
Proof.
  intros Hinv Hstuck. pose proof (stuck_no_hold d0 p Hinv Hstuck) as Hhold. destruct Hinv as [Hl _ _].
  destruct (p_main p) as [input|[|[line|e] input]|] eqn:Em; [exfalso| |exfalso..|by left].
  - destruct (p_lock p) eqn:El; [|by eapply Hstuck, step_main_lock].
    destruct (p_sock p); try done. by destruct (Hhold from data).
  - destruct (p_eof p) eqn:Ee; [|by right]. exfalso. eapply Hstuck, step_main_done; eauto.
  - by eapply Hstuck, step_main_line.
  - eapply Hstuck, step_main_done; eauto.
Qed.

Lemma stuck_idle d0 p :
  pipe_inv d0 p → listening (p_sock p) = true → (0 < capacity)%nat → stuck p →
  p_main p = MParked → idle p.
Proof.
  intros Hinv Hls Hcap Hstuck Em. pose proof (stuck_no_hold d0 p Hinv Hstuck) as Hhold.
  destruct Hinv as [Hl _ _].
  assert (p_sock p = SRecv) as Es.
  { destruct (p_sock p) as [| |i data|i data|] eqn:Es; try done; [|by destruct (Hhold i data)].
    exfalso. rewrite Em in Hl. by eapply Hstuck, step_sock_lock. }
  assert (p_queue p = []) as Eq.
  { destruct (p_queue p) as [|[i data] rest] eqn:Eq; [done|]. exfalso. by eapply Hstuck, step_sock_recv. }
  split_and!; try done. apply Forall_forall. intros r (l1 & l2 & Er)%list_elem_of_split.
  destruct (decide (rl_lines r = [])) as [|Hne]; [done|]. exfalso.
  destruct (relay_can_step (length l1) (p_sock p) r (p_queue p)) as (r' & q' & Hs); [done|done|by rewrite Eq|].
  by eapply Hstuck, step_relay.
Qed.

(** ** The end of the standard input *)

(** Whether [collect_stdin] comes back from this input: it ends, or a line of it is an error. *)
Definition ends (eof : bool) (input : list (result string string)) : bool :=
  eof || existsb (λ l, match l with Err _ => true | Ok _ => false end) input.

Definition main_ends (p : Pipe) : bool :=
  match p_main p with MLock input | MStdin input => ends (p_eof p) input | MParked => true end.

Lemma main_ends_step p p' : pipe_step p p' → main_ends p' = main_ends p.
Proof.
  intros Hstep. destruct Hstep as
    [p input Em El|p line input Em|p input Em He|p Es|p Es Ef|p j data rest Es Eq|p Es Ef
    |p j data Es El|p j data e Es Ee|p l1 r l2 r' q Er Hs]; unfold main_ends; try done; cbn; rewrite Em.
  - done.
  - by case_bool_decide.
  - destruct He as [[-> ->]|(e & rest & ->)]; [done|]. unfold ends. cbn. by rewrite orb_true_r.
Qed.

(** ** From service to store *)

(** A service whose lines travel whole: its name is no two fields, and a datagram with a
    line of it fits the buffer of the collector. *)
Record service_ok (r : relay) : Prop := {
  ok_sock : rl_sock r = true;
  ok_name : str_all (λ c, negb (Ascii.eqb (Ascii.ascii_of_nat 9) c)) (rl_name r) = true;
  ok_utf8 : valid_utf8 (rl_name r) = true;
  ok_lines : ∃ data stop, rl_lines r = buf_lines data stop;
  ok_size : Forall (λ line, let m := relay_message (rl_name r) line in len m ≤ 8192 ∧ fits m = true)
              (spoken (rl_lines r));
}.

Lemma spoken_app_valid l k :
  Forall (λ x, ∀ line, x = Ok line → valid_utf8 line = true) (l ++ k)%list →
  Forall (λ line, valid_utf8 line = true) (spoken (l ++ k)%list).
Proof.
  generalize (l ++ k)%list. intros x. induction 1 as [|[line|e] x Hx _ IH]; cbn; try by constructor.
  case_bool_decide; [done|]. constructor; auto.
Qed.

Lemma utf8_line_valid s line : utf8_line s = Ok line → valid_utf8 line = true.
Proof. unfold utf8_line. destruct (valid_utf8 s) eqn:E; naive_solver. Qed.

(** What is read as a line is UTF-8. *)
Lemma spoken_valid data stop : Forall (λ line, valid_utf8 line = true) (spoken (buf_lines data stop)).
Proof.
  apply spoken_app_valid, Forall_app. split.
  - apply Forall_map, Forall_true. intros x line. apply utf8_line_valid.
  - destruct stop as [e|]; [by constructor|]. case_bool_decide; [constructor|].
    constructor; [|constructor]. intros line. apply utf8_line_valid.
Qed.

(** A relayed line is read back as it was, under the service's name. *)
Lemma datagram_of_relay name line :
  str_all (λ c, negb (Ascii.eqb (Ascii.ascii_of_nat 9) c)) name = true →
  valid_utf8 name = true → valid_utf8 line = true → len (relay_message name line) ≤ 8192 →
  datagram_entry (relay_message name line) = Some (name, line).
Proof.
  intros Ht Hn Hl Hlen. unfold datagram_entry. unfold len in Hlen.
  rewrite take_bytes_short by lia. rewrite bool_decide_eq_false_2; [|by destruct name].
  unfold parse_datagram. rewrite lossy_valid.
  - unfold relay_message, split_once, tab. change (bytes_str [9]%nat) with (String (Ascii.ascii_of_nat 9) "").
    by rewrite find_sub_first.
  - apply valid_app; [done|]. by apply valid_app.
Qed.

Lemma said_by_service r :
  service_ok r →
  omap datagram_entry (accepted r) = map (λ line, (rl_name r, line)) (spoken (rl_lines r)).
Proof.
  intros [Hs Ht Hu (data & stop & Hl) Hz]. unfold accepted, to_send, relay_logs. rewrite Hs.
  pose proof (spoken_valid data stop) as Hv. rewrite <-Hl in Hv. clear Hl.
  induction (spoken (rl_lines r)) as [|line ls IH]; [done|].
  apply Forall_cons in Hz as [[Hz1 Hz2] Hz]. apply Forall_cons in Hv as [Hv1 Hv].
  cbn [map]. rewrite filter_cons, decide_True by done. unfold omap in *. cbn [list_omap].
  rewrite datagram_of_relay by done. by rewrite (IH Hz Hv).
Qed.

Lemma reach_inv files o eof input relays p :
  rtc pipe_step (logd_main files o eof input relays) p →
  pipe_inv (log_new (10 * 1024 * 1024) files o) p ∧
  main_ends p = ends eof input ∧
  stdin_carried p = map (λ l, ("stdin", l)) (spoken input) ∧
  ∀ i, carried i p `sublist_of` omap datagram_entry (default [] (accepted <$> relays !! i)).
Proof.
  revert p. apply rtc_ind_r.
  - split; [by split|]. split; [done|]. split; [done|]. intros i. done.
  - intros p p' _ Hstep (Hinv & He & Hin & Hc). split; [by eapply pipe_inv_step|].
    split; [by rewrite (main_ends_step p)|].
    split; [by rewrite (stdin_step p)|]. intros i. etrans; [|apply Hc]. by apply carried_step.
Qed.

(** Under every schedule and every fault, the mutex keeps the two threads of the daemon
    apart, the store is the result of appending the entries of the history one after the
    other, the lines of the standard input are stored in order and completely up to the
    one being read, and those of a service in order and at most once. *)
Theorem log_order_kept files o eof input relays p :
  rtc pipe_step (logd_main files o eof input relays) p →
  lock_ok (p_main p) (p_sock p) (p_lock p) ∧
  p_store p = append_all (p_history p).*2 (log_new (10 * 1024 * 1024) files o) ∧
  (of_origin Stdin (p_history p) ++ map (λ l, ("stdin", l)) (stdin_left (p_main p)))%list =
    map (λ l, ("stdin", l)) (spoken input) ∧
  ∀ i r, relays !! i = Some r →
    of_origin (Service i) (p_history p) `sublist_of` omap datagram_entry (accepted r).
Proof.
  intros Hrun. destruct (reach_inv _ _ _ _ _ _ Hrun) as ([Hl Hst _] & _ & Hin & Hc).
  split_and!; [done..|]. intros i r Hr. specialize (Hc i). rewrite Hr in Hc. etrans; [|exact Hc].
  by apply sublist_inserts_r.
Qed.

(** The daemon once its socket is bound. *)
Definition logd_bound files o eof input relays : Pipe :=
  p_set_sock SRecv None [] (logd_main files o eof input relays).

Lemma bound_reachable files o eof input relays :
  pipe_step (logd_main files o eof input relays) (logd_bound files o eof input relays).
Proof. by apply (step_sock_bind (logd_main files o eof input relays)). Qed.

(** ** The open standard input *)

(** As long as the main thread reads the standard input, no datagram is stored: nothing of
    any service is added between two such states. *)
Lemma stdin_keeps_lock d0 p p' input' :
  pipe_inv d0 p → (∃ input, p_main p = MStdin input) → pipe_step p p' → p_main p' = MStdin input' →
  ∀ i, of_origin (Service i) (p_history p') = of_origin (Service i) (p_history p).
Proof.
  intros [Hl _ _] [input Em] Hstep Em' i. rewrite Em in Hl. destruct Hstep as
    [p ? Em1 ?|p line ? Em1|p ? Em1 He|p Es|p Es Ef|p j data rest Es Eq|p Es Ef
    |p j data Es El|p j data e Es Ee|p l1 r l2 r' q Er Hs]; try done.
  - case_bool_decide; [done|]. cbn [p_set_main p_say p_history]. rewrite of_origin_snoc.
    cbn [fst]. rewrite decide_False by done. by rewrite app_nil_r.
  - rewrite Es in Hl. done.
Qed.

Lemma parked_stays p p' : pipe_step p p' → p_main p = MParked → p_main p' = MParked.
Proof. intros Hstep Hm. destruct Hstep; cbn; try congruence. Qed.

Theorem socket_waits_for_stdin files o eof input relays p p' input1 input2 :
  rtc pipe_step (logd_main files o eof input relays) p → p_main p = MStdin input1 →
  rtc pipe_step p p' → p_main p' = MStdin input2 →
  ∀ i, of_origin (Service i) (p_history p') = of_origin (Service i) (p_history p).
Proof.
  intros Hreach Hm1 Hrun Hm2 i. apply reach_inv in Hreach as (Hinv & _). revert input1 Hm1 Hinv.
  induction Hrun as [p|p p1 p' Hstep Hrun IH]; intros input1 Hm1 Hinv; [done|].
  assert (∃ input3, p_main p1 = MStdin input3) as [input3 Hm3].
  { destruct (p_main p1) as [l|l|] eqn:E; [|by eauto|].
    - destruct Hstep; cbn in E; repeat case_bool_decide; cbn in *; congruence.
    - exfalso. assert (p_main p' = MParked); [|congruence]. clear -Hrun E.
      induction Hrun as [|x y z Hs _ IH]; [done|]. apply IH. by eapply parked_stays. }
  rewrite (IH Hm2 input3 Hm3 (pipe_inv_step _ _ _ Hinv Hstep)).
  eapply stdin_keeps_lock; eauto.
Qed.
Lemma bound_run files o eof input relays p :
  recv_fails = false → rtc pipe_step (logd_bound files o eof input relays) p →
  lossless p ∧ ∀ i, carried i p = omap datagram_entry (default [] (accepted <$> relays !! i)).
Proof.
  intros Hf. revert p. apply rtc_ind_r.
  - split; [|done]. by split.
  - intros p p' _ Hstep (Hl & Hc). split; [by eapply lossless_step|]. intros i.
    rewrite <-Hc. by apply carried_step.
Qed.

Lemma idle_carried i p : idle p → carried i p = of_origin (Service i) (p_history p).
Proof.
  intros (_ & Hs & Hq & Hr). unfold carried, waiting. rewrite Hs, Hq. cbn.
  destruct (p_relays p !! i) as [r|] eqn:Er; cbn; [|by rewrite app_nil_r].
  apply (proj1 (Forall_lookup _ _) Hr) in Er. unfold accepted, to_send, relay_logs. rewrite Er.
  destruct (rl_sock r); by rewrite app_nil_r.
Qed.

(** What is in the store when the threads rest: with an input that ended, all that the socket
    took; with one that is open, what came before the main thread had the lock. *)
Definition all_stored (relays : list relay) (p : Pipe) : Prop :=
  idle p ∧
  ∀ i r, relays !! i = Some r →
    of_origin (Service i) (p_history p) = omap datagram_entry (accepted r) ∧
    (service_ok r →
     of_origin (Service i) (p_history p) = map (λ l, (rl_name r, l)) (spoken (rl_lines r))).
Definition held_up (relays : list relay) (p0 p : Pipe) : Prop :=
  p_main p = MStdin [] ∧ p_lock p = Some MainThread ∧
  ∀ i r, relays !! i = Some r →
    (of_origin (Service i) (p_history p) ++ omap datagram_entry (waiting i p))%list =
      omap datagram_entry (accepted r) ∧
    ∀ p1 input1, rtc pipe_step p0 p1 → p_main p1 = MStdin input1 → rtc pipe_step p1 p →
      of_origin (Service i) (p_history p) = of_origin (Service i) (p_history p1).

(** C39: Once the log daemon's socket is bound, and as long as receiving does not fail,
    every schedule of its two threads and the relay threads of the services comes to rest,
    after a bounded number of steps, with every line of the standard input up to its first
    malformed one in the store, and recent answers the newest entries. If the standard input
    ends (or has a malformed line), everything the socket took of each service is in the
    store in its order, each datagram cut to 8192 bytes; that is every line up to the first
    malformed one, under the service's name, for a service with a UTF-8 name without tabs
    whose datagrams the socket takes and are at most 8192 bytes long. If it stays open, the
    main thread keeps the lock for ever: nothing of a service is stored after it took it,
    and the rest waits in the socket or the relays. *)
Theorem every_line_logged files o eof input relays :
  recv_fails = false → (0 < capacity)%nat →
  let p0 := logd_bound files o eof input relays in
  (∀ n p, nsteps pipe_step n p0 p → (n ≤ pipe_weight p0)%nat) ∧
  ∀ p, rtc pipe_step p0 p → stuck p →
    of_origin Stdin (p_history p) = map (λ l, ("stdin", l)) (spoken input) ∧
    (∀ n, map said (recent n (ld_store (p_store p))) = take n (take 1000 (reverse (p_history p).*2))) ∧
    (if ends eof input then all_stored relays p else held_up relays p0 p).
Proof.
  intros Hf Hcap p0. split.
  { intros n p Hn. apply run_bounded in Hn. lia. }
  intros p Hrun Hstuck. destruct (bound_run _ _ _ _ _ _ Hf Hrun) as [[_ Hl] Hc].
  assert (∀ p, rtc pipe_step p0 p → rtc pipe_step (logd_main files o eof input relays) p) as Hfrom
    by (intros; eapply rtc_l; [apply bound_reachable|done]).
  destruct (reach_inv files o eof input relays p) as (Hinv & He & Hin & _); [by apply Hfrom|].
  assert (∀ i r, relays !! i = Some r → carried i p = omap datagram_entry (accepted r)) as Hall
    by (intros i r Hi; by rewrite Hc, Hi).
  pose proof (stuck_main _ p Hinv Hstuck) as Hmain. split; [|split].
  - unfold stdin_carried in Hin. destruct Hmain as [Hm|[Hm _]]; rewrite Hm in Hin; cbn in Hin;
      by rewrite app_nil_r in Hin.
  - intros n. rewrite (inv_store _ _ Hinv). apply recent_newest_first.
  - rewrite <-He. unfold main_ends. destruct Hmain as [Hm|[Hm Heof]]; rewrite Hm.
    + pose proof (stuck_idle _ p Hinv Hl Hcap Hstuck Hm) as Hidle. split; [done|]. intros i r Hi.
      assert (of_origin (Service i) (p_history p) = omap datagram_entry (accepted r)) as Hi'
        by (by rewrite <-(Hall i r Hi), idle_carried). split; [done|].
      intros Hok. by rewrite Hi', said_by_service.
    + rewrite Heof. cbn. split; [done|]. split.
      { pose proof (inv_lock _ _ Hinv) as Hlk. rewrite Hm in Hlk. by destruct (p_sock p). }
      intros i r Hi. split; [by apply Hall|]. intros p1 input1 H1 Hm1 Hrun1.
      by eapply (socket_waits_for_stdin files o eof input relays p1 p); eauto.
Qed.

(** The loops of collector.rs, run alone, are these entries appended one by one. *)
Lemma collect_stdin_spoken lines d :
  (collect_stdin lines d).2 = append_all (map (λ l, ("stdin", l)) (spoken lines)) d.
Proof.
  revert d. induction lines as [|[line|e] lines IH]; intros d; cbn; [done| |done].
  rewrite IH. by case_bool_decide.
Qed.

Lemma collect_socket_cons data datagrams d :
  collect_socket (Received data :: datagrams) d =
  collect_socket datagrams (append_all (option_list (datagram_entry data)) d).
Proof. cbn [collect_socket]. by destruct (datagram_entry data) as [[]|]. Qed.

Lemma collect_socket_entries datagrams d :
  collect_socket (map Received datagrams) d = (Ok (), append_all (omap datagram_entry datagrams) d).
Proof.
  revert d. induction datagrams as [|data ds IH]; intros d; [done|]. cbn [map].
  rewrite collect_socket_cons, IH. change (data :: ds) with ([data] ++ ds)%list. rewrite omap_app.
  unfold append_all. rewrite foldl_app. cbn. by destruct (datagram_entry data).
Qed.

End pipe.

(** ** Two services and an open input *)

#[export] Instance small_pipe : PipeSys := {| capacity := 2; fits := λ _, true; recv_fails := false |}.

Definition ex_relay (name data : string) : relay :=
  {| rl_name := name; rl_sock := true; rl_lines := buf_lines data None |}.
Definition ex_relays : list relay := [ex_relay "web" ("up" ++ nl ++ nl ++ "ready" ++ nl); ex_relay "db" "ok"].

Lemma ex_relays_ok : Forall service_ok ex_relays.
Proof. repeat (constructor; [split; try reflexivity; [by eexists _, _|]; repeat constructor; vm_compute; done|]). constructor. Qed.

Definition ex_input : list (result string string) := [Ok "boot"; Ok ""].
Definition ex_bound (eof : bool) : @Pipe (clock_io 1) :=
  @logd_bound (clock_io 1) ∅ start_time eof ex_input ex_relays.

Lemma every_line_logged_witness :
  (∀ n p, nsteps pipe_step n (ex_bound true) p → (n ≤ 25)%nat) ∧
  (∀ p, rtc pipe_step (ex_bound true) p → stuck p →
    of_origin Stdin (p_history p) = [("stdin", "boot")] ∧
    of_origin (Service 0) (p_history p) = [("web", "up"); ("web", "ready")] ∧
    of_origin (Service 1) (p_history p) = [("db", "ok")]) ∧
  ∀ p, rtc pipe_step (ex_bound false) p → stuck p →
    of_origin Stdin (p_history p) = [("stdin", "boot")] ∧ p_lock p = Some MainThread.
Proof.
  destruct (@every_line_logged (clock_io 1) small_pipe ∅ start_time true ex_input ex_relays)
    as [Hn Hend]; [reflexivity|vm_compute; lia|].
  destruct (@every_line_logged (clock_io 1) small_pipe ∅ start_time false ex_input ex_relays)
    as [_ Hopen]; [reflexivity|vm_compute; lia|].
  split; [exact Hn|]. split.
  - intros p Hrun Hstuck. destruct (Hend p Hrun Hstuck) as (Hin & _ & _ & Hs).
    split; [exact Hin|]. split.
    + exact (proj2 (Hs 0%nat _ eq_refl) (proj1 (Forall_lookup _ _) ex_relays_ok 0%nat _ eq_refl)).
    + exact (proj2 (Hs 1%nat _ eq_refl) (proj1 (Forall_lookup _ _) ex_relays_ok 1%nat _ eq_refl)).
  - intros p Hrun Hstuck. destruct (Hopen p Hrun Hstuck) as (Hin & _ & _ & Hl & _).
    split; [exact Hin|exact Hl].
Defined.

(** While the main thread has the lock, the datagram of a service waits. *)
Example ex_waits : ∃ p, rtc (@pipe_step (clock_io 1) small_pipe) (ex_bound false) p ∧
  p_main p = MStdin ex_input ∧ p_sock p = SWait 1 (relay_message "db" "ok") ∧
  ∀ i, of_origin (Service i) (p_history p) = [].
Proof.
  eexists. split; [|split; [|split]].
  - eapply rtc_l. { eapply (step_relay _ [ex_relay "web" _]); [reflexivity|]. eapply relay_sent; [reflexivity|done|reflexivity..|cbn; lia]. }
    eapply rtc_l; [by eapply step_sock_recv; [reflexivity|reflexivity]|].
    eapply rtc_l; [by eapply step_main_lock; [reflexivity|reflexivity]|]. apply rtc_refl.
  - reflexivity.
  - reflexivity.
  - reflexivity.
Qed.

(** A line that does not fit the collector's buffer is stored without its end, and a tab in a
    service's name moves a part of the name into the line. *)
Definition long_line : string := String.string_of_list_ascii (repeat (Ascii.ascii_of_nat 97) (Z.to_nat 9000)).
Example datagram_cut :
  match datagram_entry (relay_message "web" long_line) with
  | Some (source, message) => source = "web" ∧ len message = 8188
  | None => False
  end ∧
  datagram_entry (relay_message ("a" ++ tab ++ "b") "up") = Some ("a", "b" ++ tab ++ "up").
Proof. vm_compute. done. Qed.
