(* ===== verification/SdNotify.v ===== *)
(** * The libsystemd shim (dynamod-sdnotify/src/lib.rs)

    The functions applications link against, over the environment of the process and what
    the system returns.  A C string is its bytes, a possibly null pointer an option; the
    result of a function is its return code with what it changed.  [notify_ready] of the
    daemons (the end of each main.rs) is the same message without the library.

    The theorems: what [sd_notify] sends is what the service manager's readiness check
    ([Readiness]) recognises, and which descriptors [sd_listen_fds] hands over. *)

From S2P Require Import Prelude RustStr Utf8 Config World Intensity Readiness.

#[local] Open Scope string_scope.
#[local] Open Scope Z_scope.

Definition EINVAL : Z := 22.
Definition ECONNREFUSED : Z := 111.
Definition ENOMEM : Z := 12.
Definition ENODATA : Z := 61.
Definition SD_LISTEN_FDS_START : Z := 3.
Definition FD_CLOEXEC : Z := 1.

(** What the system answers. *)
Record system := {
  sy_unbound : bool;                           (** a datagram socket can be made *)
  sy_delivers : string → string → bool;        (** a datagram reaches the socket at a path *)
  sy_pid : Z;
  sy_uid : Z;
  sy_exists : string → bool;
  sy_read : string → option string;            (** the text of a file *)
  sy_strdup : bool;                            (** the allocator has memory *)
}.

(** The process: its environment, the datagrams it sent, its standard error, and the
    flags of its open descriptors. *)
Record process := {
  pr_env : gmap string string;
  pr_sent : list (string * string);
  pr_stderr : string;
  pr_flags : gmap Z Z;
}.
Definition set_env (e : gmap string string) (p : process) : process :=
  {| pr_env := e; pr_sent := pr_sent p; pr_stderr := pr_stderr p; pr_flags := pr_flags p |}.
Definition set_flags (f : gmap Z Z) (p : process) : process :=
  {| pr_env := pr_env p; pr_sent := pr_sent p; pr_stderr := pr_stderr p; pr_flags := f |}.

(** [std::env::var]: a variable that is set and is UTF-8. *)
Definition var (name : string) (p : process) : option string :=
  match pr_env p !! name with Some v => if valid_utf8 v then Some v else None | None => None end.

(** [UnixDatagram::send_to] a path: refused when the path has a zero byte or does not fit
    the address ([sun_path] has 108 bytes, the last one zero). *)
Definition addressable (path : string) : bool :=
  negb (has_nul path) && (String.length path <? 108)%nat.
Definition send_to (sy : system) (data path : string) (p : process) : bool * process :=
  if addressable path && sy_delivers sy path data then
    (true, {| pr_env := pr_env p; pr_sent := (pr_sent p ++ [(path, data)])%list;
              pr_stderr := pr_stderr p; pr_flags := pr_flags p |})
  else (false, p).

(** A leading [@] stands for a zero byte. *)
Definition notify_target (socket_path : string) : string :=
  match strip_prefix "@" socket_path with
  | Some rest => String Ascii.zero rest
  | None => socket_path
  end.

(** ** sd-daemon *)

Definition sd_notify (sy : system) (unset_environment : Z) (state : string) (p : process) : Z * process :=
  if negb (valid_utf8 state) then (- EINVAL, p)
  else match var "NOTIFY_SOCKET" p with
  | None => (0, p)
  | Some socket_path =>
      if bool_decide (socket_path = "") then (0, p)
      else if negb (sy_unbound sy) then (- ECONNREFUSED, p)
      else match send_to sy state (notify_target socket_path) p with
           | (true, p) =>
               (1, if unset_environment =? 0 then p else set_env (delete "NOTIFY_SOCKET" (pr_env p)) p)
           | (false, p) => (- ECONNREFUSED, p)
           end
  end.

Definition sd_pid_notify (sy : system) (_ : Z) (unset_environment : Z) (state : string) (p : process)
    : Z * process := sd_notify sy unset_environment state p.

(** [flags & !FD_CLOEXEC] on the descriptors that are open. *)
Definition clear_cloexec (fd : Z) (flags : gmap Z Z) : gmap Z Z :=
  alter (λ f, Z.ldiff f FD_CLOEXEC) fd flags.

(** [as u32] of a process id, and wrapping [i32] addition. *)
Definition wrap_i32 (z : Z) : Z := (z + 2 ^ 31) mod 2 ^ 32 - 2 ^ 31.

Definition sd_listen_fds (sy : system) (unset_environment : Z) (p : process) : Z * process :=
  match var "LISTEN_PID" p with
  | None => (0, p)
  | Some pid_str =>
      match parse_u32 pid_str with
      | None => (0, p)
      | Some expected_pid =>
          if negb (expected_pid =? wrap_u32 (sy_pid sy)) then (0, p)
          else match var "LISTEN_FDS" p with
          | None => (0, p)
          | Some count_str =>
              match parse_i32 count_str with
              | None => (0, p)
              | Some count =>
                  let p := if unset_environment =? 0 then p
                           else set_env (delete "LISTEN_FDNAMES" (delete "LISTEN_PID"
                                  (delete "LISTEN_FDS" (pr_env p)))) p in
                  let fds := map (λ i, wrap_i32 (SD_LISTEN_FDS_START + i)) (seqZ 0 count) in
                  (count, set_flags (foldl (λ f fd, clear_cloexec fd f) (pr_flags p) fds) p)
              end
          end
      end
  end.

Definition sd_booted (sy : system) : Z :=
  if sy_exists sy "/run/dynamod" then 1
  else if sy_exists sy "/run/systemd/system" then 1 else 0.

(** ** sd-journal *)

Definition priority_prefix (priority : Z) : string :=
  if (0 <=? priority) && (priority <=? 7) then "<" ++ to_string priority ++ ">" else "<6>".

Definition sd_journal_print (sy : system) (priority : Z) (format : string) (p : process) : Z * process :=
  if negb (valid_utf8 format) then (- EINVAL, p)
  else
    let line := priority_prefix priority ++ format in
    let '(ok, p) := if sy_unbound sy then send_to sy line "/dev/log" p else (false, p) in
    (0, if ok : bool then p
        else {| pr_env := pr_env p; pr_sent := pr_sent p;
                pr_stderr := pr_stderr p ++ line ++ nl; pr_flags := pr_flags p |}).

Definition sd_journal_send (sy : system) (format : option string) (p : process) : Z * process :=
  match format with
  | None => (- EINVAL, p)
  | Some first =>
      if negb (valid_utf8 first) then (- EINVAL, p)
      else sd_journal_print sy 6 (default first (strip_prefix "MESSAGE=" first)) p
  end.

Definition sd_journal_stream_fd : Z := 2.

(** ** sd-login

    A pointer to write a string to is the flag that it is not null; the string written is
    returned with the code. *)

Definition read_session_id (sy : system) (pid : Z) : option string :=
  match sy_read sy ("/proc/" ++ to_string pid ++ "/sessionid") with
  | None => None
  | Some id => let id := trim id in if bool_decide (id = "4294967295") then None else Some id
  end.

(** [CString::new] refuses a zero byte, [strdup] needs memory. *)
Definition strdup (sy : system) (s : string) : option string :=
  if has_nul s then None else if sy_strdup sy then Some s else None.

Definition sd_pid_get_session (sy : system) (pid : Z) (ret_session : bool) : Z * option string :=
  if negb ret_session then (- EINVAL, None)
  else match read_session_id sy (if pid =? 0 then sy_pid sy else pid) with
       | None => (- ENODATA, None)
       | Some id => match strdup sy id with Some s => (0, Some s) | None => (- ENOMEM, None) end
       end.

Definition constant_answer (sy : system) (session : option string) (ret : bool) (s : string)
    : Z * option string :=
  match session with
  | Some _ => if negb ret then (- EINVAL, None)
              else match strdup sy s with Some s => (0, Some s) | None => (- ENOMEM, None) end
  | None => (- EINVAL, None)
  end.
Definition sd_session_get_type (sy : system) (session : option string) (ret_type : bool) :=
  constant_answer sy session ret_type "tty".
Definition sd_session_get_seat (sy : system) (session : option string) (ret_seat : bool) :=
  constant_answer sy session ret_seat "seat0".

Definition sd_session_is_active (session : option string) : Z :=
  match session with None => - EINVAL | Some _ => 1 end.

Definition sd_seat_get_active (sy : system) (ret_session ret_uid : bool)
    : Z * option string * option Z :=
  (0, if ret_session then strdup sy "1" else None, if ret_uid then Some (sy_uid sy) else None).

(** ** notify_ready of the daemons *)

Definition notify_ready (sy : system) (p : process) : process :=
  match var "NOTIFY_SOCKET" p with
  | None => p
  | Some socket_path =>
      if sy_unbound sy then (send_to sy "READY=1" (notify_target socket_path) p).2 else p
  end.

(** ** Notifications *)

(** A message of at most 256 bytes that says READY=1 is recognised. *)
Lemma says_ready_short state :
  valid_utf8 state = true → (String.length state ≤ 256)%nat → contains "READY=1" state = true →
  says_ready state = true.
Proof. intros Hv Hl Hc. unfold says_ready. by rewrite take_str_short, Hv by done. Qed.

(** The address of an abstract socket is refused. *)
Lemma abstract_not_addressable socket_path rest :
  strip_prefix "@" socket_path = Some rest → addressable (notify_target socket_path) = false.
Proof. intros Hs. unfold notify_target. by rewrite Hs. Qed.

Section notify.
Context (sy : system).

(** C32: sd_notify returns 1 exactly with one datagram sent to the path in NOTIFY_SOCKET,
    which is never an abstract socket, and otherwise sends and changes nothing; a message of
    at most 256 bytes that says READY=1 makes the service manager's readiness check report
    ready when it receives it. *)
Theorem notify_exact unset state p :
  let '(r, p') := sd_notify sy unset state p in
  (r = 1 ∧ ∃ path, var "NOTIFY_SOCKET" p = Some path ∧ path ≠ "" ∧ strip_prefix "@" path = None ∧
     pr_sent p' = (pr_sent p ++ [(path, state)])%list ∧ pr_flags p' = pr_flags p ∧
     pr_env p' = (if unset =? 0 then pr_env p else delete "NOTIFY_SOCKET" (pr_env p)) ∧
     ((String.length state ≤ 256)%nat → contains "READY=1" state = true →
      ∀ (K : OS) tracker o o', rt_bound_notify tracker = Some path →
        os_recv_datagram path o = (ReadBytes state, o') → (check_notify tracker o).1 = Ready)) ∨
  (r ≤ 0 ∧ p' = p ∧
   (r = 0 ↔ valid_utf8 state = true ∧ default "" (var "NOTIFY_SOCKET" p) = "")).
Proof.
  unfold sd_notify. destruct (valid_utf8 state) eqn:Hv; [|right; split_and!; [done|done|by split; [|intros []]]].
  cbn [negb]. destruct (var "NOTIFY_SOCKET" p) as [path|] eqn:Hp; [|by right].
  case_bool_decide as Hne; [subst; by right|].
  assert (∀ q : process, - ECONNREFUSED ≤ 0 ∧ q = q ∧
    (- ECONNREFUSED = 0 ↔ true = true ∧ default "" (Some path) = "")) as Hfail
    by (intros q; split_and!; [done|done|by split; [|intros []]]).
  destruct (sy_unbound sy); [|right; apply (Hfail p)]. cbn [negb].
  unfold send_to. destruct (addressable _ && _) eqn:Ha; [|right; apply (Hfail p)].
  left. split; [done|]. apply andb_true_iff in Ha as [Ha _].
  assert (strip_prefix "@" path = None) as Habs.
  { destruct (strip_prefix "@" path) eqn:E; [|done]. by rewrite (abstract_not_addressable _ _ E) in Ha. }
  exists path. unfold notify_target. rewrite Habs. split_and!; try done; [by destruct (unset =? 0)..|].
  intros Hl Hc K tracker o o' Hb Hrecv. unfold check_notify. rewrite Hb, Hrecv.
  by rewrite says_ready_short.
Qed.

(** A message longer than the manager's buffer is cut: what it says later is not seen. *)
Example long_notification_missed :
  says_ready (String.append (String.concat "" (repeat "0123456789ABCDEF" 16)) "READY=1") = false.
Proof. vm_compute. reflexivity. Qed.

(** ** Listening descriptors *)

Lemma foldl_clear_lookup fds (flags : gmap Z Z) fd :
  foldl (λ f fd, clear_cloexec fd f) flags fds !! fd =
  if bool_decide (fd ∈ fds) then (λ f, Z.ldiff f FD_CLOEXEC) <$> flags !! fd else flags !! fd.
Proof.
  revert flags. induction fds as [|x fds IH]; intros flags; [done|]. cbn [foldl]. rewrite IH.
  unfold clear_cloexec. destruct (decide (fd = x)) as [->|Hne].
  - rewrite (bool_decide_true (x ∈ x :: fds)), lookup_alter_eq by (apply elem_of_cons; by left).
    case_bool_decide; [|done]. destruct (flags !! x); [|done]. cbn. f_equal.
    apply Z.bits_inj'. intros i Hi. rewrite !Z.ldiff_spec. by destruct (Z.testbit z i), (Z.testbit FD_CLOEXEC i).
  - rewrite lookup_alter_ne by done. repeat case_bool_decide; try done; set_solver.
Qed.

(** sd_listen_fds hands over descriptors only to the process LISTEN_PID names, as many as
    LISTEN_FDS says, removes the variables if asked to, and clears the close-on-exec flag of
    exactly these descriptors. *)
Theorem listen_fds_exact unset p :
  let '(n, p') := sd_listen_fds sy unset p in
  n ≠ 0 →
  (∃ pid, var "LISTEN_PID" p = Some pid ∧ parse_u32 pid = Some (wrap_u32 (sy_pid sy))) ∧
  (∃ count, var "LISTEN_FDS" p = Some count ∧ parse_i32 count = Some n) ∧
  pr_env p' = (if unset =? 0 then pr_env p
               else delete "LISTEN_FDNAMES" (delete "LISTEN_PID" (delete "LISTEN_FDS" (pr_env p)))) ∧
  (n ≤ 2 ^ 31 - SD_LISTEN_FDS_START → ∀ fd, pr_flags p' !! fd =
     if bool_decide (SD_LISTEN_FDS_START ≤ fd < SD_LISTEN_FDS_START + n)
     then (λ f, Z.ldiff f FD_CLOEXEC) <$> pr_flags p !! fd else pr_flags p !! fd).
Proof.
  unfold sd_listen_fds. destruct (var "LISTEN_PID" p) as [pid|]; [|done].
  destruct (parse_u32 pid) as [expected|] eqn:Hpid; [|done].
  destruct (Z.eqb_spec expected (wrap_u32 (sy_pid sy))) as [->|]; [cbn [negb]|done].
  destruct (var "LISTEN_FDS" p) as [count|]; [|done].
  destruct (parse_i32 count) as [n|] eqn:Hn; [|done].
  intros _. split_and!; [eauto|eauto|by destruct (unset =? 0)|].
  intros Hmax fd. cbn [set_flags pr_flags]. rewrite foldl_clear_lookup.
  replace (pr_flags (if unset =? 0 then p else _)) with (pr_flags p) by (by destruct (unset =? 0)).
  erewrite (bool_decide_ext (fd ∈ _)); [done|]. rewrite list_elem_of_fmap. unfold SD_LISTEN_FDS_START in *.
  assert (∀ i, 0 ≤ i < n → wrap_i32 (3 + i) = 3 + i) as Hw.
  { intros i Hi. unfold wrap_i32. rewrite Z.mod_small by lia. lia. }
  split.
  - intros (i & -> & Hi%elem_of_seqZ). rewrite Hw by lia. lia.
  - intros Hfd. exists (fd - 3). rewrite Hw, elem_of_seqZ by lia. lia.
Qed.
End notify.

(** A service that is handed two descriptors. *)
Definition example_system : system := {|
  sy_unbound := true; sy_delivers _ _ := true; sy_pid := 77; sy_uid := 1000; sy_exists _ := true;
  sy_read _ := None; sy_strdup := true |}.
Definition example_process : process := {|
  pr_env := {["LISTEN_PID" := "77"; "LISTEN_FDS" := "2"]}; pr_sent := []; pr_stderr := "";
  pr_flags := {[2 := 1; 3 := 1; 4 := 1; 5 := 1]} |}.

Lemma listen_fds_exact_witness :
  let p' := (sd_listen_fds example_system 1 example_process).2 in
  pr_env p' = ∅ ∧ pr_flags p' !! 4 = Some 0 ∧ pr_flags p' !! 5 = Some 1.
Proof.
  pose proof (listen_fds_exact example_system 1 example_process) as H.
  assert (sd_listen_fds example_system 1 example_process =
    (2, (sd_listen_fds example_system 1 example_process).2)) as E by (vm_compute; reflexivity).
  rewrite E in H. destruct (H ltac:(discriminate)) as (_ & _ & Henv & Hf).
  split; [rewrite Henv; vm_compute; reflexivity|].
  split; rewrite (Hf ltac:(vm_compute; discriminate)); vm_compute; reflexivity.
Defined.
