(* ===== verification/Daemons.v ===== *)
(** * Starting the bus daemons (main.rs of dynamod-logind, -sd1bridge, -hostnamed)

    Each daemon connects to the system bus, puts its objects on it, takes its names,
    reports READY=1 to the service manager and serves for ever.  [startup] is one step of
    such a main function, [run_startup] performs them in order and leaves at the first
    error, as [?] does; [bus_ok] is the answer of the bus, which may depend on everything
    done before.

    The theorem: whatever the bus answers, a name is only ever owned while its object is
    served (and the manager can register more), and READY=1 is reported exactly by a daemon
    that has everything on the bus, to the socket the service manager set up for it, which
    makes the readiness check of the service report ready. *)

From S2P Require Import Prelude RustStr Utf8 Config World Intensity Readiness Spawn SdNotify.
From S2P Require Import LoginConfig LoginState.

#[local] Open Scope string_scope.
#[local] Open Scope Z_scope.

Inductive startup :=
| Connect                              (** [Connection::system().await?] *)
| ServeAt (path interface : string)    (** [object_server().at(..).await?] *)
| StoreServer                          (** the manager is given the object server *)
| RequestName (name : string).         (** [request_name(..).await?] *)

#[export] Instance startup_eq_dec : EqDecision startup.
Proof. solve_decision. Defined.

Section daemons.
Variable bus_ok : list startup → startup → bool.

Definition fallible (s : startup) : bool := match s with StoreServer => false | _ => true end.

(** The steps performed, and whether all of them were. *)
Fixpoint run_startup (steps performed : list startup) : list startup * bool :=
  match steps with
  | [] => (performed, true)
  | s :: steps =>
      if fallible s && negb (bus_ok performed s) then (performed, false)
      else run_startup steps (performed ++ [s])%list
  end.

(** ** The three daemons *)

Definition hostnamed_steps : list startup :=
  [Connect;
   ServeAt "/org/freedesktop/hostname1" "HostnameService"; RequestName "org.freedesktop.hostname1";
   ServeAt "/org/freedesktop/timedate1" "TimedateService"; RequestName "org.freedesktop.timedate1";
   ServeAt "/org/freedesktop/locale1" "LocaleService"; RequestName "org.freedesktop.locale1"].

Definition sd1bridge_steps : list startup :=
  [Connect; ServeAt "/org/freedesktop/systemd1" "SystemdManager"; StoreServer;
   RequestName "org.freedesktop.systemd1"].

Definition logind_steps : list startup :=
  [Connect; ServeAt "/org/freedesktop/login1" "Manager";
   ServeAt "/org/freedesktop/login1/seat/seat0" "SeatInterface"; StoreServer;
   RequestName "org.freedesktop.login1"].

(** A daemon: its steps and its [notify_ready].  Every main.rs has a copy of that function;
    they differ in what they log. *)
Record daemon := { dn_steps : list startup; dn_notify : system → process → process }.

Definition hostnamed_notify_ready : system → process → process := notify_ready.
Definition logind_notify_ready : system → process → process := notify_ready.

Definition hostnamed : daemon := {| dn_steps := hostnamed_steps; dn_notify := hostnamed_notify_ready |}.
Definition sd1bridge : daemon := {| dn_steps := sd1bridge_steps; dn_notify := notify_ready |}.
Definition logind : daemon := {| dn_steps := logind_steps; dn_notify := logind_notify_ready |}.

(** How a daemon runs: [None] when main returned an error. *)
Definition serve (d : daemon) (sy : system) (p : process) : list startup * option process :=
  let '(performed, ok) := run_startup (dn_steps d) [] in
  (performed, if ok then Some (dn_notify d sy p) else None).

Definition hostnamed_main : system → process → list startup * option process := serve hostnamed.
Definition sd1bridge_main : system → process → list startup * option process := serve sd1bridge.

(** The login manager also looks for graphics hardware, which it only logs, loads its
    configuration and starts with one seat.  [None] is a directory that cannot be read, or
    an entry that is not UTF-8. *)
Definition detect_graphics (entries : option (list (option string))) : string :=
  match entries with
  | Some names =>
      if existsb (λ n, match n with Some n => starts_with "card" n | None => false end) names
      then "graphics hardware detected" else "no DRM card devices found"
  | None => "cannot read /sys/class/drm"
  end.

Definition logind_main (config : LogindConfig) (sy : system) (p : process)
    : LoginState * (list startup * option process) :=
  (create_seat0 (with_config config), serve logind sy p).

(** ** What the bus sees *)

(** The path of a name: its parts as directories. *)
Definition name_path (name : string) : string := "/" ++ join "/" (split "." name).

Definition is_manager (s : startup) : bool :=
  match s with ServeAt _ i => bool_decide (i = "Manager" ∨ i = "SystemdManager") | _ => false end.

(** The object of a name is served; a manager has the object server. *)
Definition offers (name : string) (performed : list startup) : Prop :=
  Exists (λ s, match s with ServeAt path _ => path = name_path name | _ => False end) performed ∧
  (existsb is_manager performed = true → StoreServer ∈ performed).

#[local] Instance offers_dec name performed : Decision (offers name performed).
Proof.
  unfold offers. apply and_dec; [|apply _].
  apply Exists_dec. intros []; apply _.
Defined.

(** Every name that is requested is offered by the steps before it. *)
Fixpoint ordered (before steps : list startup) : bool :=
  match steps with
  | [] => true
  | s :: steps =>
      match s with RequestName name => bool_decide (offers name before) | _ => true end &&
      ordered (before ++ [s])%list steps
  end.

Lemma ordered_offers before steps pre name post :
  ordered before steps = true → steps = (pre ++ RequestName name :: post)%list →
  offers name (before ++ pre)%list.
Proof.
  revert before steps. induction pre as [|s pre IH]; intros before steps Ho ->.
  - cbn in Ho. apply andb_true_iff in Ho as [Ho _]. rewrite app_nil_r. by apply bool_decide_eq_true in Ho.
  - cbn in Ho. apply andb_true_iff in Ho as [_ Ho]. specialize (IH _ _ Ho eq_refl).
    by rewrite <-app_assoc in IH.
Qed.

Lemma run_startup_prefix steps performed :
  let '(done, ok) := run_startup steps performed in
  ∃ l rest, done = (performed ++ l)%list ∧ steps = (l ++ rest)%list ∧ (ok = true → rest = []).
Proof.
  revert performed. induction steps as [|s steps IH]; intros performed; cbn [run_startup].
  - exists [], []. by rewrite app_nil_r.
  - destruct (fallible s && _).
    + exists [], (s :: steps). by rewrite app_nil_r.
    + specialize (IH (performed ++ [s])%list). destruct (run_startup steps _) as [done ok].
      destruct IH as (l & rest & -> & -> & Hok). exists (s :: l), rest. by rewrite <-app_assoc.
Qed.

(** All the steps, when nothing was refused. *)
Lemma serve_spec d sy p :
  ordered [] (dn_steps d) = true →
  let '(performed, r) := serve d sy p in
  (∀ pre name post, performed = (pre ++ RequestName name :: post)%list → offers name pre) ∧
  (r = None ∨ r = Some (dn_notify d sy p) ∧ performed = dn_steps d).
Proof.
  intros Ho. unfold serve. pose proof (run_startup_prefix (dn_steps d) []) as Hp.
  destruct (run_startup (dn_steps d) []) as [performed ok]. destruct Hp as (l & rest & -> & Hs & Hok). cbn [app].
  split.
  - intros pre name post ->. apply (ordered_offers [] (dn_steps d) pre name (post ++ rest)%list); [done|].
    by rewrite Hs, <-app_assoc.
  - destruct ok; [right|by left]. split; [done|]. rewrite Hs, Hok by done. by rewrite app_nil_r.
Qed.
End daemons.

(** ** Reporting ready *)

Definition daemons : list daemon := [hostnamed; sd1bridge; logind].

(** The environment [spawn_service] gives a service with notify readiness leads the report
    to the socket the tracker is bound to. *)
Lemma notify_ready_spec `{K : OS} def ready o sy p :
  rd_readiness_type (sd_readiness def) = Notify → pr_env p = build_env def ready o →
  valid_utf8 (sd_name def) = true → has_nul (sd_name def) = false →
  (String.length (sd_name def) < 83)%nat →
  sy_unbound sy = true → sy_delivers sy (notify_path (sd_name def)) "READY=1" = true →
  pr_sent (notify_ready sy p) = (pr_sent p ++ [(notify_path (sd_name def), "READY=1")])%list.
Proof.
  intros Ht He Hv Hn Hl Hu Hd. unfold notify_ready, var. rewrite He. unfold build_env.
  rewrite decide_True by done. rewrite lookup_insert_eq. fold (notify_path (sd_name def)).
  assert (valid_utf8 (notify_path (sd_name def)) = true) as ->.
  { unfold notify_path. apply valid_app; [done|]. by apply valid_app. }
  rewrite Hu. unfold notify_target, send_to.
  change (strip_prefix "@" (notify_path (sd_name def))) with (@None string). cbn [snd].
  assert (addressable (notify_path (sd_name def)) = true) as ->.
  { unfold addressable, notify_path. rewrite !has_nul_app, Hn, !length_app_str. cbn.
    apply Nat.leb_le. lia. }
  by rewrite Hd.
Qed.

(** C34: The three D-Bus daemons, started as notify services and whatever step of their
    start-up fails, request a bus name only after the object behind it is served, and report
    READY=1 only once every step succeeded, as one datagram to the socket the manager named,
    which makes its readiness check answer ready. *)
Theorem daemons_report_ready `{K : OS} bus_ok d def ready o sy p :
  d ∈ daemons →
  rd_readiness_type (sd_readiness def) = Notify → pr_env p = build_env def ready o →
  valid_utf8 (sd_name def) = true → has_nul (sd_name def) = false →
  (String.length (sd_name def) < 83)%nat →
  sy_unbound sy = true → sy_delivers sy (notify_path (sd_name def)) "READY=1" = true →
  let '(performed, r) := serve bus_ok d sy p in
  (∀ pre name post, performed = (pre ++ RequestName name :: post)%list → offers name pre) ∧
  (r = None ∨ ∃ p', r = Some p' ∧ performed = dn_steps d ∧
     pr_sent p' = (pr_sent p ++ [(notify_path (sd_name def), "READY=1")])%list ∧
     ∀ tracker o o', rt_bound_notify tracker = Some (notify_path (sd_name def)) →
       os_recv_datagram (notify_path (sd_name def)) o = (ReadBytes "READY=1", o') →
       (check_notify tracker o).1 = Ready).
Proof.
  intros Hin Ht He Hv Hn Hl Hu Hd.
  assert (ordered [] (dn_steps d) = true ∧ dn_notify d = notify_ready) as [Ho Hnr].
  { unfold daemons in Hin. rewrite !elem_of_cons in Hin.
    destruct Hin as [-> |[-> |[-> |Hin]]]; [split; [vm_compute|]; reflexivity..|by apply elem_of_nil in Hin]. }
  pose proof (serve_spec bus_ok d sy p Ho) as Hs. rewrite Hnr in Hs.
  destruct (serve bus_ok d sy p) as [performed r]. destruct Hs as [H1 H2]. split; [exact H1|].
  destruct H2 as [H2|[-> ->]]; [by left|]. right. exists (notify_ready sy p).
  split_and!; [done|done|by eapply notify_ready_spec|].
  intros tracker o1 o2 Hb Hr. unfold check_notify. by rewrite Hb, Hr.
Qed.

(** The login manager, started as a service with notify readiness. *)
Definition login_def : ServiceDef :=
  let d := minimal_service "logind" ["/usr/bin/dynamod-logind"] in
  {| sd_service := sd_service d; sd_restart := sd_restart d;
     sd_readiness := {| rd_readiness_type := Notify; rd_port := None; rd_check_exec := None; rd_timeout := "5s" |};
     sd_dependencies := sd_dependencies d; sd_cgroup := None; sd_namespace := None;
     sd_shutdown := sd_shutdown d |}.
Definition quiet_system : system := {| sy_unbound := true; sy_delivers _ _ := true; sy_pid := 7; sy_uid := 0;
  sy_exists _ := true; sy_read _ := None; sy_strdup := true |}.
Definition ex_script : script :=
  {| sc_clock := 7; sc_wait := []; sc_pids := []; sc_live := ∅; sc_history := []; sc_files := ∅ |}.
Definition login_process : process := {| pr_env := build_env (K := scripted) login_def None ex_script;
  pr_sent := []; pr_stderr := ""; pr_flags := ∅ |}.

Lemma daemons_report_ready_witness :
  ∃ p', serve (λ _ _, true) logind quiet_system login_process = (logind_steps, Some p') ∧
    pr_sent p' = [("/run/dynamod/notify-logind.sock", "READY=1")].
Proof.
  pose proof (daemons_report_ready (K := scripted) (λ _ _, true) logind login_def None ex_script
    quiet_system login_process) as H.
  destruct H as [_ [Hr|(p' & Hr & _ & Hs & _)]].
  - right. right. left.
  - reflexivity.
  - reflexivity.
  - vm_compute. reflexivity.
  - reflexivity.
  - vm_compute. lia.
  - reflexivity.
  - reflexivity.
  - discriminate Hr.
  - exists p'. split; [|exact Hs]. vm_compute in Hr. injection Hr as <-. reflexivity.
Defined.

(** The names each daemon takes, and the object of each. *)
Example name_paths :
  map name_path ["org.freedesktop.hostname1"; "org.freedesktop.login1"; "org.freedesktop.systemd1"]
  = ["/org/freedesktop/hostname1"; "/org/freedesktop/login1"; "/org/freedesktop/systemd1"].
Proof. vm_compute. reflexivity. Qed.
