(* ===== verification/Hostnamed.v ===== *)
(** * Host name, locale and time (dynamod-hostnamed: hostname.rs, locale.rs, timedate.rs)

    D-Bus services over files of /etc: the setters write them, the properties read them
    back.  The machine is its text files, its symbolic links, the host name and clock of
    the kernel and the commands run; what the calls of the system return is the record
    [outcomes] (a write that fails may leave a part of the text behind).

    The theorems: a setting is read back as it was set, and setting one field of
    /etc/machine-info leaves the others alone. *)

From S2P Require Import Prelude RustStr Utf8.

#[local] Open Scope string_scope.

Definition dq : string := bytes_str [34]%nat.
Definition quote : Ascii.ascii := Ascii.ascii_of_nat 34.

(** [trim_matches] of one byte. *)
Fixpoint trim_start_char (c : Ascii.ascii) (s : string) : string :=
  match s with
  | String d r => if Ascii.eqb c d then trim_start_char c r else s
  | "" => ""
  end.
Definition trim_matches (c : Ascii.ascii) (s : string) : string :=
  trim_end_matches (Ascii.eqb c) (trim_start_char c s).

Record machine := {
  mc_files : gmap string string;
  mc_links : gmap string string;
  mc_hostname : string;
  mc_clock : Z * Z;               (** seconds and microseconds *)
  mc_ran : list (list string);
}.

Record outcomes := {
  (** writing a text: [None] if it succeeds, else the error and what the file holds then *)
  oc_write : string → string → option (string * option string);
  oc_sethostname : result unit string;
  oc_symlink : result unit string;
  oc_settimeofday : result unit string;
  oc_exists : string → bool;
}.

Definition set_files (f : gmap string string) (m : machine) : machine :=
  {| mc_files := f; mc_links := mc_links m; mc_hostname := mc_hostname m; mc_clock := mc_clock m;
     mc_ran := mc_ran m |}.

(** [std::fs::write] *)
Definition write (oc : outcomes) (path text : string) (m : machine) : result unit string * machine :=
  match oc_write oc path text with
  | None => (Ok (), set_files (<[path := text]> (mc_files m)) m)
  | Some (e, None) => (Err e, m)
  | Some (e, Some part) => (Err e, set_files (<[path := part]> (mc_files m)) m)
  end.

(** [std::fs::read_to_string]: there, and UTF-8. *)
Definition read_to_string (path : string) (m : machine) : option string :=
  match mc_files m !! path with Some s => if valid_utf8 s then Some s else None | None => None end.

(** The first line that starts with [key=], without the quotes around its value. *)
Fixpoint first_field (key : string) (ls : list string) : option string :=
  match ls with
  | [] => None
  | line :: ls =>
      match strip_prefix (key ++ "=") line with
      | Some value => Some (trim_matches quote value)
      | None => first_field key ls
      end
  end.

(** ** hostname.rs *)

Definition set_static_hostname (oc : outcomes) (hostname : string) (m : machine)
    : result unit string * machine :=
  match write oc "/etc/hostname" (hostname ++ nl) m with
  | (Err e, m) => (Err e, m)
  | (Ok _, m) =>
      if has_nul hostname then (Err "nul byte found in provided data", m)
      else match oc_sethostname oc with
           | Err e => (Err ("sethostname: " ++ e), m)
           | Ok _ => (Ok (), {| mc_files := mc_files m; mc_links := mc_links m; mc_hostname := hostname;
                                mc_clock := mc_clock m; mc_ran := mc_ran m |})
           end
  end.

Definition read_machine_info_field (key : string) (m : machine) : option string :=
  content ← read_to_string "/etc/machine-info" m; first_field key (lines content).

(** The lines kept, and the new one unless the value is empty. *)
Definition updated_lines (key value content : string) : list string :=
  filter (λ l, starts_with (key ++ "=") l = false) (lines content) ++
  (if bool_decide (value = "") then [] else [key ++ "=" ++ dq ++ value ++ dq]).

Definition update_machine_info (oc : outcomes) (key value : string) (m : machine)
    : result unit string * machine :=
  let content := default "" (read_to_string "/etc/machine-info" m) in
  write oc "/etc/machine-info" (join nl (updated_lines key value content) ++ nl) m.

Definition set_pretty_hostname (oc : outcomes) := update_machine_info oc "PRETTY_HOSTNAME".
Definition set_icon_name (oc : outcomes) := update_machine_info oc "ICON_NAME".
Definition set_chassis (oc : outcomes) := update_machine_info oc "CHASSIS".
Definition set_deployment (oc : outcomes) := update_machine_info oc "DEPLOYMENT".
Definition set_location (oc : outcomes) := update_machine_info oc "LOCATION".

Definition read_hostname (m : machine) : string :=
  match read_to_string "/etc/hostname" m with Some s => trim s | None => "localhost" end.

Definition read_dmi (field : string) (m : machine) : option string :=
  s ← read_to_string ("/sys/class/dmi/id/" ++ field) m;
  if bool_decide (trim s = "") then None else Some (trim s).

Definition read_os_release_field (key : string) (m : machine) : option string :=
  content ← match read_to_string "/etc/os-release" m with
            | Some c => Some c | None => read_to_string "/usr/lib/os-release" m end;
  first_field key (lines content).

Definition chassis_name (ct : Z) : option string :=
  if bool_decide (ct ∈ [3; 4; 5; 6; 7; 15; 16]%Z) then Some "desktop"
  else if bool_decide (ct ∈ [8; 9; 10; 14]%Z) then Some "laptop"
  else if (ct =? 11)%Z then Some "handset"
  else if bool_decide (ct ∈ [17; 23; 28; 29]%Z) then Some "server"
  else if bool_decide (ct ∈ [30; 31; 32]%Z) then Some "tablet"
  else None.

Definition detect_chassis (m : machine) : option string :=
  s ← read_to_string "/sys/class/dmi/id/chassis_type" m; ct ← parse_u32 (trim s); chassis_name ct.

(** The bytes before the first zero byte. *)
Fixpoint until_nul (s : string) : string :=
  match s with
  | String c r => if Ascii.eqb c Ascii.zero then "" else String c (until_nul r)
  | "" => ""
  end.

(** The buffer [gethostname] filled, if it succeeded. *)
Definition hostname_prop (buf : option string) : string :=
  match buf with Some b => from_utf8_lossy (until_nul b) | None => "localhost" end.

Definition static_hostname (m : machine) : string := read_hostname m.
Definition pretty_hostname (m : machine) : string := default "" (read_machine_info_field "PRETTY_HOSTNAME" m).
Definition default_hostname : string := "localhost".
Definition hostname_source (oc : outcomes) : string :=
  if oc_exists oc "/etc/hostname" then "static" else "default".
Definition icon_name (m : machine) : string := default "computer" (read_machine_info_field "ICON_NAME" m).
Definition chassis (m : machine) : string :=
  match read_machine_info_field "CHASSIS" m with
  | Some c => c | None => default "" (detect_chassis m) end.
Definition deployment (m : machine) : string := default "" (read_machine_info_field "DEPLOYMENT" m).
Definition location (m : machine) : string := default "" (read_machine_info_field "LOCATION" m).
Definition os_pretty_name (m : machine) : string := default "Linux" (read_os_release_field "PRETTY_NAME" m).
Definition os_cpe_name (m : machine) : string := default "" (read_os_release_field "CPE_NAME" m).
Definition os_home_url (m : machine) : string := default "" (read_os_release_field "HOME_URL" m).
Definition hardware_vendor (m : machine) : string := default "" (read_dmi "sys_vendor" m).
Definition hardware_model (m : machine) : string := default "" (read_dmi "product_name" m).
Definition firmware_version (m : machine) : string := default "" (read_dmi "bios_version" m).
Definition firmware_vendor (m : machine) : string := default "" (read_dmi "bios_vendor" m).
Definition firmware_date (m : machine) : string := default "" (read_dmi "bios_date" m).
Definition describe (m : machine) : string :=
  "hostname=" ++ read_hostname m ++ ", os=" ++ default "" (read_os_release_field "PRETTY_NAME" m).

(** ** locale.rs *)

Definition set_locale (oc : outcomes) (locale : list string) : machine → result unit string * machine :=
  write oc "/etc/locale.conf" (cat (map (λ l, l ++ nl) locale)).

Definition set_vc_console_keyboard (oc : outcomes) (keymap keymap_toggle : string) (m : machine)
    : result unit string * machine :=
  let content := ("KEYMAP=" ++ keymap ++ nl) ++
    (if bool_decide (keymap_toggle = "") then "" else "KEYMAP_TOGGLE=" ++ keymap_toggle ++ nl) in
  match write oc "/etc/vconsole.conf" content m with
  | (Err e, m) => (Err e, m)
  | (Ok _, m) => (Ok (), {| mc_files := mc_files m; mc_links := mc_links m; mc_hostname := mc_hostname m;
                            mc_clock := mc_clock m; mc_ran := (mc_ran m ++ [["loadkeys"; keymap]])%list |})
  end.

Definition quoted (s : string) : string := dq ++ s ++ dq.
Definition x11_option (key value : string) : string :=
  "    Option " ++ quoted key ++ " " ++ quoted value.
Definition x11_lines (layout model variant options : string) : list string :=
  ["# Written by dynamod-hostnamed"; "Section " ++ quoted "InputClass";
   "    Identifier " ++ quoted "keyboard-all"; "    MatchIsKeyboard " ++ quoted "on";
   x11_option "XkbLayout" layout; x11_option "XkbModel" model; x11_option "XkbVariant" variant;
   x11_option "XkbOptions" options; "EndSection"].

(** Creating the directory is not checked. *)
Definition set_x11_keyboard (oc : outcomes) (layout model variant options : string)
    : machine → result unit string * machine :=
  write oc "/etc/X11/xorg.conf.d/00-keyboard.conf"
    (cat (map (λ l, l ++ nl) (x11_lines layout model variant options))).

Definition read_locale_conf (m : machine) : list string :=
  filter (λ l, l ≠ "" ∧ starts_with "#" l = false)
    (lines (default "" (read_to_string "/etc/locale.conf" m))).

Definition read_vconsole_field (key : string) (m : machine) : option string :=
  content ← read_to_string "/etc/vconsole.conf" m; first_field key (lines content).

Fixpoint first_option (key : string) (ls : list string) : option string :=
  match ls with
  | [] => None
  | line :: ls =>
      let line := trim line in
      if starts_with "Option" line && contains key line then
        match split_byte quote line !! 3%nat with
        | Some part => Some part
        | None => first_option key ls
        end
      else first_option key ls
  end.
Definition read_x11_keyboard_field (key : string) (m : machine) : option string :=
  content ← read_to_string "/etc/X11/xorg.conf.d/00-keyboard.conf" m; first_option key (lines content).

Definition locale (m : machine) : list string := read_locale_conf m.
Definition x11_layout (m : machine) : string := default "" (read_x11_keyboard_field "XkbLayout" m).
Definition x11_model (m : machine) : string := default "" (read_x11_keyboard_field "XkbModel" m).
Definition x11_variant (m : machine) : string := default "" (read_x11_keyboard_field "XkbVariant" m).
Definition x11_options (m : machine) : string := default "" (read_x11_keyboard_field "XkbOptions" m).
Definition vconsole_keymap (m : machine) : string := default "" (read_vconsole_field "KEYMAP" m).
Definition vconsole_keymap_toggle (m : machine) : string :=
  default "" (read_vconsole_field "KEYMAP_TOGGLE" m).

(** ** timedate.rs *)

Inductive bus_error := InvalidArgs (text : string) | Failed (text : string).

Definition ZONEINFO : string := "/usr/share/zoneinfo/".

Definition set_links (l : gmap string string) (m : machine) : machine :=
  {| mc_files := mc_files m; mc_links := l; mc_hostname := mc_hostname m; mc_clock := mc_clock m;
     mc_ran := mc_ran m |}.

(** The old link is removed if it can be, the write of /etc/timezone is not checked. *)
Definition set_timezone (oc : outcomes) (timezone : string) (m : machine) : result unit bus_error * machine :=
  let tz_path := ZONEINFO ++ timezone in
  if negb (oc_exists oc tz_path) then
    (Err (InvalidArgs ("timezone '" ++ timezone ++ "' not found")), m)
  else
    let m := set_links (delete "/etc/localtime" (mc_links m)) m in
    match oc_symlink oc with
    | Err e => (Err (Failed e), m)
    | Ok _ =>
        let m := set_links (<["/etc/localtime" := tz_path]> (mc_links m)) m in
        (Ok (), (write oc "/etc/timezone" (timezone ++ nl) m).2)
    end.

Definition set_local_rtc (oc : outcomes) (local_rtc : bool) : machine → result unit string * machine :=
  write oc "/etc/adjtime" ("0.0 0 0.0" ++ nl ++ "0" ++ nl ++ (if local_rtc then "LOCAL" else "UTC") ++ nl).

(** The quotient and remainder of [i64] round towards zero. *)
Definition set_time (oc : outcomes) (usec_utc : Z) (m : machine) : result unit string * machine :=
  match oc_settimeofday oc with
  | Err e => (Err ("settimeofday: " ++ e), m)
  | Ok _ => (Ok (), {| mc_files := mc_files m; mc_links := mc_links m; mc_hostname := mc_hostname m;
                       mc_clock := (Z.quot usec_utc 1000000, Z.rem usec_utc 1000000); mc_ran := mc_ran m |})
  end.

Definition set_ntp (_ : bool) (m : machine) : result unit string * machine := (Ok (), m).

Definition timezone (m : machine) : string :=
  let linked := target ← mc_links m !! "/etc/localtime";
                if valid_utf8 target then strip_prefix ZONEINFO target else None in
  match linked with
  | Some tz => tz
  | None => match read_to_string "/etc/timezone" m with Some s => trim s | None => "UTC" end
  end.

Definition local_rtc (m : machine) : bool :=
  match read_to_string "/etc/adjtime" m with Some s => contains "LOCAL" s | None => false end.

(** ** What only the kernel knows *)

(** The answers of [uname] (the bytes of the release and the version, [None] if it fails),
    of [adjtimex], and the names in /run. *)
Record kernel := {
  kn_uname : option (string * string);
  kn_adjtimex : Z;
  kn_run : option (list string);
}.

(** [CStr::from_ptr]: the bytes before the first zero. *)
Fixpoint c_str (s : string) : string :=
  match s with
  | "" => ""
  | String c s => if Ascii.eqb Ascii.zero c then "" else String c (c_str s)
  end.

Definition read_utsname_field (f : string * string → string) (k : kernel) : option string :=
  match kn_uname k with
  | Some uts => Some (from_utf8_lossy (c_str (f uts)))
  | None => None
  end.
Definition kernel_name : string := "Linux".
Definition kernel_release (k : kernel) : string := default "" (read_utsname_field fst k).
Definition kernel_version (k : kernel) : string := default "" (read_utsname_field snd k).

Definition can_ntp : bool := true.
Definition ntp (k : kernel) : bool :=
  match kn_run k with
  | None => false
  | Some names =>
      existsb (λ n, let n := from_utf8_lossy n in
                    contains "ntpd" n || contains "chrony" n || contains "timesyncd" n) names
  end.
Definition ntp_synchronized (k : kernel) : bool := (kn_adjtimex k =? 0)%Z.

(** The clock in microseconds since the epoch, zero before it. *)
Definition time_usec (m : machine) : Z :=
  let t := ((mc_clock m).1 * 1000000 + (mc_clock m).2)%Z in if (t <? 0)%Z then 0%Z else wrap_u64 t.
Definition rtc_time_usec (m : machine) : Z := time_usec m.

(** The time that was set is the time that is read, up to the time passed since. *)
Lemma time_read_back oc usec m :
  oc_settimeofday oc = Ok () → (0 ≤ usec < 2 ^ 63)%Z →
  let '(r, m') := set_time oc usec m in r = Ok () ∧ time_usec m' = usec.
Proof.
  intros Ho Hu. unfold set_time. rewrite Ho. split; [done|]. unfold time_usec. cbn [mc_clock fst snd].
  rewrite (Z.mul_comm (Z.quot _ _)), <-Z.quot_rem' by done.
  destruct (Z.ltb_spec usec 0); [lia|]. unfold wrap_u64. apply Z.mod_small. lia.
Qed.

(** ** Lines *)

Definition clean_char (c : Ascii.ascii) : bool :=
  negb (Ascii.eqb c newline) && negb (Ascii.eqb c (Ascii.ascii_of_nat 13)).
(** One line: no line feed, no carriage return. *)
Definition clean : string → bool := str_all clean_char.
Definition no_cr : string → bool := str_all (λ c, negb (Ascii.eqb c (Ascii.ascii_of_nat 13))).

Lemma clean_no_cr_suffix l : clean l = true → strip_suffix carriage_return l = None.
Proof.
  intros Hl. destruct (strip_suffix carriage_return l) as [r|] eqn:E; [|done].
  apply strip_suffix_Some in E as ->. unfold clean in Hl. rewrite str_all_app in Hl.
  apply andb_true_iff in Hl as [_ Hl]. done.
Qed.

Lemma split_byte_cons c a b :
  str_all (λ d, negb (Ascii.eqb c d)) a = true → split_byte c (a ++ String c b) = a :: split_byte c b.
Proof.
  induction a as [|d a IH]; intros Ha; cbn in *; [by rewrite Ascii.eqb_refl|].
  apply andb_true_iff in Ha as [Hd Ha]. apply negb_true_iff in Hd. by rewrite Hd, IH.
Qed.

Lemma split_byte_nonempty c s : split_byte c s ≠ [].
Proof. destruct s as [|d s]; [done|]. cbn. destruct (Ascii.eqb c d); [done|]. by destruct (split_byte c s). Qed.

Lemma clean_no_newline l : clean l = true → str_all (λ d, negb (Ascii.eqb newline d)) l = true.
Proof.
  apply str_all_impl. intros c [Hc _]%andb_true_iff. by rewrite Ascii.eqb_sym.
Qed.

Lemma lines_cons a b : clean a = true → lines (a ++ nl ++ b) = a :: lines b.
Proof.
  intros Ha. unfold lines. change (nl ++ b) with (String newline b).
  rewrite split_byte_cons by (by apply clean_no_newline).
  pose proof (split_byte_nonempty newline b) as Hne. destruct (split_byte newline b) as [|p ps]; [done|].
  change (removelast (a :: p :: ps)) with (a :: removelast (p :: ps)).
  change (List.last (a :: p :: ps) "") with (List.last (p :: ps) ""). cbn [map app].
  by rewrite (clean_no_cr_suffix a Ha).
Qed.

Lemma lines_cat ls : Forall (λ l, clean l = true) ls → lines (cat (map (λ l, l ++ nl) ls)) = ls.
Proof.
  induction 1 as [|l ls Hl _ IH]; [done|]. cbn [map cat foldr]. rewrite app_assoc_str.
  change (foldr String.append "" (map (λ l, l ++ nl) ls)) with (cat (map (λ l, l ++ nl) ls)).
  by rewrite lines_cons, IH.
Qed.

Lemma join_cat ls : ls ≠ [] → join nl ls ++ nl = cat (map (λ l, l ++ nl) ls).
Proof.
  induction ls as [|l ls IH]; intros Hne; [done|]. destruct ls as [|l' ls]; [cbn; by rewrite app_nil_r_str|].
  change (join nl (l :: l' :: ls)) with (l ++ nl ++ join nl (l' :: ls)).
  rewrite !app_assoc_str, IH by done. cbn [map cat foldr]. by rewrite !app_assoc_str.
Qed.

(** The lines of a text without carriage returns. *)
Lemma split_byte_pieces p c s :
  str_all p s = true → Forall (λ l, str_all (λ d, p d && negb (Ascii.eqb c d)) l = true) (split_byte c s).
Proof.
  induction s as [|d s IH]; intros Hs; cbn in *; [by repeat constructor|].
  apply andb_true_iff in Hs as [Hd Hs]. specialize (IH Hs). destruct (Ascii.eqb c d) eqn:E; [by constructor|].
  destruct (split_byte c s) as [|h t]; [repeat constructor; cbn; by rewrite Hd, E|].
  apply Forall_cons in IH as [Hh Ht]. constructor; [|done]. cbn. by rewrite Hd, E.
Qed.

Lemma pieces_clean s : no_cr s = true → Forall (λ l, clean l = true) (split_byte newline s).
Proof.
  intros Hs%(split_byte_pieces _ newline). eapply Forall_impl; [exact Hs|]. intros l.
  apply str_all_impl. intros c [H1 H2]%andb_true_iff. unfold clean_char. by rewrite H1, Ascii.eqb_sym, H2.
Qed.

Lemma lines_clean s : no_cr s = true → Forall (λ l, clean l = true) (lines s).
Proof.
  intros Hc%pieces_clean. unfold lines. pose proof (split_byte_nonempty newline s) as Hne.
  destruct (exists_last Hne) as (init & x & E). rewrite E in Hc |- *. rewrite removelast_last, last_last.
  apply Forall_app in Hc as [Hi Hx]. apply Forall_app. split.
  - apply Forall_map. eapply Forall_impl; [exact Hi|]. intros l Hl. by rewrite clean_no_cr_suffix.
  - destruct (String.eqb x ""); [constructor|exact Hx].
Qed.

(** ** Quotes *)

(** Neither starts nor ends with a quote. *)
Definition unquoted (s : string) : Prop :=
  trim_start_char quote s = s ∧ trim_end_matches (Ascii.eqb quote) s = s.

Lemma length_trim_start_char c s : (String.length (trim_start_char c s) ≤ String.length s)%nat.
Proof. induction s as [|d s IH]; cbn; [lia|]. destruct (Ascii.eqb c d); cbn; lia. Qed.

Lemma trim_end_snoc p s c : p c = true → trim_end_matches p (s ++ String c "") = trim_end_matches p s.
Proof. intros Hc. induction s as [|d s IH]; cbn; [by rewrite Hc|]. by rewrite IH. Qed.

Lemma trim_matches_quoted v : v ≠ "" → unquoted v → trim_matches quote (dq ++ v ++ dq) = v.
Proof.
  intros Hne [Hs He]. unfold trim_matches.
  assert (trim_start_char quote (dq ++ v ++ dq) = v ++ dq) as ->.
  { destruct v as [|d v]; [done|]. cbn -[Ascii.eqb] in Hs |- *.
    change (Ascii.eqb quote (Ascii.ascii_of_nat 34)) with true. cbn -[Ascii.eqb].
    destruct (Ascii.eqb quote d); [|done]. exfalso.
    pose proof (length_trim_start_char quote v) as Hl. rewrite Hs in Hl. cbn in Hl. lia. }
  change dq with (String quote ""). by rewrite trim_end_snoc.
Qed.

(** ** Fields *)

Definition equals : Ascii.ascii := Ascii.ascii_of_nat 61.
(** A key has no equals sign. *)
Definition is_key : string → bool := str_all (λ c, negb (Ascii.eqb equals c)).

(** A line starts with [k=] for one key at most. *)
Lemma field_unique a b l x y :
  is_key a = true → is_key b = true →
  strip_prefix (a ++ "=") l = Some x → strip_prefix (b ++ "=") l = Some y → a = b.
Proof.
  intros Ha Hb Hx%strip_prefix_Some Hy%strip_prefix_Some. subst l.
  revert b Hb Hy. induction a as [|c a IH]; intros [|d b] Hb Hy; [done|..].
  - cbn in Hb, Hy. injection Hy as <- _. cbn in Hb. done.
  - cbn in Ha, Hy. injection Hy as -> _. cbn in Ha. done.
  - cbn in Ha, Hb, Hy. injection Hy as -> Hy. apply andb_true_iff in Ha as [_ Ha], Hb as [_ Hb].
    f_equal. by apply IH.
Qed.

Lemma first_field_app k l l' :
  first_field k (l ++ l')%list = match first_field k l with Some v => Some v | None => first_field k l' end.
Proof. induction l as [|x l IH]; cbn; [done|]. by destruct (strip_prefix _ x). Qed.

Lemma first_field_filter key k ls :
  is_key key = true → is_key k = true →
  first_field k (filter (λ l, starts_with (key ++ "=") l = false) ls) =
  if bool_decide (k = key) then None else first_field k ls.
Proof.
  intros Hkey Hk. induction ls as [|l ls IH]; [by case_bool_decide|]. rewrite filter_cons.
  destruct (decide (starts_with (key ++ "=") l = false)) as [Hs|Hs]; unfold starts_with in Hs.
  - destruct (strip_prefix (key ++ "=") l) as [x|] eqn:E; [done|]. cbn. rewrite IH.
    case_bool_decide as He; [subst; by rewrite E|]. by destruct (strip_prefix (k ++ "=") l).
  - destruct (strip_prefix (key ++ "=") l) as [x|] eqn:E; [|done]. rewrite IH.
    case_bool_decide as Hne; [done|]. cbn.
    destruct (strip_prefix (k ++ "=") l) as [y|] eqn:E'; [|done].
    by destruct Hne; eapply field_unique.
Qed.

(** The text [update_machine_info] writes. *)
Definition machine_info_text (key value content : string) : string :=
  join nl (updated_lines key value content) ++ nl.

Lemma first_field_written key value content k :
  no_cr content = true → clean key = true → clean value = true →
  first_field k (lines (machine_info_text key value content)) =
  first_field k (updated_lines key value content).
Proof.
  intros Hcr Hkey Hval. unfold machine_info_text.
  assert (Forall (λ l, clean l = true) (updated_lines key value content)) as Hall.
  { unfold updated_lines. apply Forall_app. split.
    { apply Forall_forall. intros l [_ Hl]%list_elem_of_filter.
      exact (proj1 (Forall_forall _ _) (lines_clean content Hcr) l Hl). }
    case_bool_decide; [constructor|]. constructor; [|constructor].
    unfold clean in *. rewrite !str_all_app, Hkey, Hval. done. }
  destruct (decide (updated_lines key value content = [])) as [->|Hne].
  - change (match strip_prefix (k ++ "=") "" with Some v => Some (trim_matches quote v) | None => None end
            = None). by destruct k.
  - by rewrite join_cat, lines_cat.
Qed.

(** *** The text written is UTF-8 *)

Lemma lines_valid s :
  no_cr s = true → valid_utf8 s = true → Forall (λ l, valid_utf8 l = true) (lines s).
Proof.
  intros Hc%pieces_clean Hv. apply (valid_pieces newline) in Hv; [|done]. unfold lines. destruct (exists_last (split_byte_nonempty newline s)) as (init & x & E). rewrite E in Hc, Hv |- *.
  rewrite removelast_last, last_last. apply Forall_app in Hv as [Hvi Hvx], Hc as [Hci _].
  apply Forall_app. split; [|by destruct (String.eqb x "")].
  apply Forall_map, Forall_forall. intros l Hl.
  rewrite clean_no_cr_suffix by exact (proj1 (Forall_forall _ _) Hci l Hl).
  exact (proj1 (Forall_forall _ _) Hvi l Hl).
Qed.

Lemma join_valid ls : Forall (λ l, valid_utf8 l = true) ls → valid_utf8 (join nl ls) = true.
Proof.
  induction 1 as [|l ls Hl _ IH]; [done|]. destruct ls; [done|].
  change (join nl (l :: _)) with (l ++ nl ++ join nl (s :: ls)). by repeat apply valid_app.
Qed.

Lemma machine_info_valid key value content :
  no_cr content = true → valid_utf8 content = true → valid_utf8 key = true → valid_utf8 value = true →
  valid_utf8 (machine_info_text key value content) = true.
Proof.
  intros Hcr Hc Hk Hv. apply valid_app; [|done]. apply join_valid. unfold updated_lines.
  apply Forall_app. split.
  - apply Forall_forall. intros l [_ Hl]%list_elem_of_filter.
    exact (proj1 (Forall_forall _ _) (lines_valid content Hcr Hc) l Hl).
  - case_bool_decide; [constructor|]. apply Forall_singleton. by repeat apply valid_app.
Qed.

(** C36: Setting a field of /etc/machine-info, for a key and a value in UTF-8 without line
    breaks or carriage returns, a value that neither starts nor ends with a quote, and a
    file without carriage returns: when the write succeeds the field is read back as it was
    set (an empty value removes it) and every other field reads as before; when it fails the
    error is reported and nothing but what the write left of the file is changed. *)
Theorem machine_info_exact oc key value k m :
  let content := default "" (read_to_string "/etc/machine-info" m) in
  let text := machine_info_text key value content in
  valid_utf8 key = true → valid_utf8 value = true → no_cr content = true →
  clean key = true → is_key key = true → is_key k = true → clean value = true → unquoted value →
  let '(r, m') := update_machine_info oc key value m in
  match oc_write oc "/etc/machine-info" text with
  | None =>
      r = Ok () ∧
      read_machine_info_field k m' =
        (if bool_decide (k = key) then if bool_decide (value = "") then None else Some value
         else read_machine_info_field k m)
  | Some (e, None) => r = Err e ∧ m' = m
  | Some (e, Some part) => r = Err e ∧ m' = set_files (<["/etc/machine-info" := part]> (mc_files m)) m
  end.
Proof.
  intros content text Hkv Hvv Hcr Hclean Hkey Hk Hval Hunq. unfold update_machine_info. fold content.
  unfold write. fold (machine_info_text key value content). fold text.
  destruct (oc_write oc _ text) as [[e [part|]]|]; [by split..|]. split; [done|].
  unfold read_machine_info_field at 1, read_to_string. cbn [set_files mc_files].
  assert (valid_utf8 text = true) as Hutf.
  { apply machine_info_valid; try done. unfold content, read_to_string.
    destruct (mc_files m !! _) as [t|]; [|done]. by destruct (valid_utf8 t) eqn:E. }
  rewrite lookup_insert_eq, Hutf. cbn -[lines]. unfold text. rewrite first_field_written by done.
  unfold updated_lines. rewrite first_field_app, first_field_filter by done.
  assert (bool_decide (k = key) = false → first_field k (lines content) = read_machine_info_field k m) as Hold.
  { intros _. unfold read_machine_info_field, content. by destruct (read_to_string "/etc/machine-info" m). }
  case_bool_decide as He.
  - subst k. case_bool_decide; [done|]. cbn [first_field]. rewrite <-app_assoc_str, strip_prefix_app.
    by rewrite trim_matches_quoted.
  - rewrite Hold by done. destruct (read_machine_info_field k m); [done|].
    case_bool_decide; [done|]. cbn [first_field].
    destruct (strip_prefix (k ++ "=") _) as [y|] eqn:E; [|done].
    destruct He. eapply field_unique; [done|done|exact E|]. rewrite <-app_assoc_str. apply strip_prefix_app.
Qed.

(** A field of an existing file. *)
Definition writable : outcomes := {|
  oc_write _ _ := None; oc_sethostname := Ok (); oc_symlink := Ok (); oc_settimeofday := Ok ();
  oc_exists _ := true |}.
Definition example_machine : machine := {|
  mc_files := {["/etc/machine-info" := "CHASSIS=desktop" ++ nl ++ "ICON_NAME=" ++ dq ++ "pc" ++ dq ++ nl]};
  mc_links := ∅; mc_hostname := "old"; mc_clock := (0, 0)%Z; mc_ran := [] |}.

Lemma machine_info_exact_witness :
  let m' := (set_chassis writable "laptop" example_machine).2 in
  chassis m' = "laptop" ∧ icon_name m' = "pc".
Proof.
  assert (∀ k, is_key k = true → read_machine_info_field k (set_chassis writable "laptop" example_machine).2 =
    if bool_decide (k = "CHASSIS") then Some "laptop" else read_machine_info_field k example_machine) as H.
  { intros k Hk. pose proof (machine_info_exact writable "CHASSIS" "laptop" k example_machine) as H.
    unfold set_chassis. destruct (update_machine_info writable "CHASSIS" "laptop" example_machine) as [r m'].
    destruct H as [_ H]; try (vm_compute; reflexivity); [exact Hk|split; vm_compute; reflexivity|].
    exact H. }
  unfold chassis, icon_name. rewrite !H by reflexivity. split; [reflexivity|vm_compute; reflexivity].
Defined.

(** A value is written as it is: one with a line break sets another field too, and quotes at
    its ends are not read back. *)
Example machine_info_injection :
  let m1 := (set_pretty_hostname writable ("x" ++ nl ++ "DEPLOYMENT=prod") example_machine).2 in
  let m2 := (set_pretty_hostname writable (dq ++ "my host" ++ dq) example_machine).2 in
  deployment example_machine = "" ∧ deployment m1 = "prod" ∧
  read_machine_info_field "PRETTY_HOSTNAME" m2 = Some "my host".
Proof. vm_compute. done. Qed.

(** ** The other settings *)

Lemma trim_line c s :
  plain_byte c = true → plain_byte (last_byte c s) = true → trim (String c s ++ nl) = String c s.
Proof.
  intros Hc Hl. unfold trim, trim_start.
  assert (∀ t, first_strip strip_prefix whitespace (String c t) = None) as Hp.
  { intros t. apply first_strip_app_None, Forall_forall. eauto using whitespace_not_plain. }
  cbn [String.append String.length trim_with]. rewrite Hp.
  assert (first_strip strip_suffix whitespace (String c s) = None) as Hq.
  { apply first_strip_app_None, Forall_forall. intros p Hin.
    apply whitespace_not_plain_suffix; [done|]. by exists c. }
  assert (first_strip strip_suffix whitespace (String c s ++ nl) = Some (String c s)) as Hr.
  { assert (strip_suffix (bytes_str [9]%nat) (String c s ++ nl) = None) as Ht.
    { destruct (strip_suffix _ _) as [r|] eqn:E; [|done]. apply strip_suffix_Some in E.
      apply (f_equal (last_byte c)) in E. rewrite !last_byte_app in E. done. }
    change (first_strip strip_suffix whitespace (String c s ++ nl)) with
      (match strip_suffix (bytes_str [9]%nat) (String c s ++ nl) with
       | Some r => Some r
       | None => match strip_suffix nl (String c s ++ nl) with
                 | Some r => Some r
                 | None => first_strip strip_suffix (drop 2 whitespace) (String c s ++ nl)
                 end
       end).
    by rewrite Ht, strip_suffix_app. }
  unfold trim_end. change (String c (s ++ nl)) with (String c s ++ nl).
  rewrite length_app_str. cbn [String.length]. rewrite Nat.add_comm. cbn [Nat.add trim_with nl String.length].
  rewrite Hr, Hq. done.
Qed.

(** Host name, time zone, mode of the hardware clock and locale are read back as they were
    set; an unknown time zone changes nothing. *)
Theorem settings_read_back oc m :
  (∀ path text, oc_write oc path text = None) → oc_sethostname oc = Ok () → oc_symlink oc = Ok () →
  (∀ c s, plain_byte c = true → plain_byte (last_byte c s) = true → has_nul (String c s) = false →
     valid_utf8 (String c s) = true →
     let '(r, m') := set_static_hostname oc (String c s) m in
     r = Ok () ∧ static_hostname m' = String c s ∧ mc_hostname m' = String c s) ∧
  (∀ tz, valid_utf8 tz = true →
     let '(r, m') := set_timezone oc tz m in
     if oc_exists oc (ZONEINFO ++ tz) then r = Ok () ∧ timezone m' = tz
     else m' = m) ∧
  (∀ rtc, let '(r, m') := set_local_rtc oc rtc m in r = Ok () ∧ local_rtc m' = rtc) ∧
  (∀ ls, Forall (λ l, clean l = true) ls → Forall (λ l, valid_utf8 l = true) ls →
     let '(r, m') := set_locale oc ls m in
     r = Ok () ∧ locale m' = filter (λ l, l ≠ "" ∧ starts_with "#" l = false) ls).
Proof.
  intros Hw Hset Hsym. split_and!.
  - intros c s Hc Hl Hn Hv. unfold set_static_hostname, write. rewrite Hw, Hn, Hset. split; [done|].
    split; [|done]. unfold static_hostname, read_hostname, read_to_string. cbn [mc_files set_files].
    by rewrite lookup_insert_eq, (valid_app (String c s) nl Hv), trim_line.
  - intros tz Hv. unfold set_timezone, write. rewrite Hsym, Hw. destruct (oc_exists oc _); [|done]. cbn [negb].
    split; [done|]. unfold timezone. cbn [snd mc_links set_files set_links]. rewrite lookup_insert_eq.
    cbn [mbind option_bind]. by rewrite (valid_app ZONEINFO tz), strip_prefix_app.
  - intros rtc. unfold set_local_rtc, write. rewrite Hw. split; [done|].
    unfold local_rtc, read_to_string. cbn [mc_files set_files]. rewrite lookup_insert_eq. by destruct rtc.
  - intros ls Hls Hv. unfold set_locale, write. rewrite Hw. split; [done|].
    unfold locale, read_locale_conf, read_to_string. cbn [mc_files set_files].
    assert (valid_utf8 (cat (map (λ l, l ++ nl) ls)) = true) as Hcat.
    { clear -Hv. induction Hv as [|l ls Hl _ IH]; [done|]. by repeat apply valid_app. }
    rewrite lookup_insert_eq, Hcat. unfold default, from_option, id. by rewrite lines_cat.
Qed.

Lemma settings_read_back_witness :
  let m' := (set_timezone writable "Europe/Vienna" example_machine).2 in timezone m' = "Europe/Vienna".
Proof.
  destruct (settings_read_back writable example_machine (λ _ _, eq_refl) eq_refl eq_refl) as (_ & H & _).
  exact (proj2 (H "Europe/Vienna" ltac:(vm_compute; reflexivity))).
Defined.
