(* ===== verification/Pam.v ===== *)
(** * The PAM module (pam_dynamod_logind/src/lib.rs)

    On session open the module calls [CreateSession] of the login manager and puts what
    it answers into the environment of the session; on close it calls [ReleaseSession].
    The PAM library is the record [pam_handle]: its items, the environment it keeps, and
    whether it takes a variable.  The system bus is the class [LoginBus]; [logind_bus] is
    the instance in which the other end is the login manager itself ([LoginManager]), so
    that the theorem follows a session from the module through the manager and back. *)

From S2P Require Import Prelude RustStr Utf8 Config Protocol Intensity Monad.
From S2P Require Import LoginConfig LoginState LoginSys LoginPower LoginPaths LoginManager LoginObjects LoginFacts.

#[local] Open Scope string_scope.
#[local] Open Scope Z_scope.

Definition PAM_SUCCESS : Z := 0.
Definition PAM_IGNORE : Z := 25.
Definition PAM_SERVICE : Z := 1.
Definition PAM_USER : Z := 2.
Definition PAM_TTY : Z := 3.
Definition PAM_RHOST : Z := 4.
Definition PAM_RUSER : Z := 8.
Definition PAM_XDISPLAY : Z := 11.

Record pam_handle := {
  ph_get_item : Z → Z * option string;    (** return code and item; [None] for a null pointer *)
  ph_env : gmap string string;
  ph_accepts : string → bool;             (** [pam_putenv] takes the variable *)
  ph_getpwnam : string → option Z;        (** the user database *)
  ph_pid : Z;
  ph_log : list string;
}.
Definition ph_with_env (e : gmap string string) (h : pam_handle) : pam_handle := {|
  ph_get_item := ph_get_item h; ph_env := e; ph_accepts := ph_accepts h;
  ph_getpwnam := ph_getpwnam h; ph_pid := ph_pid h; ph_log := ph_log h |}.

(** ** Arguments, items, environment *)

Record ModuleArgs := {
  ma_class : option string;
  ma_type : option string;
  ma_desktop : option string;
}.
Definition ModuleArgs_default : ModuleArgs := {| ma_class := None; ma_type := None; ma_desktop := None |}.

(** One argument; a null pointer or text that is not UTF-8 is skipped. *)
Definition parse_arg (p : option string) (out : ModuleArgs) : ModuleArgs :=
  match p with
  | None => out
  | Some s =>
      if negb (valid_utf8 s) then out
      else match strip_prefix "class=" s with
      | Some v => {| ma_class := Some v; ma_type := ma_type out; ma_desktop := ma_desktop out |}
      | None =>
          match strip_prefix "type=" s with
          | Some v => {| ma_class := ma_class out; ma_type := Some v; ma_desktop := ma_desktop out |}
          | None =>
              match strip_prefix "desktop=" s with
              | Some v => {| ma_class := ma_class out; ma_type := ma_type out; ma_desktop := Some v |}
              | None => out
              end
          end
      end
  end.
Definition parse_args (argv : option (list (option string))) : ModuleArgs :=
  match argv with
  | None => ModuleArgs_default
  | Some args => foldl (λ out p, parse_arg p out) ModuleArgs_default args
  end.

Definition get_item (item : Z) (h : pam_handle) : result (option string) string :=
  let '(rc, p) := ph_get_item h item in
  if negb (rc =? PAM_SUCCESS) then Err ("pam_get_item(" ++ to_string item ++ ") = " ++ to_string rc)
  else Ok (from_utf8_lossy <$> p).

(** [pam_putenv] of a variable whose name has no equals sign; a zero byte is refused. *)
Definition set_pam_env (name value : string) (h : pam_handle) : pam_handle :=
  let kv := name ++ "=" ++ value in
  if has_nul kv then h
  else if ph_accepts h kv then ph_with_env (<[name := value]> (ph_env h)) h else h.

Definition get_env (name : string) (h : pam_handle) : option string :=
  from_utf8_lossy <$> ph_env h !! name.

Definition log_err (msg : string) (h : pam_handle) : pam_handle :=
  if has_nul msg then h
  else {| ph_get_item := ph_get_item h; ph_env := ph_env h; ph_accepts := ph_accepts h;
          ph_getpwnam := ph_getpwnam h; ph_pid := ph_pid h; ph_log := (ph_log h ++ [msg])%list |}.

Definition lookup_uid (user : string) (h : pam_handle) : option Z :=
  if has_nul user then None else ph_getpwnam h user.

(** ** The terminal *)

(** [trim_start_matches] of a string, as often as it is there. *)
Fixpoint trim_start_str (fuel : nat) (pre s : string) : string :=
  match fuel with
  | O => s
  | S fuel => match strip_prefix pre s with Some r => trim_start_str fuel pre r | None => s end
  end.

Definition classify_tty (tty display : string) : Z * string * string :=
  if starts_with ":" tty then (0, "", tty)
  else
    let tty_clean := trim_start_str (String.length tty) "/dev/" tty in
    let vtnr := match strip_prefix "tty" tty_clean with
                | Some rest => default 0 (parse_u32 rest)
                | None => 0
                end in
    (vtnr, tty_clean, display).

Definition infer_type (display tty : string) : string :=
  if negb (bool_decide (display = "")) then "x11"
  else if bool_decide (tty = "") then "unspecified" else "tty".

(** ** The bus *)

Definition reply : Type := string * string * string * string * Z * bool.
Inductive call_error := CallFailed (e : string) | DecodeReply (e : string).

Class LoginBus := {
  bus : Type;
  bus_connect : bus → result unit string * bus;
  bus_create_session : create_args → bus → result reply call_error * bus;
  bus_release_session : string → bus → result unit string * bus;
}.

Section pam.
Context `{B : LoginBus}.

(** The request, from the items and the arguments. *)
Definition session_request_of (user service tty rhost ruser display : string) (uid : Z)
    (args : ModuleArgs) (h : pam_handle) : create_args :=
  let '(vtnr, tty_clean, display_out) := classify_tty tty display in
  let remote := negb (bool_decide (rhost = "")) && negb (bool_decide (rhost = "localhost")) in
  {| ca_uid := uid; ca_pid := wrap_u32 (ph_pid h); ca_service := service;
     ca_session_type := match ma_type args with Some t => t | None => infer_type display_out tty_clean end;
     ca_class := default "user" (ma_class args); ca_desktop := default "" (ma_desktop args);
     ca_seat_id := if remote || (vtnr =? 0) then "" else "seat0";
     ca_vtnr := vtnr; ca_tty := tty_clean; ca_display := display_out; ca_remote := remote;
     ca_remote_user := ruser; ca_remote_host := rhost |}.

(** The variables set from the reply. *)
Definition export_session (a : create_args) (r : reply) (h : pam_handle) : pam_handle :=
  let '(session_id, _, runtime_path, seat_out, vtnr_out, _) := r in
  let h := set_pam_env "XDG_SESSION_ID" session_id h in
  let h := set_pam_env "XDG_RUNTIME_DIR" runtime_path h in
  let h := if bool_decide (seat_out = "") then h else set_pam_env "XDG_SEAT" seat_out h in
  let h := if 0 <? vtnr_out then set_pam_env "XDG_VTNR" (to_string vtnr_out) h else h in
  let h := set_pam_env "XDG_SESSION_TYPE" (ca_session_type a) h in
  let h := set_pam_env "XDG_SESSION_CLASS" (ca_class a) h in
  if bool_decide (ca_desktop a = "") then h else set_pam_env "XDG_SESSION_DESKTOP" (ca_desktop a) h.

Definition do_open_session (args : ModuleArgs) (h : pam_handle) (b : bus)
    : result unit string * pam_handle * bus :=
  match
    user <-? get_item PAM_USER h;
    user <-? match user with Some u => Ok u | None => Err "no PAM_USER" end;
    service <-? get_item PAM_SERVICE h;
    tty <-? get_item PAM_TTY h;
    rhost <-? get_item PAM_RHOST h;
    ruser <-? get_item PAM_RUSER h;
    display <-? get_item PAM_XDISPLAY h;
    uid <-? match lookup_uid user h with
            | Some uid => Ok uid | None => Err ("no passwd entry for '" ++ user ++ "'") end;
    Ok (session_request_of user (default "" service) (default "" tty) (default "" rhost)
          (default "" ruser) (default "" display) uid args h)
  with
  | Err e => (Err e, h, b)
  | Ok a =>
      match bus_connect b with
      | (Err e, b) => (Err ("system bus: " ++ e), h, b)
      | (Ok _, b) =>
          match bus_create_session a b with
          | (Err (CallFailed e), b) => (Err ("CreateSession: " ++ e), h, b)
          | (Err (DecodeReply e), b) => (Err ("decode reply: " ++ e), h, b)
          | (Ok r, b) => (Ok (), export_session a r h, b)
          end
      end
  end.

Definition do_close_session (h : pam_handle) (b : bus) : result unit string * bus :=
  match get_env "XDG_SESSION_ID" h with
  | Some s =>
      if bool_decide (s = "") then (Ok (), b)
      else match bus_connect b with
           | (Err e, b) => (Err ("system bus: " ++ e), b)
           | (Ok _, b) => (Ok (), (bus_release_session s b).2)
           end
  | None => (Ok (), b)
  end.

(** ** The hooks *)

Definition pam_sm_authenticate : Z := PAM_IGNORE.
Definition pam_sm_setcred : Z := PAM_SUCCESS.
Definition pam_sm_acct_mgmt : Z := PAM_IGNORE.

Definition pam_sm_open_session (argv : option (list (option string))) (h : pam_handle) (b : bus)
    : Z * pam_handle * bus :=
  match do_open_session (parse_args argv) h b with
  | (Ok _, h, b) => (PAM_SUCCESS, h, b)
  | (Err e, h, b) => (PAM_SUCCESS, log_err ("open_session: " ++ e) h, b)
  end.

Definition pam_sm_close_session (h : pam_handle) (b : bus) : Z * pam_handle * bus :=
  match do_close_session h b with
  | (Ok _, b) => (PAM_SUCCESS, h, b)
  | (Err e, b) => (PAM_SUCCESS, log_err ("close_session: " ++ e) h, b)
  end.
End pam.

(** ** The module and the login manager together *)

Section together.
Context {K : LoginOS} {ZP : ZPath} {ZL : ZPathLaw ZP}.

Definition fdo_text (e : fdo_error) : string :=
  match e with Failed s | InvalidArgs s => s end.

(** The bus with the login manager behind it. *)
Definition logind_bus : LoginBus := {|
  bus := Login;
  bus_connect w := (Ok (), w);
  bus_create_session a w :=
    match manager_create_session true a w with
    | Ret (Ok r) w' => (Ok r, w')
    | Ret (Err e) w' => (Err (CallFailed (fdo_text e)), w')
    | _ => (Err (CallFailed "no reply"), w)
    end;
  bus_release_session id w :=
    match release_session id w with
    | Ret (Ok _) w' => (Ok (), w')
    | Ret (Err e) w' => (Err (fdo_text e), w')
    | _ => (Err "no reply", w)
    end |}.

#[local] Abbreviation sessions w := (ls_sessions (l_state w)).

(** Computations that leave the table of sessions alone. *)
Definition spares {A} (m : L A) : Prop := ∀ w, wpx False m (λ _ w', sessions w' = sessions w) w.

Lemma spares_steady {A} (m : L A) : steady m → spares m.
Proof. intros Hm w. eapply wpx_mono; [apply Hm|]. intros a w' [Hs _]. by rewrite Hs. Qed.
Lemma spares_bind {A B} (m : L A) (k : A → L B) : spares m → (∀ a, spares (k a)) → spares (m ≫= k).
Proof.
  intros Hm Hk w. apply wpx_bind. eapply wpx_mono; [apply Hm|]. intros a w1 H1. cbn.
  eapply wpx_mono; [apply Hk|]. intros b w2 H2. by rewrite H2.
Qed.
Lemma spares_cleanups f : spares (on_state (λ st, ls_with_cleanups (f (ls_pending_user_cleanups st)) st)).
Proof. done. Qed.
Lemma spares_cancel_cleanup uid : spares (cancel_cleanup uid).
Proof.
  unfold cancel_cleanup. apply spares_bind; [by apply spares_steady|]. intros st.
  destruct (_ !! uid); [|by apply spares_steady]. apply spares_bind; [apply spares_cleanups|].
  intros []. apply spares_steady, steady_try_perform.
Qed.
Lemma spares_schedule_cleanup uid : spares (schedule_cleanup uid).
Proof.
  unfold schedule_cleanup. apply spares_bind; [by apply spares_steady|]. intros st. case_bool_decide.
  - apply spares_bind; [apply spares_steady, steady_call|]. intros task.
    apply spares_bind; [apply spares_steady, steady_try_perform|]. intros []. apply spares_cleanups.
  - by apply spares_steady.
Qed.

Lemma wpx_and {A} (m : L A) P Q w : wpx False m P w → wpx False m Q w → wpx False m (λ a w', P a w' ∧ Q a w') w.
Proof. unfold wpx. by destruct (m w). Qed.

(** Registering a session adds it under a fresh id. *)
Lemma register_session_adds rq w :
  login_ok w → l_next_session w < U64_MAX →
  wpx False (register_session rq) (λ id w',
    id = to_string (l_next_session w) ∧ sessions w !! id = None ∧
    ∃ s, sessions w' = <[id := s]> (sessions w) ∧ ss_uid s = rq_uid rq ∧ ss_seat s = rq_seat_id rq) w.
Proof.
  intros [[Hi _] Hc] Hlt. cbn in Hi, Hc. unfold register_session. apply wpx_call, wpx_call.
  unfold wpx, add_session.
  cbn [l_next_session set_l_os l_state create_session next_session_id]. split; [done|]. split.
  - pose proof (fresh_id _ _ (li_ids _ _ Hi) ltac:(lia)) as Hf. unfold idents in Hf.
    rewrite lookup_fmap in Hf. by destruct (sessions w !! _).
  - eexists. split; [reflexivity|]. done.
Qed.

(** [CreateSession] adds one session, of the caller's user, under a fresh id. *)
Lemma create_session_adds a seat w :
  login_ok w → l_next_session w < U64_MAX → choose_seat (ca_seat_id a) (l_state w) = Ok seat →
  wpx False (manager_create_session true a) (λ r w',
    let id := to_string (l_next_session w) in
    r = Ok (id, session_object_path id, path_for (ca_uid a), default "" seat, ca_vtnr a, false) ∧
    sessions w !! id = None ∧
    ∃ s, sessions w' = <[id := s]> (sessions w) ∧ ss_uid s = ca_uid a ∧ ss_seat s = seat) w.
Proof.
  intros Hw Hlt Hseat. unfold manager_create_session, get_state. apply wpx_gets. rewrite Hseat.
  apply wpx_gets. destruct (default _ _) as [name gid]. apply wpx_bind.
  eapply wpx_mono; [apply (wpx_and _ _ _ _ (cancel_cleanup_ok _ w Hw) (spares_cancel_cleanup _ w))|].
  intros [] w1 [[Hw1 Hn1] Hs1]. apply wpx_bind.
  eapply wpx_mono; [apply register_session_adds; [done|by rewrite Hn1]|].
  intros id w2 (-> & Hfresh & s & Hs2 & Hu & Hk). rewrite Hn1, Hs1 in *. apply wpx_gets.
  apply wpx_steady; [apply steady_ensure|]. intros _ w3 [H3 _].
  apply wpx_steady; [apply steady_place_leader|]. intros _ w4 [H4 _].
  apply wpx_steady.
  { steady_leaf. }
  intros _ w5 [H5 _]. apply wpx_steady; [apply steady_register_objects|]. intros _ w6 [H6 _].
  unfold object_path. rewrite (object_path_accepts (session_object_path _)).
  - split; [done|]. split; [done|]. exists s. rewrite H6, H5, H4, H3. done.
  - apply (valid_login_path "session"); [done|apply systemd_escape_chars].
Qed.

(** [ReleaseSession] removes the session and no other. *)
Lemma release_session_removes id w :
  is_Some (sessions w !! id) →
  wpx False (release_session id) (λ r w', r = Ok () ∧ dom (sessions w') = dom (sessions w) ∖ {[id]}) w.
Proof.
  intros [s Hs]. unfold release_session, get_state. apply wpx_gets. rewrite bool_decide_true by (by eexists).
  apply wpx_bind. unfold finalize_session_removal, get_state. apply wpx_gets. rewrite Hs.
  apply wpx_modify.
  match goal with |- wpx _ ?m _ _ => assert (spares m) as Hm end.
  { apply spares_bind; [apply spares_steady, steady_remove_if_exists|]. intros [].
    apply spares_bind; [apply spares_schedule_cleanup|]. intros [].
    apply spares_bind; [by apply spares_steady|]. intros st. apply spares_steady.
    destruct (ss_seat s); [|apply steady_ret]. destruct (ss_active s); [|apply steady_ret].
    apply steady_bind; [steady_leaf|]. intros []. steady_leaf. }
  eapply wpx_mono; [apply Hm|]. intros [] w' Hw'. split; [done|]. rewrite Hw'. cbn.
  pose proof (fmap_remove (λ _, ()) id (l_state w) ltac:(done)) as Hrem.
  apply (f_equal dom) in Hrem. by rewrite dom_fmap_L, dom_delete_L, dom_fmap_L in Hrem.
Qed.

(** *** Variables *)

Lemma int_byte_cases c : is_int_byte c = true → is_ascii c = true ∧ Ascii.eqb Ascii.zero c = false.
Proof.
  intros Hc%int_byte_plain. unfold plain_byte in Hc. apply andb_true_iff in Hc as [H1 H2].
  apply Z.leb_le in H1, H2. unfold is_ascii, byte_of. split; [apply Z.ltb_lt; lia|].
  apply Ascii.eqb_neq. intros <-. cbn in H1. lia.
Qed.

Lemma int_bytes n : str_all is_int_byte (to_string n) = true.
Proof. destruct (to_string_int_bytes n) as (c & r & -> & H & _). exact H. Qed.

Lemma no_nul_int n : has_nul (to_string n) = false.
Proof.
  pose proof (int_bytes n) as Hb. revert Hb. generalize (to_string n). intros s.
  induction s as [|c s IH]; intros Hs; [done|]. cbn in Hs. apply andb_true_iff in Hs as [Hc Hs].
  rewrite has_nul_cons, IH by done. by destruct (int_byte_cases c Hc) as [_ ->].
Qed.

Lemma lossy_int n : from_utf8_lossy (to_string n) = to_string n.
Proof.
  apply lossy_valid, ascii_valid. eapply str_all_impl; [|apply int_bytes].
  intros c Hc. by apply int_byte_cases.
Qed.

Lemma set_pam_env_lookup name value h k :
  (∀ kv, ph_accepts h kv = true) →
  (∀ kv, ph_accepts (set_pam_env name value h) kv = true) ∧
  ph_env (set_pam_env name value h) !! k =
    if bool_decide (k = name ∧ has_nul (name ++ "=" ++ value) = false) then Some value else ph_env h !! k.
Proof.
  intros Ha. unfold set_pam_env. rewrite Ha. destruct (has_nul _) eqn:E.
  - rewrite bool_decide_false; [done|]. by intros [_ ?].
  - split; [done|]. cbn. case_bool_decide as Hk.
    + destruct Hk as [-> _]. apply lookup_insert_eq.
    + apply lookup_insert_ne. intros ->. by apply Hk.
Qed.

(** A variable set later under another name changes nothing. *)
Lemma set_pam_env_other name value h k v :
  k ≠ name → ph_env h !! k = Some v → ph_env (set_pam_env name value h) !! k = Some v.
Proof.
  intros Hk Hv. unfold set_pam_env. destruct (has_nul _); [done|]. destruct (ph_accepts h _); [|done].
  cbn. by rewrite lookup_insert_ne.
Qed.

Lemma export_session_env a id path uid seat vtnr h :
  (∀ kv, ph_accepts h kv = true) →
  let h' := export_session a (to_string id, path, path_for uid, seat, vtnr, false) h in
  ph_env h' !! "XDG_SESSION_ID" = Some (to_string id) ∧
  ph_env h' !! "XDG_RUNTIME_DIR" = Some (path_for uid).
Proof.
  intros Ha. set (h1 := set_pam_env "XDG_SESSION_ID" (to_string id) h).
  destruct (set_pam_env_lookup "XDG_SESSION_ID" (to_string id) h "XDG_SESSION_ID" Ha) as [Ha1 Hid].
  rewrite bool_decide_true in Hid by (split; [done|]; rewrite !has_nul_app, no_nul_int; done).
  destruct (set_pam_env_lookup "XDG_RUNTIME_DIR" (path_for uid) h1 "XDG_RUNTIME_DIR" Ha1) as [_ Hdir].
  rewrite bool_decide_true in Hdir
    by (split; [done|]; unfold path_for; rewrite !has_nul_app, no_nul_int; done).
  unfold export_session. cbn zeta. fold h1.
  split; repeat case_match; repeat (apply set_pam_env_other; [done|]); done.
Qed.

(** C8: A login through the PAM module, with the login manager behind the bus, adds exactly
    one session of that user under a fresh id (on seat0, also for a remote login) and
    exports its id and runtime directory; the close hook releases exactly that session. *)
Theorem pam_session_lifecycle args h w user uid :
  login_ok w → l_next_session w < U64_MAX → is_Some (ls_seats (l_state w) !! "seat0") →
  (∀ i, (ph_get_item h i).1 = PAM_SUCCESS) → get_item PAM_USER h = Ok (Some user) →
  lookup_uid user h = Some uid → (∀ kv, ph_accepts h kv = true) →
  ∃ id s h1 w1 w2,
    do_open_session (B := logind_bus) args h w = (Ok (), h1, w1) ∧
    sessions w !! id = None ∧ sessions w1 = <[id := s]> (sessions w) ∧
    ss_uid s = uid ∧ ss_seat s = Some "seat0" ∧
    ph_env h1 !! "XDG_SESSION_ID" = Some id ∧ ph_env h1 !! "XDG_RUNTIME_DIR" = Some (path_for uid) ∧
    do_close_session (B := logind_bus) h1 w1 = (Ok (), w2) ∧ dom (sessions w2) = dom (sessions w).
Proof.
  intros Hw Hlt Hseat Hitems Huser Huid Hacc.
  assert (∀ i, ∃ v, get_item i h = Ok v) as Hget.
  { intros i. unfold get_item. specialize (Hitems i). destruct (ph_get_item h i) as [rc p]. cbn in Hitems.
    rewrite Hitems. eauto. }
  destruct (Hget PAM_SERVICE) as [service E1], (Hget PAM_TTY) as [tty E2], (Hget PAM_RHOST) as [rhost E3],
    (Hget PAM_RUSER) as [ruser E4], (Hget PAM_XDISPLAY) as [display E5].
  set (a := session_request_of user (default "" service) (default "" tty) (default "" rhost)
              (default "" ruser) (default "" display) uid args h).
  assert (ca_uid a = uid ∧ choose_seat (ca_seat_id a) (l_state w) = Ok (Some "seat0")) as [Hau Has].
  { unfold a, session_request_of. destruct (classify_tty _ _) as [[vtnr tc] d]. cbn. split; [done|].
    unfold choose_seat. destruct (_ || _); by rewrite (bool_decide_true _ Hseat). }
  destruct (wpx_returns _ _ _ (create_session_adds a _ w Hw Hlt Has)) as (r & w1 & Hr & -> & Hf & s & Hs & Hsu & Hk).
  set (id := to_string (l_next_session w)) in *.
  set (rep := (id, session_object_path id, path_for (ca_uid a), default "" (Some "seat0"), ca_vtnr a, false)) in *.
  destruct (export_session_env a (l_next_session w) (session_object_path id) (ca_uid a)
    (default "" (Some "seat0")) (ca_vtnr a) h Hacc) as [Hid Hdir]. fold id rep in Hid, Hdir.
  assert (is_Some (sessions w1 !! id)) as Hin by (rewrite Hs, lookup_insert_eq; eauto).
  destruct (wpx_returns _ _ _ (release_session_removes id w1 Hin)) as (r & w2 & Hrel & -> & Hdom).
  exists id, s, (export_session a rep h), w1, w2. split_and!; try done; [|congruence|congruence| |].
  - unfold do_open_session. rewrite Huser, E1, E2, E3, E4, E5, Huid. fold a. cbn. by rewrite Hr.
  - unfold do_close_session, get_env. rewrite Hid. cbn. unfold id. rewrite lossy_int. fold id.
    destruct (bool_decide (id = "")) eqn:Eid; [|by rewrite Hrel].
    apply bool_decide_eq_true in Eid. exfalso.
    destruct (to_string_nonneg (l_next_session w)) as (c & t & Hc & _); [destruct Hw as [_ Hw]; cbn in Hw; lia|].
    unfold id in Eid. by rewrite Hc in Eid.
  - rewrite Hdom, Hs, dom_insert_L. apply not_elem_of_dom in Hf. set_solver.
Qed.
End together.

(** A console login and its end. *)
Definition console_login : pam_handle := {|
  ph_get_item i := (0, if i =? PAM_USER then Some "alice" else if i =? PAM_TTY then Some "tty2" else None);
  ph_env := ∅; ph_accepts _ := true; ph_getpwnam n := if bool_decide (n = "alice") then Some 1000 else None;
  ph_pid := 812; ph_log := [] |}.

Lemma pam_session_lifecycle_witness :
  ∃ id h1 w1, @do_open_session (@logind_bus demo_os spec_zpath) ModuleArgs_default console_login
      (demo_login (create_seat0 (with_config LogindConfig_default)) 1) = (Ok (), h1, w1) ∧
    ph_env h1 !! "XDG_SESSION_ID" = Some id.
Proof.
  destruct (@pam_session_lifecycle demo_os spec_zpath _ ModuleArgs_default console_login
    (demo_login (create_seat0 (with_config LogindConfig_default)) 1) "alice" 1000)
    as (id & s & h1 & w1 & w2 & Hopen & _ & _ & _ & _ & Hid & _).
  - split; [split; [apply login_inv_start|done]|cbn; lia].
  - vm_compute. reflexivity.
  - eexists. vm_compute. reflexivity.
  - reflexivity.
  - vm_compute. reflexivity.
  - vm_compute. reflexivity.
  - reflexivity.
  - exists id, h1, w1. split; [exact Hopen|exact Hid].
Defined.
