(* ===== verification/UnitTests.v ===== *)
(** * The unit tests of dynamod-svmgr, on the model

    The crate's own tests, run on the definitions of this development: each test is a
    computation that fails where the test would panic and otherwise says whether its
    assertions hold.  A test that parses TOML starts from the value its text stands for.
    Tests over hash containers are run under two iteration orders.

    Left out are the tests of a real file system (hierarchy.rs, apply_limits) and of real
    processes and ports (readiness.rs, but for the first), and the two that only test the TOML library
    (test_parse_example_service, test_parse_supervisor). *)

From S2P Require Import Prelude RustStr Config Graph Cycle Frontier Startup Intensity Tree Strategy.
From S2P Require Import World Cgroup Namespace StopOrder Shutdown Readiness.

#[local] Open Scope string_scope.
#[local] Open Scope Z_scope.

(** A test: [None] when it panics. *)
Definition passes (t : option bool) : bool := bool_decide (t = Some true).

Declare Scope test_scope.
Notation "a == b" := (bool_decide (a = b)) (at level 70, no associativity) : test_scope.
Notation "x 'isin' X" := (bool_decide (x ∈ X)) (at level 70, no associativity) : test_scope.
Open Scope test_scope.

Definition ok_or_panic {A E} (r : result A E) : option A := match r with Ok a => Some a | Err _ => None end.

Section unit_tests.
Context {HO : HashOrder}.

(** ** dependency/graph.rs *)

Definition make_service (name : string) (requires after : list string) : ServiceDef :=
  dep_service name requires after.

Definition test_simple_dependency : option bool :=
  graph ← build [make_service "a" [] []; make_service "b" ["a"] []];
  Some (("a" isin dependencies_of graph "b") && ("b" isin dependents_of graph "a") &&
    (dependencies_of graph "a" == ∅)).

Definition test_diamond_dependency : option bool :=
  graph ← build [make_service "a" [] []; make_service "b" ["a"] []; make_service "c" ["a"] [];
    make_service "d" ["b"; "c"] []];
  Some ((size (dependencies_of graph "d") == 2%nat) && ("b" isin dependencies_of graph "d") &&
    ("c" isin dependencies_of graph "d") && (size (dependencies_of graph "a") == 0%nat)).

Definition test_unmet_count : option bool :=
  graph ← build [make_service "a" [] []; make_service "b" ["a"] []; make_service "c" ["a"; "b"] []];
  Some ((unmet_count graph "a" ∅ == 0%nat) && (unmet_count graph "b" ∅ == 1%nat) &&
    (unmet_count graph "c" ∅ == 2%nat) &&
    let ready : gset string := {["a"]} in
    (unmet_count graph "b" ready == 0%nat) && (unmet_count graph "c" ready == 1%nat)).

Definition test_unknown_deps_ignored : option bool :=
  graph ← build [make_service "a" ["nonexistent"] []];
  Some (dependencies_of graph "a" == ∅).

(** ** dependency/cycle.rs *)

Definition cycle_service (name : string) (requires : list string) : ServiceDef :=
  dep_service name requires [].

Definition accepted (r : result unit CycleError) : bool := match r with Ok _ => true | Err _ => false end.

Definition test_no_cycles : option bool :=
  graph ← build [cycle_service "a" []; cycle_service "b" ["a"]; cycle_service "c" ["b"]];
  cycles ← detect_cycles graph;
  r ← validate_no_cycles graph;
  Some ((cycles == []) && accepted r).

Definition test_simple_cycle : option bool :=
  graph ← build [cycle_service "a" ["b"]; cycle_service "b" ["a"]];
  cycles ← detect_cycles graph;
  r ← validate_no_cycles graph;
  Some (negb (cycles == []) && negb (accepted r)).

Definition test_three_node_cycle : option bool :=
  graph ← build [cycle_service "a" ["c"]; cycle_service "b" ["a"]; cycle_service "c" ["b"]];
  cycles ← detect_cycles graph;
  Some (negb (cycles == [])).

Definition test_diamond_no_cycle : option bool :=
  graph ← build [cycle_service "a" []; cycle_service "b" ["a"]; cycle_service "c" ["a"];
    cycle_service "d" ["b"; "c"]];
  cycles ← detect_cycles graph;
  Some (cycles == []).

(** ** dependency/frontier.rs *)

Definition frontier_service (name : string) (requires after : list string) : ServiceDef :=
  dep_service name requires after.

Definition test_independent_services_all_ready : option bool :=
  graph ← build [frontier_service "a" [] []; frontier_service "b" [] []; frontier_service "c" [] []];
  let '(batch, _) := take_ready (frontier_new graph) in
  Some (length batch == 3%nat).

Definition test_linear_chain : option bool :=
  graph ← build [frontier_service "a" [] []; frontier_service "b" ["a"] []; frontier_service "c" ["b"] []];
  let '(batch1, frontier) := take_ready (frontier_new graph) in
  let '(batch2, frontier) := take_ready (mark_ready "a" graph frontier) in
  let '(batch3, frontier) := take_ready (mark_ready "b" graph frontier) in
  let frontier := mark_ready "c" graph frontier in
  Some ((batch1 == ["a"]) && (batch2 == ["b"]) && (batch3 == ["c"]) && is_complete frontier).

(** The batch of [b] and [c] is compared as a set, where the test sorts it. *)
Definition test_diamond_parallelism : option bool :=
  graph ← build [frontier_service "a" [] []; frontier_service "b" ["a"] []; frontier_service "c" ["a"] [];
    frontier_service "d" ["b"; "c"] []];
  let '(batch1, frontier) := take_ready (frontier_new graph) in
  let '(batch2, frontier) := take_ready (mark_ready "a" graph frontier) in
  let '(none, frontier) := take_ready (mark_ready "b" graph frontier) in
  let '(batch3, frontier) := take_ready (mark_ready "c" graph frontier) in
  let frontier := mark_ready "d" graph frontier in
  Some ((batch1 == ["a"]) && (length batch2 == 2%nat) && ("b" isin batch2) && ("c" isin batch2) &&
    (none == []) && (batch3 == ["d"]) && is_complete frontier).

Definition test_failure_blocks_requires_deps : option bool :=
  graph ← build [frontier_service "a" [] []; frontier_service "b" ["a"] []; frontier_service "c" ["b"] []];
  let '(_, frontier) := take_ready (frontier_new graph) in
  frontier ← mark_failed "a" graph frontier;
  Some (("b" isin blocked_services frontier) && ("c" isin blocked_services frontier) &&
    ((take_ready frontier).1 == [])).

Definition test_failure_of_after_dep_does_not_block : option bool :=
  graph ← build [frontier_service "a" [] []; frontier_service "b" [] ["a"]];
  let '(batch1, frontier) := take_ready (frontier_new graph) in
  frontier ← mark_failed "a" graph frontier;
  let '(batch2, _) := take_ready frontier in
  Some ((batch1 == ["a"]) && (batch2 == ["b"])).

Definition test_mixed_deps_partial_block : option bool :=
  graph ← build [frontier_service "a" [] []; frontier_service "b" ["a"] []; frontier_service "c" ["a"] [];
    frontier_service "d" ["b"] ["c"]];
  let '(_, frontier) := take_ready (frontier_new graph) in
  let '(_, frontier) := take_ready (mark_ready "a" graph frontier) in
  frontier ← mark_failed "c" graph frontier;
  let not_blocked := negb ("d" isin blocked_services frontier) in
  let '(batch, _) := take_ready (mark_ready "b" graph frontier) in
  Some (not_blocked && (batch == ["d"])).

(** ** shutdown.rs *)

(** The signal and the timeout the test writes out are the defaults but for the 5 s. *)
Definition shutdown_service (name : string) (requires : list string) : ServiceDef :=
  let d := dep_service name requires [] in
  {| sd_service := sd_service d; sd_restart := sd_restart d; sd_readiness := sd_readiness d;
     sd_dependencies := sd_dependencies d; sd_cgroup := sd_cgroup d; sd_namespace := sd_namespace d;
     sd_shutdown := {| sh_stop_signal := "SIGTERM"; sh_stop_timeout := "5s"; sh_stop_exec := None |} |}.

Definition stops_before (a b : string) (order : list string) : option bool :=
  i ← position (String.eqb a) order;
  j ← position (String.eqb b) order;
  Some (i <? j)%nat.

Definition test_reverse_topo_order_linear : option bool :=
  graph ← build [shutdown_service "a" []; shutdown_service "b" ["a"]; shutdown_service "c" ["b"]];
  order ← compute_reverse_topo_order graph;
  cb ← stops_before "c" "b" order; ba ← stops_before "b" "a" order;
  Some (cb && ba).

Definition test_reverse_topo_order_diamond : option bool :=
  graph ← build [shutdown_service "a" []; shutdown_service "b" ["a"]; shutdown_service "c" ["a"];
    shutdown_service "d" ["b"; "c"]];
  order ← compute_reverse_topo_order graph;
  db ← stops_before "d" "b" order; dc ← stops_before "d" "c" order;
  ba ← stops_before "b" "a" order; ca ← stops_before "c" "a" order;
  Some (db && dc && ba && ca).

Definition test_reverse_topo_independent : option bool :=
  graph ← build [shutdown_service "x" []; shutdown_service "y" []; shutdown_service "z" []];
  order ← compute_reverse_topo_order graph;
  Some (length order == 3%nat).

Definition dependency_tests : list (option bool) :=
  [test_simple_dependency; test_diamond_dependency; test_unmet_count; test_unknown_deps_ignored;
   test_no_cycles; test_simple_cycle; test_three_node_cycle; test_diamond_no_cycle;
   test_independent_services_all_ready; test_linear_chain; test_diamond_parallelism;
   test_failure_blocks_requires_deps; test_failure_of_after_dep_does_not_block;
   test_mixed_deps_partial_block; test_reverse_topo_order_linear; test_reverse_topo_order_diamond;
   test_reverse_topo_independent].
End unit_tests.

Theorem dependency_tests_pass :
  Forall (λ HO, forallb passes (@dependency_tests HO) = true) [elements_order; reverse_order].
Proof. repeat constructor; vm_compute; reflexivity. Qed.

(** ** supervisor/intensity.rs *)

(** The assertions on successive restarts, and the ring after them. *)
Fixpoint record_each (nows : list (Z * bool)) (i : RestartIntensity) : bool * RestartIntensity :=
  match nows with
  | [] => (true, i)
  | (now, expected) :: nows =>
      let '(r, i) := record_restart_at now i in
      let '(ok, i) := record_each nows i in
      ((r == expected) && ok, i)
  end.

Definition test_under_threshold (now : Z) : option bool :=
  let '(ok, intensity) := record_each [(now, false); (now, false); (now, false)]
                            (intensity_new 3 (from_secs 60)) in
  Some (ok && (current_count intensity == 3%nat)).

Definition test_exceeds_threshold (now : Z) : option bool :=
  let '(ok, _) := record_each [(now, false); (now, false); (now, false); (now, true)]
                    (intensity_new 3 (from_secs 60)) in
  Some ok.

Definition test_old_restarts_evicted (t0 : Z) : option bool :=
  let '(ok, intensity) := record_each [(t0, false); (t0, false)] (intensity_new 2 (from_secs 10)) in
  let t1 := t0 + from_secs 15 in
  let '(ok', intensity) := record_each [(t1, false)] intensity in
  Some (ok && ok' && (current_count intensity == 1%nat)).

Definition test_reset (now : Z) : option bool :=
  let intensity := (record_restart_at now (record_restart_at now (intensity_new 2 (from_secs 60))).2).2 in
  Some ((current_count intensity == 2%nat) && (current_count (reset intensity) == 0%nat)).

(** ** supervisor/tree.rs *)

Definition make_test_tree : option SupervisorTree :=
  let intensity := intensity_new 5 (from_secs 60) in
  let tree := tree_new "root" OneForOne intensity in
  tree ← ok_or_panic (add_supervisor "network" "root" OneForAll intensity tree);
  ok_or_panic (add_supervisor "data" "root" RestForOne intensity tree).

Definition test_tree_structure : option bool :=
  tree ← make_test_tree;
  Some ((root_id tree == "root") && bool_decide (is_Some (get_supervisor tree "root")) &&
    bool_decide (is_Some (get_supervisor tree "network")) &&
    bool_decide (is_Some (get_supervisor tree "data")) &&
    (children_of tree "root" == ["network"; "data"])).

Definition test_parent_lookup : option bool :=
  tree ← make_test_tree;
  Some ((parent_of tree "network" == Some "root") && (parent_of tree "data" == Some "root") &&
    (parent_of tree "root" == None)).

Definition test_duplicate_node_rejected : option bool :=
  tree ← make_test_tree;
  Some (match add_supervisor "network" "root" OneForOne (intensity_new 5 (from_secs 60)) tree with
        | Err _ => true
        | Ok _ => false
        end).

Definition test_pid_registration : option bool :=
  tree ← make_test_tree;
  tree ← ok_or_panic (add_worker (minimal_service "svc1" ["/bin/true"]) "network" tree);
  let tree := register_pid "svc1" 1234 tree in
  let found := worker_for_pid tree 1234 == Some "svc1" in
  let '(removed, tree) := unregister_pid 1234 tree in
  Some (found && (removed == Some "svc1") && (worker_for_pid tree 1234 == None)).

(** ** supervisor/strategy.rs *)

(** A service with the given command, supervisor and restart policy. *)
Definition policy_service (name : string) (exec : list string) (supervisor : string)
    (policy : RestartPolicy) : ServiceDef :=
  let d := minimal_service name exec in
  let s := sd_service d in
  let r := sd_restart d in
  {| sd_service := {| ss_name := name; ss_supervisor := supervisor; ss_exec := exec;
       ss_workdir := ss_workdir s; ss_service_type := ss_service_type s;
       ss_environment := ss_environment s; ss_environment_file := ss_environment_file s;
       ss_user := ss_user s |};
     sd_restart := {| rs_policy := policy; rs_delay := rs_delay r; rs_max_restarts := rs_max_restarts r;
       rs_max_restart_window := rs_max_restart_window r |};
     sd_readiness := sd_readiness d; sd_dependencies := sd_dependencies d; sd_cgroup := sd_cgroup d;
     sd_namespace := sd_namespace d; sd_shutdown := sd_shutdown d |}.

Definition add_workers (supervisor : string) (names : list string) (tree : SupervisorTree) : option SupervisorTree :=
  fold_opt (λ tree name,
    ok_or_panic (add_worker (policy_service name ["/bin/true"] supervisor Permanent) supervisor tree)) tree names.

Definition build_test_tree : option SupervisorTree :=
  let intensity := intensity_new 5 (from_secs 60) in
  let tree := tree_new "root" OneForOne intensity in
  tree ← ok_or_panic (add_supervisor "group-all" "root" OneForAll intensity tree);
  tree ← ok_or_panic (add_supervisor "group-rest" "root" RestForOne intensity tree);
  tree ← add_workers "group-all" ["svc-a"; "svc-b"; "svc-c"] tree;
  tree ← add_workers "group-rest" ["svc-x"; "svc-y"; "svc-z"] tree;
  Some (foldl (λ tree name, update_worker (set_state Running) name tree) tree
    ["svc-a"; "svc-b"; "svc-c"; "svc-x"; "svc-y"; "svc-z"]).

Definition exit_with (code : Z) : ExitInfo := {| exit_code := Some code; signal := None |}.

Definition test_one_for_one (now : Z) : option bool :=
  tree ← build_test_tree;
  tree ← ok_or_panic (add_worker (policy_service "direct" ["/bin/true"] default_supervisor Permanent) "root" tree);
  let '(action, _) := apply_strategy now tree "root" "direct" (exit_with 1) in
  Some (negb (supervisor_failed action) && (to_stop action == []) && (to_start action == ["direct"])).

Definition test_one_for_all (now : Z) : option bool :=
  tree ← build_test_tree;
  let '(action, _) := apply_strategy now tree "group-all" "svc-b" (exit_with 1) in
  Some (negb (supervisor_failed action) && (to_stop action == ["svc-c"; "svc-b"; "svc-a"]) &&
    (to_start action == ["svc-a"; "svc-b"; "svc-c"])).

Definition test_rest_for_one (now : Z) : option bool :=
  tree ← build_test_tree;
  let '(action, _) := apply_strategy now tree "group-rest" "svc-y" (exit_with 1) in
  Some (negb (supervisor_failed action) && (to_stop action == ["svc-z"; "svc-y"]) &&
    (to_start action == ["svc-y"; "svc-z"])).

Definition test_temporary_not_restarted (now : Z) : option bool :=
  tree ← build_test_tree;
  tree ← ok_or_panic (add_worker (policy_service "temp-svc" ["/bin/true"] default_supervisor Temporary) "root" tree);
  let '(action, _) := apply_strategy now tree "root" "temp-svc" (exit_with 1) in
  Some ((to_start action == []) && (to_stop action == [])).

Definition test_transient_normal_exit_not_restarted (now : Z) : option bool :=
  tree ← build_test_tree;
  tree ← ok_or_panic (add_worker (policy_service "trans-svc" ["/bin/true"] default_supervisor Transient) "root" tree);
  let '(action, _) := apply_strategy now tree "root" "trans-svc" (exit_with 0) in
  Some (to_start action == []).

Definition test_transient_failure_restarted (now : Z) : option bool :=
  tree ← build_test_tree;
  tree ← ok_or_panic (add_worker (policy_service "trans-svc2" ["/bin/true"] default_supervisor Transient) "root" tree);
  let '(action, _) := apply_strategy now tree "root" "trans-svc2" (exit_with 1) in
  Some (to_start action == ["trans-svc2"]).

Definition test_intensity_exceeded_marks_abandoned (now : Z) : option bool :=
  let tree := tree_new "root" OneForOne (intensity_new 2 (from_secs 60)) in
  tree ← ok_or_panic (add_worker (policy_service "crasher" ["/bin/false"] default_supervisor Permanent) "root" tree);
  let '(a1, tree) := apply_strategy now tree "root" "crasher" (exit_with 1) in
  let '(a2, tree) := apply_strategy now tree "root" "crasher" (exit_with 1) in
  let '(a3, tree) := apply_strategy now tree "root" "crasher" (exit_with 1) in
  Some (negb (supervisor_failed a1) && (to_start a1 == ["crasher"]) &&
    negb (supervisor_failed a2) && (to_start a2 == ["crasher"]) &&
    supervisor_failed a3 && (to_start a3 == [])).

(** ** cgroup, config, namespace, process and signals *)

Definition empty_machine : script :=
  {| sc_clock := 0; sc_wait := []; sc_pids := []; sc_live := ∅; sc_history := []; sc_files := ∅ |}.

Definition test_service_path : option bool :=
  let root := "/tmp/dynamod-test-1/cgroup/dynamod" in
  hierarchy ← ok_or_panic (init_at (O := scripted) root (Some "/tmp/dynamod-test-1/cgroup") empty_machine).1;
  Some (service_path hierarchy "nginx" == join_path root "nginx").

Definition test_parse_bytes : option bool :=
  Some ((parse_bytes "512M" == to_string (512 * 1024 * 1024)) &&
    (parse_bytes "2G" == to_string (2 * 1024 * 1024 * 1024)) &&
    (parse_bytes "1024K" == to_string (1024 * 1024)) &&
    (parse_bytes "max" == "max") && (parse_bytes "1048576" == "1048576")).

Definition test_monitor_empty : option bool :=
  let '(events, _) := poll (O := scripted) (H := elements_order) empty_machine monitor_new in
  Some ((monitor_count monitor_new == 0%nat) && match events with [] => true | _ => false end).

Definition test_watch_unwatch : option bool :=
  let monitor := watch (O := scripted) "test-svc" "/tmp/nonexistent-cgroup" empty_machine monitor_new in
  Some ((monitor_count monitor == 1%nat) && (monitor_count (unwatch "test-svc" monitor) == 0%nat)).

Definition test_poll_nonexistent_path_no_panic : option bool :=
  let monitor := watch (O := scripted) "test-svc" "/tmp/nonexistent-cgroup-xyz" empty_machine monitor_new in
  let '(events, _) := poll (O := scripted) (H := elements_order) empty_machine monitor in
  Some (match events with [] => true | _ => false end).

Definition test_parse_duration : option bool :=
  Some ((parse_duration_secs "30s" == Some 30) && (parse_duration_secs "5m" == Some 300) &&
    (parse_duration_secs "1h" == Some 3600) && (parse_duration_secs "60" == Some 60)).

Definition test_validate_empty_exec : option bool :=
  let errors := validate_service (minimal_service "bad" []) in
  Some (existsb (λ e, match e with EmptyExec _ => true | _ => false end) errors).

Definition test_parse_namespace_flags : option bool :=
  let flags := parse_namespace_flags ["pid"; "mnt"; "net"] in
  Some (contains_flag flags CLONE_NEWPID && contains_flag flags CLONE_NEWNS &&
    contains_flag flags CLONE_NEWNET && negb (contains_flag flags CLONE_NEWUTS)).

Definition test_empty_namespaces : option bool := Some (parse_namespace_flags [] == 0).

Definition test_describe_namespaces : option bool :=
  let config enable := {| ns_enable := enable; ns_bind_mounts := []; ns_private_tmp := false;
    ns_protect_system := None |} in
  Some ((describe_namespaces (config ["pid"; "mnt"]) == "pid, mnt") &&
    (describe_namespaces (config []) == "none")).

Definition test_none_readiness_immediate : option bool :=
  let '(tracker, o) := tracker_new (K := scripted) {| rd_readiness_type := NoReadiness; rd_port := None;
    rd_check_exec := None; rd_timeout := "30s" |} "test" empty_machine in
  Some (is_immediate tracker &&
    match (check (K := scripted) tracker o).1 with Ready => true | _ => false end).

Definition test_parse_signal_names : option bool :=
  Some ((parse_signal "SIGTERM" == SIGTERM) && (parse_signal "SIGINT" == SIGINT) &&
    (parse_signal "SIGHUP" == SIGHUP) && (parse_signal "unknown" == SIGTERM)).

Definition timed_tests (now : Z) : list (option bool) :=
  [test_under_threshold now; test_exceeds_threshold now; test_old_restarts_evicted now; test_reset now;
   test_one_for_one now; test_one_for_all now; test_rest_for_one now; test_temporary_not_restarted now;
   test_transient_normal_exit_not_restarted now; test_transient_failure_restarted now;
   test_intensity_exceeded_marks_abandoned now].
Definition pure_tests : list (option bool) :=
  [test_tree_structure; test_parent_lookup; test_duplicate_node_rejected; test_pid_registration;
   test_service_path; test_parse_bytes; test_monitor_empty; test_watch_unwatch;
   test_poll_nonexistent_path_no_panic; test_parse_duration; test_validate_empty_exec;
   test_parse_namespace_flags; test_empty_namespaces; test_describe_namespaces;
   test_none_readiness_immediate; test_parse_signal_names].

(** At boot, and after a year. *)
Theorem unit_tests_pass :
  forallb passes pure_tests = true ∧
  Forall (λ now, forallb passes (timed_tests now) = true) [0; from_secs (365 * 24 * 3600)].
Proof. split; [|repeat constructor]; vm_compute; reflexivity. Qed.
