(* ===== verification/CrateTests.v ===== *)
(** * The unit tests of the other crates, on the model

    The tests of dynamod-common, dynamod-logd, dynamod-logind and pam_dynamod_logind, as in
    UnitTests.v.  The tests of the protocol are run with a serializer that numbers the
    messages of the tests, in place of MessagePack; the one test of the derived serializer
    of [ServiceStatus] is left out. *)

From S2P Require Import Prelude RustStr Types Protocol Monad LoginConfig LoginState LoginSys LoginPower.
From S2P Require Import LogStore LogRoll Pam UnitTests.

#[local] Open Scope string_scope.
#[local] Open Scope Z_scope.

(** ** dynamod-common/src/types.rs *)

Definition service_name_display : option bool :=
  let name := service_name_from "postgresql" in
  Some (service_name_to_string name == "postgresql").

Definition service_name_equality : option bool :=
  let a := service_name_from "sshd" in
  let b := {| service_name_0 := "sshd" |} in
  Some (a == b).

Definition service_name_from_string : option bool :=
  let name := service_name_from "test-service" in
  Some (service_name_0 name == "test-service").

(** A set as the list of its elements. *)
Definition service_name_hash_consistent : option bool :=
  let set := [service_name_from "sshd"] in
  Some ((service_name_from "sshd" isin set) && negb (service_name_from "nginx" isin set)).

Definition service_status_display_simple : option bool :=
  Some ((status_to_string Types.Stopped == "stopped") && (status_to_string Types.Starting == "starting") &&
    (status_to_string WaitingReady == "waiting-ready") && (status_to_string Types.Running == "running") &&
    (status_to_string Types.Stopping == "stopping") && (status_to_string Types.Abandoned == "abandoned")).

Definition service_status_display_failed_exit_code : option bool :=
  Some (status_to_string (Types.Failed (Some 1) None) == "failed(exit=1)").
Definition service_status_display_failed_signal : option bool :=
  Some (status_to_string (Types.Failed None (Some 9)) == "failed(signal=9)").
Definition service_status_display_failed_both : option bool :=
  Some (status_to_string (Types.Failed (Some 1) (Some 15)) == "failed(exit=1signal=15)").

Definition parses_as (s : string) (st : ServiceStatus) : option bool :=
  parsed ← ok_or_panic (status_from_str s); Some (parsed == st).

Definition all_pass (ts : list (option bool)) : option bool :=
  foldr (λ t acc, t ← t; acc ← acc; Some (t && acc)) (Some true) ts.

Definition service_status_from_str_simple : option bool :=
  all_pass [parses_as "stopped" Types.Stopped; parses_as "running" Types.Running;
    parses_as "starting" Types.Starting; parses_as "stopping" Types.Stopping;
    parses_as "waiting-ready" WaitingReady; parses_as "abandoned" Types.Abandoned].

Definition service_status_from_str_failed : option bool :=
  parses_as "failed(exit=1)" (Types.Failed (Some 1) None).

Definition service_status_from_str_unknown : option bool :=
  Some (match status_from_str "bogus" with Err _ => true | Ok _ => false end).

Definition service_status_display_roundtrip : option bool :=
  all_pass (map (λ st, parses_as (status_to_string st) st)
    [Types.Stopped; Types.Running; Types.Starting; Types.Stopping; WaitingReady; Types.Abandoned]).

(** ** dynamod-common/src/protocol.rs *)

Definition make_msg (body : MessageBody) : Message := {| m_id := 42; m_kind := Request; m_body := body |}.

Section protocol_tests.
Context {R : Rmp}.

(** [decode] of what [encode] gives, with the encoded bytes. *)
Definition through (msg : Message) : option (list Z * Message * nat) :=
  encoded ← ok_or_panic (encode msg);
  '(decoded, consumed) ← ok_or_panic (decode encoded);
  Some (encoded, decoded, consumed).

(** The body comes back. *)
Definition body_survives (msg : Message) : option bool :=
  '(_, decoded, _) ← through msg; Some (m_body decoded == m_body msg).

Definition encode_decode_roundtrip_heartbeat : option bool :=
  '(encoded, decoded, consumed) ← through (make_msg Heartbeat);
  Some ((take 2 encoded == MAGIC) && (consumed == length encoded) && (m_id decoded == 42) &&
    (m_body decoded == Heartbeat)).

Definition encode_decode_roundtrip_heartbeat_ack : option bool :=
  '(_, decoded, _) ← through {| m_id := 1; m_kind := Response 1; m_body := HeartbeatAck |};
  Some ((m_kind decoded == Response 1) && (m_body decoded == HeartbeatAck)).

Definition encode_decode_roundtrip_shutdown : option bool :=
  all_pass (map (λ kind, body_survives (make_msg (RequestShutdown kind)))
    [Protocol.Poweroff; Protocol.Reboot; Protocol.Halt]).

Definition encode_decode_roundtrip_service_ops : option bool :=
  body_survives (make_msg (MStartService "postgresql")).

Definition test_entries : list ServiceEntry :=
  [{| se_name := "sshd"; se_status := "running"; se_pid := Some 1234 |};
   {| se_name := "network"; se_status := "stopped"; se_pid := None |}].

Definition encode_decode_roundtrip_service_list : option bool :=
  '(_, decoded, _) ← through (make_msg (ServiceList test_entries));
  match m_body decoded with
  | ServiceList [e0; e1] => Some ((se_name e0 == "sshd") && (se_pid e0 == Some 1234) &&
      (se_name e1 == "network") && (se_pid e1 == None))
  | _ => None
  end.

Definition encode_decode_roundtrip_log_to_kmsg : option bool :=
  body_survives (make_msg (LogToKmsg 6 "hello from svmgr")).
Definition encode_decode_roundtrip_error : option bool :=
  body_survives (make_msg (Error "unknown service: foo")).

Definition answers (buf : list Z) (ok : DecodeError → bool) : option bool :=
  Some (match decode buf with Err e => ok e | Ok _ => false end).
Definition is_incomplete (e : DecodeError) : bool := match e with Incomplete => true | _ => false end.

Definition decode_incomplete_header : option bool := answers [0x44; 0x4D] is_incomplete.
Definition decode_empty : option bool := answers [] is_incomplete.
Definition decode_bad_magic : option bool :=
  answers [0xFF; 0xFF; 0x00; 0x00; 0x00; 0x00] (λ e, match e with BadMagic => true | _ => false end).
Definition decode_too_large : option bool :=
  let huge_len := MAX_MESSAGE_SIZE + 1 in
  answers ([0x44; 0x4D] ++ to_le_bytes huge_len)%list (λ e, match e with TooLarge _ => true | _ => false end).

Definition decode_incomplete_payload : option bool :=
  encoded ← ok_or_panic (encode (make_msg Heartbeat));
  answers (take (length encoded - 1) encoded) is_incomplete.

Definition wire_format_structure : option bool :=
  encoded ← ok_or_panic (encode (make_msg Heartbeat));
  let payload_len := from_le_bytes (byte_at encoded 2) (byte_at encoded 3) (byte_at encoded 4) (byte_at encoded 5) in
  Some ((byte_at encoded 0 == 0x44) && (byte_at encoded 1 == 0x4D) &&
    (Z.of_nat (length encoded) == HEADER_SIZE + payload_len)).

Definition decode_consumes_correct_bytes : option bool :=
  enc1 ← ok_or_panic (encode (make_msg Heartbeat));
  enc2 ← ok_or_panic (encode (make_msg HeartbeatAck));
  let combined := (enc1 ++ enc2)%list in
  '(decoded1, consumed1) ← ok_or_panic (decode combined);
  '(decoded2, consumed2) ← ok_or_panic (decode (drop consumed1 combined));
  Some ((consumed1 == length enc1) && (m_body decoded1 == Heartbeat) &&
    (consumed2 == length enc2) && (m_body decoded2 == HeartbeatAck)).

Definition encode_decode_all_message_kinds : option bool :=
  all_pass (map (λ kind,
      '(_, decoded, _) ← through {| m_id := 7; m_kind := kind; m_body := Ack |};
      Some (m_kind decoded == kind))
    [Request; Response 99; Event]).

Definition encode_decode_get_service_by_pid : option bool := body_survives (make_msg (GetServiceByPid 1234)).

Definition encode_decode_service_by_pid_response : option bool :=
  body_survives {| m_id := 10; m_kind := Response 9; m_body := ServiceByPid (Some "sshd") 1234 |}.

Definition protocol_tests : list (option bool) :=
  [encode_decode_roundtrip_heartbeat; encode_decode_roundtrip_heartbeat_ack;
   encode_decode_roundtrip_shutdown; encode_decode_roundtrip_service_ops;
   encode_decode_roundtrip_service_list; encode_decode_roundtrip_log_to_kmsg;
   encode_decode_roundtrip_error; decode_incomplete_header; decode_empty; decode_bad_magic;
   decode_too_large; decode_incomplete_payload; wire_format_structure; decode_consumes_correct_bytes;
   encode_decode_all_message_kinds; encode_decode_get_service_by_pid;
   encode_decode_service_by_pid_response].
End protocol_tests.

(** The messages of the tests, and the serializer that numbers them. *)
Definition test_messages : list Message :=
  (map make_msg [Heartbeat; HeartbeatAck; RequestShutdown Protocol.Poweroff; RequestShutdown Protocol.Reboot;
     RequestShutdown Protocol.Halt; MStartService "postgresql"; ServiceList test_entries;
     LogToKmsg 6 "hello from svmgr"; Error "unknown service: foo"; GetServiceByPid 1234] ++
   [{| m_id := 1; m_kind := Response 1; m_body := HeartbeatAck |};
    {| m_id := 7; m_kind := Request; m_body := Ack |}; {| m_id := 7; m_kind := Response 99; m_body := Ack |};
    {| m_id := 7; m_kind := Event; m_body := Ack |};
    {| m_id := 10; m_kind := Response 9; m_body := ServiceByPid (Some "sshd") 1234 |}])%list.
Definition numbering : Rmp := {|
  rmp_serialize m := match position (λ m', m == m') test_messages with
                     | Some i => Ok [Z.of_nat i; 0]
                     | None => Err "not in the tests"
                     end;
  rmp_from_slice p := match p with
                      | [i; _] => match test_messages !! Z.to_nat i with Some m => Ok m | None => Err "no message" end
                      | _ => Err "no number"
                      end |}.

(** ** dynamod-logd/src/storage.rs *)

Definition log_contains (name text : string) (files : gmap string string) : option bool :=
  content ← files !! name; Some (contains text content).

Definition test_append_and_recent : option bool :=
  let store := @log_new (clock_io 0) (1024 * 1024) ∅ start_time in
  let store := @append (clock_io 0) "test" "hello world" store in
  let store := @append (clock_io 0) "test" "second line" store in
  first ← log_contains "current.log" "hello world" (ld_files store);
  second ← log_contains "current.log" "second line" (ld_files store);
  Some ((map le_message (recent 10 (ld_store store)) == ["second line"; "hello world"]) && first && second).

Definition test_rotation : option bool :=
  let store := @log_new (clock_io 0) 50 ∅ start_time in
  let store := foldl (λ d i, @append (clock_io 0) "test"
    ("line number " ++ to_string (Z.of_nat i) ++ " with some padding") d) store (seq 0 10) in
  Some (1 <? size (ld_files store))%nat.

(** ** dynamod-logind and pam_dynamod_logind *)

Definition capability_bitmap_parsing : option bool :=
  let o : demo := {| dm_clock := 0; dm_next := 10; dm_dirs := ∅; dm_hup := ∅;
    dm_files := {["/tmp/bits" := "4000 10000000000000 0"]} |} in
  Some (@capability_has_bit demo_os "/tmp/bits" KEY_POWER o &&
    @capability_has_bit demo_os "/tmp/bits" KEY_SLEEP o &&
    negb (@capability_has_bit demo_os "/tmp/bits" 200 o)).

Definition classifier_recognizes_canonical_events : option bool :=
  let pwr := {| ev_type := EV_KEY; ev_code := KEY_POWER; ev_value := 1 |} in
  let lid_close := {| ev_type := EV_SW; ev_code := SW_LID; ev_value := 1 |} in
  let pwr_release := {| ev_type := EV_KEY; ev_code := KEY_POWER; ev_value := 0 |} in
  Some (match classify pwr, classify lid_close, classify pwr_release with
        | Some PowerButton, Some LidClosed, None => true
        | _, _, _ => false
        end).

Definition paths_match_systemd_layout : option bool :=
  Some ((session_scope 1000 "1" == "/sys/fs/cgroup/user.slice/user-1000.slice/session-1.scope") &&
    (session_scope_relative 1000 "1" == "/user.slice/user-1000.slice/session-1.scope") &&
    (user_slice 0 == "/sys/fs/cgroup/user.slice/user-0.slice")).

Definition parses_handle_actions : option bool :=
  let pad := "            " in
  let cfg := merge (nl ++ pad ++ "# comment" ++ nl ++ pad ++ "[Login]" ++ nl ++
    pad ++ "HandleLidSwitch=ignore" ++ nl ++ pad ++ "HandlePowerKey=poweroff" ++ nl ++
    pad ++ "HandleSuspendKey=hybrid-sleep" ++ nl ++ pad) LogindConfig_default in
  Some ((handle_lid_switch cfg == Ignore) && (handle_power_key cfg == LoginConfig.Poweroff) &&
    (handle_suspend_key cfg == HybridSleep)).

Definition parses_durations : option bool :=
  Some ((parse_duration_sec "5" == Some 5) && (parse_duration_sec "30s" == Some 30) &&
    (parse_duration_sec "2min" == Some 120) && (parse_duration_sec "1h" == Some 3600) &&
    (parse_duration_sec "garbage" == None)).

Definition parses_bools : option bool :=
  Some ((parse_bool "yes" == Some true) && (parse_bool "NO" == Some false) &&
    (parse_bool "on" == Some true) && (parse_bool "maybe" == None)).

Definition defaults_preserved_on_unknown_value : option bool :=
  let cfg := merge ("HandleLidSwitch=banana" ++ nl ++ "NAutoVTs=4" ++ nl) LogindConfig_default in
  Some ((handle_lid_switch cfg == Suspend) && (n_auto_vts cfg == 4)).

Definition unknown_keys_are_ignored : option bool :=
  let cfg := merge ("NotARealKey=blah" ++ nl ++ "HandleLidSwitch=ignore" ++ nl) LogindConfig_default in
  Some (handle_lid_switch cfg == Ignore).

Definition inhibit_what_matches_systemd : option bool :=
  Some ((inhibit_what LoginConfig.Poweroff == "shutdown") && (inhibit_what Suspend == "sleep") &&
    (inhibit_what Ignore == "")).

Definition path_for_renders_uid : option bool :=
  Some ((path_for 1000 == "/run/user/1000") && (path_for 0 == "/run/user/0")).

Definition tty_classifier_handles_common_inputs : option bool :=
  Some ((classify_tty "tty1" "" == (1, "tty1", "")) && (classify_tty "tty7" "" == (7, "tty7", "")) &&
    (classify_tty "/dev/tty2" "" == (2, "tty2", "")) && (classify_tty ":0" "" == (0, "", ":0")) &&
    (classify_tty "" ":1" == (0, "", ":1")) && (classify_tty "pts/3" "" == (0, "pts/3", ""))).

Definition type_inference : option bool :=
  Some ((infer_type ":0" "tty1" == "x11") && (infer_type "" "tty1" == "tty") &&
    (infer_type "" "" == "unspecified")).

Definition crate_tests : list (option bool) :=
  [service_name_display; service_name_equality; service_name_from_string; service_name_hash_consistent;
   service_status_display_simple; service_status_display_failed_exit_code;
   service_status_display_failed_signal; service_status_display_failed_both;
   service_status_from_str_simple; service_status_from_str_failed; service_status_from_str_unknown;
   service_status_display_roundtrip; test_append_and_recent; test_rotation; capability_bitmap_parsing;
   classifier_recognizes_canonical_events; paths_match_systemd_layout; parses_handle_actions;
   parses_durations; parses_bools; defaults_preserved_on_unknown_value; unknown_keys_are_ignored;
   inhibit_what_matches_systemd; path_for_renders_uid; tty_classifier_handles_common_inputs;
   type_inference].

Theorem crate_tests_pass :
  forallb passes (@protocol_tests numbering) = true ∧ forallb passes crate_tests = true.
Proof. split; vm_compute; reflexivity. Qed.
